(* ===== verification/_CoqProject ===== *)
-Q . S2P
Prelude.v
CNum.v
Machine.v
Signals.v
Trace.v
Log.v
Kill.v
Stderr.v
Timing.v
Wait.v
Preload.v
Conn.v
Watch.v
Run.v
Args.v
Steady.v
Fds.v
Env.v
EnvSpec.v
MainLogic.v
Types.v
Lifecycle.v
Double.v
Detector.v
Compose.v
Api.v
ApiClock.v
ApiSession.v
ApiRace.v
ApiSim.v
ApiTests.v
