(* ===== verification/Prelude.v ===== *)
(** * A verification library for autossh

    autossh supervises one ssh client: it starts ssh, watches it, and
    restarts it according to the way it died, a monitoring connection, its
    stderr and a few clocks.  The program is Rust written against the C
    library (src/src/*.rs), one process, one thread, with global variables
    and signal handlers.

    ** How the program is modelled

    - [Prelude] (this file): bytes and C strings, 32-bit integers on [Z]
      with their wrap-around, doubles that hold integers, decimal text,
      the tactics and the [machine] hint database.
    - [CNum]: [strtol] and [strtoul] in base 0 (the parsers behind
      [parse_l] and [parse_ul] of env.rs) and the round trip with printing.
    - [Machine]: the process.  [world] is its state: the statics of
      globals.rs and the function-scope statics, the argument array of
      args.rs, the environment, dispositions, signal mask, jump buffer and
      the trace of the system calls made.  The operating system and the C
      library's message tables are the class [Host]: [kernel] answers each
      call from the trace so far, so a theorem for every [Host] holds for
      every behaviour of the environment.  [M] is the state monad in which
      the code is translated; a computation returns or stops ([_exit],
      death by signal, [siglongjmp], [execvp], an access out of bounds,
      fuel).  [wp] and [spec] are its program logic.
    - [Signals] (signals.rs): [sig_catch], the installers, and [sys], one
      system call: it is recorded, then the signals the host reports are
      delivered under the mask in force.  Footprints [eff], [eff_stop],
      [keeps] say what a computation may touch and call.
    - [Trace]: observations on the trace (signals sent, seconds slept,
      children to account for, bytes read and written) and scripted hosts to run the model.
    - [Log] (log.rs, timestr of util.rs), [Kill] (kill.rs, xerrlog,
      unlink_pid_file), [Stderr] (stderr_drain.rs), [Timing] (lifetime.rs,
      grace.rs), [Wait] (wait.rs), [Preload] (stuck_detector.rs), [Conn]
      (conn.rs), [Watch] (watch.rs), [Run] (run.rs), [Args] (args.rs),
      [Env] (env.rs), [MainLogic] (main_logic.rs, main.rs, usage): one file
      per component, the operations under the names of the source; a long
      function is cut into definitions that follow its blocks.
    - [Detector] (ssh-stuck-detector/src/lib.rs): the library preloaded into
      ssh, another process with threads.  Its state is [det]; [step] is one
      atomic access of one thread, [reaches] any interleaving.
    - [Api] (api.rs): the C interface, in the embedding process: the
      configuration, the command line and environment of the supervisor,
      and the operations on a session, which is a record passed along.
      [child_main] continues with [MainLogic.autossh_main].  [Double] is
      how Rust prints the doubles of the configuration.  [ApiRace]: stop and
      state on different threads, one access at a time.  [ApiTests]: the
      unit tests of api.rs as definitions on the model.
    - Files that model no further code but specify several components at
      once.  [Types]: the ranges of the statics and what each system call
      may be given.  [Lifecycle]: the automaton of an ssh child.  [Steady]: how an
      invariant on the history and a few statics is carried through the
      components ([discipline], the tactic [law_auto]); [Lifecycle] and
      [Fds] (descriptors) are its two uses.  [EnvSpec]: the configuration
      as a function of the environment.  [Compose]: the detector in ssh and
      the supervisor that reads its stderr.  [ApiClock]: the wait for the
      listener against a clock.  [ApiSession]: a client with any number of
      sessions.  [ApiSim]: that the computations of [Api] are runs of
      [ApiRace].

    The components call each other as the code does:
    [MainLogic.autossh_main] reads the environment and the command line,
    builds the argument list and calls [Run.ssh_run]; [ssh_run] forks
    and calls [Watch.ssh_watch], which calls [Wait.ssh_wait],
    [Stderr.check_ssh_stderr], [Conn.conn_test], [Timing] and
    [Kill.ssh_kill]; every fatal error goes through [Kill.xerrlog], which
    calls [ssh_kill] again.

    ** What is proved

    - The child: [ssh_kill] sends SIGTERM, then SIGKILL, in bounded time,
      and afterwards the child is reaped or given up.  A child is given up
      ([Trace.given_up]) when it was sent SIGKILL and two more polls did not
      find it gone; in an uninterruptible state it may outlive that, as
      kill.rs accepts, and then there are two processes
      ([Run.stuck_child_stays_behind]).  A watch that returns has reaped or
      given up its child and restored the signal mask; throughout a run a
      child is forked only when all earlier ones are reaped or given up and
      the start limit is respected, whatever the host does and however the
      run ends.
    - Signals: a jump leaves only the two waits; the handlers between
      sessions; a request to exit starts nothing more.
    - Decisions: [ssh_wait] follows the restart policy, the alarm is armed
      within the session limit and ends a session only for one of five
      causes, a connection test succeeds only on the echo of its own
      message, a drain detects exactly the fatal chunks, the backoff is
      quadratic for every number of retries.
    - Configuration: [get_env_args] accepts exactly the valid environments
      and leaves a sane configuration; [add_arg] refines list append and
      [strip_arg] a function on strings, in bounds; the argument loop
      refines [ssh_args], which replaces [-M port] by the forwardings.
      [get_env_args] computes [EnvSpec.config].
    - The whole program: from its first instruction, for every command line
      and environment, the one-child invariant; the ranges of all statics
      and of the arguments of all system calls; the history refines the
      life-cycle automaton, so that no signal goes to a process other than
      the unreaped child; one run computed from start to the exec of ssh.
    - Resources: a round of the restart loop closes every descriptor it
      opened, once (descriptor 0 excepted: an accepted socket may be 0 when
      standard input is closed, and is then left open).
    - The detector: no false alarm in any interleaving, no hung call missed
      in a single-threaded ssh; its warning line is fatal for [drain], and
      a supervisor that reads it kills the child and restarts.
    - The C interface: the configuration accepted, its numbers read back by
      [get_env_args], no process leaked by any sequence of calls, a bounded stop, a
      bounded wait for the listener, and one owner of the pid in every
      interleaving; the unit tests pass, the racing one for all schedules.
    - Some theorems record behaviour that differs from the documentation:
      [expired_lifetime_disarms], [hup_between_sessions_kills],
      [strip_arg_skips_after_removal], [env_port_keeps_monitor_option],
      [port_checks_miss], [clustered_monitor_option], the second half of
      [adjust_timeout_bounds], [gate_time_not_kept],
      [reaped_pid_is_signalled], [failed_wait_goes_unnoticed] and
      [config_example].

    Most theorems hold for every [Host].  A few classes state more of it
    where needed: [PosixHost] (calls that create a process or a descriptor
    answer -1 or one that is not negative, ...), [WaitHost] (a wait
    for an unreaped child fails only when interrupted), [ClockHost] (the
    monotonic clock advances by the naps), [ChildHost] (the answers of
    waitpid for one child); and [Getopt] stands for getopt.

    Statements are mostly of the form [wp m Q E w]: from [w], [m] returns in
    [Q] or stops in [E]; they are about every outcome, not only about
    returning.

    ** Fuel and bounds

    Loops with a bound in the code ([reap_with_grace], the loops of
    conn.rs, the write loop of [extract_once], the polls of a stop) get that
    bound and are proved never to use it up.  [drain], [watch_loop],
    [run_loop] and the wait for the listener are unbounded in the code (the
    host decides how long they go on); they run on [fuel] of the host
    class, and stop with [NoFuel] when it is used up.  Their
    theorems hold for every amount of fuel and include that stop;
    [run_loop_terminates] shows that with a start limit the fuel of the
    restart loop does not matter once it exceeds the starts left.

    Arithmetic on [c_int] wraps, as in the release profile of Cargo.toml,
    which leaves overflow checks off.  Times kept in doubles are integers
    rounded to 53 bits; the backoff formula is computed with the Standard
    Library's binary64.

    ** What is not modelled

    The [sa_mask] and [SA_RESTART] details of [sigaction] (the host may
    report any signals at any call), the contents of address lists;
    the embedded library is the parameter [SO_BYTES], [getopt] of the C
    library the class [Getopt].  A signal is delivered at a system call, not
    between two of them.  In [Detector] and [ApiRace] accesses are
    interleaved but not reordered. *)

From Stdlib Require Import ZArith Lia Ascii String.
From stdpp Require Import base option list strings.

#[global] Open Scope Z_scope.

(** ** Bytes and C strings *)

Notation bytes := (list ascii).

Definition nul : ascii := Ascii false false false false false false false false.

Definition lit (s : string) : bytes := String.list_ascii_of_string s.

(** The C string a buffer holds: the bytes before the first NUL. *)
Fixpoint c_str (buf : bytes) : bytes :=
  match buf with
  | [] => []
  | c :: r => if decide (c = nul) then [] else c :: c_str r
  end.

Definition nul_free (s : bytes) : bool := forallb (fun c => negb (Ascii.eqb c nul)) s.

Definition strlen (s : bytes) : Z := Z.of_nat (List.length s).

(** [strchr]: the suffix that starts at the first occurrence of [c].  As
    in C, the terminating NUL counts as part of the string. *)
Fixpoint strchr (s : bytes) (c : ascii) : option bytes :=
  match s with
  | [] => if decide (c = nul) then Some [] else None
  | x :: r => if decide (x = c) then Some s else strchr r c
  end.

Fixpoint prefixb (p s : bytes) : bool :=
  match p, s with
  | [], _ => true
  | a :: p', b :: s' => if decide (a = b) then prefixb p' s' else false
  | _ :: _, [] => false
  end.

(** [strstr hay needle <> NULL]. *)
Fixpoint strstr (hay needle : bytes) : bool :=
  prefixb needle hay ||
  match hay with
  | [] => false
  | _ :: r => strstr r needle
  end.

Definition infix_of (needle hay : bytes) : Prop := exists a b, hay = a ++ needle ++ b.

(** ** Machine integers *)

Definition wrap32 (x : Z) : Z := (x + 2 ^ 31) mod 2 ^ 32 - 2 ^ 31.
Definition u32 (x : Z) : Z := x mod 2 ^ 32.
Definition i32_max : Z := 2 ^ 31 - 1.
Definition i32_min : Z := - 2 ^ 31.
Definition is_i32 (x : Z) : Prop := i32_min <= x <= i32_max.

(** A [time_t]. *)
Definition is_i64 (x : Z) : Prop := - 2 ^ 63 <= x <= 2 ^ 63 - 1.

(** [as c_int] of an integral double: a saturating cast. *)
Definition sat32 (x : Z) : Z := Z.max i32_min (Z.min i32_max x).

(** ** Doubles that hold an integral value

    [gate_time], [max_lifetime], [max_session] and every [difftime] are
    doubles obtained from integers; such a double is represented by the
    integer it holds and [f64_of_Z] is the conversion (round to nearest,
    ties to even, 53 significant bits). *)
Definition f64_of_Z (z : Z) : Z :=
  let a := Z.abs z in
  let e := Z.max 0 (Z.log2 a - 52) in
  let q := a / 2 ^ e in
  let r := a mod 2 ^ e in
  let up := (2 ^ e <? 2 * r) || ((2 ^ e =? 2 * r) && Z.odd q) in
  Z.sgn z * ((if up then q + 1 else q) * 2 ^ e).

(** [x] is the value of a double. *)
Definition is_f64 (x : Z) : Prop := f64_of_Z x = x.

(** Subtraction of two such doubles rounds the exact difference. *)
Definition f64_sub (a b : Z) : Z := f64_of_Z (a - b).

(** [difftime(t1, t0)]. *)
Definition difftime (t1 t0 : Z) : Z := f64_of_Z (t1 - t0).

(** ** Decimal text *)

Definition digit (d : Z) : ascii := ascii_of_N (Z.to_N (48 + d)).

(** Digits of a positive number, least significant first. *)
Fixpoint dec_rev (fuel : nat) (n : Z) : bytes :=
  match fuel with
  | O => []
  | S f => if n <=? 0 then [] else digit (n mod 10) :: dec_rev f (n / 10)
  end.

Definition dec_fuel (n : Z) : nat := S (Z.to_nat (Z.log2 n)).

(** ["%d"] and Rust's [Display] of an integer. *)
Definition show_Z (n : Z) : bytes :=
  if n =? 0 then lit "0"
  else if n <? 0 then lit "-" ++ rev (dec_rev (dec_fuel (- n)) (- n))
  else rev (dec_rev (dec_fuel n) n).

(** ** Tactics and hint databases *)

Create HintDb machine.

(** Case analysis on the first [if] or [match] of the goal. *)
Ltac split_if :=
  match goal with
  | |- context [if ?b then _ else _] => destruct b eqn:?
  end.

Ltac zify_bool :=
  repeat match goal with
  | H : (_ <? _) = true |- _ => apply Z.ltb_lt in H
  | H : (_ <? _) = false |- _ => apply Z.ltb_ge in H
  | H : (_ <=? _) = true |- _ => apply Z.leb_le in H
  | H : (_ <=? _) = false |- _ => apply Z.leb_gt in H
  | H : (_ =? _) = true |- _ => apply Z.eqb_eq in H
  | H : (_ =? _) = false |- _ => apply Z.eqb_neq in H
  | H : (_ >? _) = _ |- _ => rewrite Z.gtb_ltb in H
  | H : (_ >=? _) = _ |- _ => rewrite Z.geb_leb in H
  | H : _ && _ = true |- _ => apply andb_prop in H as [? ?]
  | H : _ || _ = false |- _ => apply orb_false_elim in H as [? ?]
  | H : negb _ = true |- _ => apply negb_true_iff in H
  | H : negb _ = false |- _ => apply negb_false_iff in H
  end.

(** ** Lemmas *)

Lemma wrap32_id x : is_i32 x -> wrap32 x = x.
Proof.
  unfold is_i32, i32_min, i32_max, wrap32; intros ?.
  rewrite Z.mod_small by lia. lia.
Qed.

Lemma wrap32_range x : is_i32 (wrap32 x).
Proof.
  unfold is_i32, i32_min, i32_max, wrap32.
  pose proof (Z.mod_pos_bound (x + 2 ^ 31) (2 ^ 32)). lia.
Qed.

Lemma sat32_range x : is_i32 (sat32 x).
Proof. unfold is_i32, sat32, i32_min, i32_max. lia. Qed.

Lemma sat32_id x : is_i32 x -> sat32 x = x.
Proof. unfold is_i32, sat32, i32_min, i32_max. lia. Qed.

Lemma f64_of_Z_exact z : Z.abs z <= 2 ^ 53 -> f64_of_Z z = z.
Proof.
  intros Hz. unfold f64_of_Z.
  destruct (decide (Z.abs z = 2 ^ 53)) as [E|NE].
  { rewrite E. vm_compute (Z.max _ _). cbn -[Z.mul Z.sgn].
    change (2 ^ 53 / 2 ^ 1) with (2 ^ 52). destruct z; simpl in *; lia. }
  assert (Z.log2 (Z.abs z) <= 52) as Hl.
  { destruct (decide (Z.abs z = 0)) as [->|]; [done|].
    apply Z.lt_succ_r. apply Z.log2_lt_pow2; lia. }
  replace (Z.max 0 (Z.log2 (Z.abs z) - 52)) with 0 by lia.
  rewrite Z.pow_0_r, Z.mod_1_r, Z.div_1_r. simpl.
  destruct z; simpl; lia.
Qed.

(** A value with at most 53 significant bits is a double. *)
Lemma f64_of_Z_representable q e : 0 <= q <= 2 ^ 53 -> 0 <= e -> f64_of_Z (q * 2 ^ e) = q * 2 ^ e.
Proof.
  intros Hq He. unfold f64_of_Z.
  assert (0 <= q * 2 ^ e) as Hp by (apply Z.mul_nonneg_nonneg; [lia|apply Z.pow_nonneg; lia]).
  rewrite Z.abs_eq by done. set (a := q * 2 ^ e) in *. set (k := Z.max 0 (Z.log2 a - 52)).
  assert (exists m, a = m * 2 ^ k) as [m Hm].
  { destruct (decide (q = 0)) as [Hz|Hz]; [exists 0; subst a; by rewrite Hz|].
    destruct (decide (q = 2 ^ 53)) as [H53|H53].
    - exists (2 ^ 52). subst k. subst a. rewrite H53, <- Z.pow_add_r, Z.log2_pow2, <- Z.pow_add_r by lia.
      f_equal. lia.
    - exists (q * 2 ^ (e - k)). subst a. rewrite <- Z.mul_assoc, <- Z.pow_add_r; [f_equal; f_equal; lia| |lia].
      subst k. rewrite Z.log2_mul_pow2 by lia.
      assert (Z.log2 q < 53) by (apply Z.log2_lt_pow2; lia). lia. }
  assert (0 < 2 ^ k) as Hk by (apply Z.pow_pos_nonneg; lia).
  rewrite Hm, Z.mod_mul, Z.div_mul by lia.
  replace (2 ^ k <? 2 * 0) with false by lia. replace (2 ^ k =? 2 * 0) with false by lia. simpl.
  rewrite <- Hm. destruct (decide (a = 0)) as [->|]; [done|]. rewrite Z.sgn_pos by lia. lia.
Qed.

Lemma f64_of_Z_opp z : f64_of_Z (- z) = - f64_of_Z z.
Proof. unfold f64_of_Z. rewrite Z.abs_opp, Z.sgn_opp. lia. Qed.

Lemma f64_of_Z_is_f64 z : is_f64 (f64_of_Z z).
Proof.
  assert (forall a, 0 <= a -> is_f64 (f64_of_Z a)) as Pos.
  { intros a Ha. destruct (decide (a = 0)) as [->|Hz]; [done|].
    unfold is_f64. unfold f64_of_Z at 2 3. rewrite Z.abs_eq, Z.sgn_pos, Z.mul_1_l by lia.
    set (e := Z.max 0 _). set (up := _ || _).
    assert (0 <= a / 2 ^ e < 2 ^ 53) as Hq.
    { split; [apply Z.div_pos; [lia|apply Z.pow_pos_nonneg; lia]|].
      apply Z.div_lt_upper_bound; [apply Z.pow_pos_nonneg; lia|]. rewrite <- Z.pow_add_r by lia.
      apply Z.log2_lt_pow2; [lia|]. subst e. lia. }
    destruct up; apply f64_of_Z_representable; lia. }
  destruct (decide (0 <= z)) as [|Hn]; [by apply Pos|].
  pose proof (Pos (- z) ltac:(lia)) as K. unfold is_f64 in *. rewrite !f64_of_Z_opp in K. lia.
Qed.

Lemma prefixb_spec p s : prefixb p s = true <-> exists r, s = p ++ r.
Proof.
  revert s; induction p as [|a p IH]; intros s; simpl.
  - split; [eauto|done].
  - destruct s as [|b s]; [split; [done|intros [? ?]; done]|].
    destruct (decide (a = b)) as [->|Hne].
    + rewrite IH. split; intros [r ?]; exists r; simplify_eq; done.
    + split; [done|]. intros [r ?]; simplify_eq.
Qed.

(** [strstr] decides the infix relation. *)
Lemma strstr_spec hay needle : strstr hay needle = true <-> infix_of needle hay.
Proof.
  unfold infix_of. induction hay as [|c hay IH]; simpl; rewrite orb_true_iff, prefixb_spec.
  - split; [intros [[r Hr]|?]; [exists [], r; done|done]|].
    intros (a & b & Hab). left. destruct a; [eauto|done].
  - rewrite IH. split.
    + intros [[r Hr]|(a & b & ->)]; [exists [], r; done|exists (c :: a), b; done].
    + intros ([|x a] & b & Hab); simplify_eq/=; [left; eauto|right; eauto].
Qed.

Lemma c_str_nul_free s : nul_free (c_str s) = true.
Proof.
  induction s as [|c s IH]; simpl; [done|]. destruct (decide (c = nul)); simpl; [done|].
  rewrite IH. destruct (Ascii.eqb_spec c nul); done.
Qed.

Lemma c_str_id s : nul_free s = true -> c_str s = s.
Proof.
  induction s as [|c s IH]; simpl; [done|]. intros H; zify_bool.
  rewrite IH by done. destruct (decide (c = nul)) as [->|]; done.
Qed.

Lemma c_str_app_nul s t : nul_free s = true -> c_str (s ++ nul :: t) = s.
Proof.
  induction s as [|c s IH]; simpl; [done|]. intros H; zify_bool.
  rewrite IH by done. destruct (decide (c = nul)) as [->|]; done.
Qed.

(** ** Decimal text *)

Lemma dec_rev_forall (P : ascii -> bool) f n :
  (forall d, 0 <= d < 10 -> P (digit d) = true) -> forallb P (dec_rev f n) = true.
Proof.
  intros HP. revert n. induction f as [|f IH]; intros n; simpl; [done|].
  destruct (n <=? 0); simpl; [done|]. rewrite HP, IH; [done|]. apply Z.mod_pos_bound. lia.
Qed.

Lemma forallb_rev {A} (P : A -> bool) l : forallb P (rev l) = forallb P l.
Proof.
  induction l as [|x l IH]; simpl; [done|]. rewrite forallb_app, IH. simpl. rewrite andb_true_r.
  apply andb_comm.
Qed.

(** The characters of a printed integer. *)
Lemma show_Z_forall (P : ascii -> bool) n :
  P "-"%char = true -> (forall d, 0 <= d < 10 -> P (digit d) = true) -> forallb P (show_Z n) = true.
Proof.
  intros Hm HP. unfold show_Z. repeat split_if.
  - simpl. change "0"%char with (digit 0). by rewrite HP.
  - rewrite forallb_app, forallb_rev, dec_rev_forall by done. simpl. by rewrite Hm.
  - rewrite forallb_rev. by apply dec_rev_forall.
Qed.

Lemma digit_cases (P : ascii -> bool) :
  forallb P (map digit [0;1;2;3;4;5;6;7;8;9]) = true -> forall d, 0 <= d < 10 -> P (digit d) = true.
Proof.
  rewrite forallb_forall. intros HP d Hd. apply HP, in_map.
  assert (d = 0 \/ d = 1 \/ d = 2 \/ d = 3 \/ d = 4 \/ d = 5 \/ d = 6 \/ d = 7 \/ d = 8 \/ d = 9) by lia.
  simpl. intuition.
Qed.

Lemma show_Z_nul_free n : nul_free (show_Z n) = true.
Proof. apply show_Z_forall; [done|]. apply (digit_cases (fun c => negb (Ascii.eqb c nul))). reflexivity. Qed.

Lemma dec_rev_length f n k : n < 10 ^ Z.of_nat k -> (List.length (dec_rev f n) <= k)%nat.
Proof.
  revert n k. induction f as [|f IH]; intros n k Hn; simpl; [lia|].
  destruct (n <=? 0) eqn:E; zify_bool; simpl; [lia|]. destruct k as [|k]; [simpl in Hn; lia|].
  apply le_n_S, IH. rewrite Nat2Z.inj_succ, Z.pow_succ_r in Hn by lia. apply Z.div_lt_upper_bound; lia.
Qed.
