(* ===== verification/CNum.v ===== *)
(** * Number parsing of the C library

    [strtol] and [strtoul] in base 0, as src/env.rs and src/main_logic.rs
    call them: leading white space, an optional sign, a 0x or 0 prefix, the
    longest run of digits; values out of range saturate.  Each returns the
    value and the text behind it ([*end]). *)

From Stdlib Require Import ZArith Lia Ascii String.
From stdpp Require Import base option list strings.
From S2P Require Import Prelude.

Definition code (c : ascii) : Z := Z.of_N (N_of_ascii c).

Definition isspace (c : ascii) : bool := ((9 <=? code c) && (code c <=? 13)) || (code c =? 32).

Definition digit_val (c : ascii) : option Z :=
  let n := code c in
  if (48 <=? n) && (n <=? 57) then Some (n - 48)
  else if (97 <=? n) && (n <=? 122) then Some (n - 87)
  else if (65 <=? n) && (n <=? 90) then Some (n - 55)
  else None.

Definition digit_in (base : Z) (c : ascii) : option Z :=
  match digit_val c with
  | Some d => if d <? base then Some d else None
  | None => None
  end.

Fixpoint skip_space (s : bytes) : bytes :=
  match s with
  | c :: r => if isspace c then skip_space r else s
  | [] => []
  end.

(** The digits in front of [s], accumulated onto [acc]. *)
Fixpoint digits (base acc : Z) (s : bytes) : Z * bytes :=
  match s with
  | c :: r =>
      match digit_in base c with
      | Some d => digits base (acc * base + d) r
      | None => (acc, s)
      end
  | [] => (acc, [])
  end.

Definition sign (s : bytes) : bool * bytes :=
  match s with
  | c :: r => if Ascii.eqb c "-"%char then (true, r) else if Ascii.eqb c "+"%char then (false, r) else (false, s)
  | [] => (false, [])
  end.

(** The magnitude: [None] when there is no digit. *)
Definition magnitude (s : bytes) : option (Z * bytes) :=
  match s with
  | c :: r =>
      if Ascii.eqb c "0"%char then
        match r with
        | x :: h :: t =>
            if (Ascii.eqb x "x"%char || Ascii.eqb x "X"%char) && bool_decide (is_Some (digit_in 16 h))
            then Some (digits 16 0 (h :: t))
            else Some (digits 8 0 s)
        | _ => Some (digits 8 0 s)
        end
      else if bool_decide (is_Some (digit_in 10 c)) then Some (digits 10 0 s) else None
  | [] => None
  end.

Definition LONG_MAX : Z := 2 ^ 63 - 1.
Definition LONG_MIN : Z := - 2 ^ 63.
Definition ULONG_MAX : Z := 2 ^ 64 - 1.

Definition strtol (s : bytes) : Z * bytes :=
  let '(neg, r) := sign (skip_space s) in
  match magnitude r with
  | None => (0, s)
  | Some (m, rest) => (Z.max LONG_MIN (Z.min LONG_MAX (if neg then - m else m)), rest)
  end.

Definition strtoul (s : bytes) : Z * bytes :=
  let '(neg, r) := sign (skip_space s) in
  match magnitude r with
  | None => (0, s)
  | Some (m, rest) =>
      (if ULONG_MAX <? m then ULONG_MAX else if (neg : bool) then (- m) mod 2 ^ 64 else m, rest)
  end.

(** ** Printed numbers are read back *)

Lemma digit_in_digit d : 0 <= d < 10 -> digit_in 10 (digit d) = Some d.
Proof.
  intros Hd. assert (d = 0 \/ d = 1 \/ d = 2 \/ d = 3 \/ d = 4 \/ d = 5 \/ d = 6 \/ d = 7 \/ d = 8 \/ d = 9) by lia.
  destruct_or!; subst; reflexivity.
Qed.

Lemma digits_dec f n acc rest :
  0 <= n < 2 ^ Z.of_nat f ->
  digits 10 acc (rev (dec_rev f n) ++ rest) =
  digits 10 (acc * 10 ^ Z.of_nat (List.length (dec_rev f n)) + n) rest.
Proof.
  revert n acc rest. induction f as [|f IH]; intros n acc rest Hn.
  { simpl in *. f_equal. lia. }
  simpl. destruct (n <=? 0) eqn:E; zify_bool; [simpl; f_equal; lia|].
  cbn [rev List.length]. rewrite <- app_assoc. rewrite IH.
  - cbn [app digits]. rewrite digit_in_digit by (apply Z.mod_pos_bound; lia). f_equal.
    rewrite Nat2Z.inj_succ, Z.pow_succ_r by lia. pose proof (Z.div_mod n 10). lia.
  - rewrite Nat2Z.inj_succ, Z.pow_succ_r in Hn by lia.
    split; [apply Z.div_pos; lia|]. apply Z.div_lt_upper_bound; lia.
Qed.

(** A positive number prints with a leading digit that is not 0. *)
Lemma dec_head f n :
  0 < n < 2 ^ Z.of_nat f -> exists d r, rev (dec_rev f n) = digit d :: r /\ 1 <= d < 10.
Proof.
  revert n. induction f as [|f IH]; intros n Hn; [simpl in Hn; lia|].
  simpl. destruct (n <=? 0) eqn:E; zify_bool; [lia|]. cbn [rev].
  rewrite Nat2Z.inj_succ, Z.pow_succ_r in Hn by lia. pose proof (Z.div_mod n 10). pose proof (Z.mod_pos_bound n 10).
  destruct (decide (n / 10 = 0)) as [Z0|NZ].
  - rewrite Z0. exists (n mod 10), []. split; [by destruct f|lia].
  - destruct (IH (n / 10)) as (d & r & -> & Hd); [|exists d, (r ++ [digit (n mod 10)]); done].
    split; [pose proof (Z.div_pos n 10); lia|]. apply Z.div_lt_upper_bound; lia.
Qed.

Lemma dec_fuel_enough n : 0 < n -> n < 2 ^ Z.of_nat (dec_fuel n).
Proof.
  intros Hn. unfold dec_fuel. rewrite Nat2Z.inj_succ, Z2Nat.id by apply Z.log2_nonneg.
  by apply Z.log2_spec.
Qed.

Lemma digit_plain d : 1 <= d < 10 ->
  isspace (digit d) = false /\ Ascii.eqb (digit d) "-" = false /\ Ascii.eqb (digit d) "+" = false /\
  Ascii.eqb (digit d) "0" = false.
Proof.
  intros Hd. assert (d = 1 \/ d = 2 \/ d = 3 \/ d = 4 \/ d = 5 \/ d = 6 \/ d = 7 \/ d = 8 \/ d = 9) by lia.
  destruct_or!; subst; vm_compute; auto.
Qed.

(** Scanning a printed natural number consumes it all. *)
Lemma scan_show n : 0 <= n -> sign (skip_space (show_Z n)) = (false, show_Z n) /\
  magnitude (show_Z n) = Some (n, []).
Proof.
  intros Hn. unfold show_Z. destruct (n =? 0) eqn:Z0; zify_bool; [subst; done|].
  replace (n <? 0) with false by lia. pose proof (dec_fuel_enough n ltac:(lia)) as Hf.
  pose proof (digits_dec (dec_fuel n) n 0 [] ltac:(lia)) as D. rewrite app_nil_r in D.
  destruct (dec_head (dec_fuel n) n ltac:(lia)) as (d & r & E & Hd). rewrite E in *.
  destruct (digit_plain d Hd) as (S & M & P & Zr). cbn [skip_space]. rewrite S. cbn [sign magnitude].
  rewrite M, P, Zr. split; [done|]. rewrite bool_decide_true by (rewrite digit_in_digit by lia; eauto).
  rewrite D. done.
Qed.

Lemma strtoul_show n : 0 <= n <= ULONG_MAX -> strtoul (show_Z n) = (n, []).
Proof.
  intros Hn. unfold strtoul. destruct (scan_show n) as [-> ->]; [lia|].
  replace (ULONG_MAX <? n) with false by lia. done.
Qed.

Lemma strtol_show n : 0 <= n <= LONG_MAX -> strtol (show_Z n) = (n, []).
Proof.
  intros Hn. unfold strtol. destruct (scan_show n) as [-> ->]; [lia|].
  f_equal. unfold LONG_MAX, LONG_MIN in *. lia.
Qed.

(** ** Ranges *)

Lemma digits_nonneg base acc s : 0 < base -> 0 <= acc -> 0 <= fst (digits base acc s).
Proof.
  intros Hb. revert acc. induction s as [|c r IH]; intros acc Ha; simpl; [done|].
  destruct (digit_in base c) as [d|] eqn:D; [|done]. apply IH.
  unfold digit_in, digit_val in D. repeat (destruct (_ && _) eqn:? in D); try done;
    destruct (_ <? base) in D; zify_bool; try done; injection D as <-; nia.
Qed.

Lemma magnitude_nonneg s m r : magnitude s = Some (m, r) -> 0 <= m.
Proof.
  assert (forall b t, 0 < b -> Some (digits b 0 t) = Some (m, r) -> 0 <= m) as K.
  { intros b t Hb E. pose proof (digits_nonneg b 0 t Hb ltac:(lia)) as N.
    destruct (digits b 0 t). injection E as -> ->. exact N. }
  unfold magnitude. destruct s as [|c t]; [done|]. destruct (Ascii.eqb c "0"%char).
  - destruct t as [|x [|h t]]; [by apply K|by apply K|]. split_if; by apply K.
  - split_if; [by apply K|done].
Qed.

Lemma strtoul_range s : 0 <= fst (strtoul s) <= ULONG_MAX.
Proof.
  unfold strtoul. destruct (sign (skip_space s)) as [neg r]. destruct (magnitude r) as [[m rest]|] eqn:E;
    [|unfold ULONG_MAX; simpl; lia].
  apply magnitude_nonneg in E. cbn [fst]. unfold ULONG_MAX. repeat split_if; zify_bool; try lia.
  pose proof (Z.mod_pos_bound (- m) (2 ^ 64)). lia.
Qed.

(** ** Properties *)

(** What the program prints as a decimal number, [strtoul] and
    [strtol] read back as that number with nothing left over. *)
Theorem decimal_round_trip n :
  0 <= n <= LONG_MAX -> strtoul (show_Z n) = (n, []) /\ strtol (show_Z n) = (n, []).
Proof.
  intros Hn. split; [apply strtoul_show; unfold LONG_MAX, ULONG_MAX in *; lia|by apply strtol_show].
Qed.

Lemma decimal_round_trip_witness : strtoul (lit "86400") = (86400, []) /\ strtol (lit "86400") = (86400, []).
Proof. apply (decimal_round_trip 86400). split; discriminate. Defined.
