(* ===== verification/Machine.v ===== *)
(** * The process: global variables, system calls, the effect monad

    The state of an autossh process (the [static mut] variables of
    src/globals.rs and the function-scope statics), the operating system
    it talks to as a parameter, and the state-and-stop monad in which the
    later files translate the code, with the small program logic their
    proofs use. *)

From stdpp Require Import base option list strings gmap functions.
From S2P Require Import Prelude.

(** ** Global variables *)

(** The integer-valued statics.  Doubles that hold integers are integers
    here (see [f64_of_Z]); [flog] is a stream number and [RES] the cached
    address of src/conn.rs, 0 for NULL. *)
Inductive ivar :=
| logtype | loglevel | syslog_perror | flog
| pid_file_created | pid_start_time
| poll_time | first_poll_time | gate_time | max_start | max_lifetime
| max_session | net_timeout
| start_count | start_time
| cchild | ssh_stderr_fd | pipe_lost_time | last_stderr_time
| port_fwd_failed | exit_signalled | restart_ssh | dolongjmp
| TRIES | SECS_LEFT | my_poll_time | RES.

(** The string pointers: [None] is NULL; [EXTRACTED] is the [OnceLock] of
    src/stuck_detector.rs. *)
Inductive svar :=
| writep | readp | echop | mhost | env_port | echo_message
| pid_file_name | ssh_path | progname | EXTRACTED.

#[global] Instance ivar_eq_dec : EqDecision ivar.
Proof. solve_decision. Defined.

#[global] Instance svar_eq_dec : EqDecision svar.
Proof. solve_decision. Defined.

Definition L_FILELOG : Z := 1.
Definition L_SYSLOG : Z := 2.
Definition LOG_EMERG : Z := 0.
Definition LOG_ERR : Z := 3.
Definition LOG_WARNING : Z := 4.
Definition LOG_INFO : Z := 6.
Definition LOG_DEBUG : Z := 7.

(** Static initialisers of src/globals.rs. *)
Definition init_ints (v : ivar) : Z :=
  match v with
  | logtype => L_SYSLOG
  | loglevel => LOG_INFO
  | poll_time | first_poll_time => 600
  | gate_time => 30
  | max_start => -1
  | net_timeout => 15000
  | ssh_stderr_fd => -1
  | _ => 0
  end.

Definition init_strs (v : svar) : option bytes :=
  match v with
  | mhost => Some (lit "127.0.0.1")
  | echo_message => Some []
  | ssh_path => Some (lit "/usr/bin/ssh")
  | readp => Some []
  | _ => None
  end.

(** ** Signals *)

Definition SIGHUP : Z := 1.
Definition SIGINT : Z := 2.
Definition SIGQUIT : Z := 3.
Definition SIGABRT : Z := 6.
Definition SIGKILL : Z := 9.
Definition SIGUSR1 : Z := 10.
Definition SIGUSR2 : Z := 12.
Definition SIGPIPE : Z := 13.
Definition SIGALRM : Z := 14.
Definition SIGTERM : Z := 15.
Definition SIGCHLD : Z := 17.

Inductive disposition := SigDfl | SigIgn | SigCatch.

#[global] Instance disposition_eq_dec : EqDecision disposition.
Proof. solve_decision. Defined.

(** Whether the default action of a signal terminates the process. *)
Definition default_terminates (s : Z) : bool :=
  bool_decide (s ∈ [SIGHUP; SIGINT; SIGQUIT; SIGABRT; SIGKILL; SIGUSR1; SIGUSR2;
                    SIGPIPE; SIGALRM; SIGTERM]).

(** ** System calls and replies *)

Inductive syscall :=
| Sys_time | Sys_alarm (secs : Z) | Sys_sleep (secs : Z)
| Sys_kill (pid sig : Z) | Sys_waitpid (pid options : Z)
| Sys_close (fd : Z) | Sys_read (fd count : Z) | Sys_write (fd : Z) (data : bytes)
| Sys_pipe | Sys_fork | Sys_dup2 (a b : Z) | Sys_execvp (argv : list bytes)
| Sys_getpid | Sys_getppid | Sys_fcntl (fd cmd arg : Z)
| Sys_ppoll (fd events : Z) | Sys_sigsuspend | Sys_sigprocmask
| Sys_sigaction (sig : Z) (d : disposition)
| Sys_poll (fds : list (Z * Z)) (timeout : Z)
| Sys_syslog (level : Z) (msg : bytes) | Sys_strftime (t : Z)
| Sys_fprintf (stream : Z) (text : bytes) | Sys_fflush (stream : Z)
| Sys_fopen (path mode : bytes) | Sys_fclose (stream : Z)
| Sys_open (path : bytes) (flags mode : Z) | Sys_unlink (path : bytes)
| Sys_openlog | Sys_closelog | Sys_atexit | Sys_daemon
| Sys_gettimeofday | Sys_srandom (seed : Z) | Sys_random | Sys_uname
| Sys_getaddrinfo (host port : option bytes) | Sys_freeaddrinfo
| Sys_socket | Sys_connect (fd : Z) | Sys_setsockopt (fd : Z) | Sys_bind (fd : Z)
| Sys_listen (fd backlog : Z) | Sys_accept (fd : Z) | Sys_shutdown (fd : Z)
| Sys_alloc (size : Z)
| Sys_resolve (host : bytes) (port : Z) | Sys_tcp_listen (host : bytes) (port : Z)
| Sys_getsockname (fd : Z) | Sys_tcp_connect (host : bytes) (port timeout_ms : Z)
| Sys_now | Sys_sleep_ms (ms : Z).

#[global] Instance syscall_eq_dec : EqDecision syscall.
Proof. solve_decision. Defined.

(** What the operating system answers: the return value, [errno], the
    integers the call writes through pointers (a wait status, the [revents]
    of one or two descriptors, the two pipe ends), the bytes it writes, and
    the signals that reach the process before the call returns.  The
    allocators are one call, [Sys_alloc], which answers a negative number
    for NULL.  The last six calls are what the Rust library does for
    src/api.rs: name resolution, a listener, its port, a connection attempt,
    the monotonic clock and a sleep in milliseconds; a negative answer is an
    error whose text is the data. *)
Record reply := Reply {
  r_ret : Z;
  r_errno : Z;
  r_aux : Z;
  r_aux2 : Z;
  r_data : bytes;
  r_sigs : list Z
}.

Notation event := (syscall * reply)%type.

(** The host.  [kernel] answers a call from the history of the calls made
    so far (latest first), so quantifying over it covers every behaviour
    of the environment, signals included; a signal that is blocked when it
    arrives is reported at a later call.  [strerror] and [gai_strerror]
    are the C library's message tables, [SO_BYTES] the shared library the
    build embeds.  [fuel] bounds the iterations of the loops that the code
    leaves unbounded. *)
Class Host := {
  kernel : list event -> syscall -> reply;
  strerror : Z -> option bytes;
  gai_strerror : Z -> option bytes;
  SO_BYTES : bytes;
  fuel : nat
}.

(** ** The process state *)

(** A cell of the malloc'd [newav] array. *)
Inductive slot := Undef | Null | Str (s : bytes).

Record world := World {
  ints : ivar -> Z;
  strs : svar -> option bytes;
  environ : gmap string bytes;
  newav : option (list slot);
  newac : Z;
  NEWAV_CAP : Z;
  disp : Z -> disposition;
  mask : gset Z;
  jumpbuf : gset Z;
  trace : list event
}.

Definition set_ints (f : ivar -> Z) (w : world) : world :=
  World f (strs w) (environ w) (newav w) (newac w) (NEWAV_CAP w)
    (disp w) (mask w) (jumpbuf w) (trace w).
Definition set_strs (f : svar -> option bytes) (w : world) : world :=
  World (ints w) f (environ w) (newav w) (newac w) (NEWAV_CAP w)
    (disp w) (mask w) (jumpbuf w) (trace w).
Definition set_environ (e : gmap string bytes) (w : world) : world :=
  World (ints w) (strs w) e (newav w) (newac w) (NEWAV_CAP w)
    (disp w) (mask w) (jumpbuf w) (trace w).
Definition set_args (a : option (list slot)) (n c : Z) (w : world) : world :=
  World (ints w) (strs w) (environ w) a n c
    (disp w) (mask w) (jumpbuf w) (trace w).
Definition set_disp (d : Z -> disposition) (w : world) : world :=
  World (ints w) (strs w) (environ w) (newav w) (newac w) (NEWAV_CAP w)
    d (mask w) (jumpbuf w) (trace w).
Definition set_mask (m : gset Z) (w : world) : world :=
  World (ints w) (strs w) (environ w) (newav w) (newac w) (NEWAV_CAP w)
    (disp w) m (jumpbuf w) (trace w).
Definition set_jumpbuf (m : gset Z) (w : world) : world :=
  World (ints w) (strs w) (environ w) (newav w) (newac w) (NEWAV_CAP w)
    (disp w) (mask w) m (trace w).
Definition set_trace (t : list event) (w : world) : world :=
  World (ints w) (strs w) (environ w) (newav w) (newac w) (NEWAV_CAP w)
    (disp w) (mask w) (jumpbuf w) t.

(** A process as exec leaves it: the initialisers of src/globals.rs and
    src/args.rs, default dispositions, nothing blocked. *)
Definition init_world (e : gmap string bytes) : world :=
  World init_ints init_strs e None 0 16 (fun _ => SigDfl) ∅ ∅ [].

(** ** The monad *)

(** How a computation stops without returning: [_exit], death by a
    signal's default action, a [siglongjmp] on its way to [sigsetjmp],
    replacement by [execvp], an access out of bounds, or a loop cut by
    [fuel]. *)
Inductive stop :=
| Exited (code : Z) | Killed (sig : Z) | Jumped (sig : Z)
| Execed (argv : list bytes) | OutOfBounds | NoFuel.

#[global] Instance stop_eq_dec : EqDecision stop.
Proof. solve_decision. Defined.

Definition M (A : Type) : Type := world -> (A + stop) * world.

#[global] Instance M_ret : MRet M := fun A a w => (inl a, w).
#[global] Instance M_bind : MBind M := fun A B k m w =>
  match m w with
  | (inl a, w') => k a w'
  | (inr s, w') => (inr s, w')
  end.

Definition halt {A} (s : stop) : M A := fun w => (inr s, w).
Definition rd (v : ivar) : M Z := fun w => (inl (ints w v), w).
Definition wr (v : ivar) (x : Z) : M unit := fun w => (inl tt, set_ints (<[v:=x]> (ints w)) w).
Definition rds (v : svar) : M (option bytes) := fun w => (inl (strs w v), w).
Definition wrs (v : svar) (x : option bytes) : M unit :=
  fun w => (inl tt, set_strs (<[v:=x]> (strs w)) w).
Definition getenv (k : string) : M (option bytes) := fun w => (inl (environ w !! k), w).
Definition setenv (k : string) (v : bytes) : M unit :=
  fun w => (inl tt, set_environ (<[k:=v]> (environ w)) w).
Definition when (b : bool) (m : M unit) : M unit := if b then m else mret tt.

(** Run [m]; a [siglongjmp] out of it continues with [h]. *)
Definition catch_jump {A} (m : M A) (h : Z -> M A) : M A := fun w =>
  match m w with
  | (inr (Jumped s), w') => h s w'
  | r => r
  end.

(** ** Program logic *)

(** [wp m Q E w]: from [w], [m] either returns in a state of [Q] or stops
    in a state of [E]. *)
Definition wp {A} (m : M A) (Q : A -> world -> Prop) (E : stop -> world -> Prop)
    (w : world) : Prop :=
  match m w with
  | (inl a, w') => Q a w'
  | (inr s, w') => E s w'
  end.

(** [spec R S m]: wherever [m] starts, the state it returns in is related
    by [R] to the initial one, and the state it stops in by [S]. *)
Definition spec (R : world -> world -> Prop) (S : stop -> world -> world -> Prop)
    {A} (m : M A) : Prop :=
  forall w, wp m (fun _ w' => R w w') (fun s w' => S s w w') w.

(** Such pairs compose when [R] is a preorder and [S] absorbs it. *)
Class Framed (R : world -> world -> Prop) (S : stop -> world -> world -> Prop) := {
  framed_pre :: PreOrder R;
  framed_absorb : forall s w1 w2 w3, R w1 w2 -> S s w2 w3 -> S s w1 w3
}.

Section Logic.
Context {A B : Type}.

Lemma wp_ret (a : A) Q E w : Q a w -> wp (mret a) Q E w.
Proof. done. Qed.

Lemma wp_bind (m : M A) (k : A -> M B) Q E w :
  wp m (fun a w' => wp (k a) Q E w') E w -> wp (m ≫= k) Q E w.
Proof. unfold wp, mbind, M_bind. destruct (m w) as [[a|s] w']; done. Qed.

Lemma wp_bind_inv (m : M A) (k : A -> M B) Q E w :
  wp (m ≫= k) Q E w -> wp m (fun a w' => wp (k a) Q E w') E w.
Proof. unfold wp, mbind, M_bind. destruct (m w) as [[a|s] w']; done. Qed.

Lemma wp_mono (m : M A) (Q Q' : A -> world -> Prop) (E E' : stop -> world -> Prop) w :
  wp m Q E w -> (forall a w', Q a w' -> Q' a w') -> (forall s w', E s w' -> E' s w') ->
  wp m Q' E' w.
Proof. unfold wp. destruct (m w) as [[a|s] w']; auto. Qed.

Lemma wp_and (m : M A) Q1 Q2 E1 E2 w :
  wp m Q1 E1 w -> wp m Q2 E2 w ->
  wp m (fun a w' => Q1 a w' /\ Q2 a w') (fun s w' => E1 s w' /\ E2 s w') w.
Proof. unfold wp. destruct (m w) as [[a|s] w']; auto. Qed.

Lemma wp_run (m : M A) (Q : A -> world -> Prop) E w a w' :
  wp m Q E w -> m w = (inl a, w') -> Q a w'.
Proof. unfold wp. intros H E'. rewrite E' in H. exact H. Qed.

Lemma wp_catch (m : M A) h Q (E : stop -> world -> Prop) w :
  wp m Q (fun s w' => match s with Jumped v => wp (h v) Q E w' | _ => E s w' end) w ->
  wp (catch_jump m h) Q E w.
Proof. unfold wp, catch_jump. destruct (m w) as [[a|[]] w']; done. Qed.

End Logic.

Section Specs.
Context {A B : Type}.
Context (R : world -> world -> Prop) (S : stop -> world -> world -> Prop).
Context {F : Framed R S}.

Lemma spec_ret (a : A) : spec R S (mret a).
Proof. intros w. hnf. reflexivity. Qed.

Lemma spec_bind (m : M A) (k : A -> M B) :
  spec R S m -> (forall a, spec R S (k a)) -> spec R S (m ≫= k).
Proof.
  intros Hm Hk w. apply wp_bind. eapply wp_mono; [apply Hm| |done].
  cbn. intros a w' HR. eapply wp_mono; [apply Hk| |]; cbn.
  - intros _ w'' ?. transitivity w'; assumption.
  - intros s w'' ?. eapply framed_absorb; eassumption.
Qed.

Lemma spec_if (b : bool) (m1 m2 : M A) :
  spec R S m1 -> spec R S m2 -> spec R S (if b then m1 else m2).
Proof. by destruct b. Qed.

Lemma spec_rd v : spec R S (rd v).
Proof. intros w. hnf. reflexivity. Qed.

Lemma spec_rds v : spec R S (rds v).
Proof. intros w. hnf. reflexivity. Qed.

Lemma spec_getenv k : spec R S (getenv k).
Proof. intros w. hnf. reflexivity. Qed.

Lemma spec_when (b : bool) m : spec R S m -> spec R S (when b m).
Proof. intros ?. destruct b; simpl; [done|]. intros w. hnf. reflexivity. Qed.

Lemma spec_catch (m : M A) h :
  spec R (fun s w w' => match s with Jumped _ => R w w' | _ => S s w w' end) m ->
  (forall v, spec R S (h v)) -> spec R S (catch_jump m h).
Proof.
  intros Hm Hh w. apply wp_catch. eapply wp_mono; [apply Hm|done|].
  cbn. intros [| |v| | |] w' ?; try done. eapply wp_mono; [apply Hh| |]; cbn.
  - intros _ w'' ?. transitivity w'; assumption.
  - intros s w'' ?. eapply framed_absorb; eassumption.
Qed.

End Specs.

(** [inv I E T m]: run in a state of [I], [m] returns a value of [T] in a
    state of [I], or stops in a state of [E]. *)
Definition inv {A} (I : world -> Prop) (E : stop -> world -> Prop) (T : A -> Prop) (m : M A) : Prop :=
  forall w, I w -> wp m (fun a w' => T a /\ I w') E w.

Notation any := (fun _ => True).

Section Invariants.
Context {A B : Type} (I : world -> Prop) (E : stop -> world -> Prop).

Lemma inv_ret (T : A -> Prop) a : T a -> inv I E T (mret a).
Proof. intros Ha w Hw. by apply wp_ret. Qed.

Lemma inv_bind (T : A -> Prop) (U : B -> Prop) (m : M A) (k : A -> M B) :
  inv I E T m -> (forall a, T a -> inv I E U (k a)) -> inv I E U (m ≫= k).
Proof.
  intros Hm Hk w Hw. apply wp_bind. eapply wp_mono; [by apply Hm| |done]. cbv beta.
  intros a w' [Ha Hw']. by apply Hk.
Qed.

Lemma inv_sub (T U : A -> Prop) m : inv I E T m -> (forall a, T a -> U a) -> inv I E U m.
Proof. intros Hm HTU w Hw. eapply wp_mono; [by apply Hm| |done]. intros a w' []. auto. Qed.

Lemma inv_halt (T : A -> Prop) s : (forall w, I w -> E s w) -> inv I E T (halt s).
Proof. intros Hs w Hw. by apply Hs. Qed.

(** A jump that lands in a state of [I] may be caught. *)
Lemma inv_catch (T : A -> Prop) m h :
  inv I (fun s w => match s with Jumped _ => I w | _ => E s w end) T m -> (forall v, inv I E T (h v)) ->
  inv I E T (catch_jump m h).
Proof.
  intros Hm Hh w Hw. apply wp_catch. eapply wp_mono; [by apply Hm|done|]. cbv beta.
  intros [] w' Hw'; try done. by apply Hh.
Qed.

End Invariants.

(** Peel the structure of a monadic body, leaving the primitive calls. *)
Ltac spec_step :=
  lazymatch goal with
  | |- spec _ _ (mret _) => apply spec_ret; apply _
  | |- spec _ _ (_ ≫= _) => apply spec_bind; [apply _| |intros ?]
  | |- spec _ _ (rd _) => apply spec_rd; apply _
  | |- spec _ _ (rds _) => apply spec_rds; apply _
  | |- spec _ _ (getenv _) => apply spec_getenv; apply _
  | |- spec _ _ (when _ _) => apply spec_when; [apply _|]
  | |- spec _ _ (if ?b then _ else _) => destruct b eqn:?
  | |- spec _ _ (match ?x with _ => _ end) => destruct x eqn:?
  end.

Ltac spec_auto := repeat (spec_step || (progress eauto with machine)).

Section Primitives.

Lemma wp_rd v (Q : Z -> world -> Prop) E w : Q (ints w v) w -> wp (rd v) Q E w.
Proof. done. Qed.

Lemma wp_rds v (Q : option bytes -> world -> Prop) E w : Q (strs w v) w -> wp (rds v) Q E w.
Proof. done. Qed.

Lemma wp_wr v x (Q : unit -> world -> Prop) E w :
  Q tt (set_ints (<[v:=x]> (ints w)) w) -> wp (wr v x) Q E w.
Proof. done. Qed.

Lemma wp_wrs v x (Q : unit -> world -> Prop) E w :
  Q tt (set_strs (<[v:=x]> (strs w)) w) -> wp (wrs v x) Q E w.
Proof. done. Qed.

Lemma wp_getenv k (Q : option bytes -> world -> Prop) E w :
  Q (environ w !! k) w -> wp (getenv k) Q E w.
Proof. done. Qed.

Lemma wp_halt {A} s (Q : A -> world -> Prop) (E : stop -> world -> Prop) w :
  E s w -> wp (halt s) Q E w.
Proof. done. Qed.

End Primitives.

(** Symbolic execution of the monad's own operations. *)
Ltac wp_step :=
  lazymatch goal with
  | |- wp (mret _) _ _ _ => apply wp_ret
  | |- wp (_ ≫= _) _ _ _ => apply wp_bind
  | |- wp (rd _) _ _ _ => apply wp_rd
  | |- wp (rds _) _ _ _ => apply wp_rds
  | |- wp (wr _ _) _ _ _ => apply wp_wr
  | |- wp (wrs _ _) _ _ _ => apply wp_wrs
  | |- wp (getenv _) _ _ _ => apply wp_getenv
  | |- wp (halt _) _ _ _ => apply wp_halt
  | |- wp (when ?b _) _ _ _ => destruct b eqn:?; simpl when
  | |- wp (if ?b then _ else _) _ _ _ => destruct b eqn:?
  end; cbv beta.
