(* ===== verification/Signals.v ===== *)
(** * Signal handling and the system-call primitive (src/signals.rs)

    The handler [sig_catch], the three routines that install and remove
    it, and [sys], the step every later file makes to the host: the call
    is recorded, then the signals the host reports are delivered under the
    signal mask in force. *)

From stdpp Require Import base option list strings gmap functions.
From S2P Require Import Prelude Machine.

Section Signals.
Context {H : Host}.

(** [siglongjmp(jumpbuf, sig)]: the mask [sigsetjmp] saved comes back. *)
Definition siglongjmp (sig : Z) : M unit :=
  fun w => (inr (Jumped sig), set_mask (jumpbuf w) w).

Definition sig_catch (sig : Z) : M unit :=
  (if sig =? SIGUSR1 then wr restart_ssh 1
   else if (sig =? SIGTERM) || (sig =? SIGINT) then
     e ← rd exit_signalled;
     when (negb (e =? 0)) (halt (Exited 1));;
     wr exit_signalled 1
   else mret tt);;
  d ← rd dolongjmp;
  when (negb (d =? 0)) (wr dolongjmp 0;; siglongjmp sig).

(** Delivery of one signal according to its disposition. *)
Definition deliver1 (sig : Z) : M unit := fun w =>
  match disp w sig with
  | SigIgn => (inl tt, w)
  | SigDfl => if default_terminates sig then (inr (Killed sig), w) else (inl tt, w)
  | SigCatch => sig_catch sig w
  end.

Fixpoint deliver (blocked : gset Z) (sigs : list Z) : M unit :=
  match sigs with
  | [] => mret tt
  | s :: r => when (negb (bool_decide (s ∈ blocked))) (deliver1 s);; deliver blocked r
  end.

(** The answer the host gives to [c] in state [w]. *)
Definition answer (w : world) (c : syscall) : reply := kernel (trace w) c.

(** A call during which [blocked] is the signal mask. *)
Definition sys_under (blocked : gset Z) (c : syscall) : M reply := fun w =>
  let r := answer w c in
  (deliver blocked (r_sigs r);; mret r) (set_trace ((c, r) :: trace w) w).

Definition sys (c : syscall) : M reply := fun w => sys_under (mask w) c w.

(** [sigprocmask(SIG_SETMASK, set, ...)] and [SIG_BLOCK]: pending signals
    that the new mask no longer blocks arrive before the call returns. *)
Definition sigprocmask_set (m : gset Z) : M unit :=
  (fun w => (inl tt, set_mask m w));; sys Sys_sigprocmask;; mret tt.

Definition sigprocmask_block (m : gset Z) : M (gset Z) := fun w =>
  (sigprocmask_set (mask w ∪ m);; mret (mask w)) w.

Definition sigaction (sig : Z) (d : disposition) : M unit :=
  (fun w => (inl tt, set_disp (<[sig:=d]> (disp w)) w));;
  sys (Sys_sigaction sig d);; mret tt.

Definition set_exit_sig_handler : M unit :=
  sigaction SIGTERM SigCatch;;
  sigaction SIGINT SigCatch.

Definition set_sig_handlers : M unit :=
  sigaction SIGTERM SigCatch;;
  sigaction SIGINT SigCatch;;
  sigaction SIGHUP SigCatch;;
  sigaction SIGUSR1 SigCatch;;
  sigaction SIGUSR2 SigCatch;;
  sigaction SIGCHLD SigCatch;;
  sigaction SIGALRM SigCatch;;
  sigaction SIGPIPE SigIgn.

Definition unset_sig_handlers : M unit :=
  sigaction SIGHUP SigDfl;;
  sigaction SIGUSR1 SigDfl;;
  sigaction SIGUSR2 SigDfl;;
  sigaction SIGCHLD SigDfl;;
  sigaction SIGALRM SigDfl;;
  sigaction SIGPIPE SigDfl.

End Signals.

(** ** Footprints

    [eff V P w w']: between [w] and [w'] only the integer variables of [V]
    and the three flags a signal handler writes changed, and every system
    call made satisfies [P].  [eff_stop V P X s w w'] is its companion for
    a computation that stops with [s]: by a signal, or for a reason in
    [X]. *)

Definition volatile (v : ivar) : bool :=
  match v with
  | exit_signalled | restart_ssh | dolongjmp => true
  | _ => false
  end.

Definition touches (V : list ivar) (v : ivar) : bool := volatile v || bool_decide (v ∈ V).

Definition calls (P : syscall -> bool) (w w' : world) : Prop :=
  exists t, trace w' = t ++ trace w /\ forallb (fun e => P e.1) t = true.

Record eff (V : list ivar) (P : syscall -> bool) (w w' : world) : Prop := Eff {
  eff_ints : forall v, touches V v = false -> ints w' v = ints w v;
  eff_strs : strs w' = strs w;
  eff_environ : environ w' = environ w;
  eff_args : (newav w', newac w', NEWAV_CAP w') = (newav w, newac w, NEWAV_CAP w);
  eff_disp : disp w' = disp w;
  eff_mask : mask w' = mask w;
  eff_jumpbuf : jumpbuf w' = jumpbuf w;
  eff_nojump : ints w dolongjmp = 0 -> ints w' dolongjmp = 0;
  eff_exiting : ints w exit_signalled <> 0 -> ints w' exit_signalled <> 0;
  eff_calls : calls P w w'
}.

Record eff_stop (V : list ivar) (P : syscall -> bool) (X : stop -> bool)
    (s : stop) (w w' : world) : Prop := EffStop {
  es_ints : forall v, touches V v = false -> ints w' v = ints w v;
  es_strs : strs w' = strs w;
  es_environ : environ w' = environ w;
  es_disp : disp w' = disp w;
  es_calls : calls P w w';
  es_why : match s with
           | Jumped _ => ints w dolongjmp <> 0 /\ mask w' = jumpbuf w /\
                         jumpbuf w' = jumpbuf w /\ ints w' dolongjmp = 0 /\
                         (newav w', newac w', NEWAV_CAP w') = (newav w, newac w, NEWAV_CAP w)
           | Killed g => disp w g = SigDfl /\ default_terminates g = true
           | Exited c => c = 1
           | _ => X s = true
           end
}.

(** Nothing but a signal may stop the computation. *)
Definition by_signal (s : stop) : bool := false.

Section Footprints.

Lemma calls_same P w w' : trace w' = trace w -> calls P w w'.
Proof. intros E. by exists []. Qed.

Lemma calls_refl P w : calls P w w.
Proof. by apply calls_same. Qed.

Lemma calls_trans P w1 w2 w3 : calls P w1 w2 -> calls P w2 w3 -> calls P w1 w3.
Proof.
  intros (t1 & E1 & F1) (t2 & E2 & F2). exists (t2 ++ t1).
  rewrite E2, E1, app_assoc, forallb_app, F1, F2. done.
Qed.

Lemma calls_mono (P P' : syscall -> bool) w w' :
  (forall c, P c = true -> P' c = true) -> calls P w w' -> calls P' w w'.
Proof.
  intros HP (t & E & F). exists t. split; [done|].
  rewrite forallb_forall in F |- *. auto.
Qed.

#[global] Instance eff_preorder V P : PreOrder (eff V P).
Proof.
  split.
  - intros w. split; auto using calls_refl.
  - intros w1 w2 w3 A B. split; try (etransitivity; [apply B|apply A]; fail).
    + intros v Hv. rewrite (eff_ints _ _ _ _ B v Hv). by apply A.
    + intros E. apply B, A, E.
    + intros E. apply B, A, E.
    + eapply calls_trans; [apply A|apply B].
Qed.

(** Footprints grow: fewer promises about variables and calls. *)
Definition sub_vars (V V' : list ivar) : bool :=
  forallb (fun v => touches V' v) V.

Lemma touches_mono V V' v : sub_vars V V' = true -> touches V' v = false -> touches V v = false.
Proof.
  unfold sub_vars, touches. rewrite forallb_forall. intros HS HT.
  apply orb_false_elim in HT as [HV HT]. rewrite HV. simpl.
  apply bool_decide_eq_false. intros Hin.
  specialize (HS v). rewrite HV in HS. simpl in HS.
  rewrite HT in HS. discriminate HS. by apply list_elem_of_In.
Qed.

(** A computation may touch more when it stops than when it returns. *)
Lemma eff_framed V V' (P P' : syscall -> bool) X :
  sub_vars V V' = true -> (forall c, P c = true -> P' c = true) ->
  Framed (eff V P) (eff_stop V' P' X).
Proof.
  intros HV HP. split; [apply _|]. intros s w1 w2 w3 A B. split.
  - intros v Hv. rewrite (es_ints _ _ _ _ _ _ B v Hv). apply A. by eapply touches_mono.
  - etransitivity; [apply B|apply A].
  - etransitivity; [apply B|apply A].
  - etransitivity; [apply B|apply A].
  - eapply calls_trans; [eapply calls_mono; [done|apply A]|apply B].
  - destruct B as [_ _ _ _ _ B]. destruct s; auto.
    + by rewrite <- (eff_disp _ _ _ _ A).
    + destruct B as (N & B & J & D & E). rewrite (eff_jumpbuf _ _ _ _ A) in *.
      repeat split; auto.
      * intros Z. apply N, A, Z.
      * rewrite E. apply A.
Qed.

Lemma eff_mono V V' (P P' : syscall -> bool) w w' :
  sub_vars V V' = true -> (forall c, P c = true -> P' c = true) ->
  eff V P w w' -> eff V' P' w w'.
Proof.
  intros HV HP A. split; try apply A.
  - intros v Hv. apply A. by eapply touches_mono.
  - eapply calls_mono; [done|apply A].
Qed.

Lemma eff_stop_mono V V' (P P' : syscall -> bool) (X X' : stop -> bool) s w w' :
  sub_vars V V' = true -> (forall c, P c = true -> P' c = true) ->
  (forall s, X s = true -> X' s = true) ->
  eff_stop V P X s w w' -> eff_stop V' P' X' s w w'.
Proof.
  intros HV HP HX A. split; try apply A.
  - intros v Hv. apply A. by eapply touches_mono.
  - eapply calls_mono; [done|apply A].
  - destruct A as [_ _ _ _ _ A]. destruct s; auto.
Qed.

Lemma spec_eff_mono V V' W W' (P P' O O' : syscall -> bool) (X X' : stop -> bool) {A} (m : M A) :
  spec (eff V P) (eff_stop W O X) m ->
  sub_vars V V' = true -> sub_vars W W' = true -> (forall c, P c = true -> P' c = true) ->
  (forall c, O c = true -> O' c = true) -> (forall s, X s = true -> X' s = true) ->
  spec (eff V' P') (eff_stop W' O' X') m.
Proof.
  intros Hm HV HW HP HO HX w. eapply wp_mono; [apply Hm| |]; cbn; intros.
  - by eapply eff_mono.
  - by eapply eff_stop_mono.
Qed.

Lemma spec_wr V W P O X v x :
  volatile v = false -> bool_decide (v ∈ V) = true ->
  spec (eff V P) (eff_stop W O X) (wr v x).
Proof.
  intros Hv HV w. hnf. split; simpl; auto using calls_refl.
  - intros u Hu. rewrite fn_lookup_insert_ne; [done|]. intros ->.
    unfold touches in Hu. rewrite HV, orb_true_r in Hu. done.
  - rewrite fn_lookup_insert_ne; [done|]. by intros ->.
  - rewrite fn_lookup_insert_ne; [done|]. by intros ->.
  - by apply calls_same.
Qed.

Lemma spec_halt V W P O (X : stop -> bool) {A} s :
  match s with Exited c => c = 1 | Killed _ | Jumped _ => False | _ => X s = true end ->
  spec (eff V P) (eff_stop W O X) (halt (A := A) s).
Proof. intros Hs w. hnf. split; auto using calls_refl. by destruct s. Qed.

End Footprints.

#[global] Hint Extern 0 (Framed (eff _ _) (eff_stop _ _ _)) =>
  apply eff_framed; [reflexivity || eassumption |
    let c := fresh in intros c; solve [exact (fun e => e) | destruct c; done]] : typeclass_instances.


(** Handling a signal makes no call and touches only the flags. *)
Section Delivery.
Context {H : Host}.

Definition no_call (c : syscall) : bool := false.

Lemma deliver1_eff g : spec (eff [] no_call) (eff_stop [] no_call by_signal) (deliver1 g).
Proof.
  intros w. unfold wp, deliver1. destruct (disp w g) eqn:D.
  - destruct (default_terminates g) eqn:T; split; auto using calls_refl.
  - reflexivity.
  - unfold sig_catch, mbind, M_bind, mret, M_ret, when, rd, wr, halt, siglongjmp.
    repeat (split_if; simpl); zify_bool; split; simpl; auto using calls_same;
      try (intros []; simpl; done); try lia; repeat split; auto; try lia.
Qed.

Lemma deliver_eff m sigs : spec (eff [] no_call) (eff_stop [] no_call by_signal) (deliver m sigs).
Proof.
  induction sigs as [|g r IH]; simpl; [apply spec_ret; apply _|].
  apply spec_bind; [apply _|apply spec_when; [apply _|apply deliver1_eff]|done].
Qed.

Definition is_call (c c' : syscall) : bool := bool_decide (c' = c).

(** A system call: the reply is the host's answer, the call is recorded. *)
Lemma sys_under_ok m c w :
  wp (sys_under m c)
    (fun r w' => r = answer w c /\ trace w' = (c, answer w c) :: trace w /\
                 eff [] (is_call c) w w')
    (fun s w' => trace w' = (c, answer w c) :: trace w /\
                 eff_stop [] (is_call c) by_signal s w w') w.
Proof.
  unfold sys_under. set (r := answer w c). set (w1 := set_trace ((c, r) :: trace w) w).
  change (wp (deliver m (r_sigs r);; mret r) (fun r0 w' => r0 = r /\ trace w' = (c, r) :: trace w /\
     eff [] (is_call c) w w') (fun s w' => trace w' = (c, r) :: trace w /\
     eff_stop [] (is_call c) by_signal s w w') w1).
  assert (forall w', calls no_call w1 w' -> trace w' = (c, r) :: trace w) as HT.
  { intros w' ([|e t] & E & F); [done|discriminate F]. }
  assert (forall w', trace w' = (c, r) :: trace w -> calls (is_call c) w w') as HC.
  { intros w' E. exists [(c, r)]. split; [done|]. unfold is_call. simpl.
    by rewrite bool_decide_true. }
  apply wp_bind. eapply wp_mono; [apply deliver_eff| |]; cbn.
  - intros _ w' E. pose proof (HT _ (eff_calls _ _ _ _ E)) as T. hnf. repeat split; auto; apply E.
  - intros s w' E. pose proof (HT _ (es_calls _ _ _ _ _ _ E)) as T. repeat split; auto; try apply E.
Qed.

Lemma sys_ok c w :
  wp (sys c)
    (fun r w' => r = answer w c /\ trace w' = (c, answer w c) :: trace w /\
                 eff [] (is_call c) w w')
    (fun s w' => trace w' = (c, answer w c) :: trace w /\
                 eff_stop [] (is_call c) by_signal s w w') w.
Proof. apply sys_under_ok. Qed.

Lemma spec_sys V W (P O : syscall -> bool) X c :
  P c = true -> O c = true -> spec (eff V P) (eff_stop W O X) (sys c).
Proof.
  intros HP HO w.
  assert (forall (F : syscall -> bool), F c = true -> forall c', is_call c c' = true -> F c' = true) as Hsub.
  { unfold is_call. intros F HF c' E%bool_decide_eq_true. by subst. }
  eapply wp_mono; [apply sys_ok| |]; cbn.
  - intros r w' (_ & _ & E). by apply (eff_mono [] V (is_call c) P); auto.
  - intros s w' (_ & E). by apply (eff_stop_mono [] W (is_call c) O by_signal X); auto.
Qed.

End Delivery.

(** ** A coarser footprint

    Without the signal mask and the jump buffer, for computations that
    change them; the same promise for every outcome. *)

Record keeps (V : list ivar) (P : syscall -> bool) (w w' : world) : Prop := Keeps {
  keeps_ints : forall v, touches V v = false -> ints w' v = ints w v;
  keeps_strs : strs w' = strs w;
  keeps_environ : environ w' = environ w;
  keeps_disp : disp w' = disp w;
  keeps_calls : calls P w w'
}.

#[global] Instance keeps_preorder V P : PreOrder (keeps V P).
Proof.
  split.
  - intros w. split; auto using calls_refl.
  - intros w1 w2 w3 A B. split; try (etransitivity; [apply B|apply A]; fail).
    + intros v Hv. rewrite (keeps_ints _ _ _ _ B v Hv). by apply A.
    + eapply calls_trans; [apply A|apply B].
Qed.

#[global] Instance keeps_framed V P : Framed (keeps V P) (fun _ => keeps V P).
Proof. split; [apply _|]. intros. by transitivity w2. Qed.

Notation kept V P m := (spec (keeps V P) (fun _ => keeps V P) m).

Section Keeps.
Context {H : Host}.

Lemma kept_eff V V' W (P P' O : syscall -> bool) X {A} (m : M A) :
  spec (eff V P) (eff_stop W O X) m -> sub_vars V V' = true -> sub_vars W V' = true ->
  (forall c, P c = true -> P' c = true) -> (forall c, O c = true -> P' c = true) -> kept V' P' m.
Proof.
  intros Hm HV HW HP HO w. eapply wp_mono; [apply Hm| |]; cbn.
  - intros _ w' E. split; try apply E.
    + intros v Hv. apply E. by eapply touches_mono.
    + eapply calls_mono; [apply HP|apply E].
  - intros s w' E. split; try apply E.
    + intros v Hv. apply E. by eapply touches_mono.
    + eapply calls_mono; [apply HO|apply E].
Qed.

Lemma kept_sys_under V (P : syscall -> bool) m c : P c = true -> kept V P (sys_under m c).
Proof.
  intros HP w. assert (forall c', is_call c c' = true -> P c' = true) as Hsub.
  { unfold is_call. intros c' ->%bool_decide_eq_true. done. }
  assert (forall v, touches V v = false -> touches [] v = false) as HV.
  { intros v. by apply touches_mono. }
  eapply wp_mono; [apply sys_under_ok| |]; cbn.
  - intros r w' (_ & _ & E). split; try apply E; [auto|eapply calls_mono; [done|apply E]].
    intros v Hv. apply E. auto.
  - intros s w' (_ & E). split; try apply E; [auto|eapply calls_mono; [done|apply E]].
    intros v Hv. apply E. auto.
Qed.

Lemma kept_wr V P v x : touches V v = true -> kept V P (wr v x).
Proof.
  intros Hv w. hnf. split; try done; [|by apply calls_same].
  intros u Hu. simpl. rewrite fn_lookup_insert_ne; [done|]. intros ->. congruence.
Qed.

Lemma kept_halt {A} V P s : kept V P (halt (A := A) s).
Proof. intros w. hnf. reflexivity. Qed.

Lemma kept_setmask V (P : syscall -> bool) m : P Sys_sigprocmask = true -> kept V P (sigprocmask_set m).
Proof.
  intros HP. unfold sigprocmask_set.
  apply spec_bind; [apply _| |intros _; apply spec_bind; [apply _| |intros _; apply spec_ret; apply _]].
  - intros w. hnf. split; try done. by apply calls_same.
  - intros w. by apply kept_sys_under.
Qed.

Lemma kept_block V (P : syscall -> bool) m : P Sys_sigprocmask = true -> kept V P (sigprocmask_block m).
Proof.
  intros HP w. unfold sigprocmask_block.
  assert (kept V P (sigprocmask_set (mask w ∪ m);; mret (mask w))) as K; [|apply K].
  apply spec_bind; [apply _|by apply kept_setmask|]. intros _. apply spec_ret. apply _.
Qed.

End Keeps.

#[export] Hint Extern 1 (spec (keeps _ _) _ (sys_under _ _)) => apply kept_sys_under; reflexivity : machine.
#[export] Hint Extern 1 (spec (keeps _ _) _ (sys _)) =>
  intros ?; apply kept_sys_under; reflexivity : machine.
#[export] Hint Extern 1 (spec (keeps _ _) _ (wr _ _)) => apply kept_wr; reflexivity : machine.
#[export] Hint Extern 1 (spec (keeps _ _) _ (halt _)) => apply kept_halt : machine.
#[export] Hint Extern 1 (spec (keeps _ _) _ (sigprocmask_set _)) => apply kept_setmask; reflexivity : machine.
#[export] Hint Extern 1 (spec (keeps _ _) _ (sigprocmask_block _)) => apply kept_block; reflexivity : machine.

(** ** Calls made with every caught signal blocked

    Such calls run no handler: the computation neither jumps nor leaves
    through [sig_catch]. *)

Definition all_blocked (w : world) : Prop := forall g, disp w g = SigCatch -> g ∈ mask w.

Definition quiet (w w' : world) : Prop := disp w' = disp w /\ mask w' = mask w.

Definition quiet_stop (s : stop) (w w' : world) : Prop :=
  all_blocked w -> match s with Jumped _ | Exited _ => False | _ => True end.

#[global] Instance quiet_framed : Framed quiet quiet_stop.
Proof.
  split.
  - split; [done|]. intros w1 w2 w3 [D1 M1] [D2 M2]. split; congruence.
  - intros s w1 w2 w3 [D M] Q B. apply Q. intros g. rewrite D, M. apply B.
Qed.

Section Quiet.
Context {H : Host}.

Lemma deliver_quiet sigs m : spec (fun w w' => quiet w w')
  (fun s w w' => (forall g, disp w g = SigCatch -> g ∈ m) ->
                 match s with Jumped _ | Exited _ => False | _ => True end) (deliver m sigs).
Proof.
  intros w. pose proof (deliver_eff m sigs w) as HE. unfold wp in *.
  destruct (deliver m sigs w) as [[u|s] w'] eqn:E; [split; apply HE|].
  intros B. clear HE. revert w E B. induction sigs as [|g r IH]; intros w E B; [done|].
  simpl in E. unfold mbind, M_bind in E.
  destruct (bool_decide (g ∈ m)) eqn:G; simpl in E; [by eapply IH|].
  apply bool_decide_eq_false in G. unfold deliver1 in E.
  destruct (disp w g) eqn:D; [|by eapply IH|by apply B in D].
  destruct (default_terminates g); [by injection E as <- _|by eapply IH].
Qed.

Lemma sys_quiet c : spec quiet quiet_stop (sys c).
Proof.
  intros w. unfold sys, sys_under.
  pose proof (deliver_quiet (r_sigs (answer w c)) (mask w) (set_trace ((c, answer w c) :: trace w) w)) as D.
  unfold wp, mbind, M_bind in *. destruct (deliver _ _ _) as [[u|s] w']; exact D.
Qed.

Lemma wr_quiet v x : spec quiet quiet_stop (wr v x).
Proof. intros w. done. Qed.

Lemma halt_quiet {A} s :
  match s with Jumped _ | Exited _ => false | _ => true end = true ->
  spec quiet quiet_stop (halt (A := A) s).
Proof. intros Hs w _. by destruct s. Qed.

End Quiet.

#[export] Hint Resolve sys_quiet wr_quiet : machine.
#[export] Hint Extern 1 (spec quiet quiet_stop (halt _)) => apply halt_quiet; reflexivity : machine.

(** ** Computations entered with [dolongjmp] clear never jump *)

Definition calm (s : stop) : Prop := match s with Jumped _ => False | _ => True end.

Notation wpc m Q w := (wp m Q (fun s _ => calm s) w).

Section Calm.
Context {H : Host}.

Lemma eff_stop_calm V P X s w w' : eff_stop V P X s w w' -> ints w dolongjmp = 0 -> calm s.
Proof. intros [_ _ _ _ _ W] D. destruct s; try done. by destruct W as [W _]. Qed.

Lemma wpc_eff {A} V W P O X (m : M A) (Q : A -> world -> Prop) w :
  spec (eff V P) (eff_stop W O X) m -> ints w dolongjmp = 0 ->
  (forall a w', eff V P w w' -> ints w' dolongjmp = 0 -> Q a w') -> wpc m Q w.
Proof.
  intros Hm D HQ. eapply wp_mono; [apply Hm| |]; cbn.
  - intros a w' E. apply HQ; [done|]. by apply E.
  - intros s w' E. by eapply eff_stop_calm.
Qed.

(** A functional fact about the normal outcome, with its footprint. *)
Lemma wpc_and {A} V W P O X (m : M A) (Q1 Q : A -> world -> Prop) w :
  wp m Q1 (fun _ _ => True) w -> spec (eff V P) (eff_stop W O X) m -> ints w dolongjmp = 0 ->
  (forall a w', Q1 a w' -> eff V P w w' -> ints w' dolongjmp = 0 -> Q a w') -> wpc m Q w.
Proof.
  intros H1 Hm D HQ. eapply wp_mono; [apply wp_and; [apply H1|apply Hm]| |]; cbn.
  - intros a w' [K E]. apply HQ; [done|done|]. by apply E.
  - intros s w' [_ E]. by eapply eff_stop_calm.
Qed.

Lemma wpc_sys c (Q : reply -> world -> Prop) w :
  ints w dolongjmp = 0 ->
  (forall w', trace w' = (c, answer w c) :: trace w -> eff [] (is_call c) w w' ->
     ints w' dolongjmp = 0 -> Q (answer w c) w') ->
  wpc (sys c) Q w.
Proof.
  intros D HQ. eapply wp_mono; [apply sys_ok| |]; cbn.
  - intros r w' (-> & T & E). apply HQ; auto. by apply E.
  - intros s w' (_ & E). by eapply eff_stop_calm.
Qed.

Lemma wpc_setmask m (Q : unit -> world -> Prop) w :
  ints w dolongjmp = 0 ->
  (forall w', eff [] (is_call Sys_sigprocmask) (set_mask m w) w' -> ints w' dolongjmp = 0 ->
     trace w' = (Sys_sigprocmask, answer w Sys_sigprocmask) :: trace w -> Q tt w') ->
  wpc (sigprocmask_set m) Q w.
Proof.
  intros D HQ. unfold sigprocmask_set. apply wp_bind. hnf. apply wp_bind.
  apply wpc_sys; [done|]. intros w' T E D'. hnf. by apply HQ.
Qed.

End Calm.
