(* ===== verification/Trace.v ===== *)
(** * Observing the trace

    Rules for reasoning about one system call, and the observations on the
    history of calls that the theorems of the later files speak about:
    the signals sent, the seconds slept, the children to account for, the
    bytes read and written. *)

From stdpp Require Import base option list strings gmap functions.
From S2P Require Import Prelude Machine Signals.

#[export] Hint Extern 1 (spec (eff _ _) (eff_stop _ _ _) (sys _)) =>
  apply spec_sys; reflexivity : machine.
#[export] Hint Extern 1 (spec (eff _ _) (eff_stop _ _ _) (wr _ _)) =>
  apply spec_wr; reflexivity : machine.
#[export] Hint Extern 1 (spec (eff _ _) (eff_stop _ _ _) (halt _)) =>
  apply spec_halt; reflexivity : machine.

(** Reuse of a callee's footprint inside a larger one. *)
Ltac spec_callee lem :=
  eapply spec_eff_mono; [apply lem | reflexivity | reflexivity | | | ];
  [let c := fresh in intros c; destruct c; done | let c := fresh in intros c; destruct c; done
  | let s := fresh in intros s; destruct s; done].

Ltac keeps_callee lem :=
  eapply kept_eff; [apply lem | reflexivity | reflexivity | | ];
  let c := fresh in intros c; destruct c; done.

Section Rules.
Context {H : Host}.

(** Using a specification at a particular state. *)
Lemma wp_spec {A} R S (m : M A) (Q : A -> world -> Prop) (E : stop -> world -> Prop) w :
  spec R S m -> (forall a w', R w w' -> Q a w') -> (forall s w', S s w w' -> E s w') ->
  wp m Q E w.
Proof. intros Hm HQ HE. eapply wp_mono; [apply Hm|auto|auto]. Qed.

Lemma wp_sys c (Q : reply -> world -> Prop) (E : stop -> world -> Prop) w :
  (forall w', trace w' = (c, answer w c) :: trace w -> eff [] (is_call c) w w' ->
     Q (answer w c) w') ->
  (forall s w', trace w' = (c, answer w c) :: trace w ->
     eff_stop [] (is_call c) by_signal s w w' -> E s w') ->
  wp (sys c) Q E w.
Proof.
  intros HQ HE. eapply wp_mono; [apply sys_ok| |]; cbn.
  - intros r w' (-> & ? & ?). auto.
  - intros s w' (? & ?). auto.
Qed.

(** Only the normal outcome matters. *)
Lemma wp_eff {A} V P X (m : M A) (Q : A -> world -> Prop) w :
  spec (eff V P) (eff_stop V P X) m -> (forall a w', eff V P w w' -> Q a w') ->
  wp m Q (fun _ _ => True) w.
Proof. intros Hm HQ. by eapply wp_spec. Qed.

Lemma signal_stop V P s w w' :
  eff_stop V P by_signal s w w' -> s <> NoFuel /\ s <> OutOfBounds.
Proof. intros [_ _ _ _ _ W]. by destruct s. Qed.

End Rules.

(** ** Frame reasoning *)

Lemma wr_eq (f : ivar -> Z) v x : (<[v:=x]> f) v = x.
Proof. apply fn_lookup_insert. Qed.

Lemma wr_ne (f : ivar -> Z) v u x : bool_decide (v = u) = false -> (<[v:=x]> f) u = f u.
Proof. intros ?%bool_decide_eq_false. by apply fn_lookup_insert_ne. Qed.

(** Bring every variable back to the earliest state that gives its value. *)
Ltac frame :=
  repeat (
    cbn [ints strs environ newav newac NEWAV_CAP disp mask jumpbuf trace
         set_ints set_strs set_environ set_args set_disp set_mask set_jumpbuf set_trace] in *;
    match goal with
    | |- context [(<[?v:=_]> _) ?v] => rewrite wr_eq
    | |- context [(<[?v:=_]> _) ?u] => rewrite (wr_ne _ v u) by reflexivity
    | K : context [(<[?v:=_]> _) ?v] |- _ => rewrite wr_eq in K
    | K : context [(<[?v:=_]> _) ?u] |- _ => rewrite (wr_ne _ v u) in K by reflexivity
    | E : eff _ _ ?w ?w' |- context [ints ?w' ?v] => rewrite (eff_ints _ _ _ _ E v eq_refl)
    | E : eff _ _ ?w ?w', K : context [ints ?w' ?v] |- _ =>
        rewrite (eff_ints _ _ _ _ E v eq_refl) in K
    | E : eff _ _ ?w ?w' |- context [disp ?w'] => rewrite (eff_disp _ _ _ _ E)
    | E : eff _ _ ?w ?w' |- context [mask ?w'] => rewrite (eff_mask _ _ _ _ E)
    | E : eff _ _ ?w ?w' |- context [strs ?w'] => rewrite (eff_strs _ _ _ _ E)
    | E : eff _ _ ?w ?w' |- context [environ ?w'] => rewrite (eff_environ _ _ _ _ E)
    end).

(** ** Observations on the trace *)

(** The kill(2) calls, latest first, and the seconds slept. *)
Definition kill_calls (t : list event) : list (Z * Z) :=
  omap (fun e => match e.1 with Sys_kill p s => Some (p, s) | _ => None end) t.

Definition sleeps (t : list event) : list Z :=
  omap (fun e => match e.1 with Sys_sleep n => Some n | _ => None end) t.

Definition slept (t : list event) : Z := foldr Z.add 0 (sleeps t).

Definition count_calls (P : syscall -> bool) (t : list event) : Z :=
  Z.of_nat (List.length (List.filter (fun e => P e.1) t)).

Lemma omap_calls {B} (f : event -> option B) P w w' :
  calls P w w' -> (forall c r, P c = true -> f (c, r) = None) ->
  omap f (trace w') = omap f (trace w).
Proof.
  intros (t & E & F) Hf. rewrite E, omap_app.
  replace (omap f t) with (@nil B); [done|]. clear E.
  induction t as [|[c r] t IH]; [done|]. simpl in *. apply andb_prop in F as [? ?].
  rewrite Hf by done. auto.
Qed.

Lemma kill_calls_same P w w' :
  calls P w w' -> (forall c, P c = true -> match c with Sys_kill _ _ => false | _ => true end = true) ->
  kill_calls (trace w') = kill_calls (trace w).
Proof. intros HC HP. eapply omap_calls; [done|]. intros [] r Hc; try done. by apply HP in Hc. Qed.

Lemma slept_same P w w' :
  calls P w w' -> (forall c, P c = true -> match c with Sys_sleep _ => false | _ => true end = true) ->
  slept (trace w') = slept (trace w).
Proof.
  intros HC HP. unfold slept. f_equal. eapply omap_calls; [done|].
  intros [] r Hc; try done. by apply HP in Hc.
Qed.

(** The errors and options the observations on children look at. *)
Definition ECHILD : Z := 10.
Definition EINTR : Z := 4.
Definition EAGAIN : Z := 11.
Definition WNOHANG : Z := 1.

(** A [waitpid] that returned the child, or that failed for a reason other
    than an interruption. *)
Definition gone (r : reply) : bool :=
  (0 <? r_ret r) || ((r_ret r <? 0) && negb (r_errno r =? EINTR)).

Definition without (c : Z) (l : list Z) : list Z := List.filter (fun q => negb (q =? c)) l.

(** The children no [waitpid] has reported gone.  (A pid that is forked
    again has been free in between.) *)
Definition unreaped_step (e : event) (l : list Z) : list Z :=
  match e with
  | (Sys_fork, r) => if 0 <? r_ret r then r_ret r :: without (r_ret r) l else l
  | (Sys_waitpid p _, r) => if gone r then without p l else l
  | _ => l
  end.

Definition unreaped (t : list event) : list Z := foldr unreaped_step [] t.

(** How often [p] was waited for since it was sent SIGKILL; [None] if it
    was not, or was forked since. *)
Definition polls_step (p : Z) (e : event) (d : option nat) : option nat :=
  match e with
  | (Sys_fork, r) => if r_ret r =? p then None else d
  | (Sys_kill q g, _) => if (q =? p) && (g =? SIGKILL) then Some (default O d) else d
  | (Sys_waitpid q _, _) => if q =? p then S <$> d else d
  | _ => d
  end.

Definition polls_since_kill (p : Z) (t : list event) : option nat := foldr (polls_step p) None t.

(** A child in an uninterruptible state outlives SIGKILL.  It is given up
    after two polls have not found it gone. *)
Definition enough_polls (d : option nat) : bool :=
  match d with Some n => (2 <=? n)%nat | None => false end.

Definition given_up (p : Z) (t : list event) : bool := enough_polls (polls_since_kill p t).

(** The children the supervisor has to account for: neither reaped nor
    given up.  Those given up are still processes. *)
Definition live (t : list event) : list Z := List.filter (fun p => negb (given_up p t)) (unreaped t).
Definition abandoned (t : list event) : list Z := List.filter (fun p => given_up p t) (unreaped t).

Definition changes_live (c : syscall) : bool :=
  match c with Sys_fork | Sys_waitpid _ _ | Sys_kill _ _ => true | _ => false end.

Lemma foldr_inert {A} (f : event -> A -> A) (a : A) P w w' :
  calls P w w' -> (forall c r x, P c = true -> f (c, r) x = x) ->
  foldr f a (trace w') = foldr f a (trace w).
Proof.
  intros (t & -> & F) HP. rewrite foldr_app. induction t as [|[c r] t IH]; [done|].
  simpl in F. apply andb_prop in F as [Hc F]. simpl. by rewrite IH, HP.
Qed.

Lemma polls_same P p w w' :
  calls P w w' -> (forall c, P c = true -> changes_live c = false) ->
  polls_since_kill p (trace w') = polls_since_kill p (trace w).
Proof. intros C HP. eapply foldr_inert; [exact C|]. intros c r x Hc. apply HP in Hc. by destruct c. Qed.

Lemma live_same P w w' :
  calls P w w' -> (forall c, P c = true -> changes_live c = false) ->
  live (trace w') = live (trace w).
Proof.
  intros C HP. unfold live.
  assert (unreaped (trace w') = unreaped (trace w)) as ->.
  { eapply foldr_inert; [exact C|]. intros c r x Hc. apply HP in Hc. by destruct c. }
  apply List.filter_ext. intros p. unfold given_up. by rewrite (polls_same P p w w').
Qed.

(** No fork happens while there is a child to account for: every earlier
    one has been reaped or given up. *)
Fixpoint single_child (t : list event) : Prop :=
  match t with
  | [] => True
  | (Sys_fork, _) :: t' => live t' = [] /\ single_child t'
  | _ :: t' => single_child t'
  end.

#[global] Arguments kill_calls : simpl never.
#[global] Arguments slept : simpl never.
#[global] Arguments live : simpl never.
#[global] Arguments unreaped : simpl never.
#[global] Arguments polls_since_kill : simpl never.
#[global] Arguments gone : simpl never.

(** Effect of one more event on the observations. *)
Lemma slept_cons c r t :
  slept ((c, r) :: t) = (match c with Sys_sleep n => n | _ => 0 end) + slept t.
Proof. by destruct c. Qed.

Lemma kill_calls_cons c r t :
  kill_calls ((c, r) :: t) =
  match c with Sys_kill p s => (p, s) :: kill_calls t | _ => kill_calls t end.
Proof. by destruct c. Qed.

(** One more event and the children: any other call leaves them alone, a
    signal never removes one, a wait removes at most the child it is for,
    and after a fork with none left there is one. *)
Lemma without_twice c l : without c (without c l) = without c l.
Proof. unfold without. induction l as [|x l IH]; simpl; [done|]. destruct (negb (x =? c)) eqn:E; simpl; by rewrite ?E, IH. Qed.

Lemma live_other e t : changes_live e.1 = false -> live (e :: t) = live t.
Proof. intros C. destruct e as [c r]. by destruct c. Qed.

Lemma polls_kill p g q r t :
  polls_since_kill q ((Sys_kill p g, r) :: t) =
  if (p =? q) && (g =? SIGKILL) then Some (default O (polls_since_kill q t)) else polls_since_kill q t.
Proof. done. Qed.

Lemma polls_wait p q o r t :
  polls_since_kill q ((Sys_waitpid p o, r) :: t) =
  if p =? q then S <$> polls_since_kill q t else polls_since_kill q t.
Proof. done. Qed.

(** Dropping [p] from a list whose other elements are judged alike. *)
Lemma filter_drop p (f g : Z -> bool) l :
  (forall q, q <> p -> f q = g q) -> List.filter f (without p l) = without p (List.filter g l).
Proof.
  intros E. unfold without. induction l as [|q l IH]; [done|]. simpl. destruct (q =? p) eqn:Q; zify_bool; simpl.
  - subst. destruct (g p); simpl; rewrite ?Z.eqb_refl; done.
  - rewrite E by done. destruct (g q); simpl; rewrite ?(proj2 (Z.eqb_neq q p)) by done; by rewrite IH.
Qed.

Lemma live_kill p g r t : live ((Sys_kill p g, r) :: t) = live t.
Proof.
  apply List.filter_ext. intros q. unfold given_up. rewrite polls_kill.
  by destruct ((p =? q) && (g =? SIGKILL)), (polls_since_kill q t).
Qed.

Lemma live_wait p o r t :
  live ((Sys_waitpid p o, r) :: t) =
  if gone r || enough_polls (S <$> polls_since_kill p t) then without p (live t) else live t.
Proof.
  unfold live. change (unreaped ((Sys_waitpid p o, r) :: t)) with (if gone r then without p (unreaped t) else unreaped t).
  assert (forall q, q <> p -> given_up q ((Sys_waitpid p o, r) :: t) = given_up q t) as E.
  { intros q N. unfold given_up. rewrite polls_wait. by rewrite (proj2 (Z.eqb_neq p q)). }
  assert (given_up p ((Sys_waitpid p o, r) :: t) = enough_polls (S <$> polls_since_kill p t)) as Ep.
  { unfold given_up. by rewrite polls_wait, Z.eqb_refl. }
  destruct (gone r); simpl; [apply filter_drop; intros q N; by rewrite E|].
  destruct (enough_polls (S <$> polls_since_kill p t)) eqn:G.
  - rewrite <- (filter_drop p (fun q => negb (given_up q ((Sys_waitpid p o, r) :: t)))) by (intros q N; by rewrite E).
    unfold without. induction (unreaped t) as [|q l IH]; [done|]. simpl. destruct (q =? p) eqn:Q; zify_bool; simpl.
    + subst. rewrite Ep. done.
    + by rewrite IH.
  - apply List.filter_ext. intros q. destruct (decide (q = p)) as [->|N]; [|by rewrite E]. rewrite Ep.
    unfold given_up. destruct (polls_since_kill p t) as [n|]; [|done]. simpl in *. by destruct n as [|[]].
Qed.

(** A wait for [p] and the children without it. *)
Lemma live_wait_cases p o r t l :
  live t = l \/ live t = without p l ->
  live ((Sys_waitpid p o, r) :: t) = l \/ live ((Sys_waitpid p o, r) :: t) = without p l.
Proof. rewrite live_wait. split_if; intros [-> | ->]; rewrite ?without_twice; auto. Qed.

Lemma live_wait_gone p o r t l :
  gone r = true -> live t = l \/ live t = without p l -> live ((Sys_waitpid p o, r) :: t) = without p l.
Proof. intros G. rewrite live_wait, G. intros [-> | ->]; [done|apply without_twice]. Qed.

Lemma live_given_up p t : given_up p t = true -> without p (live t) = live t.
Proof.
  intros G. unfold live, without. induction (unreaped t) as [|q l IH]; [done|]. simpl.
  destruct (given_up q t) eqn:Q; simpl; [done|]. rewrite IH. destruct (q =? p) eqn:E; [|done]. zify_bool. congruence.
Qed.

Lemma live_fork r t : live t = [] -> live ((Sys_fork, r) :: t) = if 0 <? r_ret r then [r_ret r] else [].
Proof.
  intros L. unfold live in *.
  assert (forall q, q <> r_ret r -> given_up q ((Sys_fork, r) :: t) = given_up q t) as E.
  { intros q N. unfold given_up.
    change (polls_since_kill q ((Sys_fork, r) :: t)) with (if r_ret r =? q then None else polls_since_kill q t).
    by rewrite (proj2 (Z.eqb_neq (r_ret r) q)). }
  change (unreaped ((Sys_fork, r) :: t)) with
    (if 0 <? r_ret r then r_ret r :: without (r_ret r) (unreaped t) else unreaped t).
  assert (given_up (r_ret r) ((Sys_fork, r) :: t) = false) as Er.
  { unfold given_up.
    change (polls_since_kill (r_ret r) ((Sys_fork, r) :: t)) with
      (if r_ret r =? r_ret r then None else polls_since_kill (r_ret r) t). by rewrite Z.eqb_refl. }
  destruct (0 <? r_ret r) eqn:R; zify_bool.
  - cbn [List.filter]. rewrite Er. cbn [negb]. f_equal.
    rewrite (filter_drop _ _ (fun q => negb (given_up q t))) by (intros q N; by rewrite E). by rewrite L.
  - rewrite <- L. apply List.filter_ext_in. intros q Hq. rewrite E; [done|]. intros ->.
    enough (0 < r_ret r) by lia. revert Hq. clear. induction t as [|[c r'] t IH]; [done|].
    change (unreaped ((c, r') :: t)) with (unreaped_step (c, r') (unreaped t)).
    destruct c; simpl; auto.
    + destruct (gone r'); [|auto]. unfold without. rewrite filter_In. intros []. auto.
    + destruct (0 <? r_ret r') eqn:R'; [|auto]. zify_bool. intros [<-|K]; [done|].
      unfold without in K. rewrite filter_In in K. destruct K. auto.
Qed.

#[export] Hint Rewrite slept_cons kill_calls_cons live_kill : trace.
#[export] Hint Rewrite live_other using reflexivity : trace.

Definition forks (t : list event) : Z :=
  count_calls (fun c => match c with Sys_fork => true | _ => false end) t.

(** The chunks read from any descriptor (latest first), the texts written
    to our own stderr, the clock readings. *)
Definition chunk (r : reply) : bytes := take (Z.to_nat (r_ret r)) (r_data r).

Definition reads (t : list event) : list bytes :=
  omap (fun e => match e with
                 | (Sys_read _ _, r) => if 0 <? r_ret r then Some (chunk r) else None
                 | _ => None
                 end) t.

Definition stderr_writes (t : list event) : list bytes :=
  omap (fun e => match e.1 with Sys_write fd b => if fd =? 2 then Some b else None | _ => None end) t.

Definition clock_reads (t : list event) : list Z :=
  omap (fun e => match e with (Sys_time, r) => Some (r_ret r) | _ => None end) t.

#[global] Arguments reads : simpl never.
#[global] Arguments stderr_writes : simpl never.
#[global] Arguments clock_reads : simpl never.

Lemma reads_cons c r t :
  reads ((c, r) :: t) =
  match c with
  | Sys_read _ _ => if 0 <? r_ret r then chunk r :: reads t else reads t
  | _ => reads t
  end.
Proof. destruct c; try done. unfold reads. simpl. by destruct (0 <? r_ret r). Qed.

Lemma stderr_writes_cons c r t :
  stderr_writes ((c, r) :: t) =
  match c with
  | Sys_write fd b => if fd =? 2 then b :: stderr_writes t else stderr_writes t
  | _ => stderr_writes t
  end.
Proof. destruct c; try done. unfold stderr_writes. simpl. by destruct (fd =? 2). Qed.

(** The bytes [write] accepted, piece by piece (latest first) with their
    descriptor, and joined in the order of writing. *)
Definition writes (t : list event) : list (Z * bytes) :=
  omap (fun e => match e with
                 | (Sys_write fd b, r) => if 0 <? r_ret r then Some (fd, take (Z.to_nat (r_ret r)) b) else None
                 | _ => None
                 end) t.

Definition bytes_sent (t : list event) : bytes := concat (rev (map snd (writes t))).

(** The bytes read, joined in the order of reading. *)
Definition bytes_got (t : list event) : bytes := concat (rev (reads t)).

#[global] Arguments writes : simpl never.

Lemma bytes_got_app t u : bytes_got (t ++ u) = bytes_got u ++ bytes_got t.
Proof. unfold bytes_got, reads. by rewrite omap_app, rev_app_distr, concat_app. Qed.

Lemma bytes_sent_app t u : bytes_sent (t ++ u) = bytes_sent u ++ bytes_sent t.
Proof. unfold bytes_sent, writes. by rewrite omap_app, map_app, rev_app_distr, concat_app. Qed.

(** Calls that move no bytes. *)
Definition moves_bytes (c : syscall) : bool :=
  match c with Sys_read _ _ | Sys_write _ _ => true | _ => false end.

Lemma quiet_calls P w w' :
  calls P w w' -> (forall c, P c = true -> moves_bytes c = false) ->
  exists t, trace w' = t ++ trace w /\ reads t = [] /\ writes t = [].
Proof.
  intros (t & E & F) HP. exists t. split; [done|]. clear E. induction t as [|[c r] t IH]; [done|].
  simpl in F. apply andb_prop in F as [Hc F]. apply HP in Hc. destruct (IH F) as [R W].
  unfold reads, writes in *. by destruct c; simpl in *.
Qed.

Lemma clock_reads_mono P w w' x :
  calls P w w' -> In x (clock_reads (trace w)) -> In x (clock_reads (trace w')).
Proof.
  intros (t & -> & _) Hx. unfold clock_reads. rewrite omap_app. apply in_or_app. by right.
Qed.

#[export] Hint Rewrite reads_cons stderr_writes_cons : trace.

(** ** Scripted hosts, to run the model on concrete inputs

    Each kind of system call has its own queue of replies, as in the mock
    layer of the repository's unit tests; an exhausted queue answers 0. *)
Definition ok_reply : reply := Reply 0 0 0 0 [] [].
Definition ret_reply (z : Z) : reply := Reply z 0 0 0 [] [].
Definition err_reply (e : Z) : reply := Reply (-1) e 0 0 [] [].
Definition data_reply (s : bytes) : reply := Reply (Z.of_nat (List.length s)) 0 0 0 s [].

Definition same_kind (c d : syscall) : bool :=
  match c, d with
  | Sys_time, Sys_time | Sys_alarm _, Sys_alarm _ | Sys_sleep _, Sys_sleep _
  | Sys_kill _ _, Sys_kill _ _ | Sys_waitpid _ _, Sys_waitpid _ _ | Sys_close _, Sys_close _
  | Sys_read _ _, Sys_read _ _ | Sys_write _ _, Sys_write _ _ | Sys_pipe, Sys_pipe
  | Sys_fork, Sys_fork | Sys_ppoll _ _, Sys_ppoll _ _ | Sys_sigsuspend, Sys_sigsuspend
  | Sys_poll _ _, Sys_poll _ _ | Sys_accept _, Sys_accept _ | Sys_socket, Sys_socket
  | Sys_connect _, Sys_connect _ | Sys_getaddrinfo _ _, Sys_getaddrinfo _ _
  | Sys_fopen _ _, Sys_fopen _ _ | Sys_getpid, Sys_getpid | Sys_fprintf _ _, Sys_fprintf _ _
  | Sys_open _ _ _, Sys_open _ _ _ | Sys_random, Sys_random | Sys_uname, Sys_uname | Sys_execvp _, Sys_execvp _
  | Sys_now, Sys_now | Sys_tcp_connect _ _ _, Sys_tcp_connect _ _ _ | Sys_resolve _ _, Sys_resolve _ _
  | Sys_tcp_listen _ _, Sys_tcp_listen _ _ | Sys_getsockname _, Sys_getsockname _ => true
  | _, _ => false
  end.

Definition mock_host (q : syscall -> list reply) : Host := {|
  kernel h c := nth (List.length (List.filter (fun e => same_kind c e.1) h)) (q c) ok_reply;
  strerror _ := None;
  gai_strerror _ := None;
  SO_BYTES := lit "ELF";
  fuel := 50
|}.
