(* ===== verification/Log.v ===== *)
(** * Logging (src/log.rs, and [timestr] of src/util.rs) *)

From Stdlib Require Import Ascii String.
From stdpp Require Import base option list strings gmap functions.
From S2P Require Import Prelude Machine Signals Trace.

(** ** UTF-8 validation, as [CStr::to_str] performs it *)

Definition byte_in (lo hi : N) (c : ascii) : bool :=
  (lo <=? N_of_ascii c)%N && (N_of_ascii c <=? hi)%N.

Definition utf8_cont (c : ascii) : bool := byte_in 128 191 c.

(** The second byte allowed after the lead byte of a 3-byte sequence. *)
Definition utf8_second3 (a b : ascii) : bool :=
  if byte_in 224 224 a then byte_in 160 191 b
  else if byte_in 237 237 a then byte_in 128 159 b
  else byte_in 225 239 a && utf8_cont b.

Definition utf8_second4 (a b : ascii) : bool :=
  if byte_in 240 240 a then byte_in 144 191 b
  else if byte_in 244 244 a then byte_in 128 143 b
  else byte_in 241 243 a && utf8_cont b.

Fixpoint utf8_valid (s : bytes) : bool :=
  match s with
  | [] => true
  | a :: r =>
      if byte_in 0 127 a then utf8_valid r
      else match r with
      | [] => false
      | b :: r2 =>
          if byte_in 194 223 a && utf8_cont b then utf8_valid r2
          else match r2 with
          | [] => false
          | c :: r3 =>
              if utf8_second3 a b && utf8_cont c then utf8_valid r3
              else match r3 with
              | [] => false
              | d :: r4 => utf8_second4 a b && utf8_cont c && utf8_cont d && utf8_valid r4
              end
          end
      end
  end.

(** ** [CStr::to_string_lossy] *)

Definition replacement : bytes := ["239"; "191"; "189"]%char.

(** Every maximal ill-formed sequence becomes U+FFFD. *)
Fixpoint utf8_lossy (s : bytes) : bytes :=
  match s with
  | [] => []
  | a :: r =>
      if byte_in 0 127 a then a :: utf8_lossy r
      else match r with
      | [] => replacement
      | b :: r2 =>
          if byte_in 194 223 a && utf8_cont b then a :: b :: utf8_lossy r2
          else if utf8_second3 a b || utf8_second4 a b then
            match r2 with
            | [] => replacement
            | c :: r3 =>
                if negb (utf8_cont c) then replacement ++ utf8_lossy r2
                else if utf8_second3 a b then a :: b :: c :: utf8_lossy r3
                else match r3 with
                | [] => replacement
                | d :: r4 => if utf8_cont d then a :: b :: c :: d :: utf8_lossy r4
                             else replacement ++ utf8_lossy r3
                end
            end
          else replacement ++ utf8_lossy r
      end
  end.

Definition cstr_or (p : option bytes) (fallback : string) : bytes :=
  match p with
  | None => lit fallback
  | Some s => if utf8_valid s then s else lit "<non-utf8>"
  end.

Definition nl : ascii := "010"%char.
Definition dquote : ascii := "034"%char.

(** The stream [stderr]; [flog] is NULL when 0. *)
Definition stderr_stream : Z := 2.

Section Log.
Context {H : Host}.

(** [localtime] and [strftime] are one call; a zero result is a NULL
    [tm], for which the buffer is the empty string. *)
Definition timestr : M bytes :=
  t ← sys Sys_time;
  r ← sys (Sys_strftime (r_ret t));
  if r_ret r =? 0 then mret [] else mret (c_str (r_data r)).

Definition errlog_str (level : Z) (msg : option bytes) : M unit :=
  ll ← rd loglevel;
  match msg with
  | None => mret tt
  | Some m =>
      if ll <? level then mret tt else
      lt ← rd logtype;
      when (negb (Z.land lt L_SYSLOG =? 0)) (sys (Sys_syslog level m);; mret tt);;
      f ← rd flog;
      let fl := if (Z.land lt L_SYSLOG =? 0) && (f =? 0) then stderr_stream else f in
      when (negb (Z.land lt L_FILELOG =? 0) && negb (fl =? 0)) (
        p ← rds progname;
        ts ← timestr;
        pid ← sys Sys_getpid;
        sys (Sys_fprintf fl (ts ++ lit " " ++ default (lit "autossh") p ++ lit "[" ++
                             show_Z (r_ret pid) ++ lit "]: " ++ m ++ [nl]));;
        sys (Sys_fflush fl);;
        mret tt)
  end.

(** The [errlog!] macro: a message with an interior NUL is dropped by
    [CString::new]. *)
Definition errlog (level : Z) (msg : bytes) : M unit :=
  if nul_free msg then errlog_str level (Some msg) else mret tt.

End Log.

Definition is_log (c : syscall) : bool :=
  match c with
  | Sys_time | Sys_strftime _ | Sys_syslog _ _ | Sys_getpid | Sys_fprintf _ _ | Sys_fflush _ => true
  | _ => false
  end.

Section LogFacts.
Context {H : Host}.

Lemma errlog_eff l m : spec (eff [] is_log) (eff_stop [] is_log by_signal) (errlog l m).
Proof. unfold errlog, errlog_str, timestr. spec_auto. Qed.

Lemma wp_errlog l m (Q : unit -> world -> Prop) (E : stop -> world -> Prop) w :
  (forall w', eff [] is_log w w' -> Q tt w') ->
  (forall s w', eff_stop [] is_log by_signal s w w' -> E s w') ->
  wp (errlog l m) Q E w.
Proof. intros HQ HE. eapply wp_spec; [apply errlog_eff| |done]. intros []; auto. Qed.

(** A message is written iff its level is at most [loglevel]. *)
Lemma errlog_suppressed l m w :
  ints w loglevel < l -> errlog l m w = (inl tt, w).
Proof.
  intros L. unfold errlog, errlog_str. destruct (nul_free m); [|done].
  unfold mbind, M_bind, rd. cbn. replace (ints w loglevel <? l) with true by lia. done.
Qed.

End LogFacts.
