(* ===== verification/Kill.v ===== *)
(** * The process killer (src/kill.rs), fatal exit (src/log.rs) and pid-file
    removal (src/util.rs) *)

From Stdlib Require Import Ascii String.
From stdpp Require Import base option list strings gmap functions.
From S2P Require Import Prelude Machine Signals Trace Log.

Definition SIGTERM_GRACE : Z := 2.
Definition SIGKILL_WAIT : Z := 2.

Section Kill.
Context {H : Host}.

(** The [while waited < seconds] loop, on the iterations left. *)
Fixpoint reap_loop (left : nat) (after_sigkill : bool) : M bool :=
  match left with
  | O => mret false
  | S n =>
      c ← rd cchild;
      w ← sys (Sys_waitpid c WNOHANG);
      if 0 <? r_ret w then wr cchild 0;; mret true else
      if (r_ret w <? 0) && (r_errno w =? ECHILD) then wr cchild 0;; mret true else
      if (r_ret w <? 0) && negb (r_errno w =? EINTR) then
        errlog LOG_ERR ((if after_sigkill then lit "waitpid after SIGKILL: " else lit "waitpid: ")
                        ++ cstr_or (strerror (r_errno w)) "?");;
        wr cchild 0;;
        mret true
      else
        sys (Sys_sleep 1);;
        reap_loop n after_sigkill
  end.

Definition reap_with_grace (seconds : Z) (after_sigkill : bool) : M bool :=
  reap_loop (Z.to_nat seconds) after_sigkill.

Definition close_ssh_stderr : M unit :=
  fd ← rd ssh_stderr_fd;
  when (0 <=? fd) (sys (Sys_close fd);; wr ssh_stderr_fd (-1)).

(** SIGKILL, the second grace period, and abandonment. *)
Definition escalate : M unit :=
  child ← rd cchild;
  errlog LOG_WARNING (lit "ssh child " ++ show_Z child ++ lit " did not exit after "
                      ++ show_Z SIGTERM_GRACE ++ lit " seconds, sending SIGKILL");;
  c ← rd cchild;
  sys (Sys_kill c SIGKILL);;
  reaped ← reap_with_grace SIGKILL_WAIT true;
  if (reaped : bool) then mret tt else
  child ← rd cchild;
  errlog LOG_ERR (lit "ssh child " ++ show_Z child ++ lit " not dead after SIGKILL + "
                  ++ show_Z SIGKILL_WAIT
                  ++ lit " seconds (likely in uninterruptible state); abandoning");;
  wr cchild 0.

Definition ssh_kill : M unit :=
  close_ssh_stderr;;
  c ← rd cchild;
  if c =? 0 then mret tt else
  sys (Sys_kill c SIGTERM);;
  reaped ← reap_with_grace SIGTERM_GRACE false;
  if (reaped : bool) then mret tt else escalate.

Definition unlink_pid_file : M unit :=
  c ← rd pid_file_created;
  p ← rds pid_file_name;
  match p with
  | Some name => when (negb (c =? 0)) (sys (Sys_unlink name);; mret tt)
  | None => mret tt
  end;;
  wr pid_file_created 0.

Definition xerrlog_str (level : Z) (msg : option bytes) : M unit :=
  errlog_str level msg;;
  ssh_kill;;
  unlink_pid_file;;
  halt (Exited 1).

(** The [xerrlog!] macro, of any result type since it never returns. *)
Definition xerrlog {A} (level : Z) (msg : bytes) : M A :=
  xerrlog_str level
    (Some (if nul_free msg then msg else lit "autossh: log formatting failed"));;
  halt (Exited 1).

End Kill.

(** ** Footprints *)

Definition is_kill_call (c : syscall) : bool :=
  is_log c ||
  match c with
  | Sys_close _ | Sys_kill _ _ | Sys_waitpid _ _ | Sys_sleep _ => true
  | _ => false
  end.

Definition is_exit_call (c : syscall) : bool :=
  is_kill_call c || match c with Sys_unlink _ => true | _ => false end.

Notation kill_vars := [cchild; ssh_stderr_fd].
Notation exit_vars := [cchild; ssh_stderr_fd; pid_file_created].

#[export] Hint Extern 1 (spec (eff _ _) (eff_stop _ _ _) (errlog _ _)) =>
  spec_callee errlog_eff : machine.

Section KillFacts.
Context {H : Host}.

Lemma reap_eff n a :
  spec (eff [cchild] is_kill_call) (eff_stop [cchild] is_kill_call by_signal) (reap_loop n a).
Proof. induction n as [|n IH]; simpl; spec_auto. Qed.

Lemma ssh_kill_eff :
  spec (eff kill_vars is_kill_call) (eff_stop kill_vars is_kill_call by_signal) ssh_kill.
Proof.
  assert (forall n a, spec (eff kill_vars is_kill_call) (eff_stop kill_vars is_kill_call by_signal)
                        (reap_loop n a)) by (intros; spec_callee reap_eff).
  unfold ssh_kill, close_ssh_stderr, escalate, reap_with_grace. spec_auto.
Qed.

(** ** Functional behaviour *)

(** What a bout of [n] polls means for child [c]: it is the only one that
    may be off the list, it is when it was seen gone, and otherwise it has
    been polled [n] times more. *)
Definition polled (c : Z) (n : nat) (reaped : bool) (t t' : list event) : Prop :=
  (live t' = live t \/ live t' = without c (live t)) /\
  if reaped then live t' = without c (live t)
  else polls_since_kill c t' = Nat.add n <$> polls_since_kill c t.

Lemma polled_same P c n b t w w' :
  calls P w w' -> (forall s, P s = true -> changes_live s = false) ->
  polled c n b t (trace w) -> polled c n b t (trace w').
Proof. intros C HP. unfold polled. by rewrite (live_same _ _ _ C HP), (polls_same _ c _ _ C HP). Qed.

(** One poll, then a bout. *)
Lemma polled_step c n b o r t t' :
  gone r = false -> polled c n b ((Sys_waitpid c o, r) :: t) t' -> polled c (S n) b t t'.
Proof.
  intros G [L K].
  assert (live t' = live t \/ live t' = without c (live t)) as L'.
  { rewrite live_wait in L. destruct L as [-> | ->]; split_if; rewrite ?without_twice; auto. }
  split; [done|]. destruct b.
  - rewrite K, live_wait. split_if; by rewrite ?without_twice.
  - rewrite K, polls_wait, Z.eqb_refl. destruct (polls_since_kill c t); simpl; [|done]. do 2 f_equal. lia.
Qed.

(** One bout of polling sends no signal, sleeps at most one second per
    poll, and either clears [cchild] after the child was seen gone, or
    leaves it with every poll having found it running. *)
Lemma reap_loop_ok n a w :
  wp (reap_loop n a)
    (fun reaped w' =>
       kill_calls (trace w') = kill_calls (trace w) /\
       slept (trace w') <= slept (trace w) + Z.of_nat n /\
       ints w' cchild = (if reaped then 0 else ints w cchild) /\
       polled (ints w cchild) n reaped (trace w) (trace w'))
    (fun _ _ => True) w.
Proof.
  revert w. induction n as [|n IH]; intros w; simpl reap_loop.
  { wp_step. split_and!; [done|lia|done|]. split; [by left|]. by destruct (polls_since_kill _ _). }
  wp_step. wp_step. wp_step. apply wp_sys; [|done]. intros w1 T1 E1.
  set (r := answer w _) in *.
  set (Post := fun (reaped : bool) w' => _ /\ _).
  assert (gone r = true -> polled (ints w cchild) (S n) true (trace w) (trace w1)) as Gone.
  { intros G. unfold polled. rewrite T1, live_wait, G. auto. }
  assert (gone r = true -> forall b, wp (wr cchild 0;; mret true) Post b w1) as Reaped.
  { intros G b. repeat wp_step. unfold Post. frame. cbn [trace set_ints]. rewrite T1 at 1 2. autorewrite with trace.
    split_and!; [done|lia|done|auto]. }
  assert (gone r = false -> wp (sys (Sys_sleep 1);; reap_loop n a) Post (fun _ _ => True) w1) as Again.
  { intros G. wp_step. apply wp_sys; [|done]. intros w2 T2 E2.
    eapply wp_mono; [apply IH| |done]. unfold Post. cbn beta. frame.
    intros b w' (K & S & -> & Pl). rewrite K. rewrite T2, T1 in S |- *. autorewrite with trace in *.
    split_and!; [done|lia|done|]. apply (polled_step _ _ _ WNOHANG r); [done|].
    unfold polled in *. rewrite T2, live_other, T1 in Pl by done. exact Pl. }
  unfold gone in *.
  destruct (0 <? r_ret r) eqn:R1; [by apply Reaped|].
  destruct (r_ret r <? 0) eqn:R2; simpl in *; [|by apply Again].
  destruct (r_errno r =? ECHILD) eqn:R3.
  { apply Reaped. zify_bool. rewrite R3. done. }
  destruct (r_errno r =? EINTR) eqn:R4; simpl in *; [by apply Again|].
  wp_step. apply wp_errlog; [|done]. intros w2 E2. repeat wp_step. unfold Post. frame. cbn [trace set_ints].
  pose proof (eff_calls _ _ _ _ E2) as C.
  rewrite (kill_calls_same _ _ _ C), (slept_same _ _ _ C) by (by intros []).
  rewrite T1 at 1 2. autorewrite with trace. split_and!; [done|lia|done|].
  eapply polled_same; [exact C|by intros []|auto].
Qed.

(** The signals [ssh_kill] adds to the history [k] for child [c]. *)
Definition kill_sequence (c : Z) (k k' : list (Z * Z)) : Prop :=
  if c =? 0 then k' = k
  else k' = (c, SIGTERM) :: k \/ k' = (c, SIGKILL) :: (c, SIGTERM) :: k.

(** What [reap_with_grace] guarantees, with its footprint. *)
Definition reap_post (c : Z) (n : Z) (w : world) (reaped : bool) (w' : world) : Prop :=
  kill_calls (trace w') = kill_calls (trace w) /\
  slept (trace w') <= slept (trace w) + n /\
  ints w' cchild = (if reaped then 0 else c) /\
  ints w' ssh_stderr_fd = ints w ssh_stderr_fd /\
  polled c (Z.to_nat n) reaped (trace w) (trace w').

Lemma wp_reap n a (Q : bool -> world -> Prop) w :
  0 <= n ->
  (forall b w', reap_post (ints w cchild) n w b w' -> Q b w') ->
  wp (reap_with_grace n a) Q (fun _ _ => True) w.
Proof.
  intros Hn HQ. eapply wp_mono; [apply wp_and; [apply reap_loop_ok|apply reap_eff]| |done].
  cbn. intros b w' [(K & S & C & L) E]. apply HQ. split_and!; auto; [|apply E; done|apply L..].
  by rewrite Z2Nat.id in S.
Qed.

Definition is_close (c : syscall) : bool := match c with Sys_close _ => true | _ => false end.

Lemma close_eff :
  spec (eff [ssh_stderr_fd] is_close) (eff_stop [ssh_stderr_fd] is_close by_signal) close_ssh_stderr.
Proof. unfold close_ssh_stderr. spec_auto. Qed.

Lemma wp_close_ssh_stderr (Q : unit -> world -> Prop) w :
  (forall w', ints w' ssh_stderr_fd < 0 -> eff [ssh_stderr_fd] is_close w w' -> Q tt w') ->
  wp close_ssh_stderr Q (fun _ _ => True) w.
Proof.
  intros HQ. assert (wp close_ssh_stderr (fun _ w' => ints w' ssh_stderr_fd < 0) (fun _ _ => True) w).
  { unfold close_ssh_stderr. repeat wp_step.
    - apply wp_sys; [|done]. intros w1 T1 E1. wp_step. frame. lia.
    - zify_bool. lia. }
  eapply wp_mono; [apply wp_and; [eassumption|apply close_eff]| |done].
  intros [] w' [? ?]. auto.
Qed.

(** The observations that calls without kill, sleep, fork or wait keep. *)
Definition inert (c : syscall) : bool :=
  negb (changes_live c) && match c with Sys_sleep _ => false | _ => true end.

Lemma inert_obs P w w' :
  calls P w w' -> (forall c, P c = true -> inert c = true) ->
  kill_calls (trace w') = kill_calls (trace w) /\ slept (trace w') = slept (trace w) /\
  live (trace w') = live (trace w).
Proof.
  intros C HP. split_and!.
  - eapply kill_calls_same; [done|]. intros c Hc. apply HP in Hc. by destruct c.
  - eapply slept_same; [done|]. intros c Hc. apply HP in Hc. by destruct c.
  - eapply live_same; [done|]. intros c Hc. apply HP in Hc. by destruct c.
Qed.

(** Two polls after SIGKILL settle the matter. *)
Lemma polled_killed c n b t t' :
  (2 <= n)%nat -> polls_since_kill c t <> None -> polled c n b t t' -> live t' = without c (live t).
Proof.
  intros Hn K [L Pl]. destruct b; [done|]. destruct (polls_since_kill c t) as [k|] eqn:E; [|done]. simpl in Pl.
  assert (given_up c t' = true) as G.
  { unfold given_up. rewrite Pl. apply (Nat.leb_le 2). lia. }
  destruct L as [L|L]; [|done]. by rewrite <- (live_given_up _ _ G), L.
Qed.

Lemma escalate_ok w :
  wp escalate
    (fun _ w' =>
       ints w' cchild = 0 /\ ints w' ssh_stderr_fd = ints w ssh_stderr_fd /\
       slept (trace w') <= slept (trace w) + SIGKILL_WAIT /\
       kill_calls (trace w') = (ints w cchild, SIGKILL) :: kill_calls (trace w) /\
       live (trace w') = without (ints w cchild) (live (trace w)))
    (fun _ _ => True) w.
Proof.
  unfold escalate. repeat wp_step. apply wp_errlog; [|done]. intros w1 E1.
  destruct (inert_obs _ _ _ (eff_calls _ _ _ _ E1)) as (K1 & S1 & L1); [by intros []|].
  repeat wp_step. apply wp_sys; [|done]. intros w2 T2 E2. repeat wp_step.
  assert (live (trace w2) = live (trace w)) as L2 by (rewrite T2; autorewrite with trace; done).
  assert (polls_since_kill (ints w cchild) (trace w2) <> None) as D2.
  { rewrite T2. frame. by rewrite polls_kill, !Z.eqb_refl. }
  apply wp_reap; [done|]. unfold reap_post. frame.
  intros b w3 (K3 & S3 & C3 & F3 & Pl).
  pose proof (polled_killed _ _ _ _ _ ltac:(done) D2 Pl) as L3. rewrite L2 in L3.
  rewrite T2 in K3, S3. autorewrite with trace in K3, S3. frame. rewrite K1 in K3. rewrite S1 in S3.
  destruct b; [wp_step; split_and!; auto; lia|].
  repeat wp_step. apply wp_errlog; [|done]. intros w4 E4.
  destruct (inert_obs _ _ _ (eff_calls _ _ _ _ E4)) as (K4 & S4 & L4); [by intros []|].
  repeat wp_step. frame. rewrite K4, S4, L4. split_and!; auto; lia.
Qed.

Lemma ssh_kill_ok w :
  wp ssh_kill
    (fun _ w' =>
       ints w' cchild = 0 /\ ints w' ssh_stderr_fd < 0 /\
       slept (trace w') <= slept (trace w) + (SIGTERM_GRACE + SIGKILL_WAIT) /\
       kill_sequence (ints w cchild) (kill_calls (trace w)) (kill_calls (trace w')) /\
       (ints w cchild <> 0 ->
        live (trace w') = without (ints w cchild) (live (trace w))))
    (fun _ _ => True) w.
Proof.
  unfold ssh_kill. wp_step. apply wp_close_ssh_stderr. intros w1 F1 E1.
  destruct (inert_obs _ _ _ (eff_calls _ _ _ _ E1)) as (K1 & S1 & L1); [by intros []|].
  repeat wp_step; frame; unfold kill_sequence; rewrite Heqb.
  { zify_bool. rewrite K1, S1, L1. repeat split; auto. unfold SIGTERM_GRACE, SIGKILL_WAIT. lia. lia. }
  apply wp_sys; [|done]. intros w2 T2 E2. wp_step.
  assert (live (trace w2) = live (trace w)) as L2 by (rewrite T2; autorewrite with trace; done).
  apply wp_reap; [done|]. unfold reap_post. frame.
  intros b w3 (K3 & S3 & C3 & F3 & [L3 Pl]). rewrite L2 in L3, Pl.
  rewrite T2 in K3, S3. autorewrite with trace in K3, S3. rewrite K1 in K3. rewrite S1 in S3. destruct b.
  { wp_step. rewrite K3, F3. split_and!; auto. unfold SIGTERM_GRACE, SIGKILL_WAIT in *. lia. }
  eapply wp_mono; [apply escalate_ok| |done]. cbn beta. rewrite C3, K3.
  intros _ w4 (C4 & F4 & S4 & K4 & L4). rewrite C4, K4, F4, F3. split_and!; auto.
  - unfold SIGTERM_GRACE, SIGKILL_WAIT in *. lia.
  - intros _. rewrite L4. destruct L3 as [-> | ->]; [done|apply without_twice].
Qed.

Lemma errlog_str_eff l m : spec (eff [] is_log) (eff_stop [] is_log by_signal) (errlog_str l m).
Proof. unfold errlog_str, timestr. spec_auto. Qed.

Lemma xerrlog_str_eff l m :
  spec (eff exit_vars is_exit_call) (eff_stop exit_vars is_exit_call by_signal) (xerrlog_str l m).
Proof.
  unfold xerrlog_str, unlink_pid_file.
  assert (spec (eff exit_vars is_exit_call) (eff_stop exit_vars is_exit_call by_signal)
            (errlog_str l m)) by spec_callee errlog_str_eff.
  assert (spec (eff exit_vars is_exit_call) (eff_stop exit_vars is_exit_call by_signal)
            ssh_kill) by spec_callee ssh_kill_eff.
  spec_auto.
Qed.

(** [xerrlog!] never returns. *)
Lemma xerrlog_stops {A} l m w :
  wp (xerrlog (A := A) l m) (fun _ _ => False)
    (fun s w' => eff_stop exit_vars is_exit_call by_signal s w w') w.
Proof.
  unfold xerrlog. wp_step. eapply wp_mono; [apply xerrlog_str_eff| |done].
  cbv beta. intros _ w' E. wp_step. split; try apply E. done.
Qed.

Lemma spec_xerrlog {A} V W (P O : syscall -> bool) (X : stop -> bool) l m :
  sub_vars exit_vars W = true -> (forall c, is_exit_call c = true -> O c = true) ->
  spec (eff V P) (eff_stop W O X) (xerrlog (A := A) l m).
Proof.
  intros HW HP w. eapply wp_mono; [apply xerrlog_stops|done|]. intros s w' E.
  by eapply eff_stop_mono; [| | |apply E].
Qed.

End KillFacts.

#[export] Hint Extern 1 (spec (eff _ _) (eff_stop _ _ _) (xerrlog _ _)) =>
  apply spec_xerrlog; [reflexivity | let c := fresh in intros c; destruct c; done] : machine.

(** ** Properties *)

Section KillProperties.
Context {H : Host}.

(** C3: [ssh_kill] always gets done with the child within four seconds of
    sleep: afterwards [cchild] is 0 and the stderr descriptor is closed,
    the signals sent are none (no child), SIGTERM, or SIGTERM followed by
    SIGKILL, all to that child, and the child is reaped or given up (SIGKILL
    sent and two more polls made).  It is stopped by nothing but a signal,
    in particular never by its loops. *)
Theorem ssh_kill_guarantees w :
  wp ssh_kill
    (fun _ w' =>
       ints w' cchild = 0 /\ ints w' ssh_stderr_fd < 0 /\
       slept (trace w') <= slept (trace w) + 4 /\
       kill_sequence (ints w cchild) (kill_calls (trace w)) (kill_calls (trace w')) /\
       (ints w cchild <> 0 ->
        live (trace w') = without (ints w cchild) (live (trace w))))
    (fun s _ => s <> NoFuel /\ s <> OutOfBounds) w.
Proof.
  eapply wp_mono; [apply wp_and; [apply ssh_kill_ok|apply ssh_kill_eff]| |]; cbv beta.
  - by intros _ w' [K _].
  - intros s w' [_ E]. by eapply signal_stop.
Qed.

(** A fatal error ends the process with status 1 (unless a signal
    ends it first): [xerrlog!] never returns to its caller. *)
Theorem xerrlog_never_returns {A} level msg w :
  wp (xerrlog (A := A) level msg) (fun _ _ => False)
    (fun s _ => match s with Exited c => c = 1 | Killed g => disp w g = SigDfl
                | Jumped _ => ints w dolongjmp <> 0 | _ => False end) w.
Proof.
  eapply wp_mono; [apply xerrlog_stops|done|]. cbv beta. intros s w' [_ _ _ _ _ W].
  destruct s; try done; by destruct W.
Qed.

End KillProperties.
