(* ===== verification/Stderr.v ===== *)
(** * Draining the ssh child's stderr (src/stderr_drain.rs) *)

From Stdlib Require Import Ascii String.
From stdpp Require Import base option list strings gmap functions.
From S2P Require Import Prelude Machine Signals Trace Log Kill.

Definition STDERR_BUF_SZ : Z := 4096.
Definition STDERR_FILENO : Z := 2.

Definition fwd_failed : bytes := lit "remote port forwarding failed".
Definition stuck_line : bytes := lit "ssh-stuck-detector: STUCK".

Section Stderr.
Context {H : Host}.

(** The [loop]: [buf\[n\] = 0] panics when the read returned a whole
    buffer, and [strstr] sees the bytes up to the first NUL. *)
Fixpoint drain (n : nat) : M Z :=
  match n with
  | O => halt NoFuel
  | S n' =>
      fd ← rd ssh_stderr_fd;
      r ← sys (Sys_read fd (STDERR_BUF_SZ - 1));
      if r_ret r <=? 0 then mret 0 else
      if STDERR_BUF_SZ <=? r_ret r then halt OutOfBounds else
      let buf := chunk r in
      t ← sys Sys_time;
      wr last_stderr_time (r_ret t);;
      sys (Sys_write STDERR_FILENO buf);;
      if strstr (c_str buf) fwd_failed then
        errlog LOG_ERR (lit "detected SSH error: remote port forwarding failed; will kill and restart ssh");;
        wr port_fwd_failed 1;;
        mret 1
      else if strstr (c_str buf) stuck_line then
        errlog LOG_ERR (lit "stuck-detector flagged ssh hung in a network syscall; will kill and restart ssh");;
        mret 1
      else drain n'
  end.

Definition check_ssh_stderr : M Z :=
  fd ← rd ssh_stderr_fd;
  if fd <? 0 then mret 0 else drain fuel.

End Stderr.

(** ** Facts *)

Definition is_drain_call (c : syscall) : bool :=
  is_log c || match c with Sys_read _ _ | Sys_write _ _ => true | _ => false end.

Notation drain_vars := [last_stderr_time; port_fwd_failed].

(** Stops of a drain other than by a signal. *)
Definition drain_stop (s : stop) : bool :=
  match s with NoFuel | OutOfBounds => true | _ => false end.

(** A chunk that makes the supervisor kill and restart ssh. *)
Definition fatal (c : bytes) : bool :=
  strstr (c_str c) fwd_failed || strstr (c_str c) stuck_line.

Section StderrFacts.
Context {H : Host}.

Lemma drain_eff n :
  spec (eff drain_vars is_drain_call) (eff_stop drain_vars is_drain_call drain_stop) (drain n).
Proof. induction n as [|n IH]; simpl; spec_auto. Qed.

Lemma check_ssh_stderr_eff :
  spec (eff drain_vars is_drain_call) (eff_stop drain_vars is_drain_call drain_stop) check_ssh_stderr.
Proof. unfold check_ssh_stderr. spec_step; [spec_auto|]. spec_auto. apply drain_eff. Qed.

(** The relation between the chunks [cs] read (latest first) and the result. *)
Definition drained (w : world) (cs : list bytes) (v : Z) (w' : world) : Prop :=
  reads (trace w') = cs ++ reads (trace w) /\
  stderr_writes (trace w') = cs ++ stderr_writes (trace w) /\
  match cs with
  | [] => v = 0 /\ ints w' last_stderr_time = ints w last_stderr_time /\
          ints w' port_fwd_failed = ints w port_fwd_failed
  | c :: older =>
      forallb (fun c => negb (fatal c)) older = true /\
      v = (if fatal c then 1 else 0) /\
      In (ints w' last_stderr_time) (clock_reads (trace w')) /\
      ints w' port_fwd_failed = (if strstr (c_str c) fwd_failed then 1 else ints w port_fwd_failed)
  end.

Ltac by_signal_stop :=
  intros; try match goal with |- ?f _ _ => is_var f; unfold f end; cbv beta in *; intros; subst;
  match goal with E : eff_stop _ _ by_signal NoFuel _ _ |- _ => by apply signal_stop in E as [? _] end.

(** One more non-fatal chunk in front of a drain. *)
Lemma drained_step w w3 w' c0 cs v P :
  fatal c0 = false ->
  reads (trace w3) = c0 :: reads (trace w) ->
  stderr_writes (trace w3) = c0 :: stderr_writes (trace w) ->
  In (ints w3 last_stderr_time) (clock_reads (trace w3)) ->
  ints w3 port_fwd_failed = ints w port_fwd_failed ->
  calls P w3 w' ->
  drained w3 cs v w' -> drained w (cs ++ [c0]) v w'.
Proof.
  intros F0 R3 W3 L3 P3 C (R & W & D). unfold drained. rewrite R, W, R3, W3, <- !app_assoc.
  split_and!; [done|done|]. destruct cs as [|c older]; simpl.
  - destruct D as (-> & -> & ->). rewrite F0. unfold fatal in F0.
    apply orb_false_elim in F0 as [-> _]. split_and!; auto. by eapply clock_reads_mono.
  - destruct D as (Fo & -> & L & ->). rewrite P3. split_and!; auto.
    rewrite forallb_app, Fo. simpl. by rewrite F0.
Qed.

Lemma drain_ok n w :
  wp (drain n) (fun v w' => exists cs, drained w cs v w')
    (fun s w' => s = NoFuel -> exists cs, reads (trace w') = cs ++ reads (trace w) /\
       List.length cs = n /\ forallb (fun c => negb (fatal c)) cs = true) w.
Proof.
  revert w. induction n as [|n IH]; intros w; simpl drain.
  { wp_step. intros _. by exists []. }
  wp_step. wp_step. wp_step. apply wp_sys; [|by_signal_stop].
  intros w1 T1 E1. set (r := answer w _) in *.
  destruct (r_ret r <=? 0) eqn:R0.
  { wp_step. exists []. unfold drained. rewrite T1. autorewrite with trace. frame.
    replace (0 <? r_ret r) with false by lia. done. }
  wp_step; [by wp_step|]. wp_step. apply wp_sys; [|by_signal_stop].
  intros w2 T2 E2. wp_step. wp_step. wp_step.
  apply wp_sys; [|by_signal_stop]. intros w3 T3 E3.
  cbn [trace set_ints] in T3.
  assert (reads (trace w3) = chunk r :: reads (trace w)) as R3.
  { rewrite T3, T2, T1. autorewrite with trace. by replace (0 <? r_ret r) with true by lia. }
  assert (stderr_writes (trace w3) = chunk r :: stderr_writes (trace w)) as W3.
  { rewrite T3, T2, T1. by autorewrite with trace. }
  assert (In (ints w3 last_stderr_time) (clock_reads (trace w3))) as L3.
  { frame. rewrite T3, T2. by left. }
  assert (ints w3 port_fwd_failed = ints w port_fwd_failed) as P3 by (by frame).
  set (Post := fun (v : Z) w' => exists cs, _). set (Err := fun s w' => s = NoFuel -> _).
  assert (forall v w', eff [] is_log w3 w' -> fatal (chunk r) = true -> v = 1 ->
    (strstr (c_str (chunk r)) fwd_failed = false -> Post v w') /\
    (strstr (c_str (chunk r)) fwd_failed = true -> wp (wr port_fwd_failed 1;; mret 1) Post Err w')) as Fatal.
  { intros v w' E F ->. pose proof (eff_calls _ _ _ _ E) as C.
    assert (reads (trace w') = reads (trace w3)) as R4 by (eapply omap_calls; [done|by intros []]).
    assert (stderr_writes (trace w') = stderr_writes (trace w3)) as W4
      by (eapply omap_calls; [done|by intros []]).
    assert (In (ints w3 last_stderr_time) (clock_reads (trace w'))) by (by eapply clock_reads_mono).
    split; intros G; repeat wp_step; exists [chunk r]; unfold drained; rewrite G, F; frame;
      rewrite R4, W4, R3, W3; split_and!; auto; done. }
  destruct (strstr (c_str (chunk r)) fwd_failed) eqn:G1; [|destruct (strstr (c_str (chunk r)) stuck_line) eqn:G2].
  - wp_step. apply wp_errlog; [|by_signal_stop]. intros w4 E4.
    apply (Fatal 1 w4 E4); auto. unfold fatal. by rewrite G1.
  - wp_step. apply wp_errlog; [|by_signal_stop]. intros w4 E4. wp_step.
    apply (Fatal 1 w4 E4); auto. unfold fatal. by rewrite G1, G2.
  - clear Fatal. assert (fatal (chunk r) = false) as F by (unfold fatal; by rewrite G1, G2).
    eapply wp_mono; [apply wp_and; [apply IH|apply drain_eff]| |]; cbn beta.
    + intros v w' [[cs D] E]. exists (cs ++ [chunk r]).
      eapply drained_step; eauto. apply E.
    + intros s w' [Hs _] ->. destruct (Hs eq_refl) as (cs & R & Ln & Fa).
      exists (cs ++ [chunk r]). rewrite R, R3, <- app_assoc, length_app, forallb_app, Fa. simpl.
      rewrite F. split_and!; [done|lia|done].
Qed.

End StderrFacts.

(** ** Properties *)

Section StderrProperties.
Context {H : Host}.

(** C20: Draining ssh's stderr forwards every chunk read to our own
    stderr, in order and unchanged; it reports a problem exactly when the
    last chunk read is fatal, and then sets [port_fwd_failed] exactly for
    a forwarding failure; earlier chunks were not fatal.  A drain that
    uses up its fuel has read that many harmless chunks. *)
Theorem drain_forwards_and_detects n w :
  wp (drain n) (fun v w' => exists cs, drained w cs v w')
    (fun s w' => s = NoFuel -> exists cs, reads (trace w') = cs ++ reads (trace w) /\
       List.length cs = n /\ forallb (fun c => negb (fatal c)) cs = true) w.
Proof. apply drain_ok. Qed.

End StderrProperties.

(** A fatal line that two reads split is not recognised in either. *)
Lemma split_line_is_missed :
  fatal (lit "Error: remote port forwarding failed for listen port 2222") = true /\
  fatal (lit "Error: remote port forw") = false /\
  fatal (lit "arding failed for listen port 2222") = false.
Proof. vm_compute. auto. Qed.
