(* ===== verification/Timing.v ===== *)
(** * Lifetime check and restart backoff (src/lifetime.rs, src/grace.rs) *)

From Stdlib Require Import Ascii String SpecFloat.
From stdpp Require Import base option list strings gmap functions.
From S2P Require Import Prelude Machine Signals Trace Log Kill.

(** ** Double arithmetic of the backoff formula *)

(** IEEE-754 binary64, by the Standard Library's executable
    specification. *)
Definition f64_int (z : Z) : spec_float := binary_normalize 53 1024 z 0 false.
Definition f64_mul : spec_float -> spec_float -> spec_float := SFmul 53 1024.
Definition f64_div : spec_float -> spec_float -> spec_float := SFdiv 53 1024.

(** [as c_int]: truncation toward zero, saturating, NaN to 0. *)
Definition f64_to_i32 (f : spec_float) : Z :=
  match f with
  | S754_zero _ | S754_nan => 0
  | S754_infinity s => if s then i32_min else i32_max
  | S754_finite s m e =>
      let v := if 0 <=? e then Z.pos m * 2 ^ e else Z.pos m / 2 ^ (- e) in
      sat32 (if s then - v else v)
  end.

Definition N_FAST_TRIES : Z := 5.
Definition PORT_FWD_FAIL_DELAY : Z := 5.

(** [((poll_time as f64 / 100.0) * (t * (t / 3.0))) as c_int] with
    [t = (TRIES - N_FAST_TRIES) as f64]. *)
Definition backoff (poll tries : Z) : Z :=
  let t := f64_int (tries - N_FAST_TRIES) in
  f64_to_i32 (f64_mul (f64_div (f64_int poll) (f64_int 100))
                      (f64_mul t (f64_div t (f64_int 3)))).

(** The seconds [grace_time] sleeps for its [tries]-th fast restart. *)
Definition backoff_interval (poll tries : Z) : Z :=
  let n := backoff poll tries in
  if poll <? n then poll else n.

(** The shortest run of ssh that resets the counter. *)
Definition min_time (poll : Z) : Z :=
  let m := Z.quot poll 10 in
  if m <? 10 then 10 else m.

Section Timing.
Context {H : Host}.

Definition clear_alarm_timer : M Z :=
  r ← sys (Sys_alarm 0);
  mret (r_ret r).

Definition exceeded_lifetime : M Z :=
  ml ← rd max_lifetime;
  if 0 <? ml then
    now ← sys Sys_time;
    ps ← rd pid_start_time;
    if ml <=? difftime (r_ret now) ps then
      errlog LOG_INFO (lit "exceeded maximum time to live, shutting down");;
      mret 1
    else mret 0
  else mret 0.

(** The counter: reset after a long enough run, else one more. *)
Definition update_tries (last_start : Z) : M unit :=
  poll ← rd poll_time;
  now ← sys Sys_time;
  if min_time poll <=? difftime (r_ret now) last_start then wr TRIES 0
  else t ← rd TRIES; wr TRIES (wrap32 (t + 1)).

Definition backoff_sleep : M unit :=
  tries ← rd TRIES;
  when (N_FAST_TRIES <? tries) (
    poll ← rd poll_time;
    when (0 <? backoff_interval poll tries) (
      sys (Sys_sleep (backoff_interval poll tries));; mret tt)).

Definition port_fwd_delay : M unit :=
  pf ← rd port_fwd_failed;
  when (negb (pf =? 0)) (
    errlog LOG_INFO (lit "port forwarding failed on previous attempt, enforcing minimum "
                     ++ show_Z PORT_FWD_FAIL_DELAY ++ lit " second delay");;
    sys (Sys_sleep PORT_FWD_FAIL_DELAY);;
    wr port_fwd_failed 0).

Definition grace_time (last_start : Z) : M unit :=
  update_tries last_start;;
  backoff_sleep;;
  port_fwd_delay.

End Timing.

(** ** Facts about the formula *)

(** Not negative: a sign bit of 0, or NaN. *)
Definition sf_nonneg (f : spec_float) : bool :=
  match f with
  | S754_zero s | S754_infinity s | S754_finite s _ _ => negb s
  | S754_nan => true
  end.

Lemma round_aux_nonneg mx ex lx : sf_nonneg (binary_round_aux 53 1024 false mx ex lx) = true.
Proof.
  unfold binary_round_aux. destruct (shr_fexp _ _ _ _ _) as [mrs e].
  destruct (shr_fexp _ _ _ _ _) as [mrs' e']. destruct (shr_m mrs'); try done.
  by destruct (e' <=? _).
Qed.

Lemma f64_int_nonneg z : 0 <= z -> sf_nonneg (f64_int z) = true.
Proof.
  intros Hz. unfold f64_int, binary_normalize. destruct z; try done.
  unfold binary_round. destruct (shl_align _ _ _). apply round_aux_nonneg.
Qed.

Lemma f64_mul_nonneg x y :
  sf_nonneg x = true -> sf_nonneg y = true -> sf_nonneg (f64_mul x y) = true.
Proof.
  destruct x as [[]|[]| |[]], y as [[]|[]| |[]]; try done. intros _ _. apply round_aux_nonneg.
Qed.

Lemma f64_div_nonneg x y :
  sf_nonneg x = true -> sf_nonneg y = true -> sf_nonneg (f64_div x y) = true.
Proof.
  destruct x as [[]|[]| |[]], y as [[]|[]| |[]]; try done. intros _ _.
  unfold f64_div, SFdiv. destruct (SFdiv_core_binary _ _ _ _ _ _) as [[] ?]. apply round_aux_nonneg.
Qed.

Lemma f64_to_i32_nonneg x : sf_nonneg x = true -> 0 <= f64_to_i32 x <= i32_max.
Proof.
  unfold f64_to_i32, i32_max. destruct x as [[]|[]| |[] m e]; try done; intros _.
  pose proof (sat32_range (if 0 <=? e then Z.pos m * 2 ^ e else Z.pos m / 2 ^ - e)) as [_ U].
  split; [|done]. unfold sat32, i32_min, i32_max.
  assert (0 <= if 0 <=? e then Z.pos m * 2 ^ e else Z.pos m / 2 ^ - e); [|lia].
  split_if; [apply Z.mul_nonneg_nonneg; [done|apply Z.pow_nonneg; lia]|].
  apply Z.div_pos; [done|]. zify_bool. apply Z.pow_pos_nonneg; lia.
Qed.

Lemma backoff_nonneg poll tries :
  0 <= poll -> N_FAST_TRIES <= tries -> 0 <= backoff poll tries <= i32_max.
Proof.
  intros Hp Ht. apply f64_to_i32_nonneg, f64_mul_nonneg; [apply f64_div_nonneg|apply f64_mul_nonneg];
    rewrite ?f64_div_nonneg; rewrite ?f64_int_nonneg; auto; lia.
Qed.

(** ** Orders of magnitude

    A double is at least [2^k] when the digits of its significand and its
    exponent together exceed [k]; rounding, products and quotients keep
    such bounds. *)

Lemma digits2_bounds p : 2 ^ (Z.pos (digits2_pos p) - 1) <= Z.pos p < 2 ^ Z.pos (digits2_pos p).
Proof.
  induction p as [p IH|p IH|]; cbn [digits2_pos]; [..|done];
    rewrite Pos2Z.inj_succ, Z.pow_succ_r by lia; replace (Z.succ (Z.pos (digits2_pos p)) - 1)
      with (Z.succ (Z.pos (digits2_pos p) - 1)) by lia; rewrite Z.pow_succ_r by lia; lia.
Qed.

Lemma Zdigits2_bounds m : 0 < m -> 1 <= Zdigits2 m /\ 2 ^ (Zdigits2 m - 1) <= m < 2 ^ Zdigits2 m.
Proof. destruct m; try lia. intros _. split; [simpl; lia|]. apply digits2_bounds. Qed.

Lemma Zdigits2_lower j m : 0 <= j -> 2 ^ j <= m -> j < Zdigits2 m.
Proof.
  intros Hj L. pose proof (Z.pow_pos_nonneg 2 j ltac:(lia) Hj).
  destruct (Zdigits2_bounds m) as [D [_ U]]; [lia|]. apply (Z.pow_lt_mono_r_iff 2); lia.
Qed.

(** The pair [(m, e)] stands for at least [2^k]. *)
Definition reaches (k m e : Z) : Prop := 0 < m /\ k < Zdigits2 m + e.

(** Shifting a significand right. *)
Lemma shr_1_half r : 0 <= shr_m r -> shr_m (shr_1 r) = shr_m r / 2.
Proof.
  destruct r as [m b s]. unfold shr_1. simpl. destruct m as [|[p|p|]|]; try lia; intros _; cbn [shr_m]; try done.
  - apply Z.div_unique with 1; lia.
  - apply Z.div_unique with 0; lia.
Qed.

Lemma shr_iter p r : 0 <= shr_m r -> shr_m (SpecFloat.iter_pos shr_1 p r) = shr_m r / 2 ^ Z.pos p.
Proof.
  assert (forall x n, 0 <= x -> 0 <= x / 2 ^ Z.pos n) as Pos
    by (intros; apply Z.div_pos; [done|]; by apply Z.pow_pos_nonneg).
  revert r. induction p as [p IH|p IH|]; intros r Hr; cbn [SpecFloat.iter_pos].
  - assert (0 <= shr_m (shr_1 r)) as H1 by (rewrite shr_1_half by done; apply Z.div_pos; lia).
    rewrite IH, IH, shr_1_half by (rewrite ?IH; auto). rewrite !Z.div_div by (lia || by apply Z.pow_pos_nonneg).
    rewrite (Pos2Z.inj_xI p). replace (2 * Z.pos p + 1) with (1 + Z.pos p + Z.pos p) by lia.
    rewrite !Z.pow_add_r by lia. f_equal. ring.
  - rewrite IH, IH by (rewrite ?IH; auto). rewrite Z.div_div by (lia || by apply Z.pow_pos_nonneg).
    by rewrite (Pos2Z.inj_xO p), <- Z.pow_add_r, Z.add_diag by lia.
  - by rewrite shr_1_half.
Qed.

Lemma reaches_shr k r e n :
  reaches k (shr_m r) e -> n < Zdigits2 (shr_m r) ->
  reaches k (shr_m (fst (shr r e n))) (snd (shr r e n)).
Proof.
  intros [P K] L. unfold shr. destruct n as [|n|n]; simpl; try done.
  destruct (Zdigits2_bounds _ P) as (D1 & D2 & _). rewrite shr_iter by lia.
  assert (2 ^ (Zdigits2 (shr_m r) - 1 - Z.pos n) <= shr_m r / 2 ^ Z.pos n) as Q.
  { apply Z.div_le_lower_bound; [apply Z.pow_pos_nonneg; lia|]. rewrite <- Z.pow_add_r by lia.
    replace (Z.pos n + (Zdigits2 (shr_m r) - 1 - Z.pos n)) with (Zdigits2 (shr_m r) - 1) by lia. done. }
  pose proof (Z.pow_pos_nonneg 2 (Zdigits2 (shr_m r) - 1 - Z.pos n) ltac:(lia) ltac:(lia)).
  unshelve epose proof (Zdigits2_lower _ _ _ Q); [lia|]. split; lia.
Qed.

Lemma shr_record_of_loc_m m l : shr_m (shr_record_of_loc m l) = m.
Proof. by destruct l as [|[]]. Qed.

Lemma reaches_shr_fexp k m e l :
  reaches k m e -> -1000 <= k ->
  reaches k (shr_m (fst (shr_fexp 53 1024 m e l))) (snd (shr_fexp 53 1024 m e l)).
Proof.
  intros R Hk. destruct (Zdigits2_bounds m (proj1 R)) as (D & _).
  unfold shr_fexp. apply reaches_shr; rewrite shr_record_of_loc_m; [done|].
  destruct R as [_ R]. unfold fexp, SpecFloat.emin. lia.
Qed.

(** A double that is at least [2^k], infinity included. *)
Definition at_least (k : Z) (f : spec_float) : Prop :=
  match f with
  | S754_infinity false => True
  | S754_finite false m e => reaches k (Z.pos m) e
  | _ => False
  end.

Lemma at_least_round k m e l :
  reaches k m e -> -1000 <= k -> at_least k (binary_round_aux 53 1024 false m e l).
Proof.
  intros R Hk. unfold binary_round_aux. pose proof (reaches_shr_fexp k m e l R Hk) as R1.
  destruct (shr_fexp 53 1024 m e l) as [r e1]. cbn [fst snd] in R1.
  assert (reaches k (round_nearest_even (shr_m r) (loc_of_shr_record r)) e1) as R2.
  { destruct R1 as [P1 K1]. destruct (Zdigits2_bounds _ P1) as (D1 & D2 & _).
    assert (shr_m r <= round_nearest_even (shr_m r) (loc_of_shr_record r)) as L
      by (unfold round_nearest_even; destruct (loc_of_shr_record r) as [|[]]; try destruct (Z.even _); lia).
    pose proof (Zdigits2_lower (Zdigits2 (shr_m r) - 1) _ ltac:(lia) (Z.le_trans _ _ _ D2 L)). split; lia. }
  pose proof (reaches_shr_fexp k _ e1 loc_Exact R2 Hk) as R3.
  destruct (shr_fexp 53 1024 (round_nearest_even _ _) e1 loc_Exact) as [r2 e2]. cbn [fst snd] in R3.
  destruct (shr_m r2) as [|p|p]; [by destruct R3| |by destruct R3]. by split_if.
Qed.

Lemma at_least_int k z : 0 <= k -> 2 ^ k <= z -> at_least k (f64_int z).
Proof.
  intros Hk L. pose proof (Z.pow_pos_nonneg 2 k ltac:(lia) Hk). unfold f64_int, binary_normalize.
  destruct z as [|p|p]; [lia| |lia]. unfold binary_round, shl_align.
  pose proof (Zdigits2_lower k _ Hk L) as D. destruct (Zdigits2_bounds (Z.pos p)) as (D1 & D2 & _); [done|].
  destruct (_ - 0) as [|n|n] eqn:E; try (apply at_least_round; [split; lia|lia]).
  apply at_least_round; [|lia]. split; [done|].
  change (Pos.iter xO p n) with (shift_pos n p). rewrite shift_pos_correct, Z.pow_pos_fold.
  assert (2 ^ (Zdigits2 (Z.pos p) - 1 + Z.pos n) <= 2 ^ Z.pos n * Z.pos p) as Q.
  { rewrite Z.pow_add_r by lia. rewrite Z.mul_comm. apply Z.mul_le_mono_nonneg_l; [apply Z.pow_nonneg; lia|done]. }
  unshelve epose proof (Zdigits2_lower _ _ _ Q); [lia|]. lia.
Qed.

Lemma at_least_mul a b x y :
  at_least a x -> at_least b y -> -1000 <= a + b -> at_least (a + b) (f64_mul x y).
Proof.
  destruct x as [|[]| |[] m e], y as [|[]| |[] n f]; try done. intros [_ A] [_ B] K.
  unfold f64_mul. simpl SFmul. apply at_least_round; [|done]. split; [done|].
  destruct (Zdigits2_bounds (Z.pos m)) as (M1 & M2 & _); [done|].
  destruct (Zdigits2_bounds (Z.pos n)) as (N1 & N2 & _); [done|].
  assert (2 ^ (Zdigits2 (Z.pos m) - 1 + (Zdigits2 (Z.pos n) - 1)) <= Z.pos (m * n)) as Q.
  { rewrite Z.pow_add_r, Pos2Z.inj_mul by lia. apply Z.mul_le_mono_nonneg; try done; apply Z.pow_nonneg; lia. }
  unshelve epose proof (Zdigits2_lower _ _ _ Q); [lia|]. lia.
Qed.

Lemma at_least_div k x n f :
  at_least k x -> -900 <= k - (Zdigits2 (Z.pos n) + f) ->
  at_least (k - (Zdigits2 (Z.pos n) + f)) (f64_div x (S754_finite false n f)).
Proof.
  destruct x as [|[]| |[] m e]; try done. intros [_ A] K. unfold f64_div. cbn [SFdiv xorb].
  destruct (Zdigits2_bounds (Z.pos m)) as (M1 & M2 & _); [done|].
  destruct (Zdigits2_bounds (Z.pos n)) as (N1 & _ & N2); [done|].
  unfold SFdiv_core_binary. set (dm := Zdigits2 (Z.pos m)) in *. set (dn := Zdigits2 (Z.pos n)) in *.
  set (e' := Z.min _ _). set (s := e - f - e').
  assert (0 <= s /\ dn + 52 <= dm - 1 + s) as [S0 S1]
    by (unfold s, e', fexp, SpecFloat.emin; lia).
  set (m' := match s with Z0 => _ | Zpos _ => _ | Zneg _ => _ end).
  assert (m' = Z.pos m * 2 ^ s) as Em.
  { unfold m'. destruct s; [rewrite Z.mul_1_r; done| |lia]. by rewrite Z.shiftl_mul_pow2. }
  pose proof (Z_div_mod m' (Z.pos n) ltac:(lia)) as DM. destruct (Z.div_eucl m' (Z.pos n)) as [q r].
  apply at_least_round; [|lia].
  assert (2 ^ (dm - 1 + s - dn) <= q) as Q.
  { assert (2 ^ (dm - 1 + s - dn) * 2 ^ dn <= m') as B.
    { rewrite <- Z.pow_add_r, Em by lia. replace (dm - 1 + s - dn + dn) with (dm - 1 + s) by lia.
      rewrite Z.pow_add_r by lia. apply Z.mul_le_mono_nonneg_r; [apply Z.pow_nonneg; lia|done]. }
    pose proof (Z.pow_pos_nonneg 2 (dm - 1 + s - dn) ltac:(lia) ltac:(lia)). nia. }
  pose proof (Z.pow_pos_nonneg 2 (dm - 1 + s - dn) ltac:(lia) ltac:(lia)).
  unshelve epose proof (Zdigits2_lower _ _ _ Q); [lia|]. split; [lia|]. unfold s in *. lia.
Qed.

Lemma at_least_to_i32 k f : 0 <= k <= 30 -> at_least k f -> 2 ^ k <= f64_to_i32 f.
Proof.
  intros Hk. pose proof (Z.pow_le_mono_r 2 k 30 ltac:(lia) ltac:(lia)) as U.
  unfold f64_to_i32. destruct f as [|[]| |[] m e]; try done; [intros _; unfold i32_max; lia|].
  intros [_ R]. destruct (Zdigits2_bounds (Z.pos m)) as (D & L & _); [done|].
  enough (2 ^ k <= if 0 <=? e then Z.pos m * 2 ^ e else Z.pos m / 2 ^ - e) by (unfold sat32, i32_min, i32_max; lia).
  set (d := Zdigits2 (Z.pos m)) in *. split_if; zify_bool.
  - transitivity (2 ^ (d - 1) * 2 ^ e); [rewrite <- Z.pow_add_r by lia; apply Z.pow_le_mono_r; lia|].
    apply Z.mul_le_mono_nonneg_r; [apply Z.pow_nonneg; lia|done].
  - apply Z.div_le_lower_bound; [apply Z.pow_pos_nonneg; lia|]. rewrite <- Z.pow_add_r by lia.
    transitivity (2 ^ (d - 1)); [apply Z.pow_le_mono_r; lia|done].
Qed.

(** From the 32nd slow retry on the formula gives more than ten minutes. *)
Lemma backoff_large t : 32 <= t -> 1024 <= backoff 600 (N_FAST_TRIES + t).
Proof.
  intros Ht. unfold backoff. replace (N_FAST_TRIES + t - N_FAST_TRIES) with t by lia.
  apply (at_least_to_i32 10); [lia|]. apply (at_least_mul 2 8); [by vm_compute| |lia].
  pose proof (at_least_int 5 t ltac:(lia) Ht) as T. apply (at_least_mul 5 3); [done| |lia].
  eapply (at_least_div 5) in T; [exact T|]. vm_compute. discriminate.
Qed.

Definition is_grace_call (c : syscall) : bool :=
  is_log c || match c with Sys_sleep _ => true | _ => false end.

Notation grace_vars := [TRIES; port_fwd_failed].

Section TimingFacts.
Context {H : Host}.

Lemma exceeded_lifetime_eff : spec (eff [] is_log) (eff_stop [] is_log by_signal) exceeded_lifetime.
Proof. unfold exceeded_lifetime. spec_auto. Qed.

Lemma grace_time_eff t :
  spec (eff grace_vars is_grace_call) (eff_stop grace_vars is_grace_call by_signal) (grace_time t).
Proof. unfold grace_time, update_tries, backoff_sleep, port_fwd_delay. spec_auto. Qed.

(** The value of the restart counter after [grace_time]. *)
Definition next_tries (poll now last tries : Z) : Z :=
  if min_time poll <=? difftime now last then 0 else wrap32 (tries + 1).

(** The seconds [grace_time] sleeps. *)
Definition grace_sleep (poll tries pf : Z) : Z :=
  (if N_FAST_TRIES <? tries then Z.max 0 (backoff_interval poll tries) else 0) +
  (if pf =? 0 then 0 else PORT_FWD_FAIL_DELAY).

Lemma port_fwd_delay_ok w :
  wp port_fwd_delay
    (fun _ w' => ints w' TRIES = ints w TRIES /\ ints w' port_fwd_failed = 0 /\
       slept (trace w') =
         slept (trace w) + (if ints w port_fwd_failed =? 0 then 0 else PORT_FWD_FAIL_DELAY))
    (fun _ _ => True) w.
Proof.
  unfold port_fwd_delay. repeat wp_step.
  - apply wp_errlog; [|done]. intros w1 E1. wp_step. apply wp_sys; [|done]. intros w2 T2 E2.
    wp_step. frame. rewrite T2. autorewrite with trace.
    rewrite (slept_same _ _ _ (eff_calls _ _ _ _ E1)) by (by intros []).
    zify_bool. rewrite (proj2 (Z.eqb_neq _ _)) by done. split_and!; auto; lia.
  - zify_bool. rewrite Heqb. simpl. split_and!; auto; lia.
Qed.

Lemma backoff_sleep_ok w :
  wp backoff_sleep
    (fun _ w' => ints w' TRIES = ints w TRIES /\
       ints w' port_fwd_failed = ints w port_fwd_failed /\
       slept (trace w') = slept (trace w) +
         (if N_FAST_TRIES <? ints w TRIES
          then Z.max 0 (backoff_interval (ints w poll_time) (ints w TRIES)) else 0))
    (fun _ _ => True) w.
Proof.
  unfold backoff_sleep. repeat wp_step.
  - apply wp_sys; [|done]. intros w1 T1 E1. wp_step. frame. rewrite T1. autorewrite with trace.
    split_and!; auto; zify_bool; lia.
  - zify_bool. split_and!; auto; lia.
  - split_and!; auto; lia.
Qed.

Lemma update_tries_ok last w :
  wp (update_tries last)
    (fun _ w' => ints w' TRIES =
         next_tries (ints w poll_time) (r_ret (answer w Sys_time)) last (ints w TRIES) /\
       ints w' poll_time = ints w poll_time /\
       ints w' port_fwd_failed = ints w port_fwd_failed /\ slept (trace w') = slept (trace w))
    (fun _ _ => True) w.
Proof.
  unfold update_tries, next_tries. wp_step. wp_step. wp_step. apply wp_sys; [|done]. intros w1 T1 E1.
  split_if; repeat wp_step; frame; rewrite T1; autorewrite with trace; split_and!; auto; lia.
Qed.

Lemma grace_time_ok last w :
  let tries := next_tries (ints w poll_time) (r_ret (answer w Sys_time)) last (ints w TRIES) in
  wp (grace_time last)
    (fun _ w' => ints w' TRIES = tries /\ ints w' port_fwd_failed = 0 /\
       slept (trace w') =
         slept (trace w) + grace_sleep (ints w poll_time) tries (ints w port_fwd_failed))
    (fun _ _ => True) w.
Proof.
  intros tries. unfold grace_time. wp_step. eapply wp_mono; [apply update_tries_ok| |done].
  cbn beta. intros _ w1 (T1 & P1 & F1 & S1). wp_step.
  eapply wp_mono; [apply backoff_sleep_ok| |done]. cbn beta. intros _ w2 (T2 & F2 & S2).
  eapply wp_mono; [apply port_fwd_delay_ok| |done]. cbn beta. intros _ w3 (T3 & F3 & S3).
  unfold grace_sleep. rewrite T3, T2, T1, S3, S2, S1, F3, F2, F1, P1, T1. fold tries.
  split_and!; auto. by rewrite Z.add_assoc.
Qed.

Lemma grace_sleep_bound poll tries pf :
  0 <= grace_sleep poll tries pf <= Z.max 0 poll + PORT_FWD_FAIL_DELAY.
Proof.
  unfold grace_sleep, backoff_interval, PORT_FWD_FAIL_DELAY.
  destruct (pf =? 0), (N_FAST_TRIES <? tries), (poll <? backoff poll tries) eqn:?; zify_bool; lia.
Qed.

End TimingFacts.

(** With the default poll time of 600 s the doubles follow the integer
    quadratic [2 t^2] clamped to 600, to within one second, and never
    decrease. *)
Definition near_quadratic (t : Z) : bool :=
  (Z.abs (backoff_interval 600 (N_FAST_TRIES + t) - Z.min 600 (2 * t * t)) <=? 1) &&
  (backoff_interval 600 (N_FAST_TRIES + t) <=? backoff_interval 600 (N_FAST_TRIES + t + 1)).

Lemma near_quadratic_table : forallb near_quadratic (map Z.of_nat (seq 1 31)) = true.
Proof. vm_compute. reflexivity. Qed.

Lemma near_quadratic_all t : 1 <= t -> near_quadratic t = true.
Proof.
  intros Ht. destruct (decide (t < 32)).
  - apply (proj1 (forallb_forall near_quadratic _) near_quadratic_table).
    apply in_map_iff. exists (Z.to_nat t). split; [lia|]. apply in_seq. lia.
  - unfold near_quadratic, backoff_interval. pose proof (backoff_large t ltac:(lia)).
    pose proof (backoff_large (t + 1) ltac:(lia)). rewrite <- (Z.add_assoc _ t 1).
    rewrite !(proj2 (Z.ltb_lt 600 _)) by lia. rewrite Z.min_l by nia. reflexivity.
Qed.

(** ** Properties *)

Section TimingProperties.
Context {H : Host}.

(** C38: [grace_time] counts fast restarts (a run of at least a tenth of
    the poll time, and 10 s, resets the counter) and sleeps exactly the
    backoff of that count plus the delay after a failed port forwarding,
    never more than the poll time plus 5 s; it clears [port_fwd_failed]. *)
Theorem grace_time_sleeps last w :
  let tries := next_tries (ints w poll_time) (r_ret (answer w Sys_time)) last (ints w TRIES) in
  wp (grace_time last)
    (fun _ w' => ints w' TRIES = tries /\ ints w' port_fwd_failed = 0 /\
       slept (trace w') =
         slept (trace w) + grace_sleep (ints w poll_time) tries (ints w port_fwd_failed) /\
       slept (trace w) <= slept (trace w') <= slept (trace w) + Z.max 0 (ints w poll_time) + 5)
    (fun s _ => s <> NoFuel) w.
Proof.
  intros tries. eapply wp_mono; [apply wp_and; [apply grace_time_ok|apply grace_time_eff]| |]; cbv beta.
  - intros _ w' [(T & P & S) _]. split_and!; auto;
      pose proof (grace_sleep_bound (ints w poll_time) tries (ints w port_fwd_failed));
      unfold PORT_FWD_FAIL_DELAY in *; fold tries in S; lia.
  - intros s w' [_ E]. by eapply signal_stop.
Qed.

End TimingProperties.

(** C39: At the default poll time the floating-point backoff of the [t]-th
    slow retry is [2 t^2] seconds clamped to 600, to within one second, and
    it never decreases, however often ssh is restarted. *)
Theorem backoff_is_quadratic t :
  1 <= t ->
  Z.abs (backoff_interval 600 (N_FAST_TRIES + t) - Z.min 600 (2 * t * t)) <= 1 /\
  backoff_interval 600 (N_FAST_TRIES + t) <= backoff_interval 600 (N_FAST_TRIES + t + 1).
Proof. intros Ht. pose proof (near_quadratic_all t Ht) as K. unfold near_quadratic in K. zify_bool. done. Qed.

Lemma backoff_is_quadratic_witness :
  Z.abs (backoff_interval 600 (N_FAST_TRIES + 11) - Z.min 600 (2 * 11 * 11)) <= 1 /\
  backoff_interval 600 (N_FAST_TRIES + 11) <= backoff_interval 600 (N_FAST_TRIES + 11 + 1).
Proof. apply (backoff_is_quadratic 11). discriminate. Defined.
