(* ===== verification/Wait.v ===== *)
(** * The child reaper (src/wait.rs) *)

From Stdlib Require Import Ascii String.
From stdpp Require Import base option list strings gmap functions.
From S2P Require Import Prelude Machine Signals Trace Log Kill Stderr.

Definition P_CONTINUE : Z := 0.
Definition P_RESTART : Z := 1.
Definition P_EXITOK : Z := 2.
Definition P_EXITERR : Z := 3.

(** ** Wait statuses, as Linux encodes them *)

Definition WTERMSIG (s : Z) : Z := Z.land s 127.
Definition WIFEXITED (s : Z) : bool := WTERMSIG s =? 0.
Definition WEXITSTATUS (s : Z) : Z := Z.land (Z.shiftr s 8) 255.

(** [((status & 0x7f) + 1) as i8 >= 2]. *)
Definition WIFSIGNALED (s : Z) : bool :=
  let x := WTERMSIG s + 1 in
  2 <=? (if 128 <=? x then x - 256 else x).

Definition exited (code : Z) : Z := Z.shiftl (Z.land code 255) 8.

Section Wait.
Context {H : Host}.

Definition log_exiting (evalue : Z) (prog : bytes) : M unit :=
  errlog LOG_INFO (lit "ssh exited with status " ++ show_Z evalue ++ lit "; " ++ prog ++ lit " exiting").

Definition log_restarting (evalue : Z) : M unit :=
  errlog LOG_INFO (lit "ssh exited with error status " ++ show_Z evalue ++ lit "; restarting ssh").

(** The [match evalue] at the end of [ssh_wait]. *)
Definition dispatch_exit (evalue : Z) (prog : bytes) : M Z :=
  if evalue =? 255 then log_restarting evalue;; mret P_RESTART
  else if evalue =? 0 then log_exiting evalue prog;; mret P_EXITOK
  else if (evalue =? 1) || (evalue =? 2) then
    sc ← rd start_count;
    gt ← rd gate_time;
    if (1 <? sc) || (gt =? 0) then log_restarting evalue;; mret P_RESTART
    else log_exiting evalue prog;; mret P_EXITERR
  else log_exiting evalue prog;; mret P_EXITERR.

(** [WIFEXITED(status)]: the starting gate, then the exit code. *)
Definition child_exit (evalue : Z) : M Z :=
  p ← rds progname;
  let prog := cstr_or p "autossh" in
  sc ← rd start_count;
  gt ← rd gate_time;
  premature ←
    (if (sc =? 1) && negb (gt =? 0) then
       now ← sys Sys_time;
       st ← rd start_time;
       gt' ← rd gate_time;
       mret (difftime (r_ret now) st <=? gt')
     else mret false);
  if (premature : bool) then
    errlog LOG_ERR (lit "ssh exited prematurely with status " ++ show_Z evalue ++ lit "; "
                    ++ prog ++ lit " exiting");;
    mret P_EXITERR
  else dispatch_exit evalue prog.

Definition ssh_wait (options : Z) : M Z :=
  c ← rd cchild;
  r ← sys (Sys_waitpid c options);
  if r_ret r <=? 0 then mret P_CONTINUE else
  check_ssh_stderr;;
  if WIFSIGNALED (r_aux r) then
    errlog LOG_INFO (lit "ssh exited on signal " ++ show_Z (WTERMSIG (r_aux r))
                     ++ lit ", restarting ssh");;
    mret P_RESTART
  else if WIFEXITED (r_aux r) then child_exit (WEXITSTATUS (r_aux r))
  else mret P_CONTINUE.

End Wait.

(** ** The restart policy

    The rules of the manual's "manner of death" and "startup behaviour"
    sections: the fate of the child, what is known of the attempt, and the
    verdict.  The starting gate applies to every exit code. *)
Inductive fate := Signalled (sig : Z) | Exit (code : Z) | Neither.

Definition fate_of (status : Z) : fate :=
  if WIFSIGNALED status then Signalled (WTERMSIG status)
  else if WIFEXITED status then Exit (WEXITSTATUS status)
  else Neither.

(** [gated]: first start with a starting gate; [early]: inside the gate. *)
Inductive policy (gated early : bool) : fate -> Z -> Prop :=
| pol_signal sig : policy gated early (Signalled sig) P_RESTART
| pol_gate code : gated = true -> early = true -> policy gated early (Exit code) P_EXITERR
| pol_ok : gated && early = false -> policy gated early (Exit 0) P_EXITOK
| pol_255 : gated && early = false -> policy gated early (Exit 255) P_RESTART
| pol_setup code : (code = 1 \/ code = 2) -> gated = true -> early = false ->
    policy gated early (Exit code) P_EXITERR
| pol_retry code : (code = 1 \/ code = 2) -> gated = false ->
    policy gated early (Exit code) P_RESTART
| pol_remote code : ~ In code [0; 1; 2; 255] -> gated && early = false ->
    policy gated early (Exit code) P_EXITERR
| pol_other : policy gated early Neither P_CONTINUE.

(** ** Facts *)

Definition is_wait_call (c : syscall) : bool :=
  is_drain_call c || match c with Sys_waitpid _ _ => true | _ => false end.

#[export] Hint Extern 1 (spec (eff _ _) (eff_stop _ _ _) check_ssh_stderr) =>
  spec_callee check_ssh_stderr_eff : machine.
#[export] Hint Extern 1 (spec (eff _ _) (eff_stop _ _ _) ssh_kill) =>
  spec_callee ssh_kill_eff : machine.

Section WaitFacts.
Context {H : Host}.

Lemma ssh_wait_eff o :
  spec (eff drain_vars is_wait_call) (eff_stop drain_vars is_wait_call drain_stop) (ssh_wait o).
Proof.
  unfold ssh_wait, child_exit, dispatch_exit, log_exiting, log_restarting. spec_auto.
Qed.

(** The attempt is gated when it is the first start and a gate is set. *)
Definition gated (w : world) : bool := (ints w start_count =? 1) && negb (ints w gate_time =? 0).

Lemma dispatch_exit_ok evalue prog early w :
  1 <= ints w start_count -> gated w && early = false ->
  wp (dispatch_exit evalue prog) (fun rc _ => policy (gated w) early (Exit evalue) rc)
    (fun _ _ => True) w.
Proof.
  intros SC G. unfold dispatch_exit, log_exiting, log_restarting.
  destruct (evalue =? 255) eqn:E255; [|destruct (evalue =? 0) eqn:E0;
    [|destruct ((evalue =? 1) || (evalue =? 2)) eqn:E12]].
  - wp_step. apply wp_errlog; [|done]. intros w1 _. wp_step. zify_bool. subst. by constructor.
  - wp_step. apply wp_errlog; [|done]. intros w1 _. wp_step. zify_bool. subst. by constructor.
  - assert (evalue = 1 \/ evalue = 2) by (apply orb_true_iff in E12 as []; zify_bool; auto).
    repeat wp_step; (apply wp_errlog; [|done]); intros w1 _; wp_step;
      unfold gated in *; [apply pol_retry|apply pol_setup]; try done.
    + apply orb_true_iff in Heqb as []; zify_bool; [|by rewrite andb_comm; rewrite (proj2 (Z.eqb_eq _ _))].
      rewrite (proj2 (Z.eqb_neq _ _)) by lia. done.
    + zify_bool. rewrite (proj2 (Z.eqb_eq (ints w start_count) 1)) by lia.
      by rewrite (proj2 (Z.eqb_neq _ _)).
    + zify_bool. rewrite (proj2 (Z.eqb_eq (ints w start_count) 1)) in G by lia.
      by rewrite (proj2 (Z.eqb_neq _ _)) in G.
  - wp_step. apply wp_errlog; [|done]. intros w1 _. wp_step. zify_bool.
    apply pol_remote; [|done]. simpl. intros [?|[?|[?|[?|[]]]]]; lia.
Qed.

(** Whether a reading [now] of the clock lies inside the starting gate. *)
Definition early (w : world) (now : Z) : bool :=
  difftime now (ints w start_time) <=? ints w gate_time.

Lemma dispatch_exit_eff evalue prog :
  spec (eff [] is_log) (eff_stop [] is_log by_signal) (dispatch_exit evalue prog).
Proof. unfold dispatch_exit, log_exiting, log_restarting. spec_auto. Qed.

Lemma child_exit_ok evalue w :
  1 <= ints w start_count ->
  let now := r_ret (answer w Sys_time) in
  wp (child_exit evalue)
    (fun rc w' => policy (gated w) (early w now) (Exit evalue) rc /\
                  (gated w = true -> In now (clock_reads (trace w'))))
    (fun _ _ => True) w.
Proof.
  intros SC now. unfold child_exit. do 7 wp_step. fold (gated w). destruct (gated w) eqn:G.
  - wp_step. apply wp_sys; [|done]. intros w1 T1 E1. repeat wp_step.
    all: frame; change (difftime (r_ret (answer w Sys_time)) (ints w start_time) <=? ints w gate_time)
      with (early w now) in Heqb; rewrite Heqb.
    all: assert (In now (clock_reads (trace w1))) as I by (rewrite T1; by left).
    + apply wp_errlog; [|done]. intros w2 E2. wp_step. split; [by constructor|].
      intros _. eapply clock_reads_mono; [apply E2|done].
    + eapply wp_mono; [apply wp_and; [apply (dispatch_exit_ok _ _ false)|apply dispatch_exit_eff]| |done];
        frame; auto; [apply andb_false_r|].
      intros rc w2 [P E2]. assert (gated w1 = true) as G1 by (unfold gated in *; by frame).
      rewrite G1 in P. split; [done|]. intros _. eapply clock_reads_mono; [apply E2|done].
  - wp_step.
    eapply wp_mono; [apply (dispatch_exit_ok _ _ (early w now))| |done]; rewrite ?G; auto.
    intros rc w2 P. split; done.
Qed.

Lemma ssh_wait_ok o w :
  1 <= ints w start_count ->
  wp (ssh_wait o)
    (fun rc w' =>
       let r := answer w (Sys_waitpid (ints w cchild) o) in
       if r_ret r <=? 0
       then rc = P_CONTINUE /\ trace w' = (Sys_waitpid (ints w cchild) o, r) :: trace w
       else exists now, policy (gated w) (early w now) (fate_of (r_aux r)) rc /\
              (gated w = true -> WIFEXITED (r_aux r) = true -> WIFSIGNALED (r_aux r) = false ->
               In now (clock_reads (trace w'))))
    (fun _ _ => True) w.
Proof.
  intros SC. unfold ssh_wait, fate_of. wp_step. wp_step. wp_step. apply wp_sys; [|done].
  intros w1 T1 E1. cbv zeta. set (r := answer w _) in *. destruct (r_ret r <=? 0) eqn:R.
  { wp_step. done. }
  wp_step. eapply wp_spec; [apply check_ssh_stderr_eff| |done]. intros _ w2 E2.
  assert (gated w2 = gated w) as G by (unfold gated; by frame).
  assert (forall now, early w2 now = early w now) as Ey by (intros; unfold early; by frame).
  destruct (WIFSIGNALED (r_aux r)).
  { wp_step. apply wp_errlog; [|done]. intros w3 _. wp_step. exists 0. split; [constructor|done]. }
  destruct (WIFEXITED (r_aux r)).
  { eapply wp_mono; [apply child_exit_ok; by frame| |done]. cbn beta. rewrite G, Ey.
    intros rc w3 [P I]. eexists. split; [exact P|auto]. }
  wp_step. exists 0. split; [constructor|done].
Qed.

End WaitFacts.

(** ** Properties *)

Section WaitProperties.
Context {H : Host}.

(** C4: [ssh_wait] implements the restart policy: without a reaped child
    it says continue and does nothing more; otherwise its verdict is the
    policy's for the way the child died, the first-start gate judged by a
    clock reading taken during the call. *)
Theorem ssh_wait_follows_policy o w :
  1 <= ints w start_count ->
  wp (ssh_wait o)
    (fun rc w' =>
       let r := answer w (Sys_waitpid (ints w cchild) o) in
       if r_ret r <=? 0
       then rc = P_CONTINUE /\ trace w' = (Sys_waitpid (ints w cchild) o, r) :: trace w
       else exists now, policy (gated w) (early w now) (fate_of (r_aux r)) rc /\
              (gated w = true -> WIFEXITED (r_aux r) = true -> WIFSIGNALED (r_aux r) = false ->
               In now (clock_reads (trace w'))))
    (fun _ _ => True) w.
Proof. apply ssh_wait_ok. Qed.

End WaitProperties.

(** A child that exits with 1 on a gated first start, after the gate. *)
Definition wait_host : Host := mock_host (fun c =>
  match c with
  | Sys_waitpid _ _ => [Reply 99 0 (exited 1) 0 [] []]
  | Sys_time => [ret_reply 1000]
  | _ => []
  end).

Definition wait_world : world :=
  set_ints (<[cchild := 99]> (<[start_count := 1]> (<[start_time := 900]> init_ints))) (init_world ∅).

Lemma ssh_wait_follows_policy_witness :
  fst (@ssh_wait wait_host WNOHANG wait_world) = inl P_EXITERR /\
  wp (@ssh_wait wait_host WNOHANG)
    (fun rc w' => exists now,
       policy (gated wait_world) (early wait_world now) (Exit 1) rc /\
       (gated wait_world = true -> true = true -> false = false -> In now (clock_reads (trace w'))))
    (fun _ _ => True) wait_world.
Proof.
  split; [vm_compute; reflexivity|].
  apply (@ssh_wait_follows_policy wait_host WNOHANG wait_world). discriminate.
Defined.
