(* ===== verification/Preload.v ===== *)
(** * Staging the LD_PRELOAD watchdog (src/stuck_detector.rs)

    The embedded shared library is written to a temporary file once per
    process and put in front of [LD_PRELOAD], which the ssh child inherits. *)

From Stdlib Require Import Ascii String.
From stdpp Require Import base option list strings gmap functions.
From S2P Require Import Prelude Machine Signals Trace Log Kill.

Definition O_SO_FLAGS : Z := 577.  (* O_WRONLY | O_CREAT | O_TRUNC *)
Definition O_SO_MODE : Z := 448.   (* 0o700 *)

Definition detector_mark : bytes := lit "autossh-stuck-detector".

Definition so_path (pid : Z) : bytes := lit "/tmp/" ++ detector_mark ++ lit "-" ++ show_Z pid ++ lit ".so".

Section Preload.
Context {H : Host}.

(** The write loop of [extract_once]; every pass writes at least a byte. *)
Fixpoint write_so (n : nat) (fd written : Z) : M bool :=
  match n with
  | O => halt NoFuel
  | S n' =>
      if written <? strlen SO_BYTES then
        r ← sys (Sys_write fd (drop (Z.to_nat written) SO_BYTES));
        if r_ret r <=? 0 then sys (Sys_close fd);; mret false
        else write_so n' fd (written + r_ret r)
      else mret true
  end.

Definition extract_once : M bytes :=
  pid ← sys Sys_getpid;
  let cpath := so_path (r_ret pid) in
  o ← sys (Sys_open cpath O_SO_FLAGS O_SO_MODE);
  if r_ret o <? 0 then mret [] else
  ok ← write_so (S (List.length SO_BYTES)) (r_ret o) 0;
  if (ok : bool) then sys (Sys_close (r_ret o));; mret cpath else mret [].

(** [EXTRACTED.get_or_init(extract_once)]. *)
Definition path : M bytes :=
  e ← rds EXTRACTED;
  match e with
  | Some p => mret p
  | None => p ← extract_once; wrs EXTRACTED (Some p);; mret p
  end.

Definition putenv_preload (value : bytes) : M unit :=
  if nul_free value then setenv "LD_PRELOAD" value else mret tt.

Definition install_for_child : M unit :=
  so ← path;
  match so with
  | [] => mret tt
  | _ :: _ =>
      cur ← getenv "LD_PRELOAD";
      match cur with
      | None | Some [] => putenv_preload (utf8_lossy so)
      | Some c =>
          if strstr (utf8_lossy c) detector_mark then mret tt
          else putenv_preload (utf8_lossy so ++ lit ":" ++ utf8_lossy c)
      end
  end.

(** [cleanup]; no caller registers it. *)
Definition cleanup : M unit :=
  e ← rds EXTRACTED;
  match e with
  | Some (c :: r) => sys (Sys_unlink (c :: r));; mret tt
  | _ => mret tt
  end.

End Preload.

(** ** Facts *)

Definition is_extract_call (c : syscall) : bool :=
  match c with Sys_getpid | Sys_open _ _ _ | Sys_write _ _ | Sys_close _ => true | _ => false end.

(** The file [p] was opened and the whole library, nothing else, written
    to the descriptor obtained, which is closed: the calls between [w] and
    [w']. *)
Definition extracted_to {H : Host} (p : bytes) (pid : reply) (w w' : world) : Prop :=
  exists ro rc t,
    trace w' = (Sys_close (r_ret ro), rc) :: t ++ (Sys_open p O_SO_FLAGS O_SO_MODE, ro) :: (Sys_getpid, pid) :: trace w /\
    0 <= r_ret ro /\ Forall (fun x => x.1 = r_ret ro) (writes t) /\ bytes_sent t = SO_BYTES.

(** The open was refused, or a write took nothing. *)
Definition refuses (e : event) : bool :=
  match e with
  | (Sys_open _ _ _, r) => r_ret r <? 0
  | (Sys_write _ _, r) => r_ret r <=? 0
  | _ => false
  end.

Definition extraction_failed (w w' : world) : Prop :=
  exists t, trace w' = t ++ trace w /\ existsb refuses t = true.

Section PreloadFacts.
Context {H : Host}.

Lemma write_so_eff n fd k :
  1 <= Z.of_nat n -> strlen SO_BYTES < Z.of_nat n + k ->
  spec (eff [] is_extract_call) (eff_stop [] is_extract_call by_signal) (write_so n fd k).
Proof.
  revert k. induction n as [|n IH]; intros k H1 Hn; [lia|]. simpl write_so.
  spec_auto. apply IH; zify_bool; lia.
Qed.

Lemma write_so_ok n fd k w :
  0 <= k ->
  wp (write_so n fd k)
    (fun ok w' => exists t, trace w' = t ++ trace w /\
       (if ok : bool
        then Forall (fun x => x.1 = fd) (writes t) /\ bytes_sent t = drop (Z.to_nat k) SO_BYTES
        else existsb refuses t = true))
    (fun _ _ => True) w.
Proof.
  revert k w. induction n as [|n IH]; intros k w Hk; simpl write_so; [by wp_step|]. wp_step; cycle 1.
  { wp_step. exists []. split_and!; [done|done|]. rewrite drop_ge; [done|]. zify_bool. unfold strlen in *. lia. }
  wp_step. apply wp_sys; [|done]. intros w1 T1 E1. set (r := answer w _) in *. wp_step.
  { wp_step. apply wp_sys; [|done]. intros w2 T2 _. wp_step. eexists [_; _]. rewrite T2, T1. split; [done|].
    simpl. by rewrite Heqb0. }
  zify_bool. eapply wp_mono; [apply IH; lia| |done]. cbv beta. intros ok w2 (t & T2 & K).
  exists (t ++ [(Sys_write fd (drop (Z.to_nat k) SO_BYTES), r)]). rewrite T2, T1, <- app_assoc. split; [done|].
  destruct ok; [|rewrite existsb_app; by rewrite K]. destruct K as [F S].
  rewrite bytes_sent_app, S. unfold bytes_sent, writes in *. rewrite omap_app. simpl.
  replace (0 <? r_ret r) with true by lia. simpl. split.
  - apply Forall_app. auto.
  - by rewrite app_nil_r, Z2Nat.inj_add, <- drop_drop, take_drop by lia.
Qed.

Lemma extract_once_ok w :
  wp extract_once
    (fun p w' => p = [] /\ extraction_failed w w' \/
       p = so_path (r_ret (answer w Sys_getpid)) /\ extracted_to p (answer w Sys_getpid) w w')
    (fun _ _ => True) w.
Proof.
  unfold extract_once. wp_step. apply wp_sys; [|done]. intros w1 T1 E1.
  wp_step. apply wp_sys; [|done]. intros w2 T2 E2. wp_step.
  { wp_step. left. split; [done|]. eexists [_; _]. rewrite T2, T1. split; [done|]. simpl. by rewrite Heqb. }
  wp_step. eapply wp_mono; [apply write_so_ok; lia| |done]. cbv beta. zify_bool. rewrite T1 in T2.
  intros [] w3 (t & T3 & K); cycle 1.
  { wp_step. left. split; [done|]. exists (t ++ [(Sys_open (so_path (r_ret (answer w Sys_getpid))) O_SO_FLAGS O_SO_MODE,
      answer w1 (Sys_open (so_path (r_ret (answer w Sys_getpid))) O_SO_FLAGS O_SO_MODE)); (Sys_getpid, answer w Sys_getpid)]).
    rewrite T3, T2, <- app_assoc, existsb_app, K. done. }
  wp_step. apply wp_sys; [|done]. intros w4 T4 E4. wp_step. right. split; [done|].
  destruct K. eexists _, _, t. rewrite T4, T3, T2. split_and!; done.
Qed.

Lemma extract_once_eff :
  spec (eff [] is_extract_call) (eff_stop [] is_extract_call by_signal) extract_once.
Proof. unfold extract_once. spec_auto. apply write_so_eff; unfold strlen; lia. Qed.

(** [path] caches what the first extraction returned. *)
Lemma path_ok w :
  wp path
    (fun p w' => strs w' EXTRACTED = Some p /\ environ w' = environ w /\
       (strs w EXTRACTED = None -> p = [] /\ extraction_failed w w' \/
          p = so_path (r_ret (answer w Sys_getpid)) /\ extracted_to p (answer w Sys_getpid) w w') /\
       (forall q, strs w EXTRACTED = Some q -> p = q))
    (fun _ _ => True) w.
Proof.
  unfold path. wp_step. wp_step. destruct (strs w EXTRACTED) as [p|] eqn:E.
  { wp_step. rewrite E. split_and!; [done|done|done|]. congruence. }
  wp_step. eapply wp_mono; [apply wp_and; [apply extract_once_ok|apply extract_once_eff]| |done].
  cbv beta. intros p w1 [K E1]. do 3 wp_step. cbn [strs environ set_strs trace]. split_and!.
  - apply fn_lookup_insert.
  - apply E1.
  - done.
  - done.
Qed.

(** ASCII text is its own lossy reading. *)
Definition ascii_only (s : bytes) : bool := forallb (byte_in 0 127) s.

Lemma utf8_lossy_ascii s : ascii_only s = true -> utf8_lossy s = s.
Proof.
  induction s as [|a r IH]; [done|]. cbn [ascii_only forallb]. intros E. apply andb_prop in E as [Ea Er].
  simpl. rewrite Ea. f_equal. auto.
Qed.

Lemma utf8_lossy_ascii_app s t : ascii_only s = true -> utf8_lossy (s ++ t) = s ++ utf8_lossy t.
Proof.
  induction s as [|a r IH]; [done|]. cbn [ascii_only forallb]. intros E. apply andb_prop in E as [Ea Er].
  simpl. rewrite Ea. f_equal. auto.
Qed.

Lemma so_path_ascii pid : ascii_only (so_path pid) = true.
Proof.
  unfold so_path, ascii_only. rewrite !forallb_app, show_Z_forall; [reflexivity|done|].
  apply (digit_cases (byte_in 0 127)). reflexivity.
Qed.

Lemma strstr_app a b c : strstr (a ++ b ++ c) b = true.
Proof. apply strstr_spec. by exists a, c. Qed.

(** The environment with the library's path put in front of [LD_PRELOAD].
    A value in which the name of a staged library already occurs, this
    process's or any other's, is left as it is. *)
Definition preload_env (p : bytes) (e : gmap string bytes) : gmap string bytes :=
  match e !! "LD_PRELOAD"%string with
  | None | Some [] => <["LD_PRELOAD"%string := p]> e
  | Some c => if strstr (utf8_lossy c) detector_mark then e
              else <["LD_PRELOAD"%string := p ++ lit ":" ++ utf8_lossy c]> e
  end.

Lemma utf8_lossy_nul_free s : nul_free s = true -> nul_free (utf8_lossy s) = true.
Proof.
  unfold nul_free. set (P := fun c => negb (Ascii.eqb c nul)).
  remember (List.length s) as n eqn:Hn. revert s Hn.
  induction (lt_wf n) as [n _ IH]. intros [|a r] Hn HP; [done|].
  assert (forall t, (List.length t < n)%nat -> forallb P t = true -> forallb P (utf8_lossy t) = true) as K
    by (intros t Ht; eapply IH; [exact Ht|done]).
  clear IH. subst n. cbn [forallb List.length] in *. apply andb_prop in HP as [Pa Pr].
  cbn [utf8_lossy].
  repeat first
    [ split_if
    | match goal with |- context [match ?l with [] => _ | _ :: _ => _ end] => is_var l; destruct l end
    | progress (cbn [forallb List.length app replacement] in *)
    | match goal with E : _ && _ = true |- _ => apply andb_prop in E as [? ?] end ];
  try (rewrite ?Pa, ?H0, ?H1, ?H2, ?H3, ?K by (simpl; (done || lia || (rewrite ?andb_true_iff; auto)))); try done.
Qed.

Lemma wp_putenv_preload v (Q : unit -> world -> Prop) E w :
  nul_free v = true -> Q tt (set_environ (<["LD_PRELOAD"%string := v]> (environ w)) w) ->
  wp (putenv_preload v) Q E w.
Proof. intros NF HQ. unfold putenv_preload. rewrite NF. exact HQ. Qed.

Lemma so_path_nul_free pid : nul_free (so_path pid) = true.
Proof. unfold nul_free, so_path. rewrite !forallb_app. fold (nul_free (show_Z pid)). by rewrite show_Z_nul_free. Qed.

(** A value that starts with the path names the library. *)
Lemma path_marks pid rest : strstr (utf8_lossy (so_path pid ++ rest)) detector_mark = true.
Proof.
  rewrite utf8_lossy_ascii_app by apply so_path_ascii. unfold so_path. rewrite <- !app_assoc. apply strstr_app.
Qed.

(** The value [install_for_child] leaves carries the mark. *)
Lemma preload_env_marked pid e :
  exists v, preload_env (so_path pid) e !! "LD_PRELOAD"%string = Some v /\ strstr (utf8_lossy v) detector_mark = true.
Proof.
  unfold preload_env. destruct (e !! "LD_PRELOAD"%string) as [[|c0 c]|] eqn:E; rewrite ?lookup_insert_eq.
  - eexists. split; [done|]. rewrite <- (app_nil_r (so_path pid)). apply path_marks.
  - split_if; rewrite ?lookup_insert_eq; eexists; (split; [done|]); [done|apply path_marks].
  - eexists. split; [done|]. rewrite <- (app_nil_r (so_path pid)). apply path_marks.
Qed.

(** What the first [install_for_child] of a process does. *)
Definition staged (w w' : world) : Prop :=
  strs w' EXTRACTED = Some [] /\ environ w' = environ w /\ extraction_failed w w' \/
  exists pid, pid = answer w Sys_getpid /\
    strs w' EXTRACTED = Some (so_path (r_ret pid)) /\ extracted_to (so_path (r_ret pid)) pid w w' /\
    environ w' = preload_env (so_path (r_ret pid)) (environ w).

Lemma install_ok w :
  strs w EXTRACTED = None ->
  (forall v, environ w !! "LD_PRELOAD"%string = Some v -> nul_free v = true) ->
  wp install_for_child (fun _ w' => staged w w') (fun _ _ => True) w.
Proof.
  intros N NF. unfold install_for_child. wp_step. eapply wp_mono; [apply path_ok| |done]. cbv beta.
  intros p w1 (S1 & E1 & K & _). destruct (K N) as [[-> A]|[-> A]]; [wp_step; by left|].
  set (pid := answer w Sys_getpid) in *. change (so_path (r_ret pid)) with ("/"%char :: tail (so_path (r_ret pid))) at 1.
  cbv iota. wp_step. wp_step. rewrite E1.
  rewrite (utf8_lossy_ascii (so_path (r_ret pid))) by apply so_path_ascii.
  assert (forall w', strs w' = strs w1 -> trace w' = trace w1 ->
    environ w' = preload_env (so_path (r_ret pid)) (environ w) -> staged w w') as Done.
  { intros w' Es Et Ee. right. exists pid. rewrite Es, Ee. split_and!; [done|done| |done].
    destruct A as (ro & rc & t & A). exists ro, rc, t. by rewrite Et. }
  unfold preload_env in Done.
  destruct (environ w !! "LD_PRELOAD"%string) as [[|c0 c]|] eqn:LP; rewrite ?LP in Done.
  - apply wp_putenv_preload; [apply so_path_nul_free|]. apply Done; simpl; congruence.
  - wp_step; rewrite ?Heqb in Done; [wp_step; by apply Done|].
    apply wp_putenv_preload; [|apply Done; simpl; congruence].
    unfold nul_free. rewrite forallb_app. fold (nul_free (so_path (r_ret pid))). rewrite so_path_nul_free.
    rewrite forallb_app. apply utf8_lossy_nul_free, NF. done.
  - apply wp_putenv_preload; [apply so_path_nul_free|]. apply Done; simpl; congruence.
Qed.

Lemma install_again w w1 :
  staged w w1 -> wp install_for_child (fun _ w' => environ w' = environ w1) (fun _ _ => True) w1.
Proof.
  intros Hw. unfold install_for_child. wp_step. eapply wp_mono; [apply path_ok| |done]. cbv beta.
  intros p w2 (_ & E1 & _ & K). destruct Hw as [(S & _ & _)|(pid & -> & S & _ & LP)]; rewrite (K _ S); [by wp_step|].
  destruct (preload_env_marked (r_ret (answer w Sys_getpid)) (environ w)) as (v & V & St). rewrite <- LP in V.
  destruct (so_path _); [by wp_step|]. wp_step. wp_step. rewrite E1, V. destruct v as [|v0 v]; [done|].
  rewrite St. by wp_step.
Qed.

(** Footprint: the environment and [EXTRACTED] may change. *)
Record near (w w' : world) : Prop := Near {
  near_ints : forall v, volatile v = false -> ints w' v = ints w v;
  near_disp : disp w' = disp w;
  near_mask : mask w' = mask w;
  near_nojump : ints w dolongjmp = 0 -> ints w' dolongjmp = 0;
  near_calls : calls is_extract_call w w'
}.

Definition near_stop (s : stop) (w w' : world) : Prop :=
  match s with
  | Exited c => c = 1
  | Killed g => disp w g = SigDfl /\ default_terminates g = true
  | Jumped _ => ints w dolongjmp <> 0
  | _ => False
  end /\ calls is_extract_call w w'.

#[global] Instance near_framed : Framed near near_stop.
Proof.
  split; [split|].
  - intros w. split; auto using calls_refl.
  - intros w1 w2 w3 A B. split.
    + intros v Hv. rewrite (near_ints _ _ B v Hv). by apply A.
    + rewrite (near_disp _ _ B). apply A.
    + rewrite (near_mask _ _ B). apply A.
    + intros E. apply B, A, E.
    + eapply calls_trans; [apply A|apply B].
  - intros s w1 w2 w3 A [W C]. split; [|eapply calls_trans; [apply A|done]].
    destruct s; auto.
    + by rewrite <- (near_disp _ _ A).
    + intros E. apply W, A, E.
Qed.

Lemma near_eff {A} (m : M A) :
  spec (eff [] is_extract_call) (eff_stop [] is_extract_call by_signal) m -> spec near near_stop m.
Proof.
  intros Hm w. eapply wp_mono; [apply Hm| |]; cbn.
  - intros _ w' E. split; try apply E. intros v Hv. apply E. unfold touches. by rewrite Hv.
  - intros s w' [_ _ _ _ C W]. split; [|done]. destruct s; try done. by destruct W.
Qed.

Lemma install_near : spec near near_stop install_for_child.
Proof.
  assert (forall v x, spec near near_stop (wrs v x)) by (intros v x w; hnf; split; auto; by apply calls_same).
  assert (forall v x, spec near near_stop (setenv v x)) by (intros v x w; hnf; split; auto; by apply calls_same).
  pose proof (near_eff _ extract_once_eff).
  unfold install_for_child, path, putenv_preload. spec_auto.
Qed.

End PreloadFacts.

(** ** Properties *)

Section PreloadProperties.
Context {H : Host}.

(** C40: The first [install_for_child] of a process either fails to store
    the library (the open refused, or a write that took nothing) and leaves
    the environment alone; or it has opened the file named after the pid
    [getpid] answered, written exactly the embedded library to the
    descriptor it got, closed it, and put that file's path in front of
    [LD_PRELOAD], every other variable unchanged.  Only a value in which
    the name of such a library already occurs is kept as it was.  The
    write loop always comes to an end. *)
Theorem install_stages_library w :
  strs w EXTRACTED = None ->
  (forall v, environ w !! "LD_PRELOAD"%string = Some v -> nul_free v = true) ->
  wp install_for_child
    (fun _ w' =>
       strs w' EXTRACTED = Some [] /\ environ w' = environ w /\ extraction_failed w w' \/
       exists pid, pid = answer w Sys_getpid /\
         strs w' EXTRACTED = Some (so_path (r_ret pid)) /\ extracted_to (so_path (r_ret pid)) pid w w' /\
         environ w' = preload_env (so_path (r_ret pid)) (environ w))
    (fun s _ => s <> NoFuel) w.
Proof.
  intros N NF. eapply wp_mono; [apply wp_and; [by apply install_ok|apply install_near]| |].
  - by intros _ w' [K _].
  - by intros s w' [_ [W _]] ->.
Qed.

(** Installing twice is installing once: a second call never changes
    the environment again. *)
Theorem install_idempotent w :
  strs w EXTRACTED = None ->
  (forall v, environ w !! "LD_PRELOAD"%string = Some v -> nul_free v = true) ->
  wp install_for_child
    (fun _ w1 => wp install_for_child (fun _ w2 => environ w2 = environ w1) (fun _ _ => True) w1)
    (fun _ _ => True) w.
Proof.
  intros N NF. eapply wp_mono; [by apply install_ok| |done]. cbv beta. intros _ w1 K.
  by apply (install_again w).
Qed.

End PreloadProperties.

(** ** Witnesses *)

(** The library is written in two pieces. *)
Definition staging_host : Host := mock_host (fun c =>
  match c with
  | Sys_getpid => [ret_reply 4242]
  | Sys_open _ _ _ => [ret_reply 5]
  | Sys_write _ _ => [ret_reply 2; ret_reply 1]
  | _ => []
  end).

Definition preloaded_world : world := init_world {["LD_PRELOAD"%string := lit "libx.so"]}.

Lemma preloaded_world_nul_free v :
  environ preloaded_world !! "LD_PRELOAD"%string = Some v -> nul_free v = true.
Proof. vm_compute. intros E. by injection E as <-. Qed.

Lemma install_stages_library_witness :
  environ (snd (@install_for_child staging_host preloaded_world)) !! "LD_PRELOAD"%string =
    Some (lit "/tmp/autossh-stuck-detector-4242.so:libx.so") /\
  wp (@install_for_child staging_host)
    (fun _ w' =>
       strs w' EXTRACTED = Some [] /\ environ w' = environ preloaded_world /\ extraction_failed preloaded_world w' \/
       exists pid, pid = @answer staging_host preloaded_world Sys_getpid /\
         strs w' EXTRACTED = Some (so_path (r_ret pid)) /\
         @extracted_to staging_host (so_path (r_ret pid)) pid preloaded_world w' /\
         environ w' = preload_env (so_path (r_ret pid)) (environ preloaded_world))
    (fun s _ => s <> NoFuel) preloaded_world.
Proof.
  split; [vm_compute; reflexivity|].
  apply (@install_stages_library staging_host preloaded_world); [reflexivity|apply preloaded_world_nul_free].
Defined.

(** The mark is looked for, not the path: a value inherited from another
    autossh keeps this process's library out. *)
Example inherited_preload_kept :
  environ (snd (@install_for_child staging_host
    (init_world {["LD_PRELOAD"%string := lit "/tmp/autossh-stuck-detector-17.so"]}))) !! "LD_PRELOAD"%string =
  Some (lit "/tmp/autossh-stuck-detector-17.so").
Proof. vm_compute. reflexivity. Qed.

Lemma install_idempotent_witness :
  wp (@install_for_child staging_host)
    (fun _ w1 => wp (@install_for_child staging_host) (fun _ w2 => environ w2 = environ w1) (fun _ _ => True) w1)
    (fun _ _ => True) preloaded_world.
Proof.
  apply (@install_idempotent staging_host preloaded_world); [reflexivity|apply preloaded_world_nul_free].
Defined.
