(* ===== verification/Conn.v ===== *)
(** * The network monitor (src/conn.rs) *)

From Stdlib Require Import Ascii String.
From stdpp Require Import base option list strings gmap functions.
From S2P Require Import Prelude Machine Signals Trace Log Kill.

Definition NO_RD_SOCK : Z := -2.
Definition MAX_CONN_TRIES : Z := 3.
Definition MAX_MESSAGE : Z := 64.
Definition BUF_SZ : Z := 64 + 65 + MAX_MESSAGE.

Definition POLLIN : Z := 1.
Definition POLLOUT : Z := 4.
Definition POLLERR : Z := 8.
Definition POLLHUP : Z := 16.

Definition has (revents bit : Z) : bool := negb (Z.land revents bit =? 0).

(** Progress of [conn_send_and_receive]: bytes left to read and to write,
    the bytes received, the bytes not yet sent, the [events] of the first
    descriptor, the number of descriptors polled, and the errno of the
    last call here that failed (shown by one debug message). *)
Record io_state := IO {
  rleft : Z;
  wleft : Z;
  received : bytes;
  unsent : bytes;
  events0 : Z;
  ntopoll : Z;
  io_errno : Z
}.

Definition failed (s : io_state) (e : Z) : io_state :=
  IO (rleft s) (wleft s) (received s) (unsent s) (events0 s) (ntopoll s) e.

Section Conn.
Context {H : Host}.

Definition errno_str (e : Z) : bytes := cstr_or (strerror e) "?".

(** The address list itself is opaque; failure is fatal. *)
Definition conn_addr (host port : option bytes) : M unit :=
  r ← sys (Sys_getaddrinfo host port);
  if negb (r_ret r =? 0) then xerrlog LOG_ERR (cstr_or (gai_strerror (r_ret r)) "?")
  else mret tt.

Definition conn_remote (host port : option bytes) : M Z :=
  res ← rd RES;
  when (res =? 0) (conn_addr host port;; wr RES 1);;
  s ← sys Sys_socket;
  if r_ret s =? -1 then xerrlog LOG_ERR (lit "socket: " ++ errno_str (r_errno s)) else
  let sock := r_ret s in
  c ← sys (Sys_connect sock);
  if r_ret c =? -1 then
    errlog LOG_INFO (cstr_or host EmptyString ++ lit ":" ++ cstr_or port EmptyString ++ lit ": "
                     ++ errno_str (r_errno c));;
    sys (Sys_close sock);;
    mret (-1)
  else mret sock.

Definition conn_listen (host port : option bytes) : M Z :=
  conn_addr host port;;
  s ← sys Sys_socket;
  if r_ret s =? -1 then xerrlog LOG_ERR (lit "socket: " ++ errno_str (r_errno s)) else
  let sock := r_ret s in
  o ← sys (Sys_setsockopt sock);
  if negb (r_ret o =? 0) then xerrlog LOG_ERR (lit "setsockopt: " ++ errno_str (r_errno o)) else
  b ← sys (Sys_bind sock);
  if r_ret b =? -1 then
    xerrlog LOG_ERR (lit "bind on " ++ cstr_or host EmptyString ++ lit ":" ++ cstr_or port EmptyString ++ lit ": "
                     ++ errno_str (r_errno b)) else
  l ← sys (Sys_listen sock 1);
  if r_ret l <? 0 then xerrlog LOG_ERR (lit "listen: " ++ errno_str (r_errno l)) else
  sys Sys_freeaddrinfo;;
  mret sock.

Definition conn_poll_for_accept (sock : Z) : M Z :=
  timeo ← rd net_timeout;
  p ← sys (Sys_poll [(sock, POLLIN)] timeo);
  if r_ret p =? 0 then
    errlog LOG_INFO (lit "timeout polling to accept read connection");; mret (-1)
  else if r_ret p =? -1 then
    errlog LOG_ERR (lit "error polling to accept read connection: " ++ errno_str (r_errno p));;
    mret (-1)
  else if has (r_aux p) POLLIN then
    a ← sys (Sys_accept sock);
    if r_ret a =? -1 then
      errlog LOG_ERR (lit "error accepting read connection: " ++ errno_str (r_errno a));;
      mret (-1)
    else mret (r_ret a)
  else mret 0.

(** [while wleft > 0 { write ... }]: each round writes at least a byte,
    so [wleft] rounds are enough.  [inr errno] is [return -1]. *)
Fixpoint write_loop (n : nat) (fd : Z) (s : io_state) : M (io_state + Z) :=
  match n with
  | O => mret (inl s)
  | S n' =>
      if negb (0 <? wleft s) then mret (inl s) else
      w ← sys (Sys_write fd (take (Z.to_nat (wleft s)) (unsent s)));
      if r_ret w =? 0 then 
        mret (inl (IO (rleft s) 0 (received s) (unsent s) (events0 s) (ntopoll s) (io_errno s)))
      else if r_ret w =? -1 then
        if (r_errno w =? EINTR) || (r_errno w =? EAGAIN) then mret (inl (failed s (r_errno w)))
        else mret (inr (r_errno w))
      else if (r_ret w <? 0) || (wleft s <? r_ret w) then halt OutOfBounds
      else write_loop n' fd
             (IO (rleft s) (wleft s - r_ret w) (received s)
                 (drop (Z.to_nat (r_ret w)) (unsent s)) (events0 s) (ntopoll s) (io_errno s))
  end.

Fixpoint read_loop (n : nat) (fd : Z) (s : io_state) : M (io_state + Z) :=
  match n with
  | O => mret (inl s)
  | S n' =>
      if negb (0 <? rleft s) then mret (inl s) else
      r ← sys (Sys_read fd (rleft s));
      if r_ret r =? 0 then 
        mret (inl (IO 0 (wleft s) (received s) (unsent s) (events0 s) (ntopoll s) (io_errno s)))
      else if r_ret r =? -1 then
        if (r_errno r =? EINTR) || (r_errno r =? EAGAIN) then mret (inl (failed s (r_errno r)))
        else mret (inr (r_errno r))
      else if (r_ret r <? 0) || (rleft s <? r_ret r) then halt OutOfBounds
      else read_loop n' fd
             (IO (rleft s - r_ret r) (wleft s) (received s ++ chunk r) (unsent s)
                 (events0 s) (ntopoll s) (io_errno s))
  end.

(** The writing half of one round: once everything is written only the
    reading descriptor is polled, and only for input. *)
Definition send_half (fd0 fd1 : Z) (two : bool) (revents : Z) (s : io_state) : M (io_state + Z) :=
  if (0 <? wleft s) && has revents POLLOUT then
    s' ← write_loop (Z.to_nat (wleft s)) (if two then fd1 else fd0) s;
    match s' with
    | inr e => mret (inr e)
    | inl s1 =>
        mret (inl (if wleft s1 =? 0
                   then IO (rleft s1) 0 (received s1) (unsent s1)
                           (if two then events0 s1 else POLLIN) 1 (io_errno s1)
                   else s1))
    end
  else mret (inl s).

Definition receive_half (fd0 : Z) (revents : Z) (s : io_state) : M (io_state + Z) :=
  if has revents POLLIN || has revents POLLHUP then read_loop (Z.to_nat (rleft s)) fd0 s
  else mret (inl s).

(** What [conn_send_and_receive] leaves: its return value, the bytes it
    stored at [rp] and errno.  The bytes are only looked at when the value
    is 0. *)
Definition io_result : Type := Z * bytes * Z.

(** The outer loop, at most eleven rounds ([loops > 10] gives up). *)
Fixpoint io_loop (n : nat) (loops : Z) (fd0 fd1 : Z) (two : bool) (s : io_state) : M io_result :=
  match n with
  | O => halt NoFuel
  | S n' =>
      if negb (0 <? rleft s) then mret (0, received s, io_errno s) else
      timeo ← rd net_timeout;
      p ← sys (Sys_poll ((fd0, events0 s) :: (if ntopoll s =? 2 then [(fd1, POLLOUT)] else [])) timeo);
      if r_ret p =? 0 then mret (1, received s, io_errno s) else
      if r_ret p =? -1 then mret (-1, received s, r_errno p) else
      s1 ← send_half fd0 fd1 two (if two then r_aux2 p else r_aux p) s;
      match s1 with
      | inr e => mret (-1, received s, e)
      | inl s1 =>
          s2 ← receive_half fd0 (r_aux p) s1;
          match s2 with
          | inr e => mret (-1, received s1, e)
          | inl s2 =>
              let loops := loops + 1 in
              if 5 <? loops then
                sys (Sys_sleep 1);;
                if 10 <? loops then
                  errlog LOG_INFO (lit "too many loops without data");;
                  mret (-1, received s2, io_errno s2)
                else io_loop n' loops fd0 fd1 two s2
              else io_loop n' loops fd0 fd1 two s2
          end
      end
  end.

Definition conn_send_and_receive (msg : bytes) (fd0 fd1 events : Z) (two : bool) : M io_result :=
  io_loop 12 0 fd0 fd1 two
    (IO (strlen msg) (strlen msg) [] msg events (if two then 2 else 1) 0).

(** ["%s %s %d %ld %s\r\n"]. *)
Definition test_message (node prog : bytes) (pid id : Z) (echo : bytes) : bytes :=
  node ++ lit " " ++ prog ++ lit " " ++ show_Z pid ++ lit " " ++ show_Z id ++ lit " "
  ++ echo ++ ["013"%char; nl].

Definition shutdown_close (fd : Z) : M unit :=
  sys (Sys_shutdown fd);; sys (Sys_close fd);; mret tt.

(** One round of the [while tries < MAX_CONN_TRIES] loop from the closing
    of the previous read connection on: the verdict ([Some rval] to break,
    [None] to go round again) and the current [rd]. *)
Definition one_try (sock wd : Z) (node : bytes) (id rd0 : Z) : M (option Z * Z) :=
  when (negb (sock =? NO_RD_SOCK) && negb (rd0 =? -1)) (shutdown_close rd0);;
  prog ← rds progname;
  pid ← sys Sys_getpid;
  echo ← rds echo_message;
  let msg := test_message node (default (lit "autossh") prog) (r_ret pid) id (default [] echo) in
  if BUF_SZ <=? strlen msg then xerrlog LOG_ERR (lit "conn_test: buffer overflow") else
  rd1 ← (if negb (sock =? NO_RD_SOCK) then conn_poll_for_accept sock else mret rd0);
  if negb (sock =? NO_RD_SOCK) && (rd1 <? 0) then mret (Some 0, rd1) else
  res ← (if negb (sock =? NO_RD_SOCK) then conn_send_and_receive msg rd1 wd POLLIN true
         else conn_send_and_receive msg wd wd (Z.lor POLLIN POLLOUT) false);
  let '(send_error, got, e) := res in
  if send_error =? 0 then
    if bool_decide (c_str got = msg) then
      errlog LOG_DEBUG (lit "connection ok");;
      mret (Some 1, rd1)
    else
      errlog LOG_DEBUG (lit "not what I sent: " ++ [dquote] ++ cstr_or (Some msg) EmptyString ++ [dquote]
                        ++ lit " : " ++ [dquote] ++ cstr_or (Some (c_str got)) EmptyString ++ [dquote]);;
      mret (None, rd1)
  else if send_error =? 1 then
    errlog LOG_DEBUG (lit "timeout on io poll, looping to accept again");;
    mret (None, rd1)
  else
    errlog LOG_DEBUG (lit "error on poll: " ++ errno_str e);;
    mret (Some 0, rd1).

Fixpoint try_loop (n : nat) (tries sock wd : Z) (node : bytes) (id rd0 : Z) : M (Z * Z) :=
  match n with
  | O => halt NoFuel
  | S n' =>
      if negb (tries <? MAX_CONN_TRIES) then mret (0, rd0) else
      if MAX_CONN_TRIES <=? tries + 1 then
        errlog LOG_DEBUG (lit "tried connection " ++ show_Z (tries + 1) ++ lit " times and failed");;
        mret (0, rd0)
      else
      v ← one_try sock wd node id rd0;
      match v with
      | (Some rval, rd1) => mret (rval, rd1)
      | (None, rd1) => try_loop n' (tries + 1) sock wd node id rd1
      end
  end.

Definition conn_test (sock : Z) (host write_port : option bytes) : M Z :=
  u ← sys Sys_uname;
  id ← sys Sys_random;
  wd ← conn_remote host write_port;
  if wd =? -1 then mret 0 else
  v ← try_loop 4 0 sock wd (c_str (r_data u)) (r_ret id) (-1);
  shutdown_close wd;;
  when (negb (sock =? NO_RD_SOCK) && negb (v.2 =? -1)) (shutdown_close v.2);;
  mret v.1.

End Conn.

(** ** Footprint and termination *)

Definition is_conn_call (c : syscall) : bool :=
  is_log c ||
  match c with
  | Sys_sleep _ | Sys_close _ | Sys_getaddrinfo _ _ | Sys_socket | Sys_connect _ | Sys_poll _ _ | Sys_accept _
  | Sys_write _ _ | Sys_read _ _ | Sys_uname | Sys_random | Sys_shutdown _ => true
  | _ => false
  end.

(** A fatal error also runs the exit path. *)
Definition is_conn_exit (c : syscall) : bool := is_conn_call c || is_exit_call c.

(** The only stop besides signals and fatal errors: a [read] or [write]
    that claims more bytes than it was asked for. *)
Definition conn_stop (s : stop) : bool := match s with OutOfBounds => true | _ => false end.

Notation conn_spec m :=
  (spec (eff [RES] is_conn_call) (eff_stop (RES :: exit_vars) is_conn_exit conn_stop) m).

Section ConnFacts.
Context {H : Host}.

Lemma write_loop_eff n fd s : conn_spec (write_loop n fd s).
Proof. revert s. induction n as [|n IH]; intros s; simpl; spec_auto. Qed.

Lemma read_loop_eff n fd s : conn_spec (read_loop n fd s).
Proof. revert s. induction n as [|n IH]; intros s; simpl; spec_auto. Qed.

#[local] Hint Resolve write_loop_eff read_loop_eff : machine.

Lemma io_loop_eff n loops fd0 fd1 two s :
  12 <= Z.of_nat n + loops -> loops <= 10 -> conn_spec (io_loop n loops fd0 fd1 two s).
Proof.
  revert loops s. induction n as [|n IH]; intros loops s Hn Hl; [simpl in *; lia|].
  simpl io_loop. unfold send_half, receive_half. spec_auto; apply IH; zify_bool; lia.
Qed.

Lemma conn_send_and_receive_eff msg fd0 fd1 ev two :
  conn_spec (conn_send_and_receive msg fd0 fd1 ev two).
Proof. apply io_loop_eff; lia. Qed.

#[local] Hint Resolve conn_send_and_receive_eff : machine.

Lemma one_try_eff sock wd node id rd0 : conn_spec (one_try sock wd node id rd0).
Proof. unfold one_try, shutdown_close, conn_poll_for_accept. spec_auto. Qed.

#[local] Hint Resolve one_try_eff : machine.

Lemma try_loop_eff n tries sock wd node id rd0 :
  4 <= Z.of_nat n + tries -> tries <= 3 -> conn_spec (try_loop n tries sock wd node id rd0).
Proof.
  revert tries rd0. induction n as [|n IH]; intros tries rd0 Hn Ht; [simpl in *; lia|].
  simpl try_loop. unfold MAX_CONN_TRIES. spec_auto. apply IH; zify_bool; lia.
Qed.

Lemma conn_remote_eff host port : conn_spec (conn_remote host port).
Proof. unfold conn_remote, conn_addr. spec_auto. Qed.

#[local] Hint Resolve conn_remote_eff : machine.

(** [conn_test] always comes back: it never exhausts its loops. *)
Lemma conn_test_eff sock host port : conn_spec (conn_test sock host port).
Proof.
  assert (forall wd node id rd0, conn_spec (try_loop 4 0 sock wd node id rd0))
    by (intros; apply try_loop_eff; lia).
  unfold conn_test, shutdown_close. spec_auto.
Qed.

(** ** What a successful test has seen *)

(** Between [w] and [w'] exactly the bytes [new] were read, and [out] was
    shortened by exactly the bytes that were written, all to [fd]. *)
Definition exchanged (fd : Z) (w w' : world) (new out out' : bytes) : Prop :=
  exists t, trace w' = t ++ trace w /\ bytes_got t = new /\ out = bytes_sent t ++ out' /\
    Forall (fun x => x.1 = fd) (writes t).

Lemma exchanged_quiet fd P w w' out :
  calls P w w' -> (forall c, P c = true -> moves_bytes c = false) -> exchanged fd w w' [] out out.
Proof.
  intros C HP. destruct (quiet_calls P w w' C HP) as (t & T & R & W). exists t.
  unfold bytes_got, bytes_sent. by rewrite R, W.
Qed.

Lemma exchanged_refl fd w out : exchanged fd w w [] out out.
Proof. eapply (exchanged_quiet _ (fun _ => false)); [apply calls_refl|done]. Qed.

Lemma exchanged_trans fd w1 w2 w3 n m n' o1 o2 o3 :
  exchanged fd w1 w2 n o1 o2 -> exchanged fd w2 w3 m o2 o3 -> n' = n ++ m -> exchanged fd w1 w3 n' o1 o3.
Proof.
  intros (t & T & <- & -> & F) (u & U & <- & -> & G) ->. exists (u ++ t).
  rewrite U, T, bytes_got_app, bytes_sent_app, <- !app_assoc. split_and!; [done..|].
  unfold writes in *. rewrite omap_app. by apply Forall_app.
Qed.

Lemma strlen_app a b : strlen (a ++ b) = strlen a + strlen b.
Proof. unfold strlen. rewrite length_app. lia. Qed.

Lemma strlen_chunk r : 0 <= r_ret r -> strlen (chunk r) <= r_ret r.
Proof. intros ?. unfold strlen, chunk. rewrite length_take. lia. Qed.

(** One call. *)
Lemma exchanged_call fd c r w w' out :
  trace w' = (c, r) :: trace w -> moves_bytes c = false -> exchanged fd w w' [] out out.
Proof.
  intros T Hc. apply (exchanged_quiet _ (is_call c)); [exists [(c, r)]; simpl; split; [done|]|].
  - unfold is_call. by rewrite bool_decide_eq_true_2.
  - intros d Hd%bool_decide_eq_true. by subst.
Qed.

(** The two loops: what is left unsent, and what has been received since. *)
Lemma write_loop_ok n fd s w :
  wp (write_loop n fd s)
    (fun res w' => forall s', res = inl s' ->
       exchanged fd w w' [] (unsent s) (unsent s') /\ received s' = received s /\ rleft s' = rleft s)
    (fun _ _ => True) w.
Proof.
  revert s w. induction n as [|n IH]; intros s w; simpl.
  { wp_step. intros s' [= <-]. auto using exchanged_refl. }
  wp_step; [wp_step; intros s' [= <-]; auto using exchanged_refl|].
  wp_step. apply wp_sys; [|done]. intros w1 T1 E1. set (r := answer w _) in *.
  assert (r_ret r <= 0 -> exchanged fd w w1 [] (unsent s) (unsent s)) as Same.
  { intros. exists [(Sys_write fd (take (Z.to_nat (wleft s)) (unsent s)), r)]. split; [done|].
    unfold bytes_got, bytes_sent, reads, writes. simpl. by replace (0 <? r_ret r) with false by lia. }
  repeat wp_step; zify_bool; try done; try (intros s' [= <-]; split_and!; [apply Same; lia|done..]).
  eapply wp_mono; [apply IH| |done]. cbn. intros res w' K s' ->. destruct (K s' eq_refl) as (X & ? & ?).
  split_and!; [|done..]. apply (exchanged_trans _ _ w1 _ [] [] _ _ (drop (Z.to_nat (r_ret r)) (unsent s))); [|exact X|done].
  exists [(Sys_write fd (take (Z.to_nat (wleft s)) (unsent s)), r)]. split; [done|].
  unfold bytes_got, bytes_sent, reads, writes. simpl. replace (0 <? r_ret r) with true by lia. simpl.
  rewrite take_take, Nat.min_l, app_nil_r, take_drop by lia. auto.
Qed.

Lemma read_loop_ok out n fd s w :
  wp (read_loop n fd s)
    (fun res w' => forall s', res = inl s' -> unsent s' = unsent s /\
       (exists new, received s' = received s ++ new /\ forall wd, exchanged wd w w' new out out) /\
       (0 <= rleft s -> 0 <= rleft s' /\
        strlen (received s') + rleft s' <= strlen (received s) + rleft s))
    (fun _ _ => True) w.
Proof.
  assert (forall (s : io_state) w w1 fd r, trace w1 = (Sys_read fd (rleft s), r) :: trace w -> r_ret r <= 0 ->
    exists new, received s = received s ++ new /\ forall wd, exchanged wd w w1 new out out) as Same.
  { intros s0 w0 w1 fd' r T L. exists []. split; [by rewrite app_nil_r|]. intros wd. eexists [_].
    split; [exact T|]. unfold bytes_got, bytes_sent, reads, writes. simpl.
    by replace (0 <? r_ret r) with false by lia. }
  revert s w. induction n as [|n IH]; intros s w; simpl.
  { wp_step. intros s' [= <-]. split_and!; [done| |lia]. exists []. rewrite app_nil_r. auto using exchanged_refl. }
  wp_step; [wp_step; intros s' [= <-]; split_and!; [done| |lia]; exists []; rewrite app_nil_r;
    auto using exchanged_refl|].
  wp_step. apply wp_sys; [|done]. intros w1 T1 E1. set (r := answer w _) in *.
  repeat wp_step; zify_bool; try done;
    try (intros s' [= <-]; simpl; split_and!; [done|eapply Same; [exact T1|lia]|lia]).
  assert (0 < r_ret r <= rleft s) as Hr by lia.
  eapply wp_mono; [apply IH| |done]. cbn. intros res w' K s' ->.
  destruct (K s' eq_refl) as (U & (new & R & X) & L).
  pose proof (strlen_chunk r). rewrite strlen_app in L.
  split_and!; [done| |lia]. exists (chunk r ++ new). split; [by rewrite R, app_assoc|]. intros wd.
  eapply exchanged_trans; [|apply X|done]. eexists [_]. split; [exact T1|].
  unfold bytes_got, bytes_sent, reads, writes. simpl. replace (0 <? r_ret r) with true by lia. simpl.
  by rewrite app_nil_r.
Qed.

(** A whole exchange: success has received [new], in at most [rleft] bytes. *)
Definition io_post (fd : Z) (s : io_state) (w : world) (res : io_result) (w' : world) : Prop :=
  res.1.1 = 0 ->
  strlen res.1.2 <= strlen (received s) + rleft s /\
  exists new rest, res.1.2 = received s ++ new /\ exchanged fd w w' new (unsent s) rest.

Lemma send_half_ok fd0 fd1 two rev s w :
  wp (send_half fd0 fd1 two rev s)
    (fun res w' => forall s', res = inl s' ->
       exchanged (if two then fd1 else fd0) w w' [] (unsent s) (unsent s') /\
       received s' = received s /\ rleft s' = rleft s)
    (fun _ _ => True) w.
Proof.
  unfold send_half. wp_step; [|wp_step; intros s' [= <-]; auto using exchanged_refl].
  wp_step. eapply wp_mono; [apply write_loop_ok| |done]. cbv beta.
  intros [s1|e] w1 K; wp_step; intros s' [=]. subst s'. destruct (K s1 eq_refl) as (? & ? & ?).
  by destruct (wleft s1 =? 0).
Qed.

Lemma receive_half_ok fd0 rev s out w :
  0 <= rleft s ->
  wp (receive_half fd0 rev s)
    (fun res w' => forall s', res = inl s' -> unsent s' = unsent s /\
       (exists new, received s' = received s ++ new /\ forall wd, exchanged wd w w' new out out) /\
       0 <= rleft s' /\ strlen (received s') + rleft s' <= strlen (received s) + rleft s)
    (fun _ _ => True) w.
Proof.
  intros HL. unfold receive_half. wp_step.
  - eapply wp_mono; [apply (read_loop_ok out)| |done]. cbv beta. intros res w' K s' E.
    destruct (K s' E) as (? & ? & L). auto.
  - wp_step. intros s' [= <-]. split_and!; [done| |lia..]. exists []. rewrite app_nil_r. auto using exchanged_refl.
Qed.

Lemma io_post_step fd s s2 w w2 res w' new :
  io_post fd s2 w2 res w' -> exchanged fd w w2 new (unsent s) (unsent s2) ->
  received s2 = received s ++ new -> strlen (received s2) + rleft s2 <= strlen (received s) + rleft s ->
  io_post fd s w res w'.
Proof.
  intros K X R L Z0. destruct (K Z0) as (L' & new' & rest & R' & X'). split; [lia|].
  exists (new ++ new'), rest. rewrite R', R, app_assoc. split; [done|]. by eapply exchanged_trans.
Qed.

Lemma io_loop_ok n loops fd0 fd1 two s w :
  0 <= rleft s ->
  wp (io_loop n loops fd0 fd1 two s) (io_post (if two then fd1 else fd0) s w) (fun _ _ => True) w.
Proof.
  revert loops s w. induction n as [|n IH]; intros loops s w HL; simpl io_loop; [by wp_step|].
  wp_step.
  { wp_step. intros _. split; [simpl; lia|]. exists [], (unsent s). rewrite app_nil_r. auto using exchanged_refl. }
  wp_step. wp_step. wp_step. apply wp_sys; [|done]. intros w1 T1 E1.
  repeat wp_step; try done.
  eapply wp_mono; [apply send_half_ok| |done]. cbv beta.
  intros [s1|e] w2 K; [|by wp_step]. destruct (K s1 eq_refl) as (X1 & Rc & Rl). wp_step.
  eapply wp_mono; [apply (receive_half_ok _ _ _ (unsent s1)); lia| |done]. cbv beta.
  intros [s2|e] w3 K3; [|by wp_step]. destruct (K3 s2 eq_refl) as (U2 & (new & R2 & X2) & P3 & L3).
  assert (exchanged (if two then fd1 else fd0) w w3 new (unsent s) (unsent s2)) as X3.
  { rewrite U2. eapply exchanged_trans; [by eapply exchanged_call| |done].
    eapply exchanged_trans; [apply X1|apply X2|done]. }
  assert (forall lp w4, exchanged (if two then fd1 else fd0) w3 w4 [] (unsent s2) (unsent s2) ->
    wp (io_loop n lp fd0 fd1 two s2) (io_post (if two then fd1 else fd0) s w) (fun _ _ => True) w4) as Next.
  { intros lp w4 X4. eapply wp_mono; [by apply IH| |done]. intros res w5 K5.
    eapply io_post_step; [exact K5| |by rewrite R2, Rc|rewrite <- Rc, <- Rl; lia].
    eapply exchanged_trans; [exact X3|exact X4|by rewrite app_nil_r]. }
  cbv zeta. wp_step; [|apply Next, exchanged_refl]. wp_step. apply wp_sys; [|done]. intros w4 T4 E4.
  wp_step; [|apply Next; by eapply exchanged_call].
  wp_step. apply wp_errlog; [|done]. intros w5 _. by wp_step.
Qed.

(** The text of this process's test message. *)
Definition own_message (w : world) (node : bytes) (pid id : Z) : bytes :=
  test_message node (default (lit "autossh") (strs w progname)) pid id
    (default [] (strs w echo_message)).

(** What a test that succeeds has done, reading the calls between [w] and
    [w'] backwards: after this process asked for its pid ([rp] is the
    answer) it read exactly its own message, made with that pid, and had
    sent no other bytes than a beginning of that message, to [wd]. *)
Definition echoed (w w' : world) (node : bytes) (id wd : Z) : Prop :=
  exists after before rp, trace w' = after ++ (Sys_getpid, rp) :: before ++ trace w /\
    bytes_got after = own_message w node (r_ret rp) id /\
    bytes_sent after `prefix_of` own_message w node (r_ret rp) id /\
    Forall (fun x => x.1 = wd) (writes after).

Lemma c_str_prefix s : exists r, s = c_str s ++ r.
Proof.
  induction s as [|c s [r IH]]; simpl; [by exists []|].
  destruct (decide (c = nul)); [by exists (c :: s)|]. exists r. simpl. by f_equal.
Qed.

Lemma c_str_whole s m : c_str s = m -> strlen s <= strlen m -> s = m.
Proof.
  intros <- L. destruct (c_str_prefix s) as [r E]. rewrite E in L at 1. rewrite strlen_app in L.
  assert (r = []) as -> by (destruct r; unfold strlen in *; simpl in *; [done|lia]).
  by rewrite app_nil_r in E.
Qed.

Definition is_hangup (c : syscall) : bool :=
  match c with Sys_shutdown _ | Sys_close _ => true | _ => false end.

Lemma one_try_ok sock wd node id rd0 w :
  wp (one_try sock wd node id rd0) (fun v w' => v.1 = Some 1 -> echoed w w' node id wd)
    (fun _ _ => True) w.
Proof.
  unfold one_try. wp_step.
  apply (wp_eff [] is_hangup by_signal);
    [unfold shutdown_close; spec_auto|]. intros _ w1 E1.
  wp_step. wp_step. wp_step. apply wp_sys; [|done]. intros w2 T2 E2. wp_step. wp_step.
  set (msg := test_message _ _ _ _ _). cbv zeta. wp_step.
  { eapply wp_mono; [apply xerrlog_stops|done|done]. }
  wp_step.
  apply (wp_eff [] (fun c => is_log c || match c with Sys_poll _ _ | Sys_accept _ => true | _ => false end) by_signal);
    [unfold conn_poll_for_accept; spec_auto|]. intros rd1 w3 E3.
  assert (exchanged wd w2 w3 [] msg msg) as X3
    by (eapply exchanged_quiet; [apply (eff_calls _ _ _ _ E3)|by intros []]).
  wp_step; [by wp_step|]. wp_step.
  eapply (wp_mono _ (fun res w' => res.1.1 = 0 -> strlen res.1.2 <= strlen msg /\
    exists rest, exchanged wd w2 w' res.1.2 msg rest)); [| |done].
  { wp_step; (eapply wp_mono; [apply io_loop_ok; unfold strlen; simpl; lia| |done]); cbn beta;
      intros res w4 K Z0; destruct (K Z0) as (L & new & rest & R & X); (split; [exact L|]);
      exists rest; rewrite R; exact (exchanged_trans _ _ _ _ _ _ _ _ _ _ X3 X eq_refl). }
  cbn beta. intros [[code got] e] w4 K. cbn [fst snd] in K. cbv beta iota.
  wp_step; [|wp_step; wp_step; (apply wp_errlog; [|done]); intros w5 _; by wp_step].
  wp_step; [|wp_step; (apply wp_errlog; [|done]); intros w5 _; by wp_step].
  apply bool_decide_eq_true in Heqb2. zify_bool. destruct (K Heqb1) as (L & rest & X4).
  wp_step. apply wp_errlog; [|done]. intros w5 E5. wp_step. intros _.
  assert (exchanged wd w4 w5 [] rest rest) as X5
    by (eapply exchanged_quiet; [apply (eff_calls _ _ _ _ E5)|by intros []]).
  destruct (exchanged_trans _ _ _ _ _ _ msg _ _ _ X4 X5) as (after & T5 & G & M & F).
  { by rewrite app_nil_r, (c_str_whole _ _ Heqb2 L). }
  destruct (eff_calls _ _ _ _ E1) as (before & T1 & _).
  assert (msg = own_message w node (r_ret (answer w1 Sys_getpid)) id) as Own.
  { unfold own_message, msg. by rewrite (eff_strs _ _ _ _ E2), (eff_strs _ _ _ _ E1). }
  exists after, before, (answer w1 Sys_getpid). rewrite <- Own, T5, T2, T1. split_and!; [done..| |done].
  by exists rest.
Qed.

(** Calls before the pid was asked for do not matter. *)
Lemma echoed_from w0 w w' node id wd :
  (exists t, trace w = t ++ trace w0) -> strs w = strs w0 ->
  echoed w w' node id wd -> echoed w0 w' node id wd.
Proof.
  intros [t T] S (after & before & rp & T' & K). exists after, (before ++ t), rp.
  unfold own_message in *. rewrite <- S, T', T, <- app_assoc. auto.
Qed.

Lemma calls_ext P w w' : calls P w w' -> exists t, trace w' = t ++ trace w.
Proof. intros (t & E & _). eauto. Qed.

Lemma try_loop_ok n tries sock wd node id rd0 w :
  wp (try_loop n tries sock wd node id rd0) (fun v w' => v.1 = 1 -> echoed w w' node id wd)
    (fun _ _ => True) w.
Proof.
  revert tries rd0 w. induction n as [|n IH]; intros tries rd0 w; simpl try_loop; [by wp_step|].
  wp_step; [by wp_step|]. wp_step.
  { wp_step. apply wp_errlog; [|done]. intros w1 _. by wp_step. }
  wp_step. eapply wp_mono; [apply wp_and; [apply one_try_ok|apply one_try_eff]| |done].
  cbn beta. intros [[rv|] rd1] w1 [K E]; cbn [fst] in K.
  - wp_step. simpl. intros ->. auto.
  - eapply wp_mono; [apply IH| |done]. cbn beta. intros v w2 K2 V.
    apply (echoed_from w w1); [apply (calls_ext _ _ _ (eff_calls _ _ _ _ E))|apply E|auto].
Qed.

(** The descriptor the message goes to is one that was connected. *)
Lemma conn_remote_ok host port w :
  wp (conn_remote host port)
    (fun wd w' => wd <> -1 -> exists t rc, trace w' = (Sys_connect wd, rc) :: t ++ trace w /\ r_ret rc <> -1)
    (fun _ _ => True) w.
Proof.
  unfold conn_remote. wp_step. wp_step. wp_step.
  apply (wp_mono _ (fun _ w1 => exists t, trace w1 = t ++ trace w) _ (fun _ _ => True)); [| |done].
  { wp_step; [|by exists []]. wp_step. unfold conn_addr.
    wp_step. apply wp_sys; [|done]. intros w1 T1 _. wp_step.
    { eapply wp_mono; [apply xerrlog_stops|done|done]. }
    wp_step. wp_step. eexists [_]. exact T1. }
  cbv beta. intros _ w1 [t T1]. wp_step. apply wp_sys; [|done]. intros w2 T2 _. wp_step.
  { eapply wp_mono; [apply xerrlog_stops|done|done]. }
  cbv zeta. wp_step. apply wp_sys; [|done]. intros w3 T3 _. wp_step.
  - wp_step. apply wp_errlog; [|done]. intros w4 _. wp_step. apply wp_sys; [|done]. intros. by wp_step.
  - wp_step. intros _. zify_bool. eexists (_ :: t), _. split; [|exact Heqb0]. by rewrite T3, T2, T1.
Qed.

(** A successful test as a whole: the id in the message is the random
    number drawn, the host name the one [uname] gave, the descriptor the
    connection made. *)
Definition test_echoed (w w' : world) : Prop :=
  exists after before t rp rc id wd,
    trace w' = after ++ (Sys_getpid, rp) :: before ++ (Sys_connect wd, rc) :: t ++
               (Sys_random, id) :: (Sys_uname, answer w Sys_uname) :: trace w /\
    r_ret rc <> -1 /\
    bytes_got after = own_message w (c_str (r_data (answer w Sys_uname))) (r_ret rp) (r_ret id) /\
    bytes_sent after `prefix_of` own_message w (c_str (r_data (answer w Sys_uname))) (r_ret rp) (r_ret id) /\
    Forall (fun x => x.1 = wd) (writes after).

Lemma echoed_after P w w1 w2 node id wd :
  echoed w w1 node id wd -> calls P w1 w2 -> (forall c, P c = true -> moves_bytes c = false) ->
  echoed w w2 node id wd.
Proof.
  intros (after & before & rp & T & G & S & F) C HP. destruct (quiet_calls P w1 w2 C HP) as (t & T2 & R & W).
  assert (reads (t ++ after) = reads after) as RR by (unfold reads in *; by rewrite omap_app, R).
  assert (writes (t ++ after) = writes after) as WW by (unfold writes in *; by rewrite omap_app, W).
  exists (t ++ after), before, rp. unfold bytes_got, bytes_sent in *. rewrite RR, WW, T2, T, <- app_assoc. auto.
Qed.

Lemma conn_test_ok sock host port w :
  wp (conn_test sock host port) (fun v w' => v = 1 -> test_echoed w w') (fun _ _ => True) w.
Proof.
  unfold conn_test. wp_step. apply wp_sys; [|done]. intros w1 T1 E1.
  wp_step. apply wp_sys; [|done]. intros w2 T2 E2. wp_step.
  eapply wp_mono; [apply wp_and; [apply conn_remote_ok|apply conn_remote_eff]| |done].
  cbv beta. intros wd w3 [K3 E3]. wp_step; [by wp_step|].
  zify_bool. destruct (K3 Heqb) as (t & rc & T3 & Hc).
  wp_step. eapply wp_mono; [apply try_loop_ok| |done]. cbn beta. intros [rv rd1] w4 K. cbn [fst snd] in *.
  wp_step. apply (wp_eff [] is_hangup by_signal); [unfold shutdown_close; spec_auto|]. intros _ w5 E5.
  wp_step. apply (wp_eff [] is_hangup by_signal); [unfold shutdown_close; spec_auto|]. intros _ w6 E6.
  wp_step. intros V.
  assert (echoed w3 w6 (c_str (r_data (answer w Sys_uname))) (r_ret (answer w1 Sys_random)) wd)
    as (after & before & rp & T6 & G & S & F).
  { eapply echoed_after; [eapply echoed_after; [by apply K|apply (eff_calls _ _ _ _ E5)|by intros []]
      |apply (eff_calls _ _ _ _ E6)|by intros []]. }
  unfold own_message in G, S.
  rewrite (eff_strs _ _ _ _ E3), (eff_strs _ _ _ _ E2), (eff_strs _ _ _ _ E1) in G, S.
  exists after, before, t, rp, rc, (answer w1 Sys_random), wd. by rewrite T6, T3, T2, T1.
Qed.

End ConnFacts.

(** ** Properties *)

Section ConnProperties.
Context {H : Host}.

(** C21: A connection test that succeeds has read back, byte for byte, the
    very message it composed: with the host name [uname] gave, the random
    number drawn for this test, and the pid [getpid] answered for the
    attempt that succeeded.  Since that answer it read nothing else, and it
    sent nothing but a beginning of that message, on the connection it made
    for this test; nothing stale or foreign passes. *)
Theorem conn_test_success_is_echo sock host port w :
  wp (conn_test sock host port) (fun v w' => v = 1 -> test_echoed w w') (fun _ _ => True) w.
Proof. apply conn_test_ok. Qed.

(** C22: A connection test always comes to an end, whatever the peer does:
    its loops never run out, it leaves the supervised child and every
    variable but the cached address alone, and keeps the signal state. *)
Theorem conn_test_terminates sock host port w :
  wp (conn_test sock host port)
    (fun _ w' => (forall v, touches [RES] v = false -> ints w' v = ints w v) /\
       kill_calls (trace w') = kill_calls (trace w) /\ live (trace w') = live (trace w) /\
       disp w' = disp w /\ mask w' = mask w)
    (fun s _ => s <> NoFuel) w.
Proof.
  eapply wp_mono; [apply conn_test_eff| |]; cbv beta.
  - intros _ w' E. pose proof (eff_calls _ _ _ _ E) as C. split_and!; try apply E.
    + eapply kill_calls_same; [exact C|by intros []].
    + eapply live_same; [exact C|by intros []].
  - by intros s w' [_ _ _ _ _ W] ->.
Qed.

End ConnProperties.

(** ** A run *)

(** A peer that echoes: the message goes out in two pieces and comes back
    in two. *)
Definition echo_text : bytes := test_message (lit "box") (lit "autossh") 4242 77 [].

Definition echo_host : Host := mock_host (fun c =>
  match c with
  | Sys_uname => [Reply 0 0 0 0 (lit "box") []]
  | Sys_random => [ret_reply 77]
  | Sys_getpid => [ret_reply 4242]
  | Sys_socket => [ret_reply 5]
  | Sys_poll _ _ => replicate 4 (Reply 1 0 (Z.lor POLLIN POLLOUT) 0 [] [])
  | Sys_write _ _ => [ret_reply 3; ret_reply (strlen echo_text - 3)]
  | Sys_read _ _ => [data_reply (take 9 echo_text); data_reply (drop 9 echo_text)]
  | _ => []
  end).

Example echo_succeeds :
  let r := @conn_test echo_host NO_RD_SOCK (Some (lit "127.0.0.1")) (Some (lit "20000")) (init_world ∅) in
  fst r = inl 1 /\ bytes_got (trace (snd r)) = echo_text /\ bytes_sent (trace (snd r)) = echo_text.
Proof. vm_compute. split_and!; reflexivity. Qed.
