(* ===== verification/Watch.v ===== *)
(** * The monitoring loop (src/watch.rs) *)

From Stdlib Require Import Ascii String.
From stdpp Require Import base option list strings gmap functions.
From S2P Require Import Prelude Machine Signals Trace Log Kill Stderr Timing Wait Conn.

(** The signals [sig_catch] handles. *)
Definition build_blockmask : gset Z :=
  list_to_set [SIGCHLD; SIGALRM; SIGINT; SIGTERM; SIGHUP; SIGUSR1; SIGUSR2].

(** What one round of the loop decides. *)
Inductive next := Again | Return (rc : Z).

Section Watch.
Context {H : Host}.

(** [ret(&savedmask, rc)]. *)
Definition ret (savedmask : gset Z) (rc : Z) : M next :=
  sigprocmask_set savedmask;; mret (Return rc).

(** [__sigsetjmp(jumpbuf, 1)] on its direct return. *)
Definition sigsetjmp : M unit := fun w => (inl tt, set_jumpbuf (mask w) w).

(** From [clear_alarm_timer] to [alarm(SECS_LEFT)]. *)
Definition choose_secs_left : M unit :=
  s ← clear_alarm_timer;
  wr SECS_LEFT (wrap32 s);;
  sl ← rd SECS_LEFT;
  mp ← rd my_poll_time;
  when (sl =? 0) (wr SECS_LEFT mp);;
  pt ← rd poll_time;
  wr my_poll_time pt;;
  ml ← rd max_lifetime;
  when (negb (ml =? 0)) (
    now ← sys Sys_time;
    ps ← rd pid_start_time;
    let secs_to_shutdown := f64_sub ml (difftime (r_ret now) ps) in
    when (secs_to_shutdown <? pt) (wr SECS_LEFT (sat32 secs_to_shutdown)));;
  ms ← rd max_session;
  sl ← rd SECS_LEFT;
  when ((0 <? ms) && (ms <? sl)) (wr SECS_LEFT (sat32 ms)).

Definition arm_alarm : M unit :=
  choose_secs_left;;
  wr dolongjmp 1;;
  sl ← rd SECS_LEFT;
  sys (Sys_alarm (u32 sl));;
  mret tt.

(** The child's stderr reported a fatal condition. *)
Definition kill_and_restart_port (savedmask : gset Z) : M next :=
  ssh_kill;;
  errlog LOG_INFO (lit "waiting " ++ show_Z PORT_FWD_FAIL_DELAY
                   ++ lit " seconds for port to be released");;
  sys (Sys_sleep PORT_FWD_FAIL_DELAY);;
  ret savedmask P_RESTART.

Definition stderr_closed : M unit :=
  errlog LOG_INFO (lit "SSH stderr pipe closed");;
  fd ← rd ssh_stderr_fd;
  sys (Sys_close fd);;
  wr ssh_stderr_fd (-1);;
  pl ← rd pipe_lost_time;
  when (pl =? 0) (t ← sys Sys_time; wr pipe_lost_time (r_ret t)).

(** The wait with a stderr descriptor: [ppoll] under the saved mask. *)
Definition wait_with_stderr (savedmask : gset Z) (fd : Z) : M next :=
  p ← sys_under savedmask (Sys_ppoll fd POLLIN);
  wr dolongjmp 0;;
  let revents := r_aux p in
  bad ← (if has revents POLLIN then check_ssh_stderr else mret 0);
  if negb (bad =? 0) then kill_and_restart_port savedmask else
  when (has revents (Z.lor POLLHUP POLLERR) && negb (has revents POLLIN)) stderr_closed;;
  mret Again.

(** The branch for [val == 0]. *)
Definition try_branch (savedmask : gset Z) : M next :=
  r ← ssh_wait WNOHANG;
  if negb (r =? P_CONTINUE) then ret savedmask r else
  arm_alarm;;
  e ← rd exit_signalled;
  if negb (e =? 0) then
    wr dolongjmp 0;;
    errlog LOG_INFO (lit "signalled to exit");;
    ssh_kill;;
    ret savedmask P_EXITERR
  else
  fd ← rd ssh_stderr_fd;
  if 0 <=? fd then wait_with_stderr savedmask fd
  else sys_under savedmask Sys_sigsuspend;; wr dolongjmp 0;; mret Again.

(** The watchdogs of the SIGALRM case: [Some msg] to kill and restart. *)
Definition watchdog : M (option bytes) :=
  ms ← rd max_session;
  if 0 <? ms then
    now ← sys Sys_time;
    pl ← rd pipe_lost_time;
    ls ← rd last_stderr_time;
    st ← rd start_time;
    if negb (pl =? 0) && (ms <=? difftime (r_ret now) pl) then
      mret (Some (lit "ssh child stuck for " ++ show_Z (difftime (r_ret now) pl)
                  ++ lit " secs after stderr pipe lost; restarting"))
    else if (ls =? 0) && (ms <=? difftime (r_ret now) st) then
      mret (Some (lit "ssh produced no stderr in " ++ show_Z (difftime (r_ret now) st)
                  ++ lit " secs since start; assuming stuck in connect, restarting"))
    else mret None
  else mret None.

Definition alarm_case (sock : Z) (savedmask : gset Z) : M next :=
  r ← exceeded_lifetime;
  if negb (r =? 0) then ssh_kill;; ret savedmask P_EXITOK else
  dog ← watchdog;
  match dog with
  | Some msg => errlog LOG_WARNING msg;; ssh_kill;; ret savedmask P_RESTART
  | None =>
      bad ← check_ssh_stderr;
      if negb (bad =? 0) then kill_and_restart_port savedmask else
      wp' ← rds writep;
      match wp' with
      | Some _ =>
          if negb (sock =? -1) then
            h ← rds mhost;
            ok ← conn_test sock h wp';
            if ok =? 0 then
              errlog LOG_INFO (lit "port down, restarting ssh");;
              ssh_kill;;
              ret savedmask P_RESTART
            else mret Again
          else mret Again
      | None => mret Again
      end
  end.

(** The branch for [val != 0]. *)
Definition catch_branch (sock : Z) (savedmask : gset Z) (val : Z) : M next :=
  sigprocmask_set savedmask;;
  if (val =? SIGINT) || (val =? SIGTERM) || (val =? SIGQUIT) || (val =? SIGABRT) then
    errlog LOG_INFO (lit "received signal to exit (" ++ show_Z val ++ lit ")");;
    ssh_kill;;
    ret savedmask P_EXITERR
  else if val =? SIGALRM then alarm_case sock savedmask
  else mret Again.

Definition watch_round (sock : Z) (savedmask : gset Z) : M next :=
  sigprocmask_block build_blockmask;;
  rs ← rd restart_ssh;
  if negb (rs =? 0) then
    errlog LOG_INFO (lit "signalled to kill and restart ssh");;
    ssh_kill;;
    ret savedmask P_RESTART
  else
    sigsetjmp;;
    catch_jump (try_branch savedmask) (catch_branch sock savedmask).

Fixpoint watch_loop (n : nat) (sock : Z) (savedmask : gset Z) : M Z :=
  match n with
  | O => halt NoFuel
  | S n' =>
      d ← watch_round sock savedmask;
      match d with
      | Return rc => mret rc
      | Again => watch_loop n' sock savedmask
      end
  end.

Definition ssh_watch (sock : Z) : M Z :=
  fp ← rd first_poll_time;
  wr my_poll_time fp;;
  savedmask ← sigprocmask_block build_blockmask;
  watch_loop fuel sock savedmask.

End Watch.

(** ** Runs

    The scenarios of tests/unit/test_ssh_watch.c, on the model. *)

Definition t0 : Z := 1000000.

Definition unit_world (f : ivar -> Z) : world :=
  set_disp (fun s => if bool_decide (s ∈ build_blockmask) then SigCatch else SigDfl)
    (set_ints f (init_world ∅)).

Definition unit_ints (v : ivar) : Z :=
  match v with
  | cchild => 9999
  | ssh_stderr_fd => 42
  | start_count => 2
  | gate_time => 30
  | poll_time | first_poll_time => 600
  | start_time | pid_start_time | last_stderr_time => t0
  | net_timeout => 15000
  | loglevel => LOG_INFO
  | logtype => L_SYSLOG
  | _ => 0
  end.

Definition at_time (t : Z) (q : syscall -> list reply) (c : syscall) : list reply :=
  match c with
  | Sys_time => replicate 40 (ret_reply t)
  | _ => q c
  end.

Definition sig_reply (g : Z) : reply := Reply (-1) EINTR 0 0 [] [g].
Definition wait_reply (pid status : Z) : reply := Reply pid 0 status 0 [] [].
Definition poll_reply (revents : Z) : reply := Reply 1 0 revents 0 [] [].

Definition result {A} (r : (A + stop) * world) : A + stop := r.1.

(** A silent but established session survives the alarm. *)
Example alarm_spares_quiet_session :
  result (@ssh_watch (mock_host (at_time (t0 + 290) (fun c =>
     match c with
     | Sys_waitpid _ _ => [ok_reply; wait_reply 9999 (exited 0)]
     | Sys_ppoll _ _ => [sig_reply SIGALRM]
     | _ => []
     end))) (-1) (unit_world (<[max_session := 60]> (<[start_time := t0 - 10]> unit_ints))))
  = inl P_EXITOK.
Proof. vm_compute. reflexivity. Qed.

(** A session that never spoke is killed by the alarm. *)
Example alarm_kills_stuck_session :
  let r := @ssh_watch (mock_host (at_time t0 (fun c =>
     match c with
     | Sys_waitpid _ _ => [ok_reply; wait_reply 9999 0]
     | Sys_ppoll _ _ => [sig_reply SIGALRM]
     | _ => []
     end))) (-1)
     (unit_world (<[max_session := 5]> (<[last_stderr_time := 0]> (<[start_time := t0 - 10]> unit_ints)))) in
  result r = inl P_RESTART /\ kill_calls (trace r.2) = [(9999, SIGTERM)].
Proof. vm_compute. split; reflexivity. Qed.

(** Ctrl-C twice: the second arrives while the child is being killed. *)
Example double_interrupt :
  let r := @ssh_watch (mock_host (at_time t0 (fun c =>
     match c with
     | Sys_waitpid _ _ => [ok_reply; ok_reply]
     | Sys_ppoll _ _ => [sig_reply SIGINT]
     | Sys_sleep _ => [Reply 0 0 0 0 [] [SIGINT]]
     | _ => []
     end))) (-1) (unit_world unit_ints) in
  result r = inr (Exited 1) /\ kill_calls (trace r.2) = [(9999, SIGTERM)].
Proof. vm_compute. split; reflexivity. Qed.

(** ** Facts *)

(** Between two rounds: no jump is armed, [cchild] is the watched child
    and it is still among the children [l] to account for, or was seen gone. *)
Definition watching (c : Z) (l : list Z) (w : world) : Prop :=
  ints w dolongjmp = 0 /\ ints w cchild = c /\
  (live (trace w) = l \/ live (trace w) = without c l).

(** What a round leaves: the loop continues with the child watched, or
    the caller's mask is back, the result is a verdict and the child is
    reaped or given up. *)
Definition watched (savedmask : gset Z) (c : Z) (l : list Z) (d : next) (w : world) : Prop :=
  match d with
  | Again => watching c l w
  | Return rc =>
      ints w dolongjmp = 0 /\ mask w = savedmask /\ In rc [P_RESTART; P_EXITOK; P_EXITERR] /\
      live (trace w) = without c l
  end.

(** The call a [siglongjmp] abandoned was a wait, made with [sig] unblocked. *)
Definition from_wait (savedmask : gset Z) (sig : Z) (w : world) : Prop :=
  match trace w with
  | (c, r) :: _ => (c = Sys_sigsuspend \/ exists fd, c = Sys_ppoll fd POLLIN) /\
                   In sig (r_sigs r) /\ sig ∉ savedmask
  | [] => False
  end.

(** Footprint of a whole watch: the variables and calls it may use. *)
Notation watch_vars :=
  [SECS_LEFT; my_poll_time; cchild; ssh_stderr_fd; pid_file_created; RES; pipe_lost_time;
   last_stderr_time; port_fwd_failed].

Definition is_watch_call (c : syscall) : bool :=
  is_conn_exit c || match c with Sys_alarm _ | Sys_sigprocmask | Sys_ppoll _ _ | Sys_sigsuspend => true
                    | _ => false end.

Section WatchFacts.
Context {H : Host}.

Lemma watching_eff c l V P w w' :
  watching c l w -> eff V P w w' -> touches V cchild = false ->
  (forall s, P s = true -> changes_live s = false) -> watching c l w'.
Proof.
  intros (D & C & L) E HV HP. split_and!.
  - by apply E.
  - by rewrite (eff_ints _ _ _ _ E).
  - by rewrite (live_same _ _ _ (eff_calls _ _ _ _ E)).
Qed.

(** A computation that does not concern the child, while watching. *)
Lemma wpc_watching {A} c l V W P O X (m : M A) (Q : A -> world -> Prop) w :
  watching c l w -> spec (eff V P) (eff_stop W O X) m -> touches V cchild = false ->
  (forall s, P s = true -> changes_live s = false) ->
  (forall a w', watching c l w' -> eff V P w w' -> Q a w') -> wpc m Q w.
Proof.
  intros I Hm HV HP HQ. eapply wpc_eff; [apply Hm|apply I|].
  intros a w' E _. apply HQ; [|done]. by eapply watching_eff.
Qed.

Lemma wpc_errlog c l lv m (Q : unit -> world -> Prop) w :
  watching c l w -> (forall w', watching c l w' -> eff [] is_log w w' -> Q tt w') -> wpc (errlog lv m) Q w.
Proof.
  intros I HQ. eapply wpc_watching; [done|apply errlog_eff|done|by intros []|]. intros []; auto.
Qed.

Lemma wpc_ret c l sm rc w :
  ints w dolongjmp = 0 -> In rc [P_RESTART; P_EXITOK; P_EXITERR] -> live (trace w) = without c l ->
  wpc (ret sm rc) (watched sm c l) w.
Proof.
  intros D R L. unfold ret. wp_step. apply wpc_setmask; [done|]. intros w' E D' T.
  wp_step. split_and!; auto; [by rewrite (eff_mask _ _ _ _ E)|]. rewrite T. done.
Qed.

Lemma wpc_kill c l (Q : unit -> world -> Prop) w :
  watching c l w -> c <> 0 ->
  (forall w', ints w' dolongjmp = 0 -> ints w' cchild = 0 -> live (trace w') = without c l -> Q tt w') ->
  wpc ssh_kill Q w.
Proof.
  intros (D & C & L) N HQ. eapply wpc_and; [apply ssh_kill_ok|apply ssh_kill_eff|done|].
  cbv beta. rewrite C. intros [] w' (C' & _ & _ & _ & L') _ D'. apply HQ; auto.
  rewrite L' by done. destruct L as [-> | ->]; [done|]. apply without_twice.
Qed.

Lemma kill_ret c l sm rc w :
  watching c l w -> c <> 0 -> In rc [P_RESTART; P_EXITOK; P_EXITERR] ->
  wpc (ssh_kill;; ret sm rc) (watched sm c l) w.
Proof.
  intros I N R. wp_step. eapply wpc_kill; [done|done|]. intros. by apply wpc_ret.
Qed.

Lemma kill_and_restart_port_ok c l sm w :
  watching c l w -> c <> 0 -> wpc (kill_and_restart_port sm) (watched sm c l) w.
Proof.
  intros I N. unfold kill_and_restart_port. wp_step. eapply wpc_kill; [done|done|].
  intros w1 D1 C1 L1. wp_step. eapply wpc_eff; [apply errlog_eff|done|]. intros _ w2 E2 D2.
  wp_step. apply wpc_sys; [done|]. intros w3 T3 E3 D3. apply wpc_ret; [done|by left|].
  rewrite T3, live_other by done.
  rewrite (live_same _ _ _ (eff_calls _ _ _ _ E2)); [done|by intros []].
Qed.

Lemma ssh_wait_live o c l w :
  watching c l w ->
  wpc (ssh_wait o) (fun rc w' =>
     if rc =? P_CONTINUE then watching c l w'
     else ints w' dolongjmp = 0 /\ In rc [P_RESTART; P_EXITOK; P_EXITERR] /\
          live (trace w') = without c l) w.
Proof.
  intros (D & C & L). unfold ssh_wait. wp_step. wp_step. rewrite C. wp_step.
  apply wpc_sys; [done|]. intros w1 T1 E1 D1. set (r := answer w _) in *.
  assert (watching c l w1) as I1.
  { split_and!; [done|by frame|]. rewrite T1. by apply live_wait_cases. }
  wp_step; [by wp_step|].
  assert (live (trace w1) = without c l) as L1.
  { rewrite T1. apply live_wait_gone; [|done]. unfold gone. by replace (0 <? r_ret r) with true by lia. }
  wp_step. eapply wpc_watching; [done|apply check_ssh_stderr_eff|done|by intros []|].
  intros _ w2 I2 E2.
  assert (live (trace w2) = without c l) as L2.
  { by rewrite (live_same _ _ _ (eff_calls _ _ _ _ E2)) by (by intros []). }
  assert (forall lv m rc, In rc [P_RESTART; P_EXITOK; P_EXITERR] -> forall w', watching c l w' ->
    live (trace w') = without c l ->
    wpc (errlog lv m;; mret rc) (fun rc w' =>
     if rc =? P_CONTINUE then watching c l w'
     else ints w' dolongjmp = 0 /\ In rc [P_RESTART; P_EXITOK; P_EXITERR] /\
          live (trace w') = without c l) w') as Verdict.
  { intros lv m rc R w' I' L'. wp_step. eapply wpc_errlog; [done|]. intros w4 (D4 & _) E4. wp_step.
    rewrite (live_same _ _ _ (eff_calls _ _ _ _ E4)) by (by intros []).
    replace (rc =? P_CONTINUE) with false; [done|].
    unfold P_CONTINUE. destruct R as [<-|[<-|[<-|[]]]]; done. }
  destruct (WIFSIGNALED (r_aux r)); [apply Verdict; [by left|done|done]|].
  destruct (WIFEXITED (r_aux r)); [|by wp_step].
  unfold child_exit, dispatch_exit, log_exiting, log_restarting. do 7 wp_step.
  eapply (wp_mono _ (fun _ w' => watching c l w' /\ live (trace w') = without c l) _ (fun s _ => calm s)); [| |done].
  { wp_step; [|by wp_step]. wp_step. apply wpc_sys; [apply I2|]. intros w3 T3 E3 D3. repeat wp_step.
    rewrite T3, live_other by done. split; [|done]. eapply watching_eff; [done|done|done|].
    unfold is_call. by intros s ->%bool_decide_eq_true. }
  cbv beta. intros b w3 [I3 L3].
  repeat (wp_step; try (apply Verdict; [simpl; tauto|done|done])).
Qed.

(** *** The alarm *)

Definition is_clock_call (c : syscall) : bool :=
  match c with Sys_time | Sys_alarm _ => true | _ => false end.

Notation alarm_vars := [SECS_LEFT; my_poll_time].

Lemma choose_secs_left_eff :
  spec (eff alarm_vars is_clock_call) (eff_stop alarm_vars is_clock_call by_signal) choose_secs_left.
Proof. unfold choose_secs_left, clear_alarm_timer. spec_auto. Qed.

(** A computation run with a jump armed: jumps land in [J]. *)
Notation wpj m Q J w := (wp m Q (fun s w' => match s with Jumped g => J g w' | _ => True end) w).

Lemma wpc_wpj {A} (m : M A) (Q : A -> world -> Prop) J w : wpc m Q w -> wpj m Q J w.
Proof. intros HW. eapply wp_mono; [exact HW|done|]. by intros []. Qed.

Definition disarm (w : world) : world := set_ints (<[dolongjmp := 0]> (ints w)) w.

(** The signal that jumps is one the host reported and [m] lets through. *)
Lemma deliver_jump m sigs g w w' :
  deliver m sigs w = (inr (Jumped g), w') -> In g sigs /\ g ∉ m /\ disp w g = SigCatch.
Proof.
  revert w. induction sigs as [|h r IH]; intros w; simpl; [done|].
  unfold mbind, M_bind. destruct (bool_decide (h ∈ m)) eqn:B; simpl.
  { intros E. destruct (IH _ E) as (? & ? & ?). auto. }
  apply bool_decide_eq_false in B. pose proof (deliver1_eff h w) as K. unfold wp in K.
  destruct (deliver1 h w) as [[[]|st] w1] eqn:E1.
  - intros E. destruct (IH _ E) as (? & ? & D). rewrite (eff_disp _ _ _ _ K) in D. auto.
  - intros [= -> ->]. clear K. unfold deliver1 in E1. destruct (disp w h) eqn:D.
    + by destruct (default_terminates h).
    + done.
    + enough (g = h) as -> by auto. revert E1. unfold sig_catch, mbind, M_bind, mret, M_ret, when, rd, wr, halt, siglongjmp.
      repeat (split_if; simpl); try congruence; done.
Qed.

(** A call with the jump armed. *)
Lemma wpj_call c l m s (Q : reply -> world -> Prop) (J : Z -> world -> Prop) w :
  watching c l (disarm w) -> changes_live s = false ->
  (forall w', watching c l (disarm w') -> eff [] (is_call s) w w' -> Q (answer w s) w') ->
  (forall g w', watching c l w' -> trace w' = (s, answer w s) :: trace w ->
     In g (r_sigs (answer w s)) -> g ∉ m -> disp w g = SigCatch -> J g w') ->
  wpj (sys_under m s) Q J w.
Proof.
  intros (_ & C & L) HS HQ HJ. unfold disarm in C, L. frame.
  assert (forall w', trace w' = (s, answer w s) :: trace w -> live (trace w') = live (trace w)) as Lv.
  { intros w' T. by rewrite T, live_other. }
  unfold wp. destruct (sys_under m s w) as [[r|st] w'] eqn:U;
    pose proof (sys_under_ok m s w) as K; unfold wp in K; rewrite U in K; cbv beta in K.
  - destruct K as (-> & T & E). apply HQ; [|done]. split_and!; unfold disarm; frame; auto.
    cbn [trace set_ints]. by rewrite (Lv _ T).
  - destruct K as (T & E). destruct st; try done.
    unfold sys_under, mbind, M_bind in U. destruct (deliver m (r_sigs (answer w s)) _) as [[]] eqn:Dl; [done|].
    injection U as -> ->. destruct (deliver_jump _ _ _ _ _ Dl) as (? & ? & ?). apply HJ; auto.
    destruct E as [EI _ _ _ _ (_ & _ & _ & D & _)]. split_and!; auto.
    + rewrite EI by done. done.
    + by rewrite (Lv _ T).
Qed.

(** *** One round *)

Lemma all_blocked_quiet w w' : disp w' = disp w -> mask w' = mask w -> all_blocked w -> all_blocked w'.
Proof. intros D M B g. rewrite D, M. apply B. Qed.

Lemma arm_alarm_ok c l (Q : unit -> world -> Prop) (J : Z -> world -> Prop) w :
  watching c l w ->
  (forall w', watching c l (disarm w') -> Q tt w') ->
  (forall g w', watching c l w' -> ~ all_blocked w -> J g w') ->
  wpj arm_alarm Q J w.
Proof.
  intros I HQ HJ. unfold arm_alarm. wp_step. apply wpc_wpj.
  eapply wpc_watching; [done|apply choose_secs_left_eff|done|by intros []|]. intros _ w1 I1 E1.
  do 4 wp_step. wp_step. eapply wpj_call; [|done| |].
  - destruct I1 as (D1 & C1 & L1). split_and!; unfold disarm; by frame.
  - intros w2 I2 _. wp_step. auto.
  - intros g w2 I2 T2 _ Hg Dg. apply HJ; [done|]. intros B. apply Hg.
    cbn [mask disp set_ints] in *. rewrite (eff_mask _ _ _ _ E1). apply B. by rewrite <- (eff_disp _ _ _ _ E1).
Qed.

Lemma stderr_closed_eff :
  spec (eff [ssh_stderr_fd; pipe_lost_time] (fun c => is_log c || is_close c))
    (eff_stop [ssh_stderr_fd; pipe_lost_time] (fun c => is_log c || is_close c) by_signal) stderr_closed.
Proof. unfold stderr_closed. spec_auto. Qed.

Lemma watching_disarmed c l w :
  watching c l (disarm w) -> wp (wr dolongjmp 0) (fun _ => watching c l) (fun _ _ => False) w.
Proof. done. Qed.

Lemma after_wait c l sm p w :
  watching c l w -> c <> 0 ->
  wpc (bad ← (if has (r_aux p) POLLIN then check_ssh_stderr else mret 0);
       if negb (bad =? 0) then kill_and_restart_port sm else
       when (has (r_aux p) (Z.lor POLLHUP POLLERR) && negb (has (r_aux p) POLLIN)) stderr_closed;;
       mret Again) (watched sm c l) w.
Proof.
  intros I N. wp_step.
  assert (forall bad w', watching c l w' ->
    wpc (if negb (bad =? 0) then kill_and_restart_port sm else
       when (has (r_aux p) (Z.lor POLLHUP POLLERR) && negb (has (r_aux p) POLLIN)) stderr_closed;;
       mret Again) (watched sm c l) w') as K.
  { intros bad w' I'. wp_step; [by apply kill_and_restart_port_ok|]. wp_step. wp_step; [|by wp_step].
    eapply wpc_watching; [done|apply stderr_closed_eff|done|by intros []|]. intros _ w2 I2 _. by wp_step. }
  wp_step; [|wp_step; by apply K].
  eapply wpc_watching; [done|apply check_ssh_stderr_eff|done|by intros []|]. auto.
Qed.

Lemma try_branch_ok c l sm w :
  watching c l w -> c <> 0 ->
  wpj (try_branch sm) (watched sm c l)
    (fun g w' => watching c l w' /\ (all_blocked w -> from_wait sm g w')) w.
Proof.
  intros I N. unfold try_branch. wp_step. apply wpc_wpj.
  eapply wp_mono; [apply wp_and; [by apply ssh_wait_live|apply ssh_wait_eff]| |by intros ? ? []].
  cbv beta. intros rc w1 [K1 E1].
  destruct (rc =? P_CONTINUE); cbn [negb]; cycle 1.
  { destruct K1 as (D1 & R1 & L1). by apply wpc_wpj, wpc_ret. }
  wp_step. eapply arm_alarm_ok; [done| |].
  - intros w2 I2. wp_step. wp_step. wp_step.
    { apply wpc_wpj. do 3 wp_step. eapply wpc_errlog; [exact I2|]. intros w3 I3 _.
      apply kill_ret; [done|done|simpl; tauto]. }
    wp_step. wp_step. wp_step.
    + unfold wait_with_stderr. wp_step. eapply wpj_call; [done|done| |].
      * intros w3 I3 _. do 2 wp_step. apply wpc_wpj, after_wait; done.
      * intros g w3 I3 T3 In3 Nm _. split; [done|]. intros _. unfold from_wait. rewrite T3. eauto.
    + wp_step. eapply wpj_call; [done|done| |].
      * intros w3 I3 _. by do 3 wp_step.
      * intros g w3 I3 T3 In3 Nm _. split; [done|]. intros _. unfold from_wait. rewrite T3. eauto.
  - intros g w2 I2 NB. split; [done|]. intros B. destruct NB. eapply all_blocked_quiet; [| |done]; apply E1.
Qed.

Lemma watchdog_eff : spec (eff [] is_log) (eff_stop [] is_log by_signal) watchdog.
Proof. unfold watchdog. spec_auto. Qed.

Lemma alarm_case_ok c l sock sm w :
  watching c l w -> c <> 0 -> wpc (alarm_case sock sm) (watched sm c l) w.
Proof.
  intros I N. unfold alarm_case. wp_step.
  eapply wpc_watching; [done|apply exceeded_lifetime_eff|done|by intros []|]. intros r w1 I1 _.
  wp_step; [apply kill_ret; [done|done|simpl; tauto]|]. wp_step.
  eapply wpc_watching; [done|apply watchdog_eff|done|by intros []|]. intros [msg|] w2 I2 _.
  { wp_step. eapply wpc_errlog; [done|]. intros w3 I3 _. apply kill_ret; [done|done|simpl; tauto]. }
  wp_step. eapply wpc_watching; [done|apply check_ssh_stderr_eff|done|by intros []|]. intros bad w3 I3 _.
  wp_step; [by apply kill_and_restart_port_ok|]. wp_step. wp_step.
  destruct (strs w3 writep) as [p|]; [|by wp_step]. wp_step; [|by wp_step]. wp_step. wp_step. wp_step.
  eapply wpc_watching; [done|apply conn_test_eff|done|by intros []|]. intros ok w4 I4 _.
  wp_step; [|by wp_step]. wp_step. eapply wpc_errlog; [done|]. intros w5 I5 _.
  apply kill_ret; [done|done|simpl; tauto].
Qed.

Lemma wpc_setmask_watching c l m (Q : unit -> world -> Prop) w :
  watching c l w -> (forall w', watching c l w' -> mask w' = m -> disp w' = disp w -> Q tt w') ->
  wpc (sigprocmask_set m) Q w.
Proof.
  intros (D & C & L) HQ. apply wpc_setmask; [done|]. intros w' E D' T. apply HQ.
  - split_and!; [done|by rewrite (eff_ints _ _ _ _ E)|]. by rewrite T.
  - by rewrite (eff_mask _ _ _ _ E).
  - by rewrite (eff_disp _ _ _ _ E).
Qed.

Lemma catch_branch_ok c l sock sm val w :
  watching c l w -> c <> 0 -> wpc (catch_branch sock sm val) (watched sm c l) w.
Proof.
  intros I N. unfold catch_branch. wp_step. eapply wpc_setmask_watching; [done|]. intros w1 I1 _ _.
  wp_step.
  { wp_step. eapply wpc_errlog; [done|]. intros w2 I2 _. apply kill_ret; [done|done|simpl; tauto]. }
  wp_step; [by apply alarm_case_ok|]. by wp_step.
Qed.

Lemma wpc_block c l m (Q : gset Z -> world -> Prop) w :
  watching c l w ->
  (forall w', watching c l w' -> mask w' = mask w ∪ m -> disp w' = disp w -> Q (mask w) w') ->
  wpc (sigprocmask_block m) Q w.
Proof.
  intros I HQ. unfold sigprocmask_block.
  change (wpc (sigprocmask_set (mask w ∪ m);; mret (mask w)) Q w). wp_step.
  eapply wpc_setmask_watching; [done|]. intros. wp_step. auto.
Qed.

Lemma watch_round_ok c l sock sm w :
  watching c l w -> c <> 0 -> wpc (watch_round sock sm) (watched sm c l) w.
Proof.
  intros I N. unfold watch_round. wp_step. eapply wpc_block; [done|]. intros w1 I1 _ _.
  wp_step. wp_step. wp_step.
  { wp_step. eapply wpc_errlog; [done|]. intros w2 I2 _. apply kill_ret; [done|done|simpl; tauto]. }
  wp_step. unfold sigsetjmp. hnf. apply wp_catch.
  eapply wp_mono; [apply try_branch_ok; done|done|]. intros [] w2; try done. intros [I2 _].
  by apply catch_branch_ok.
Qed.

Lemma watch_loop_ok n c l sock sm w :
  watching c l w -> c <> 0 ->
  wpc (watch_loop n sock sm) (fun rc => watched sm c l (Return rc)) w.
Proof.
  intros I N. revert w I. induction n as [|n IH]; intros w I; simpl watch_loop; [by wp_step|].
  wp_step. eapply wp_mono; [by apply watch_round_ok| |done]. intros [|rc] w1 K; [by apply IH|by wp_step].
Qed.

(** Whatever happens during a watch, when it returns the caller's signal
    mask is back and the child is gone; it never escapes by a jump. *)
Lemma ssh_watch_ok sock w :
  ints w dolongjmp = 0 -> ints w cchild <> 0 ->
  wpc (ssh_watch sock) (fun rc => watched (mask w) (ints w cchild) (live (trace w)) (Return rc)) w.
Proof.
  intros D N. unfold ssh_watch. do 5 wp_step.
  eapply (wpc_block (ints w cchild) (live (trace w))); [split_and!; [done|done|by left]|].
  intros w1 I1 _ _. apply watch_loop_ok; done.
Qed.

(** *** The whole watch *)

#[local] Hint Extern 1 (spec (keeps _ _) _ (errlog _ _)) => keeps_callee errlog_eff : machine.
#[local] Hint Extern 1 (spec (keeps _ _) _ ssh_kill) => keeps_callee ssh_kill_eff : machine.
#[local] Hint Extern 1 (spec (keeps _ _) _ check_ssh_stderr) => keeps_callee check_ssh_stderr_eff : machine.
#[local] Hint Extern 1 (spec (keeps _ _) _ (ssh_wait _)) => keeps_callee ssh_wait_eff : machine.
#[local] Hint Extern 1 (spec (keeps _ _) _ exceeded_lifetime) => keeps_callee exceeded_lifetime_eff : machine.
#[local] Hint Extern 1 (spec (keeps _ _) _ (conn_test _ _ _)) => keeps_callee conn_test_eff : machine.
#[local] Hint Extern 1 (spec (keeps _ _) _ choose_secs_left) => keeps_callee choose_secs_left_eff : machine.
#[local] Hint Extern 1 (spec (keeps _ _) _ watchdog) => keeps_callee watchdog_eff : machine.

Lemma try_branch_keeps sm : kept watch_vars is_watch_call (try_branch sm).
Proof.
  unfold try_branch, arm_alarm, wait_with_stderr, kill_and_restart_port, stderr_closed, ret. spec_auto.
Qed.

Lemma catch_branch_keeps sock sm v : kept watch_vars is_watch_call (catch_branch sock sm v).
Proof. unfold catch_branch, alarm_case, kill_and_restart_port, ret. spec_auto. Qed.

Lemma watch_round_keeps sock sm : kept watch_vars is_watch_call (watch_round sock sm).
Proof.
  assert (kept watch_vars is_watch_call sigsetjmp).
  { intros w; hnf; split; try done; by apply calls_same. }
  assert (kept watch_vars is_watch_call (catch_jump (try_branch sm) (catch_branch sock sm))).
  { apply spec_catch; [apply _| |apply catch_branch_keeps].
    intros w. eapply wp_mono; [apply try_branch_keeps|done|]. by intros []. }
  unfold watch_round, ret. spec_auto.
Qed.

Lemma ssh_watch_keeps sock : kept watch_vars is_watch_call (ssh_watch sock).
Proof.
  assert (forall n sm, kept watch_vars is_watch_call (watch_loop n sock sm)).
  { intros n sm. induction n as [|n IH]; simpl; spec_auto. apply watch_round_keeps. }
  unfold ssh_watch. spec_auto.
Qed.

(** *** What the alarm is set to *)

(** Seconds of lifetime left at a reading [now] of the clock. *)
Definition life_left (w : world) (now : Z) : Z :=
  f64_sub (ints w max_lifetime) (difftime now (ints w pid_start_time)).

(** The previous alarm's time left, or the poll time; the lifetime left
    when that is below the poll time; at most the session limit. *)
Definition alarm_secs (w : world) (now : Z) : Z :=
  let timer := wrap32 (r_ret (answer w (Sys_alarm 0))) in
  let timer := if timer =? 0 then ints w my_poll_time else timer in
  let timer := if negb (ints w max_lifetime =? 0) && (life_left w now <? ints w poll_time)
               then sat32 (life_left w now) else timer in
  if (0 <? ints w max_session) && (ints w max_session <? timer)
  then sat32 (ints w max_session) else timer.

(** Only the alarm's own variables differ. *)
Definition agree (w w' : world) : Prop :=
  forall v, touches alarm_vars v = false -> ints w' v = ints w v.

Lemma agree_wr w w' v x : agree w w' -> touches alarm_vars v = true -> agree w (set_ints (<[v:=x]> (ints w')) w').
Proof.
  intros A Hv u Hu. simpl. rewrite fn_lookup_insert_ne; [by apply A|]. intros ->. congruence.
Qed.

(** The calls that set the alarm: the old one is cancelled, and the clock
    is read ([c] is the answer) when there is a lifetime. *)
Definition alarm_calls (w : world) (c : reply) : list event :=
  (if ints w max_lifetime =? 0 then [] else [(Sys_time, c)]) ++ (Sys_alarm 0, answer w (Sys_alarm 0)) :: trace w.

Lemma choose_secs_left_ok w :
  wp choose_secs_left
    (fun _ w' => exists c, trace w' = alarm_calls w c /\ ints w' SECS_LEFT = alarm_secs w (r_ret c))
    (fun _ _ => True) w.
Proof.
  unfold choose_secs_left, clear_alarm_timer.
  set (t := wrap32 (r_ret (answer w (Sys_alarm 0)))).
  set (timer := if t =? 0 then ints w my_poll_time else t).
  wp_step. wp_step. apply wp_sys; [|done]. intros w1 T1 E1. do 8 wp_step. fold t.
  eapply (wp_mono _ (fun _ w2 => ints w2 SECS_LEFT = timer /\ agree w w2 /\ trace w2 = trace w1)
           _ (fun _ _ => True)); [| |done].
  { assert (agree w w1) by (intros v Hv; apply E1; by eapply touches_mono; [|exact Hv]).
    unfold timer. cbn [ints set_ints]. rewrite wr_eq.
    wp_step; [wp_step|]; frame; cbn [ints set_ints]; rewrite ?Heqb, ?wr_eq; (split_and!; [done| |done]);
      repeat (apply (agree_wr w (set_ints _ _)) || apply agree_wr); done. }
  cbv beta. intros _ w2 (S2 & A2 & T2). rewrite T1 in T2. do 7 wp_step.
  eapply (wp_mono _ (fun _ w3 => agree w w3 /\ exists c, trace w3 = alarm_calls w c /\
    ints w3 SECS_LEFT = if negb (ints w max_lifetime =? 0) && (life_left w (r_ret c) <? ints w poll_time)
               then sat32 (life_left w (r_ret c)) else timer) _ (fun _ _ => True)); [| |done].
  { cbn [ints set_ints]. rewrite wr_ne, (A2 max_lifetime) by done. unfold alarm_calls.
    pose proof (agree_wr w w2 my_poll_time (ints w2 poll_time) A2 eq_refl) as A2'.
    wp_step; [apply negb_true_iff in Heqb|apply negb_false_iff in Heqb]; rewrite Heqb; simpl; cycle 1.
    { split; [done|]. by exists ok_reply. }
    wp_step. apply wp_sys; [|done]. intros w3 T3 E3.
    assert (agree w w3) by (intros v Hv; rewrite (eff_ints _ _ _ _ E3) by (by eapply touches_mono; [|exact Hv]); by apply A2').
    simpl in T3. rewrite T2 in T3. set (c := answer (set_ints _ w2) Sys_time) in *.
    wp_step. wp_step. unfold life_left. rewrite (eff_ints _ _ _ _ E3 pid_start_time), (A2' pid_start_time) by done.
    rewrite (A2 poll_time) by done.
    wp_step; [wp_step|]; (split; [by auto using agree_wr|]); exists c; (split; [done|]); rewrite Heqb0;
      [apply wr_eq|]. by rewrite (eff_ints _ _ _ _ E3). }
  cbv beta. intros _ w3 (A3 & c & C3 & S3). do 4 wp_step. unfold alarm_secs. cbv zeta. fold t. fold timer.
  rewrite S3, (A3 max_session) by done.
  wp_step; [wp_step|]; exists c; (split; [done|]); rewrite Heqb; [apply wr_eq|done].
Qed.

Lemma arm_alarm_secs w :
  wp arm_alarm
    (fun _ w' => exists c r, trace w' = (Sys_alarm (u32 (alarm_secs w (r_ret c))), r) :: alarm_calls w c)
    (fun _ _ => True) w.
Proof.
  unfold arm_alarm. wp_step. eapply wp_mono; [apply choose_secs_left_ok| |done]. cbv beta.
  intros _ w1 (c & T1 & S1). do 5 wp_step. frame. rewrite S1. apply wp_sys; [|done].
  intros w2 T2 _. wp_step. exists c. rewrite T2. simpl. rewrite T1. eauto.
Qed.

(** A drain that condemns the child has just read why. *)
Lemma check_ssh_stderr_bad w :
  wp check_ssh_stderr
    (fun v w' => v <> 0 -> exists c older, fatal c = true /\ reads (trace w') = c :: older ++ reads (trace w))
    (fun _ _ => True) w.
Proof.
  unfold check_ssh_stderr. wp_step. wp_step. wp_step; [by wp_step|].
  eapply wp_mono; [apply drain_ok| |done]. cbv beta. intros v w' ([|c older] & R & _ & D) N.
  - by destruct D.
  - destruct D as (_ & -> & _). exists c, older. split; [by destruct (fatal c)|done].
Qed.

Lemma reads_inert P w w' :
  calls P w w' -> (forall c, P c = true -> match c with Sys_read _ _ => false | _ => true end = true) ->
  reads (trace w') = reads (trace w).
Proof. intros C HP. eapply omap_calls; [done|]. intros [] r Hc; try done. by apply HP in Hc. Qed.

(** *** Why an alarm ends a session *)

(** The reasons, read off the state the alarm found and the calls [t] made
    since, with the verdict each leads to. *)
Inductive alarm_cause (sock : Z) (w : world) (t : list event) : Z -> Prop :=
| LifetimeOver now :
    In now (clock_reads t) -> 0 < ints w max_lifetime ->
    ints w max_lifetime <= difftime now (ints w pid_start_time) -> alarm_cause sock w t P_EXITOK
| PipeLost now :
    In now (clock_reads t) -> 0 < ints w max_session -> ints w pipe_lost_time <> 0 ->
    ints w max_session <= difftime now (ints w pipe_lost_time) -> alarm_cause sock w t P_RESTART
| NeverHeard now :
    In now (clock_reads t) -> 0 < ints w max_session -> ints w last_stderr_time = 0 ->
    ints w max_session <= difftime now (ints w start_time) -> alarm_cause sock w t P_RESTART
| FatalLine c older :
    reads t = c :: older -> fatal c = true -> alarm_cause sock w t P_RESTART
| PortDown p wa wb t1 t2 :
    sock <> -1 -> strs w writep = Some p ->
    trace wa = t1 ++ trace w -> conn_test sock (strs w mhost) (Some p) wa = (inl 0, wb) ->
    t ++ trace w = t2 ++ trace wb -> alarm_cause sock w t P_RESTART.

(** The calls made since [w]. *)
Definition since (w w' : world) (t : list event) : Prop := trace w' = t ++ trace w.

(** Ends the round with [rc], reading nothing more from ssh. *)
Definition ending (rc : Z) (m : M next) : Prop :=
  forall w, wp m (fun d w' => d = Return rc /\ exists t, since w w' t /\ reads t = []) (fun _ _ => True) w.

Definition no_read (c : syscall) : bool := match c with Sys_read _ _ => false | _ => true end.

Lemma reads_none P w w' :
  calls P w w' -> (forall c, P c = true -> no_read c = true) -> exists t, since w w' t /\ reads t = [].
Proof.
  intros (t & E & F) HP. exists t. split; [done|]. clear E. induction t as [|[c r] t IH]; [done|].
  simpl in F. apply andb_prop in F as [Hc F]. apply HP in Hc. rewrite reads_cons. destruct c; auto. done.
Qed.

Lemma ending_after {A} V P rc (m : M A) k :
  kept V P m -> (forall c, P c = true -> no_read c = true) -> ending rc k -> ending rc (m;; k).
Proof.
  intros Hm HP Hk w. wp_step. eapply wp_mono; [apply Hm| |done]. cbv beta. intros _ w1 K1.
  destruct (reads_none P w w1 (keeps_calls _ _ _ _ K1) HP) as (t1 & T1 & R1).
  eapply wp_mono; [apply Hk| |done]. cbv beta. intros d w2 (-> & t2 & T2 & R2). split; [done|].
  exists (t2 ++ t1). unfold since in *. rewrite T2, T1, <- app_assoc. split; [done|].
  unfold reads in *. by rewrite omap_app, R2, R1.
Qed.

Lemma ending_ret sm rc : ending rc (ret sm rc).
Proof.
  unfold ret. eapply (ending_after [] (fun c => match c with Sys_sigprocmask => true | _ => false end));
    [by apply kept_setmask|by intros []|]. intros w. wp_step. split; [done|]. by exists [].
Qed.

Lemma ending_kill sm rc : ending rc (ssh_kill;; ret sm rc).
Proof.
  eapply (ending_after watch_vars is_kill_call); [spec_auto|by intros []|apply ending_ret].
Qed.

Lemma ending_logged lv m rc k : ending rc k -> ending rc (errlog lv m;; k).
Proof. intros. eapply (ending_after watch_vars is_log); [spec_auto|by intros []|done]. Qed.

Lemma ending_port sm : ending P_RESTART (kill_and_restart_port sm).
Proof.
  eapply (ending_after watch_vars is_kill_call); [spec_auto|by intros []|]. apply ending_logged.
  eapply (ending_after watch_vars is_kill_call); [spec_auto|by intros []|apply ending_ret].
Qed.

(** Causes are still causes when more calls follow, unless ssh is read. *)
Lemma alarm_cause_more sock w t u rc :
  alarm_cause sock w t rc -> reads u = [] -> alarm_cause sock w (u ++ t) rc.
Proof.
  intros C R. assert (forall x, In x (clock_reads t) -> In x (clock_reads (u ++ t))) as CR.
  { intros x Hx. unfold clock_reads. rewrite omap_app. apply in_or_app. by right. }
  destruct C.
  - by eapply LifetimeOver; eauto.
  - by eapply PipeLost; eauto.
  - by eapply NeverHeard; eauto.
  - eapply FatalLine; [|done]. unfold reads in *. rewrite omap_app, R. done.
  - eapply (PortDown _ _ _ _ _ _ _ (u ++ t2)); [done..|]. by rewrite <- !app_assoc, H4.
Qed.

(** The decision of the round: go on, or end it for a cause. *)
Definition for_cause (sock : Z) (w : world) (d : next) (w' : world) : Prop :=
  d = Again \/ exists rc t, d = Return rc /\ since w w' t /\ alarm_cause sock w t rc.

Lemma ending_for_cause sock w w1 t rc m :
  since w w1 t -> alarm_cause sock w t rc -> ending rc m -> wp m (for_cause sock w) (fun _ _ => True) w1.
Proof.
  intros T C Hm. eapply wp_mono; [apply Hm| |done]. cbv beta. intros d w2 (-> & u & U & R). right.
  exists rc, (u ++ t). unfold since in *. rewrite U, T, <- app_assoc. split_and!; [done..|].
  by apply alarm_cause_more.
Qed.

Lemma exceeded_lifetime_ok w :
  wp exceeded_lifetime
    (fun r w' => exists t, since w w' t /\ reads t = [] /\
       (r <> 0 -> exists now, In now (clock_reads t) /\ 0 < ints w max_lifetime <= difftime now (ints w pid_start_time)))
    (fun _ _ => True) w.
Proof.
  unfold exceeded_lifetime. wp_step. wp_step. wp_step; [|wp_step; by exists []]. wp_step.
  apply wp_sys; [|done]. intros w1 T1 E1. wp_step. wp_step. frame. wp_step.
  - wp_step. eapply wp_mono; [apply errlog_eff| |done]. cbv beta. intros _ w2 E2.
    destruct (reads_none _ _ _ (eff_calls _ _ _ _ E2)) as (t & T2 & R2); [by intros []|]. wp_step.
    exists (t ++ [(Sys_time, answer w Sys_time)]). unfold since in *. rewrite T2, T1, <- app_assoc.
    split_and!; [done|unfold reads in *; by rewrite omap_app, R2|]. intros _. zify_bool.
    exists (r_ret (answer w Sys_time)). split; [|lia]. unfold clock_reads. rewrite omap_app.
    apply in_or_app. right. by left.
  - wp_step. eexists [_]. split_and!; [exact T1|done|done].
Qed.

Lemma watchdog_ok sock w :
  wp watchdog
    (fun d w' => exists t, since w w' t /\ reads t = [] /\
       forall msg, d = Some msg -> alarm_cause sock w t P_RESTART)
    (fun _ _ => True) w.
Proof.
  unfold watchdog. wp_step. wp_step. wp_step; [|wp_step; by exists []]. wp_step.
  apply wp_sys; [|done]. intros w1 T1 E1. do 6 wp_step. frame. zify_bool.
  wp_step; [|wp_step]; wp_step; (eexists [_]; split_and!; [exact T1|done|]); intros msg [=]; zify_bool.
  - eapply PipeLost; [by left|done|lia|lia].
  - eapply NeverHeard; [by left|done|lia|lia].
Qed.

(** A cause found in a later state that differs in volatile variables only. *)
Lemma alarm_cause_later V P sock w w1 u t rc :
  since w w1 u -> eff V P w w1 -> forallb (fun v => negb (touches V v))
    [max_lifetime; pid_start_time; max_session; pipe_lost_time; last_stderr_time; start_time] = true ->
  alarm_cause sock w1 t rc -> alarm_cause sock w (t ++ u) rc.
Proof.
  intros U E HV C. cbn [forallb] in HV. rewrite !andb_true_iff, !negb_true_iff in HV.
  destruct HV as (H1 & H2 & H3 & H4 & H5 & H6 & _).
  assert (forall x, In x (clock_reads t) -> In x (clock_reads (t ++ u))) as CR.
  { intros x Hx. unfold clock_reads. rewrite omap_app. apply in_or_app. by left. }
  destruct C; rewrite ?(eff_ints _ _ _ _ E), ?(eff_strs _ _ _ _ E) in * by done.
  - by eapply LifetimeOver; eauto.
  - by eapply PipeLost; eauto.
  - by eapply NeverHeard; eauto.
  - eapply (FatalLine _ _ _ _ (older ++ reads u)); [|done]. unfold reads in *. by rewrite omap_app, H0.
  - eapply (PortDown _ _ _ _ wa wb (t1 ++ u) t2); [done..| |done|]; unfold since in *.
    + by rewrite H8, U, app_assoc.
    + by rewrite <- app_assoc, <- U.
Qed.

Lemma since_trans w1 w2 w3 t u : since w1 w2 t -> since w2 w3 u -> since w1 w3 (u ++ t).
Proof. unfold since. intros T U. by rewrite U, T, app_assoc. Qed.

Lemma port_test_for_cause sock sm w w1 t :
  since w w1 t -> strs w1 = strs w ->
  wp (wp' ← rds writep;
      match wp' with
      | Some _ =>
          if negb (sock =? -1) then
            h ← rds mhost;
            ok ← conn_test sock h wp';
            if ok =? 0 then
              errlog LOG_INFO (lit "port down, restarting ssh");; ssh_kill;; ret sm P_RESTART
            else mret Again
          else mret Again
      | None => mret Again
      end) (for_cause sock w) (fun _ _ => True) w1.
Proof.
  intros T S. wp_step. wp_step. destruct (strs w1 writep) as [p|] eqn:WP; [|wp_step; by left].
  wp_step; [|wp_step; by left]. wp_step. wp_step. wp_step.
  pose proof (conn_test_eff sock (strs w1 mhost) (Some p) w1) as K. hnf in K |- *.
  destruct (conn_test sock (strs w1 mhost) (Some p) w1) as [[ok|st] w2] eqn:CT; [|done].
  change (wp (if ok =? 0 then errlog LOG_INFO (lit "port down, restarting ssh");; ssh_kill;; ret sm P_RESTART
              else mret Again) (for_cause sock w) (fun _ _ => True) w2).
  destruct (eff_calls _ _ _ _ K) as (u & U & _). wp_step; [|wp_step; by left]. zify_bool. subst ok.
  eapply ending_for_cause; [by eapply since_trans| |apply ending_logged, ending_kill].
  rewrite S in *. eapply (PortDown _ _ _ p w1 w2 t []); [done..|]. unfold since in T. simpl.
  by rewrite U, T, app_assoc.
Qed.

Lemma alarm_case_cause sock sm w :
  wp (alarm_case sock sm) (for_cause sock w) (fun _ _ => True) w.
Proof.
  unfold alarm_case. wp_step.
  eapply wp_mono; [apply wp_and; [apply exceeded_lifetime_ok|apply exceeded_lifetime_eff]| |done].
  cbv beta. intros r w1 [(t1 & T1 & R1 & K1) E1]. wp_step.
  { destruct K1 as (now & C & L); [by zify_bool|].
    eapply ending_for_cause; [exact T1|by eapply LifetimeOver; eauto; lia|apply ending_kill]. }
  wp_step. eapply wp_mono; [apply wp_and; [apply (watchdog_ok sock)|apply watchdog_eff]| |done].
  cbv beta. intros dog w2 [(t2 & T2 & R2 & K2) E2].
  pose proof (since_trans _ _ _ _ _ T1 T2) as T12. destruct dog as [msg|].
  { eapply ending_for_cause; [exact T12| |apply ending_logged, ending_kill].
    eapply alarm_cause_later; [exact T1|exact E1|reflexivity|]. by eapply K2. }
  wp_step. eapply wp_mono; [apply wp_and; [apply check_ssh_stderr_bad|apply check_ssh_stderr_eff]| |done].
  cbv beta. intros bad w3 [B E3]. destruct (eff_calls _ _ _ _ E3) as (t3 & T3 & _).
  pose proof (since_trans _ _ _ _ _ T12 T3) as T123. wp_step.
  - destruct B as (c & older & F & R); [by zify_bool|].
    eapply ending_for_cause; [exact T123| |apply ending_port]. eapply (FatalLine _ _ _ c older); [|done].
    unfold reads in *. rewrite T3, omap_app, app_comm_cons in R. apply app_inv_tail in R.
    by rewrite !omap_app, R, R1, R2, !app_nil_r.
  - apply (port_test_for_cause _ _ _ _ _ T123).
    by rewrite (eff_strs _ _ _ _ E3), (eff_strs _ _ _ _ E2), (eff_strs _ _ _ _ E1).
Qed.

End WatchFacts.

(** ** Properties *)

Section WatchProperties.
Context {H : Host}.

(** C2: However a watch ends, it never escapes through a [siglongjmp],
    and when it returns the caller's signal mask is back, no jump is
    armed, the verdict is restart, exit-ok or exit-error, and the watched
    child has been reaped or given up (SIGKILL sent and two more polls
    made), the other children being untouched. *)
Theorem ssh_watch_returns_clean sock w :
  ints w dolongjmp = 0 -> ints w cchild <> 0 ->
  wpc (ssh_watch sock)
    (fun rc w' => mask w' = mask w /\ ints w' dolongjmp = 0 /\
       In rc [P_RESTART; P_EXITOK; P_EXITERR] /\
       live (trace w') = without (ints w cchild) (live (trace w))) w.
Proof.
  intros D N. eapply wp_mono; [by apply ssh_watch_ok| |done]. by intros rc w' (? & ? & ? & ?).
Qed.

(** C18: The long jump is safe: with only the handled signals caught, the
    one system call a [siglongjmp] can abandon in a round is the [ppoll]
    or [sigsuspend] wait, for a signal the saved mask lets through. *)
Theorem jump_only_from_wait sm w :
  (forall g, disp w g = SigCatch -> g ∈ build_blockmask) ->
  ints w dolongjmp = 0 -> ints w cchild <> 0 ->
  wp (sigprocmask_block build_blockmask;; sigsetjmp;; try_branch sm) (fun _ _ => True)
    (fun s w' => match s with Jumped g => from_wait sm g w' | _ => True end) w.
Proof.
  intros DC D N. wp_step. apply wpc_wpj.
  eapply (wpc_block (ints w cchild) (live (trace w))); [split_and!; auto|]. intros w1 I1 M1 D1.
  wp_step. unfold sigsetjmp. hnf. eapply wp_mono; [by apply (try_branch_ok (ints w cchild) (live (trace w)))|done|].
  intros [] w2; try done. intros [_ F]. apply F. intros g Hg. simpl in *. rewrite M1.
  apply elem_of_union_r, DC. by rewrite <- D1.
Qed.

(** C34: With a session limit set, [arm_alarm] cancels the old alarm, reads
    the clock if there is a lifetime, and arms an alarm that fires within
    the session limit (and at least a second ahead), unless the lifetime
    is used up at that very reading. *)
Theorem alarm_within_session w :
  0 < ints w max_session <= i32_max ->
  0 < ints w my_poll_time <= i32_max ->
  0 <= r_ret (answer w (Sys_alarm 0)) <= i32_max ->
  wp arm_alarm
    (fun _ w' => exists c s r, trace w' = (Sys_alarm s, r) :: alarm_calls w c /\
       (ints w max_lifetime = 0 \/ 0 < life_left w (r_ret c) -> 1 <= s <= ints w max_session))
    (fun _ _ => True) w.
Proof.
  intros MS MP RA. eapply wp_mono; [apply arm_alarm_secs| |done]. cbv beta.
  intros _ w' (c & r & T). exists c, (u32 (alarm_secs w (r_ret c))), r. split; [done|].
  intros LL. enough (1 <= alarm_secs w (r_ret c) <= ints w max_session) as B.
  { unfold u32, i32_max in *. rewrite Z.mod_small; lia. }
  unfold alarm_secs, sat32, i32_max, i32_min in *. rewrite wrap32_id by (unfold is_i32, i32_max, i32_min in *; lia).
  repeat split_if; zify_bool; try lia; destruct LL; zify_bool; try lia.
Qed.

(** Once the lifetime is used up, a watch that is entered anyway (the
    backoff sleep comes after the check of [ssh_run]) arms no usable
    alarm: [alarm(0)], which cancels it, or more than 68 years. *)
Theorem expired_lifetime_disarms w :
  0 < ints w poll_time -> ints w max_session = 0 -> ints w max_lifetime <> 0 ->
  wp arm_alarm
    (fun _ w' => exists now s r t, trace w' = (Sys_alarm s, r) :: t /\ In now (clock_reads t) /\
       (life_left w now <= 0 -> s = 0 \/ 2 ^ 31 <= s))
    (fun _ _ => True) w.
Proof.
  intros PT MS ML. eapply wp_mono; [apply arm_alarm_secs| |done]. cbv beta.
  intros _ w' (c & r & T). set (now := r_ret c) in *.
  exists now, (u32 (alarm_secs w now)), r, (alarm_calls w c). split; [done|]. split.
  { unfold alarm_calls. rewrite (proj2 (Z.eqb_neq _ _)) by done. by left. }
  intros LL. unfold alarm_secs. rewrite MS. cbn [Z.ltb Z.compare andb].
  rewrite (proj2 (Z.eqb_neq _ _)) by done. rewrite (proj2 (Z.ltb_lt (life_left w now) _)) by lia.
  cbn [negb andb]. unfold u32, sat32, i32_min, i32_max.
  set (x := life_left w now) in *. destruct (decide (x = 0)) as [-> |]; [by left|right].
  replace (Z.max (- 2 ^ 31) (Z.min (2 ^ 31 - 1) x)) with (Z.max (- 2 ^ 31) x) by lia.
  rewrite <- (Z.mod_add _ 1) by lia. rewrite Z.mod_small; lia.
Qed.


(** So silence does not end a session once ssh has been heard: with
    unlimited lifetime, stderr open and no monitoring port, only a fatal
    line does. *)
Theorem alarm_spares_established sock sm w :
  ints w max_lifetime <= 0 -> ints w pipe_lost_time = 0 -> ints w last_stderr_time <> 0 ->
  strs w writep = None ->
  wp (alarm_case sock sm)
    (fun d w' => d = Again \/
       exists c older, fatal c = true /\ reads (trace w') = c :: older ++ reads (trace w))
    (fun _ _ => True) w.
Proof.
  intros ML PL LS WP. eapply wp_mono; [apply alarm_case_cause| |done].
  intros d w' [->|(rc & t & -> & T & C)]; [by left|right].
  destruct C; try lia; [|congruence]. exists c, older. unfold since in T. rewrite T. unfold reads in *.
  by rewrite omap_app, H0.
Qed.

End WatchProperties.

(** ** Witnesses *)

(** The child exits after one alarm. *)
Definition exiting_host : Host := mock_host (at_time (t0 + 290) (fun c =>
  match c with
  | Sys_waitpid _ _ => [ok_reply; wait_reply 9999 (exited 0)]
  | Sys_ppoll _ _ => [sig_reply SIGALRM]
  | _ => []
  end)).

Definition session_world : world := unit_world (<[max_session := 60]> unit_ints).

Lemma ssh_watch_returns_clean_witness :
  result (@ssh_watch exiting_host (-1) session_world) = inl P_EXITOK /\
  wpc (@ssh_watch exiting_host (-1))
    (fun rc w' => mask w' = ∅ /\ ints w' dolongjmp = 0 /\
       In rc [P_RESTART; P_EXITOK; P_EXITERR] /\
       live (trace w') = without 9999 []) session_world.
Proof.
  split; [vm_compute; reflexivity|].
  apply (@ssh_watch_returns_clean exiting_host (-1) session_world); [reflexivity|discriminate].
Defined.

Lemma jump_only_from_wait_witness :
  result ((@sigprocmask_block exiting_host build_blockmask;; sigsetjmp;;
           @try_branch exiting_host ∅) session_world) = inr (Jumped SIGALRM) /\
  wp (@sigprocmask_block exiting_host build_blockmask;; sigsetjmp;; @try_branch exiting_host ∅)
    (fun _ _ => True)
    (fun s w' => match s with Jumped g => from_wait ∅ g w' | _ => True end) session_world.
Proof.
  split; [vm_compute; reflexivity|].
  apply (@jump_only_from_wait exiting_host ∅ session_world); [|reflexivity|discriminate].
  intros g. unfold session_world, unit_world. cbn [disp set_disp].
  destruct (bool_decide (g ∈ build_blockmask)) eqn:B; [|discriminate].
  intros _. by apply bool_decide_eq_true in B.
Defined.

Definition armed_world : world :=
  unit_world (<[my_poll_time := 600]> (<[max_session := 60]> (<[max_lifetime := 500]> unit_ints))).

(** With 210 of 500 seconds of lifetime left and a session limit of 60 the
    alarm is set to 60. *)
Lemma alarm_within_session_witness :
  life_left armed_world (t0 + 290) = 210 /\
  map fst (trace (snd (@arm_alarm exiting_host armed_world))) = [Sys_alarm 60; Sys_time; Sys_alarm 0] /\
  wp (@arm_alarm exiting_host)
    (fun _ w' => exists c s r, trace w' = (Sys_alarm s, r) :: @alarm_calls exiting_host armed_world c /\
       (ints armed_world max_lifetime = 0 \/ 0 < life_left armed_world (r_ret c) -> 1 <= s <= 60))
    (fun _ _ => True) armed_world.
Proof.
  split; [vm_compute; reflexivity|]. split; [vm_compute; reflexivity|].
  apply (@alarm_within_session exiting_host armed_world); vm_compute; split; discriminate || reflexivity.
Defined.

Definition expired_world : world := unit_world (<[max_lifetime := 290]> unit_ints).

Lemma expired_lifetime_disarms_witness :
  life_left expired_world (t0 + 290) = 0 /\
  wp (@arm_alarm exiting_host)
    (fun _ w' => exists now s r t, trace w' = (Sys_alarm s, r) :: t /\ In now (clock_reads t) /\
       (life_left expired_world now <= 0 -> s = 0 \/ 2 ^ 31 <= s))
    (fun _ _ => True) expired_world.
Proof.
  split; [vm_compute; reflexivity|].
  apply (@expired_lifetime_disarms exiting_host expired_world); [reflexivity|reflexivity|discriminate].
Defined.

Lemma alarm_spares_established_witness :
  result (@alarm_case exiting_host (-1) ∅ session_world) = inl Again /\
  wp (@alarm_case exiting_host (-1) ∅)
    (fun d w' => d = Again \/
       exists c older, fatal c = true /\ reads (trace w') = c :: older ++ reads (trace session_world))
    (fun _ _ => True) session_world.
Proof.
  split; [vm_compute; reflexivity|].
  apply (@alarm_spares_established exiting_host (-1) ∅ session_world);
    [vm_compute; discriminate|reflexivity|discriminate|reflexivity].
Defined.
