(* ===== verification/Run.v ===== *)
(** * The start/restart loop (src/run.rs) *)

From Stdlib Require Import Ascii String.
From stdpp Require Import base option list strings gmap functions.
From S2P Require Import Prelude Machine Signals Trace Log Kill Stderr Timing Wait Preload Conn Watch.

Definition F_GETFL : Z := 3.
Definition F_SETFL : Z := 4.
Definition O_NONBLOCK : Z := 2048.

Section Run.
Context {H : Host}.

Definition log_start : M unit :=
  sc ← rd start_count;
  ms ← rd max_start;
  if ms <? 0 then errlog LOG_INFO (lit "starting ssh (count " ++ show_Z sc ++ lit ")")
  else errlog LOG_INFO (lit "starting ssh (count " ++ show_Z sc ++ lit " of " ++ show_Z ms ++ lit ")").

(** [pipe]: the two ends, or -1 and -1. *)
Definition stderr_pipe : M (Z * Z) :=
  r ← sys Sys_pipe;
  if r_ret r <? 0 then
    errlog LOG_ERR (lit "pipe: " ++ cstr_or (strerror (r_errno r)) "?");;
    mret (-1, -1)
  else mret (r_aux r, r_aux2 r).

Definition close_if_open (fd : Z) : M unit := when (0 <=? fd) (sys (Sys_close fd);; mret tt).

(** The forked child.  [execvp] returns only when it fails. *)
Definition child_branch (p : Z * Z) (av : list bytes) : M next :=
  when (0 <=? p.2) (
    sys (Sys_close p.1);;
    sys (Sys_dup2 p.2 STDERR_FILENO);;
    sys (Sys_close p.2);;
    mret tt);;
  e ← sys (Sys_execvp av);
  if r_ret e =? 0 then halt (Execed av) else
  sys (Sys_write STDERR_FILENO (lit "autossh: execvp failed" ++ [nl]));;
  pp ← sys Sys_getppid;
  sys (Sys_kill (r_ret pp) SIGTERM);;
  halt (Exited 1).

(** [errno] after closing [fd], from its value before. *)
Definition close_errno (fd errno : Z) : M Z :=
  if 0 <=? fd then
    r ← sys (Sys_close fd);
    mret (if r_ret r <? 0 then r_errno r else errno)
  else mret errno.

Definition fork_failed (p : Z * Z) (errno : Z) : M next :=
  wr cchild 0;;
  errno ← close_errno p.1 errno;
  errno ← close_errno p.2 errno;
  xerrlog LOG_ERR (lit "fork: " ++ cstr_or (strerror errno) "?").

(** The parent: prepare the pipe, watch the child, tear down. *)
Definition start_watch (p : Z * Z) : M unit :=
  close_if_open p.2;;
  wr ssh_stderr_fd p.1;;
  when (0 <=? p.1) (
    f ← sys (Sys_fcntl p.1 F_GETFL 0);
    when (0 <=? r_ret f) (sys (Sys_fcntl p.1 F_SETFL (Z.lor (r_ret f) O_NONBLOCK));; mret tt));;
  child ← rd cchild;
  errlog LOG_INFO (lit "ssh child pid is " ++ show_Z child).

Definition end_watch : M unit :=
  wr dolongjmp 0;;
  clear_alarm_timer;;
  unset_sig_handlers;;
  close_ssh_stderr.

Definition parent_branch (sock : Z) (p : Z * Z) : M next :=
  start_watch p;;
  set_sig_handlers;;
  retval ← ssh_watch sock;
  end_watch;;
  if (retval =? P_EXITOK) || (retval =? P_EXITERR) then mret (Return retval) else mret Again.

(** From [pipe] to the end of an iteration. *)
Definition start_ssh (sock : Z) (av : list bytes) : M next :=
  p ← stderr_pipe;
  f ← sys Sys_fork;
  wr cchild (r_ret f);;
  if r_ret f =? 0 then child_branch p av
  else if r_ret f =? -1 then fork_failed p (r_errno f)
  else parent_branch sock p.

(** From [restart_ssh = 0] to the reset of the per-child variables; true
    when signalled to exit. *)
Definition prepare_start : M bool :=
  wr restart_ssh 0;;
  sc ← rd start_count;
  wr start_count (wrap32 (sc + 1));;
  st ← rd start_time;
  grace_time st;;
  e ← rd exit_signalled;
  if negb (e =? 0) then errlog LOG_ERR (lit "signalled to exit");; mret true else
  t ← sys Sys_time;
  wr start_time (r_ret t);;
  wr port_fwd_failed 0;;
  wr pipe_lost_time 0;;
  wr last_stderr_time 0;;
  log_start;;
  mret false.

(** One iteration of the [while]. *)
Definition run_round (sock : Z) (av : list bytes) : M next :=
  x ← exceeded_lifetime;
  if negb (x =? 0) then mret (Return P_EXITOK) else
  stopping ← prepare_start;
  if (stopping : bool) then mret (Return P_EXITERR) else start_ssh sock av.

Fixpoint run_loop (n : nat) (sock : Z) (av : list bytes) : M Z :=
  match n with
  | O => halt NoFuel
  | S n' =>
      ms ← rd max_start;
      sc ← rd start_count;
      if (ms <? 0) || (sc <? ms) then
        d ← run_round sock av;
        match d with
        | Return rc => mret rc
        | Again => run_loop n' sock av
        end
      else
        errlog LOG_INFO (lit "max start count reached; exiting");;
        mret P_EXITOK
  end.

Definition ssh_run (sock : Z) (av : list bytes) : M Z :=
  tv ← sys Sys_gettimeofday;
  pid ← sys Sys_getpid;
  sys (Sys_srandom (Z.lxor (Z.lxor (u32 (r_ret pid)) (u32 (r_aux2 tv))) (u32 (r_aux tv))));;
  set_exit_sig_handler;;
  install_for_child;;
  run_loop fuel sock av.

End Run.

(** ** Facts *)

(** No jump is armed, [l] are the children to account for, at most [k] were
    forked, each after the earlier ones were reaped or given up. *)
Record tidy (l : list Z) (k : Z) (w : world) : Prop := Tidy {
  tidy_jump : ints w dolongjmp = 0;
  tidy_single : single_child (trace w);
  tidy_live : live (trace w) = l;
  tidy_forks : forks (trace w) <= k
}.

(** What holds when the process stops. *)
Record halted (k : Z) (s : stop) (w : world) : Prop := Halted {
  halted_calm : calm s;
  halted_single : single_child (trace w);
  halted_forks : forks (trace w) <= k
}.

Definition no_fork (c : syscall) : bool := match c with Sys_fork => false | _ => true end.

Section RunFacts.
Context {H : Host}.

Lemma forks_cons c r t : forks ((c, r) :: t) = (if no_fork c then 0 else 1) + forks t.
Proof. unfold forks, count_calls. destruct c; cbn [List.filter fst no_fork]; cbn [List.length]; lia. Qed.

Lemma no_fork_calls P w w' :
  calls P w w' -> (forall c, P c = true -> no_fork c = true) ->
  (single_child (trace w) -> single_child (trace w')) /\ forks (trace w') = forks (trace w).
Proof.
  intros (t & -> & F) HP. induction t as [|[c r] t IH]; [done|]. simpl in F. apply andb_prop in F as [Hc F].
  destruct (IH F) as [IS IF]. apply HP in Hc. split; [intros S; apply IS in S; by destruct c|].
  cbn [app]. rewrite forks_cons, Hc. lia.
Qed.

Lemma halted_by P k s w w' :
  calls P w w' -> (forall c, P c = true -> no_fork c = true) -> calm s ->
  single_child (trace w) -> forks (trace w) <= k -> halted k s w'.
Proof.
  intros C HP Cs S F. destruct (no_fork_calls _ _ _ C HP) as [IS IF]. split; [done|auto|lia].
Qed.

Lemma tidy_eff l k V P w w' :
  tidy l k w -> eff V P w w' -> (forall c, P c = true -> changes_live c = false) -> tidy l k w'.
Proof.
  intros [D S L F] E HP. destruct (no_fork_calls _ _ _ (eff_calls _ _ _ _ E)) as [IS IF].
  { intros c Hc. apply HP in Hc. by destruct c. }
  split; [by apply E|auto| |lia]. by rewrite (live_same _ _ _ (eff_calls _ _ _ _ E)).
Qed.

(** A computation that neither forks nor concerns the children. *)
Lemma wp_tidy {A} l k V W P O X (m : M A) (Q : A -> world -> Prop) w :
  tidy l k w -> spec (eff V P) (eff_stop W O X) m ->
  (forall c, P c = true -> changes_live c = false) -> (forall c, O c = true -> no_fork c = true) ->
  (forall a w', tidy l k w' -> eff V P w w' -> Q a w') -> wp m Q (halted k) w.
Proof.
  intros T Hm HP HO HQ. eapply wp_mono; [apply Hm| |]; cbn.
  - intros a w' E. apply HQ; [|done]. by eapply tidy_eff.
  - intros s w' E. destruct T as [D S L F].
    eapply halted_by; [apply E|done|by eapply eff_stop_calm|done|done].
Qed.

(** The same, with a functional fact about the normal outcome. *)
Lemma wp_tidy_and {A} l k V W P O X (m : M A) (Q1 Q : A -> world -> Prop) w :
  tidy l k w -> wp m Q1 (fun _ _ => True) w -> spec (eff V P) (eff_stop W O X) m ->
  (forall c, P c = true -> changes_live c = false) -> (forall c, O c = true -> no_fork c = true) ->
  (forall a w', tidy l k w' -> eff V P w w' -> Q1 a w' -> Q a w') -> wp m Q (halted k) w.
Proof.
  intros T H1 Hm HP HO HQ. eapply wp_mono; [apply wp_and; [exact H1|]| |].
  - eapply (wp_tidy l k); [done|done|done|done|]. intros a w' T' E. exact (conj T' E).
  - cbv beta. intros a w' (? & ? & ?). auto.
  - by intros s w' [_ ?].
Qed.

Lemma wp_tidy_sys l k c (Q : reply -> world -> Prop) w :
  tidy l k w -> changes_live c = false ->
  (forall w', tidy l k w' -> eff [] (is_call c) w w' -> trace w' = (c, answer w c) :: trace w ->
     Q (answer w c) w') -> wp (sys c) Q (halted k) w.
Proof.
  intros T Hc HQ. assert (forall c', is_call c c' = true -> changes_live c' = false) as HP.
  { unfold is_call. by intros c' ->%bool_decide_eq_true. }
  apply wp_sys.
  - intros w' Tr E. apply HQ; [|done|done]. by eapply tidy_eff.
  - intros s w' Tr E. destruct T as [D S L F].
    eapply halted_by; [apply E| |by eapply eff_stop_calm|done|done].
    intros c' Hc'. apply HP in Hc'. by destruct c'.
Qed.

Lemma wp_tidy_wr l k v x (Q : unit -> world -> Prop) E w :
  tidy l k w -> (v = dolongjmp -> x = 0) ->
  (forall w', tidy l k w' -> w' = set_ints (<[v:=x]> (ints w)) w -> Q tt w') -> wp (wr v x) Q E w.
Proof.
  intros [D S L F] Hv HQ. wp_step. apply HQ; [|done]. split; simpl; auto.
  destruct (decide (v = dolongjmp)) as [->|N]; [rewrite wr_eq; auto|].
  by rewrite fn_lookup_insert_ne.
Qed.

(** Installing a handler. *)
Lemma wp_tidy_sigaction l k g d (Q : unit -> world -> Prop) w :
  tidy l k w ->
  (forall w', tidy l k w' -> disp w' = <[g:=d]> (disp w) -> mask w' = mask w ->
     (forall v, volatile v = false -> ints w' v = ints w v) -> Q tt w') ->
  wp (sigaction g d) Q (halted k) w.
Proof.
  intros T HQ. unfold sigaction. wp_step. hnf. apply wp_bind.
  eapply (wp_tidy_sys l k); [by destruct T|done|]. intros w1 T1 E1 _. wp_step. apply HQ; [done| | |].
  - apply (eff_disp _ _ _ _ E1).
  - apply (eff_mask _ _ _ _ E1).
  - intros v Hv. apply (eff_ints _ _ _ _ E1). unfold touches. by rewrite Hv.
Qed.

(** *** Preparing a start *)

Notation prepare_vars :=
  [start_count; start_time; port_fwd_failed; pipe_lost_time; last_stderr_time; TRIES].

Definition is_prepare_call (c : syscall) : bool :=
  is_log c || match c with Sys_sleep _ => true | _ => false end.

#[local] Hint Extern 1 (spec (eff _ _) (eff_stop _ _ _) (grace_time _)) => spec_callee grace_time_eff : machine.

Lemma wr_restart_eff V W P O X : spec (eff V P) (eff_stop W O X) (wr restart_ssh 0).
Proof.
  intros w. hnf. split; simpl; auto using calls_same.
  intros v Hv. apply wr_ne. destruct v; done.
Qed.

#[local] Hint Resolve wr_restart_eff : machine.

Lemma prepare_start_eff :
  spec (eff prepare_vars is_prepare_call) (eff_stop prepare_vars is_prepare_call by_signal) prepare_start.
Proof. unfold prepare_start, log_start. spec_auto. Qed.

(** The attempt is counted; a pending request to exit ends it there. *)
Lemma prepare_start_ok w :
  wp prepare_start
    (fun b w' => ints w' start_count = wrap32 (ints w start_count + 1) /\
       (ints w exit_signalled <> 0 -> b = true) /\
       (b = false -> ints w' last_stderr_time = 0 /\ ints w' pipe_lost_time = 0 /\
          ints w' port_fwd_failed = 0 /\ In (ints w' start_time) (clock_reads (trace w'))))
    (fun _ _ => True) w.
Proof.
  unfold prepare_start. do 8 wp_step. frame.
  set (w1 := set_ints _ _).
  assert (ints w1 start_count = wrap32 (ints w start_count + 1)) as S1 by (unfold w1; by frame).
  assert (ints w1 exit_signalled = ints w exit_signalled) as X1 by (unfold w1; by frame).
  clearbody w1. wp_step.
  eapply wp_spec; [apply grace_time_eff| |done]. intros _ w2 E2. wp_step. wp_step.
  wp_step.
  { wp_step. apply wp_errlog; [|done]. intros w3 E3. wp_step. split_and!; [by frame|done|done]. }
  wp_step. apply wp_sys; [|done]. intros w3 T3 E3. do 8 wp_step. wp_step.
  eapply (wp_eff [] is_log by_signal); [unfold log_start; spec_auto|]. intros _ w4 E4. wp_step. split_and!.
  - frame. by rewrite S1.
  - intros X. zify_bool. destruct (eff_exiting _ _ _ _ E2); [by rewrite X1|done].
  - intros _. frame. split_and!; [done..|]. eapply clock_reads_mono; [apply E4|].
    cbn [trace set_ints]. rewrite T3. by left.
Qed.

(** *** Forking and watching *)

Lemma stderr_pipe_eff :
  spec (eff [] (fun c => is_log c || match c with Sys_pipe => true | _ => false end))
    (eff_stop [] (fun c => is_log c || match c with Sys_pipe => true | _ => false end) by_signal) stderr_pipe.
Proof. unfold stderr_pipe. spec_auto. Qed.

Definition is_child_call (c : syscall) : bool :=
  match c with
  | Sys_close _ | Sys_dup2 _ _ | Sys_execvp _ | Sys_write _ _ | Sys_getppid | Sys_kill _ _ => true
  | _ => false
  end.

Definition exec_stop (s : stop) : bool := match s with Execed _ => true | _ => false end.

Lemma child_branch_eff p av :
  spec (eff [] is_child_call) (eff_stop [] is_child_call exec_stop) (child_branch p av).
Proof. unfold child_branch. spec_auto. Qed.

(** The forked child never comes back into the loop. *)
Lemma child_branch_stops p av w :
  wp (child_branch p av) (fun _ _ => False) (fun _ _ => True) w.
Proof.
  unfold child_branch. wp_step. apply (wp_eff [] is_child_call by_signal); [spec_auto|]. intros _ w1 _.
  wp_step. apply wp_sys; [|done]. intros w2 _ _. wp_step; [by wp_step|].
  wp_step. apply wp_sys; [|done]. intros w3 _ _. wp_step. apply wp_sys; [|done]. intros w4 _ _.
  wp_step. apply wp_sys; [|done]. intros w5 _ _. by wp_step.
Qed.

Lemma fork_failed_eff p e :
  spec (eff exit_vars is_exit_call) (eff_stop exit_vars is_exit_call by_signal) (fork_failed p e).
Proof. unfold fork_failed, close_errno. spec_auto. Qed.

Lemma start_watch_eff p :
  spec (eff [ssh_stderr_fd] (fun c => is_log c || match c with Sys_close _ | Sys_fcntl _ _ _ => true | _ => false end))
    (eff_stop [ssh_stderr_fd] (fun c => is_log c || match c with Sys_close _ | Sys_fcntl _ _ _ => true | _ => false end)
       by_signal) (start_watch p).
Proof. unfold start_watch, close_if_open. spec_auto. Qed.

Lemma fork_failed_stops p e w :
  wp (fork_failed p e) (fun _ _ => False) (fun _ _ => True) w.
Proof.
  unfold fork_failed, close_errno. wp_step. wp_step.
  wp_step. apply (wp_eff [] is_close by_signal); [spec_auto|]. intros e1 w1 _.
  wp_step. apply (wp_eff [] is_close by_signal); [spec_auto|]. intros e2 w2 _.
  eapply wp_mono; [apply xerrlog_stops|done|done].
Qed.

(** Between sessions: the exit signals are caught, the others default. *)
Definition idle_disp (d : Z -> disposition) : Prop :=
  d SIGTERM = SigCatch /\ d SIGINT = SigCatch /\
  Forall (fun g => d g = SigDfl) [SIGHUP; SIGUSR1; SIGUSR2; SIGCHLD; SIGALRM; SIGPIPE].

(** A sequence of [sigaction]s keeps the process tidy. *)
Definition same_ints (w w' : world) : Prop := forall v, volatile v = false -> ints w' v = ints w v.

Lemma set_sig_handlers_ok l k (Q : unit -> world -> Prop) w :
  tidy l k w ->
  (forall w', tidy l k w' -> mask w' = mask w -> same_ints w w' ->
     disp w' SIGTERM = SigCatch -> disp w' SIGINT = SigCatch -> Q tt w') ->
  wp set_sig_handlers Q (halted k) w.
Proof.
  intros T HQ. unfold set_sig_handlers.
  do 7 (wp_step; eapply wp_tidy_sigaction; [eassumption|]; intros ? ? ? ? ?).
  eapply wp_tidy_sigaction; [eassumption|]. intros wf Tf Df Mf If. apply HQ; [done|congruence| | |].
  - intros v Hv. repeat match goal with I : forall v, volatile v = false -> _ |- _ => rewrite (I v Hv); clear I end. done.
  - repeat match goal with D : disp ?x = _ |- context [disp ?x] => rewrite D end. reflexivity.
  - repeat match goal with D : disp ?x = _ |- context [disp ?x] => rewrite D end. reflexivity.
Qed.

Lemma unset_sig_handlers_ok l k (Q : unit -> world -> Prop) w :
  tidy l k w -> disp w SIGTERM = SigCatch -> disp w SIGINT = SigCatch ->
  (forall w', tidy l k w' -> mask w' = mask w -> same_ints w w' -> idle_disp (disp w') -> Q tt w') ->
  wp unset_sig_handlers Q (halted k) w.
Proof.
  intros T DT DI HQ. unfold unset_sig_handlers.
  do 5 (wp_step; eapply wp_tidy_sigaction; [eassumption|]; intros ? ? ? ? ?).
  eapply wp_tidy_sigaction; [eassumption|]. intros wf Tf Df Mf If. apply HQ; [done|congruence| |].
  - intros v Hv. repeat match goal with I : forall v, volatile v = false -> _ |- _ => rewrite (I v Hv); clear I end. done.
  - repeat match goal with D : disp ?x = <[_:=_]> _ |- context [disp ?x] => rewrite D; clear D end.
    unfold idle_disp. split_and!; [exact DT|exact DI|]. repeat constructor.
Qed.

Lemma ssh_watch_tidy sock l k (Q : Z -> world -> Prop) w :
  tidy l k w -> ints w cchild <> 0 ->
  (forall rc w', tidy (without (ints w cchild) l) k w' -> mask w' = mask w ->
     keeps watch_vars is_watch_call w w' -> In rc [P_RESTART; P_EXITOK; P_EXITERR] -> Q rc w') ->
  wp (ssh_watch sock) Q (halted k) w.
Proof.
  intros [D S L F] N HQ.
  eapply wp_mono; [apply wp_and; [by apply ssh_watch_ok|apply ssh_watch_keeps]| |]; cbv beta.
  - intros rc w' [(D' & M & R & L') K]. destruct (no_fork_calls _ _ _ (keeps_calls _ _ _ _ K)) as [IS IF];
      [by intros []|]. rewrite L in L'. apply HQ; [split; auto; lia|done|done|done].
  - intros s w' [C K]. eapply halted_by; [apply K|by intros []|done|done|done].
Qed.

Lemma end_watch_ok l k (Q : unit -> world -> Prop) w :
  tidy l k w -> disp w SIGTERM = SigCatch -> disp w SIGINT = SigCatch ->
  (forall w', tidy l k w' -> mask w' = mask w -> idle_disp (disp w') ->
     (forall v, volatile v = false -> v <> ssh_stderr_fd -> ints w' v = ints w v) ->
     Q tt w') ->
  wp end_watch Q (halted k) w.
Proof.
  intros T DT DI HQ. unfold end_watch. wp_step. eapply wp_tidy_wr; [done|done|]. intros w1 T1 ->.
  wp_step. unfold clear_alarm_timer. wp_step. eapply wp_tidy_sys; [done|done|]. intros w2 T2 E2 _. wp_step.
  wp_step. eapply unset_sig_handlers_ok; [done|by frame|by frame|]. intros w3 T3 M3 I3 D3.
  eapply wp_tidy; [done|apply close_eff|by intros []|by intros []|]. intros [] w4 T4 E4. apply HQ; [done| | |].
  - frame. rewrite M3. by frame.
  - by frame.
  - intros v Hv Nv. rewrite (eff_ints _ _ _ _ E4), (I3 v Hv), (eff_ints _ _ _ _ E2).
    + apply wr_ne. by destruct v.
    + unfold touches. by rewrite Hv.
    + unfold touches. rewrite Hv. by destruct v.
Qed.

(** The counters the loop condition reads. *)
Definition same_counters (w w' : world) : Prop :=
  ints w' start_count = ints w start_count /\ ints w' max_start = ints w max_start.

Lemma parent_branch_ok sock p k w :
  let c := ints w cchild in
  tidy [c] k w \/ tidy [] k w -> c <> 0 ->
  wp (parent_branch sock p)
    (fun d w' => tidy [] k w' /\ idle_disp (disp w') /\ mask w' = mask w /\ same_counters w w' /\
       (d = Again \/ d = Return P_EXITOK \/ d = Return P_EXITERR))
    (halted k) w.
Proof.
  intros c T N. assert (exists l, tidy l k w /\ without c l = []) as (l & Tl & Lw).
  { destruct T as [T|T]; [exists [c]|exists []]; (split; [done|]); [|done].
    unfold without. simpl. by rewrite Z.eqb_refl. }
  clear T. unfold parent_branch. wp_step.
  eapply wp_tidy; [done|apply start_watch_eff|by intros []|by intros []|]. intros _ w1 T1 E1. wp_step.
  eapply set_sig_handlers_ok; [done|]. intros w2 T2 M2 I2 DT DI. wp_step.
  assert (ints w2 cchild = c) as C2 by (rewrite I2 by done; by frame).
  eapply ssh_watch_tidy; [done|by rewrite C2|]. rewrite C2, Lw. intros rc w3 T3 M3 K3 R. wp_step.
  eapply end_watch_ok; [done|by rewrite (keeps_disp _ _ _ _ K3)..|]. intros w4 T4 M4 D4 I4.
  assert (same_counters w w4) as SC.
  { split; rewrite I4, (keeps_ints _ _ _ _ K3), I2 by done; by frame. }
  assert (mask w4 = mask w) as M by (rewrite M4, M3, M2; by frame).
  destruct ((rc =? P_EXITOK) || (rc =? P_EXITERR)) eqn:B; wp_step; split_and!; auto.
  destruct R as [<-|[<-|[<-|[]]]]; auto; discriminate B.
Qed.

Definition verdict (d : next) : Prop := d = Again \/ d = Return P_EXITOK \/ d = Return P_EXITERR.

(** After a fork: one more, and alone. *)
Lemma wp_fork k (Q : reply -> world -> Prop) w :
  tidy [] k w ->
  (forall w', (let r := r_ret (answer w Sys_fork) in tidy (if 0 <? r then [r] else []) (k + 1) w') ->
     eff [] (is_call Sys_fork) w w' -> Q (answer w Sys_fork) w') ->
  wp (sys Sys_fork) Q (halted (k + 1)) w.
Proof.
  intros [D S L F] HQ.
  assert (forall w', trace w' = (Sys_fork, answer w Sys_fork) :: trace w ->
    single_child (trace w') /\ forks (trace w') <= k + 1) as K.
  { intros w' T. rewrite T, forks_cons. simpl. split; [done|lia]. }
  apply wp_sys.
  - intros w' T E. destruct (K w' T). apply HQ; [|done]. split; auto; [by apply E|].
    rewrite T. by apply live_fork.
  - intros s w' T E. destruct (K w' T). split; auto. by eapply eff_stop_calm.
Qed.

(** Computations that only stop. *)
Lemma wp_stops {A} k V W P O X (m : M A) (Q : A -> world -> Prop) l w :
  tidy l k w -> spec (eff V P) (eff_stop W O X) m -> wp m (fun _ _ => False) (fun _ _ => True) w ->
  (forall c, O c = true -> no_fork c = true) -> wp m Q (halted k) w.
Proof.
  intros [D S L F] Hm HF HO. eapply wp_mono; [apply wp_and; [apply HF|apply Hm]| |]; cbv beta.
  - by intros a w' [? _].
  - intros s w' [_ E]. eapply halted_by; [apply E|done|by eapply eff_stop_calm|done|done].
Qed.

Lemma start_ssh_ok sock av k w :
  tidy [] k w ->
  wp (start_ssh sock av)
    (fun d w' => tidy [] (k + 1) w' /\ idle_disp (disp w') /\ mask w' = mask w /\
       same_counters w w' /\ verdict d)
    (halted (k + 1)) w.
Proof.
  intros T. assert (tidy [] (k + 1) w) as T' by (destruct T; split; auto; lia).
  unfold start_ssh. wp_step. 
  eapply wp_mono with (E := halted k); [|intros a w' K; exact K|intros s w' []; split; auto; lia].
  eapply wp_tidy; [done|apply stderr_pipe_eff|by intros []|by intros []|]. intros p w1 T1 E1. wp_step.
  apply wp_fork; [done|]. cbv zeta. intros w2 T2 E2. set (r := r_ret _) in *.
  wp_step. eapply wp_tidy_wr; [done|done|]. intros w3 T3 W3. wp_step.
  { eapply wp_stops; [done|apply child_branch_eff|apply child_branch_stops|by intros []]. }
  wp_step.
  { eapply wp_stops; [done|apply fork_failed_eff|apply fork_failed_stops|by intros []]. }
  assert (ints w3 cchild = r) as C3 by (rewrite W3; by frame).
  eapply wp_mono; [apply parent_branch_ok; rewrite C3| |done].
  - destruct (0 <? r); auto.
  - by zify_bool.
  - cbv beta. intros d w4 (T4 & D4 & M4 & [SC MS] & V). split_and!; auto.
    + rewrite M4, W3. by frame.
    + split; [rewrite SC|rewrite MS]; rewrite W3; by frame.
Qed.

Lemma tidy_le l k j w : tidy l k w -> k <= j -> tidy l j w.
Proof. intros [] ?. split; auto. lia. Qed.

Lemma wp_halted_le {A} k j (m : M A) (Q : A -> world -> Prop) w :
  wp m Q (halted k) w -> k <= j -> wp m Q (halted j) w.
Proof. intros HW ?. eapply wp_mono; [exact HW|done|]. intros s w' []. split; auto. lia. Qed.

Lemma run_round_ok sock av k w :
  tidy [] k w ->
  wp (run_round sock av)
    (fun d w' => tidy [] (k + 1) w' /\ (d = Again -> idle_disp (disp w')) /\ mask w' = mask w /\
       ints w' max_start = ints w max_start /\
       (d = Again -> ints w' start_count = wrap32 (ints w start_count + 1)) /\ verdict d)
    (halted (k + 1)) w.
Proof.
  intros T. unfold run_round. wp_step. apply (wp_halted_le k); [|lia].
  eapply wp_tidy; [done|apply exceeded_lifetime_eff|by intros []|by intros []|]. intros x w1 T1 E1.
  wp_step.
  { wp_step. split_and!; [eapply tidy_le; [done|lia]|done|by frame|by frame|done|unfold verdict; auto]. }
  wp_step. apply (wp_halted_le k); [|lia].
  eapply wp_tidy_and; [done|apply prepare_start_ok|apply prepare_start_eff|by intros []|by intros []|].
  intros b w2 T2 E2 (S2 & _ & _). destruct b.
  { wp_step. split_and!; [eapply tidy_le; [done|lia]|done|by frame|by frame|done|unfold verdict; auto]. }
  eapply wp_mono; [by apply start_ssh_ok| |done]. cbv beta.
  intros d w3 (T3 & D3 & M3 & [SC MS] & V). split_and!; auto.
  - rewrite M3. by frame.
  - rewrite MS. by frame.
  - intros _. rewrite SC, S2. by frame.
Qed.

(** The bound on the number of forks the configuration allows. *)
Definition budget (w : world) : Z := Z.max 0 (ints w max_start - ints w start_count).

Definition frugal (k b : Z) (w0 w : world) : Prop := 0 <= ints w0 max_start -> forks (trace w) <= k + b.

Lemma run_loop_ok n sock av k w :
  tidy [] k w -> is_i32 (ints w max_start) -> is_i32 (ints w start_count) ->
  wp (run_loop n sock av)
    (fun rc w' => single_child (trace w') /\ live (trace w') = [] /\ ints w' dolongjmp = 0 /\ frugal k (budget w) w w' /\
       (rc = P_EXITOK \/ rc = P_EXITERR))
    (fun s w' => calm s /\ single_child (trace w') /\ frugal k (budget w) w w') w.
Proof.
  revert k w. induction n as [|n IH]; intros k w T MS SC; simpl run_loop.
  { wp_step. destruct T. split_and!; [done|done|]. unfold frugal, budget. intros; lia. }
  do 4 wp_step. unfold frugal, budget in *. wp_step; cycle 1.
  { wp_step. eapply wp_mono with (E := halted k); [|intros a w' K; exact K|].
    - eapply wp_tidy; [done|apply errlog_eff|by intros []|by intros []|]. intros _ w1 [] _. wp_step.
      split_and!; auto. intros; lia.
    - intros s w' []. split_and!; auto. intros; lia. }
  assert (0 <= ints w max_start -> ints w start_count < ints w max_start) as Lt.
  { intros. apply orb_true_iff in Heqb as []; zify_bool; lia. }
  wp_step. eapply wp_mono; [by apply run_round_ok| |].
  - cbv beta. intros d w1 (T1 & D1 & M1 & MS1 & SC1 & V). destruct d as [|rc].
    + assert (0 <= ints w max_start -> ints w1 start_count = ints w start_count + 1) as SC1'.
      { intros. rewrite SC1 by done. apply wrap32_id. unfold is_i32, i32_min, i32_max in *. lia. }
      assert (is_i32 (ints w1 start_count)) by (rewrite SC1 by done; apply wrap32_range).
      eapply wp_mono; [apply (IH (k + 1)); rewrite ?MS1; done| |]; cbv beta; rewrite MS1.
      * intros rc w2 (? & ? & ? & B & ?). split_and!; auto. intros. specialize (B ltac:(done)). rewrite SC1' in B by done. lia.
      * intros s w2 (? & ? & B). split_and!; auto. intros. specialize (B ltac:(done)). rewrite SC1' in B by done. lia.
    + wp_step. destruct T1. split_and!; auto; [intros; lia|].
      destruct V as [V|[V|V]]; [done|injection V as ->; auto..].
  - intros s w1 []. split_and!; auto. intros. lia.
Qed.

(** The variant: with a start limit, rounds use up the budget, so fuel
    beyond it makes no difference to the loop. *)
Lemma run_loop_fuel n m sock av k w :
  tidy [] k w -> 0 <= ints w max_start -> is_i32 (ints w max_start) -> is_i32 (ints w start_count) ->
  budget w < Z.of_nat n -> budget w < Z.of_nat m ->
  run_loop n sock av w = run_loop m sock av w.
Proof.
  revert m k w. induction n as [|n IH]; intros m k w T P MS SC Hn Hm; [unfold budget in *; lia|].
  destruct m as [|m]; [unfold budget in *; lia|]. simpl run_loop. unfold mbind, M_bind, rd.
  destruct ((ints w max_start <? 0) || (ints w start_count <? ints w max_start)) eqn:B; [|done].
  pose proof (run_round_ok sock av k w T) as K. unfold wp in K.
  destruct (run_round sock av w) as [[[|rc]|s] w1]; [|done|done].
  destruct K as (T1 & _ & _ & MS1 & SC1 & _). rewrite wrap32_id in SC1.
  - apply (IH _ (k + 1)); [done|..]; unfold budget, is_i32, i32_min, i32_max in *;
      rewrite ?MS1, ?SC1 by done; apply orb_true_iff in B as []; zify_bool; lia.
  - unfold is_i32, i32_min, i32_max in *. apply orb_true_iff in B as []; zify_bool; lia.
Qed.

Lemma wp_tidy_install l k (Q : unit -> world -> Prop) w :
  tidy l k w -> (forall w', tidy l k w' -> near w w' -> Q tt w') -> wp install_for_child Q (halted k) w.
Proof.
  intros [D S L F] HQ. eapply wp_mono; [apply install_near| |]; cbv beta.
  - intros [] w' N. destruct (no_fork_calls _ _ _ (near_calls _ _ N)) as [IS IF]; [by intros []|].
    apply HQ; [|done]. split; [by apply N|auto| |lia].
    rewrite (live_same _ _ _ (near_calls _ _ N)); [done|by intros []].
  - intros s w' [W C]. eapply halted_by; [done|by intros []| |done|done]. by destruct s.
Qed.

Lemma ssh_run_ok sock av k w :
  tidy [] k w -> is_i32 (ints w max_start) -> is_i32 (ints w start_count) ->
  wp (ssh_run sock av)
    (fun rc w' => single_child (trace w') /\ live (trace w') = [] /\ ints w' dolongjmp = 0 /\ frugal k (budget w) w w' /\
       (rc = P_EXITOK \/ rc = P_EXITERR))
    (fun s w' => calm s /\ single_child (trace w') /\ frugal k (budget w) w w') w.
Proof.
  intros T MS SC.
  assert (forall s w', halted k s w' -> calm s /\ single_child (trace w') /\ frugal k (budget w) w w') as Hk.
  { intros s w' []. split_and!; auto. unfold frugal, budget. intros. lia. }
  unfold ssh_run. wp_step. eapply wp_mono; [|intros a w' K; exact K|exact Hk].
  eapply wp_tidy_sys; [done|done|]. intros w1 T1 E1 _.
  wp_step. eapply wp_mono; [|intros a w' K; exact K|exact Hk].
  eapply wp_tidy_sys; [done|done|]. intros w2 T2 E2 _.
  wp_step. eapply wp_mono; [|intros a w' K; exact K|exact Hk].
  eapply wp_tidy_sys; [done|done|]. intros w3 T3 E3 _.
  wp_step. eapply wp_mono; [|intros a w' K; exact K|exact Hk].
  unfold set_exit_sig_handler. wp_step. eapply wp_tidy_sigaction; [done|]. intros w4 T4 _ _ I4.
  eapply wp_tidy_sigaction; [done|]. intros w5 T5 _ _ I5.
  wp_step. eapply wp_mono; [|intros a w' K; exact K|exact Hk].
  eapply wp_tidy_install; [done|]. intros w6 T6 N6.
  assert (forall v, volatile v = false -> ints w6 v = ints w v) as I.
  { intros v Hv. rewrite (near_ints _ _ N6 v Hv), I5, I4 by done.
    rewrite (eff_ints _ _ _ _ E3), (eff_ints _ _ _ _ E2), (eff_ints _ _ _ _ E1);
      unfold touches; by rewrite ?Hv. }
  pose proof (I max_start eq_refl) as IM. pose proof (I start_count eq_refl) as IS.
  eapply wp_mono; [apply (run_loop_ok fuel sock av k); rewrite ?IM, ?IS; done| |];
    cbv beta; unfold frugal, budget; rewrite IM, IS; done.
Qed.

(** A request to exit that arrived before the round is honoured without
    starting ssh again. *)
Lemma run_round_exiting sock av w :
  ints w exit_signalled <> 0 ->
  wp (run_round sock av)
    (fun d w' => (d = Return P_EXITOK \/ d = Return P_EXITERR) /\ forks (trace w') = forks (trace w))
    (fun _ w' => forks (trace w') = forks (trace w)) w.
Proof.
  intros X. unfold run_round. wp_step.
  eapply wp_mono; [apply exceeded_lifetime_eff| |]; cbv beta; cycle 1.
  { intros s w' E. apply (no_fork_calls _ _ _ (es_calls _ _ _ _ _ _ E)). by intros []. }
  intros x w1 E1. destruct (no_fork_calls _ _ _ (eff_calls _ _ _ _ E1)) as [_ F1]; [by intros []|].
  wp_step; [wp_step; auto|]. wp_step.
  eapply wp_mono; [apply wp_and; [apply prepare_start_ok|apply prepare_start_eff]| |]; cbv beta; cycle 1.
  { intros s w' [_ E]. rewrite <- F1. apply (no_fork_calls _ _ _ (es_calls _ _ _ _ _ _ E)). by intros []. }
  intros b w2 [(_ & Hb & _) E2]. rewrite Hb by (by apply E1). wp_step. split; [auto|].
  rewrite <- F1. apply (no_fork_calls _ _ _ (eff_calls _ _ _ _ E2)). by intros [].
Qed.

End RunFacts.

(** ** Properties *)

Section RunProperties.
Context {H : Host}.

(** C1: Throughout a run the supervisor has at most one ssh child to
    account for: a fork happens only when every earlier child has been
    reaped or given up.  Given up means that SIGKILL was sent and two more
    polls did not find the child gone; such a child (in an uninterruptible
    state) stays behind as a process.  At most [max_start] children are ever
    started when a limit is set.  All this holds however the run ends; when
    [ssh_run] returns, every child is reaped or given up and the result is
    exit-ok or exit-error. *)
Theorem ssh_run_one_child_at_a_time sock av w :
  ints w dolongjmp = 0 -> trace w = [] ->
  is_i32 (ints w max_start) -> ints w start_count = 0 ->
  wp (ssh_run sock av)
    (fun rc w' => single_child (trace w') /\ live (trace w') = [] /\
       (0 <= ints w max_start -> forks (trace w') <= ints w max_start) /\
       (rc = P_EXITOK \/ rc = P_EXITERR))
    (fun s w' => calm s /\ single_child (trace w') /\
       (0 <= ints w max_start -> forks (trace w') <= ints w max_start)) w.
Proof.
  intros D T MS SC.
  eapply wp_mono; [apply (ssh_run_ok sock av 0); [split; rewrite ?T; done|done|rewrite SC; done]| |];
    cbv beta; unfold frugal, budget; rewrite SC.
  - intros rc w' (? & ? & _ & F & ?). split_and!; auto. intros P. specialize (F P). lia.
  - intros s w' (? & ? & F). split_and!; auto. intros P. specialize (F P). lia.
Qed.

(** C37: The restart loop terminates when a start limit is set: every
    round uses up one start, so any fuel above the starts left gives the
    same outcome. *)
Theorem run_loop_terminates n m sock av w :
  ints w dolongjmp = 0 -> trace w = [] ->
  0 <= ints w max_start <= i32_max -> is_i32 (ints w start_count) ->
  budget w < Z.of_nat n -> budget w < Z.of_nat m ->
  run_loop n sock av w = run_loop m sock av w.
Proof.
  intros D T MS SC Hn Hm. apply (run_loop_fuel n m sock av 0); auto; [|lia|].
  - split; rewrite ?T; done.
  - unfold is_i32, i32_min in *. lia.
Qed.

(** C36: Once SIGTERM or SIGINT has been seen, the next round starts no
    ssh: it ends the run, before or after the backoff. *)
Theorem exit_signal_starts_nothing sock av w :
  ints w exit_signalled <> 0 ->
  wp (run_round sock av)
    (fun d w' => (d = Return P_EXITOK \/ d = Return P_EXITERR) /\ forks (trace w') = forks (trace w))
    (fun _ w' => forks (trace w') = forks (trace w)) w.
Proof. apply run_round_exiting. Qed.

(** After a session that is to be restarted only SIGTERM and SIGINT
    are caught, and the signal mask is the one the round began with. *)
Theorem handlers_between_sessions sock av w :
  ints w dolongjmp = 0 -> trace w = [] ->
  wp (run_round sock av)
    (fun d w' => mask w' = mask w /\ (d = Again -> idle_disp (disp w'))) (fun s _ => calm s) w.
Proof.
  intros D T. eapply wp_mono; [apply (run_round_ok sock av 0); split; rewrite ?T; done| |]; cbv beta.
  - by intros d w' (_ & ? & ? & _).
  - by intros s w' [].
Qed.

(** With the dispositions of the time between sessions, a SIGHUP that
    arrives in a system call (the backoff sleep among them) kills the
    supervisor instead of prodding it. *)
Theorem hup_between_sessions_kills c rest w :
  idle_disp (disp w) -> SIGHUP ∉ mask w -> r_sigs (answer w c) = SIGHUP :: rest ->
  fst (sys c w) = inr (Killed SIGHUP).
Proof.
  intros (_ & _ & D) M S. apply Forall_inv in D. unfold sys, sys_under. rewrite S. cbn [deliver].
  rewrite bool_decide_false by done. cbn [negb when]. unfold mbind, M_bind, deliver1.
  cbn [disp set_trace]. by rewrite D.
Qed.

End RunProperties.

(** ** Witnesses *)

(** Two starts are allowed; ssh exits with 255 both times. *)
Definition flaky_host : Host := mock_host (at_time t0 (fun c =>
  match c with
  | Sys_pipe => [Reply 0 0 5 6 [] []; Reply 0 0 5 6 [] []]
  | Sys_fork => [ret_reply 777; ret_reply 778]
  | Sys_waitpid _ _ => [wait_reply 777 (exited 255); wait_reply 778 (exited 255)]
  | _ => []
  end)).

Definition start_world : world :=
  set_ints (<[max_start := 2]> (<[gate_time := 0]> init_ints)) (init_world ∅).

Definition ssh_argv : list bytes := [lit "ssh"; lit "host"].

Lemma ssh_run_one_child_at_a_time_witness :
  result (@ssh_run flaky_host (-1) ssh_argv start_world) = inl P_EXITOK /\
  forks (trace (snd (@ssh_run flaky_host (-1) ssh_argv start_world))) = 2 /\
  wp (@ssh_run flaky_host (-1) ssh_argv)
    (fun rc w' => single_child (trace w') /\ live (trace w') = [] /\
       (0 <= 2 -> forks (trace w') <= 2) /\ (rc = P_EXITOK \/ rc = P_EXITERR))
    (fun s w' => calm s /\ single_child (trace w') /\ (0 <= 2 -> forks (trace w') <= 2)) start_world.
Proof.
  split; [vm_compute; reflexivity|]. split; [vm_compute; reflexivity|].
  apply (@ssh_run_one_child_at_a_time flaky_host (-1) ssh_argv start_world);
    [reflexivity|reflexivity|vm_compute; split; discriminate|reflexivity].
Defined.

(** A child that survives SIGKILL: it is given up after two polls and the
    next one is started beside it. *)
Example stuck_child_stays_behind :
  let host := mock_host (at_time t0 (fun c =>
     match c with
     | Sys_pipe => [Reply 0 0 5 6 [] []; Reply 0 0 5 6 [] []]
     | Sys_fork => [ret_reply 777; ret_reply 778]
     | Sys_ppoll _ _ => [sig_reply SIGUSR1]
     | Sys_waitpid _ _ => repeat ok_reply 5 ++ [wait_reply 778 (exited 255)]
     | _ => []
     end)) in
  let r := @ssh_run host (-1) ssh_argv start_world in
  result r = inl P_EXITOK /\ kill_calls (trace r.2) = [(777, SIGKILL); (777, SIGTERM)] /\
  unreaped (trace r.2) = [777] /\ abandoned (trace r.2) = [777] /\ live (trace r.2) = [].
Proof. vm_compute. split_and!; reflexivity. Qed.

Lemma run_loop_terminates_witness :
  @run_loop flaky_host 3 (-1) ssh_argv start_world = @run_loop flaky_host 1000 (-1) ssh_argv start_world.
Proof.
  apply (@run_loop_terminates flaky_host 3 1000 (-1) ssh_argv start_world);
    [reflexivity|reflexivity|vm_compute; split; discriminate|vm_compute; split; discriminate
    |reflexivity|reflexivity].
Defined.

Definition exiting_world : world := set_ints (<[exit_signalled := 1]> (ints start_world)) start_world.

Lemma exit_signal_starts_nothing_witness :
  result (@run_round flaky_host (-1) ssh_argv exiting_world) = inl (Return P_EXITERR) /\
  wp (@run_round flaky_host (-1) ssh_argv)
    (fun d w' => (d = Return P_EXITOK \/ d = Return P_EXITERR) /\ forks (trace w') = 0)
    (fun _ w' => forks (trace w') = 0) exiting_world.
Proof.
  split; [vm_compute; reflexivity|].
  apply (@exit_signal_starts_nothing flaky_host (-1) ssh_argv exiting_world). discriminate.
Defined.

Lemma handlers_between_sessions_witness :
  result (@run_round flaky_host (-1) ssh_argv start_world) = inl Again /\
  wp (@run_round flaky_host (-1) ssh_argv)
    (fun d w' => mask w' = ∅ /\ (d = Again -> idle_disp (disp w'))) (fun s _ => calm s) start_world.
Proof.
  split; [vm_compute; reflexivity|].
  apply (@handlers_between_sessions flaky_host (-1) ssh_argv start_world); reflexivity.
Defined.

(** The host sends SIGHUP while the supervisor sleeps. *)
Definition hup_host : Host := mock_host (fun c =>
  match c with Sys_sleep _ => [Reply 7 0 0 0 [] [SIGHUP]] | _ => [] end).

Definition idle_world : world :=
  set_disp (fun g => if bool_decide (g ∈ [SIGTERM; SIGINT]) then SigCatch else SigDfl) start_world.

Lemma hup_between_sessions_kills_witness : fst (@sys hup_host (Sys_sleep 7) idle_world) = inr (Killed SIGHUP).
Proof.
  apply (@hup_between_sessions_kills hup_host (Sys_sleep 7) [] idle_world).
  - vm_compute. repeat constructor.
  - vm_compute. intros E. inversion E.
  - reflexivity.
Defined.
