(* ===== verification/Args.v ===== *)
(** * The ssh argument list and option stripping (src/args.rs) *)

From Stdlib Require Import Ascii String.
From stdpp Require Import base option list strings gmap functions.
From S2P Require Import Prelude Machine Signals Trace Log.

Definition START_AV_SZ : Z := 16.

(** ** The argument array *)

Section Args.
Context {H : Host}.

Definition alloc_fail {A} (what : bytes) (errno : Z) : M A :=
  let s := match strerror errno with None => lit "<unknown>" | Some m => utf8_lossy m end in
  sys (Sys_write 2 (lit "autossh: " ++ what ++ lit ": " ++ s ++ [nl]));;
  halt (Exited 1).

(** A pointer-sized allocation, or the end. *)
Definition alloc (what : bytes) (size : Z) : M unit :=
  r ← sys (Sys_alloc size);
  if r_ret r <? 0 then alloc_fail what (r_errno r) else mret tt.

Definition put_args (a : option (list slot)) (n c : Z) : M unit := fun w => (inl tt, set_args a n c w).
Definition get_newav : M (option (list slot)) := fun w => (inl (newav w), w).
Definition get_newac : M Z := fun w => (inl (newac w), w).
Definition get_cap : M Z := fun w => (inl (NEWAV_CAP w), w).

(** [*newav.add(i) = v]. *)
Definition store (i : Z) (v : slot) : M unit :=
  a ← get_newav;
  n ← get_newac;
  c ← get_cap;
  match a with
  | Some l =>
      if (0 <=? i) && (i <? Z.of_nat (List.length l))
      then put_args (Some (<[Z.to_nat i := v]> l)) n c
      else halt OutOfBounds
  | None => halt OutOfBounds
  end.

(** Make room for one more argument and the NULL behind it. *)
Definition reserve : M unit :=
  a ← get_newav;
  n ← get_newac;
  c ← get_cap;
  match a with
  | None =>
      alloc (lit "malloc") (START_AV_SZ * 8);;
      put_args (Some (replicate (Z.to_nat START_AV_SZ) Null)) n START_AV_SZ
  | Some l =>
      if c - 1 <=? n then
        alloc (lit "realloc") (c * 2 * 8);;
        put_args (Some (l ++ replicate (Z.to_nat (c * 2) - List.length l) Undef)) n (c * 2)
      else mret tt
  end.

Definition incr_newac : M unit :=
  a ← get_newav;
  n ← get_newac;
  c ← get_cap;
  put_args a (wrap32 (n + 1)) c.

Definition add_arg (s : option bytes) : M unit :=
  match s with
  | None | Some [] => mret tt
  | Some t =>
      reserve;;
      alloc (lit "malloc") (strlen t + 1);;
      n ← get_newac;
      store n (Str t);;
      incr_newac;;
      n' ← get_newac;
      store n' Null
  end.

End Args.

(** ** Stripping a flag *)

(** [memmove(dst, src, len)] inside a buffer; [None] when it leaves it. *)
Definition memmove (buf : bytes) (dst src len : nat) : option bytes :=
  if (src + len <=? List.length buf)%nat && (dst + len <=? List.length buf)%nat
  then Some (take dst buf ++ take len (drop src buf) ++ drop (dst + len) buf)
  else None.

(** Whether [opts] lists [c] followed by a colon. *)
Definition takes_param (opts : bytes) (c : ascii) : bool :=
  match strchr opts c with
  | Some (_ :: n :: _) => Ascii.eqb n ":"%char
  | _ => false
  end.

(** The [while *f != 0] loop on the buffer, with [f] an index.  The flag
    tells an early return; [None] is an access outside the buffer. *)
Fixpoint strip_loop (n : nat) (buf : bytes) (f len : nat) (ch : ascii) (opts : bytes)
    : option (bytes * bool) :=
  match n with
  | O => None
  | S n' =>
      match buf !! f with
      | None => None
      | Some c =>
          if Ascii.eqb c nul then Some (buf, false)
          else if takes_param opts c then Some (buf, true)
          else
            match (if Ascii.eqb c ch then memmove buf f (S f) len else Some buf) with
            | None => None
            | Some buf' => strip_loop n' buf' (S f) (pred len) ch opts
            end
      end
  end.

Definition strip_arg (buf : bytes) (ch : ascii) (opts : bytes) : option bytes :=
  match buf !! 0%nat, buf !! 1%nat with
  | Some b0, Some b1 =>
      if negb (Ascii.eqb b0 "-"%char) || Ascii.eqb b1 nul then Some buf
      else
        match strip_loop (S (List.length buf)) buf 0 (List.length (c_str buf)) ch opts with
        | None => None
        | Some (buf', true) => Some buf'
        | Some (buf', false) =>
            match buf' !! 1%nat with
            | None => None
            | Some c => Some (if Ascii.eqb c nul then <[0%nat := nul]> buf' else buf')
            end
        end
  | Some b0, None => if Ascii.eqb b0 "-"%char then None else Some buf
  | None, _ => None
  end.

(** ** The array represents a list *)

(** [newav] holds the strings [l] followed by a NULL, within its capacity. *)
Definition represents (w : world) (l : list bytes) : Prop :=
  newac w = Z.of_nat (List.length l) /\
  match newav w with
  | None => l = []
  | Some a =>
      START_AV_SZ <= NEWAV_CAP w /\ Z.of_nat (List.length a) = NEWAV_CAP w /\
      exists rest, a = map Str l ++ Null :: rest
  end.

(** What [add_arg] is for. *)
Definition append_arg (l : list bytes) (s : option bytes) : list bytes :=
  match s with
  | None | Some [] => l
  | Some t => l ++ [t]
  end.

Section ArgsFacts.
Context {H : Host}.

(** Room for one more string and its NULL. *)
Definition roomy (w : world) (l : list bytes) : Prop :=
  newac w = Z.of_nat (List.length l) /\
  START_AV_SZ <= NEWAV_CAP w /\
  exists rest, newav w = Some (map Str l ++ rest) /\
    Z.of_nat (List.length (map Str l ++ rest)) = NEWAV_CAP w /\ (2 <= List.length rest)%nat.

(** The stops of an allocation: a signal, or exit with status 1. *)
Definition alloc_stop (s : stop) : Prop := s <> OutOfBounds /\ s <> NoFuel.

Lemma wp_alloc what size (Q : unit -> world -> Prop) w :
  (forall w', newav w' = newav w -> newac w' = newac w -> NEWAV_CAP w' = NEWAV_CAP w -> Q tt w') ->
  wp (alloc what size) Q (fun s _ => alloc_stop s) w.
Proof.
  intros HQ. unfold alloc, alloc_fail, alloc_stop. wp_step. apply wp_sys.
  - intros w1 _ E1. pose proof (eff_args _ _ _ _ E1) as EA. wp_step.
    + wp_step. apply wp_sys; [intros; by wp_step|]. intros s w2 _ E. by eapply signal_stop in E as [].
    + wp_step. injection EA as EA1 EA2 EA3. auto.
  - intros s w2 _ E. by eapply signal_stop in E as [].
Qed.

Lemma reserve_ok l (Q : unit -> world -> Prop) w :
  represents w l -> (forall w', roomy w' l -> Q tt w') -> wp reserve Q (fun s _ => alloc_stop s) w.
Proof.
  intros [N R] HQ. unfold reserve. repeat (apply wp_bind; hnf).
  destruct (newav w) as [a|] eqn:A.
  - destruct R as (C16 & CL & rest & ->). rewrite length_app, length_map in CL. cbn [List.length] in CL.
    destruct (NEWAV_CAP w - 1 <=? newac w) eqn:B; zify_bool.
    + apply wp_bind, wp_alloc. intros w1 _ _ _. hnf. apply HQ. split; [done|]. cbn [newav NEWAV_CAP set_args newac].
      split; [unfold START_AV_SZ in *; lia|]. eexists (Null :: rest ++ _). rewrite <- app_assoc. split; [done|].
      rewrite !length_app, length_map. cbn [List.length]. rewrite length_app, length_replicate.
      unfold START_AV_SZ in *. split; lia.
    + apply wp_ret. apply HQ. split; [done|]. split; [done|]. exists (Null :: rest). split; [done|].
      rewrite length_app, length_map. cbn [List.length]. split; lia.
  - subst l. apply wp_bind, wp_alloc. intros w1 _ _ _. hnf. apply HQ. split; [done|]. split; [done|].
    exists (replicate 16 Null). split; [done|]. split; [done|]. simpl. lia.
Qed.

Lemma roomy_alloc w w' l :
  roomy w l -> newav w' = newav w -> newac w' = newac w -> NEWAV_CAP w' = NEWAV_CAP w -> roomy w' l.
Proof. unfold roomy. by intros R -> -> ->. Qed.

Lemma insert_at {A} (p : list A) x y r : <[List.length p := y]> (p ++ x :: r) = p ++ y :: r.
Proof. by rewrite insert_app_r_alt, Nat.sub_diag by lia. Qed.

Lemma wp_store i v l (Q : unit -> world -> Prop) E w :
  newav w = Some l -> 0 <= i < Z.of_nat (List.length l) ->
  Q tt (set_args (Some (<[Z.to_nat i := v]> l)) (newac w) (NEWAV_CAP w) w) -> wp (store i v) Q E w.
Proof.
  intros A B HQ. unfold store, get_newav, get_newac, get_cap, put_args, mbind, M_bind, wp. rewrite A.
  replace ((0 <=? i) && (i <? Z.of_nat (List.length l))) with true by lia. exact HQ.
Qed.

(** The two stores of [add_arg], in bounds. *)
Lemma stores_ok l t w :
  roomy w l -> Z.of_nat (List.length l) < i32_max ->
  wp (n ← get_newac; store n (Str t);; incr_newac;; n' ← get_newac; store n' Null)
    (fun _ w' => represents w' (l ++ [t])) (fun _ _ => False) w.
Proof.
  intros (N & C16 & rest & A & CL & R2) LI.
  destruct rest as [|x [|y rest]]; simpl in R2; [lia|lia|].
  rewrite length_app, length_map in CL. cbn [List.length] in CL.
  apply wp_bind. hnf. rewrite N. apply wp_bind. eapply wp_store; [done| |].
  { rewrite length_app, length_map. cbn [List.length]. lia. }
  rewrite Nat2Z.id. replace (List.length l) with (List.length (map Str l)) by apply length_map.
  rewrite insert_at. apply wp_bind. hnf. cbn [newac set_args]. rewrite N.
  rewrite wrap32_id by (unfold is_i32, i32_max, i32_min in *; lia).
  replace (map Str l ++ Str t :: y :: rest) with (map Str (l ++ [t]) ++ y :: rest)
    by (rewrite map_app, <- app_assoc; done).
  assert (Z.of_nat (List.length l) + 1 = Z.of_nat (List.length (map Str (l ++ [t])))) as L1
    by (rewrite length_map, length_app; simpl; lia).
  rewrite L1. set (p := map Str (l ++ [t])) in *. cbn [newav newac NEWAV_CAP set_args].
  eapply wp_store; [done| |]; cbn [newav newac NEWAV_CAP set_args].
  { rewrite length_app. cbn [List.length]. lia. }
  rewrite Nat2Z.id, insert_at. split; cbn [newav newac NEWAV_CAP set_args].
  - rewrite length_app. simpl. lia.
  - split_and!; [done| |eauto]. rewrite length_app. cbn [List.length]. lia.
Qed.

Lemma add_arg_ok l s w :
  represents w l -> Z.of_nat (List.length l) < i32_max ->
  wp (add_arg s) (fun _ w' => represents w' (append_arg l s)) (fun s _ => alloc_stop s) w.
Proof.
  intros R LI. unfold add_arg, append_arg. destruct s as [[|c t]|]; [by wp_step| |by wp_step].
  wp_step. eapply reserve_ok; [done|]. intros w1 R1. wp_step. apply wp_alloc. intros w2 A2 N2 C2.
  eapply wp_mono; [apply (stores_ok l)| |]; [by eapply roomy_alloc|done|done|done].
Qed.

End ArgsFacts.

(** ** What stripping computes *)

(** On the string itself: the scan stops at a flag with a parameter; a
    stripped flag is dropped and the character after it is kept without
    being looked at.  The flag tells whether the scan stopped early. *)
Fixpoint strip (ch : ascii) (opts s : bytes) : bytes * bool :=
  match s with
  | [] => ([], false)
  | c :: r =>
      if takes_param opts c then (s, true)
      else if Ascii.eqb c ch then
        match r with
        | [] => ([], false)
        | d :: r' => let '(t, e) := strip ch opts r' in (d :: t, e)
        end
      else let '(t, e) := strip ch opts r in (c :: t, e)
  end.

Definition stripped (ch : ascii) (opts s : bytes) : bytes :=
  match s with
  | b0 :: _ :: _ =>
      if Ascii.eqb b0 "-"%char then
        match strip ch opts s with
        | (t, true) => t
        | ([_], false) => []
        | (t, false) => t
        end
      else s
  | _ => s
  end.

(** One removal: the rest of the string and its terminators slide left. *)
Lemma memmove_slide pre c r k rest :
  memmove (pre ++ c :: r ++ replicate (S k) nul ++ rest) (List.length pre) (S (List.length pre))
    (S (List.length r) + k) =
  Some (pre ++ r ++ replicate (S (S k)) nul ++ rest).
Proof.
  set (X := r ++ replicate (S k) nul).
  assert (List.length X = S (List.length r) + k)%nat as LX.
  { unfold X. rewrite length_app, length_replicate. lia. }
  replace (c :: r ++ replicate (S k) nul ++ rest) with (c :: X ++ rest) by (unfold X; by rewrite <- app_assoc).
  unfold memmove. rewrite length_app. cbn [List.length]. rewrite length_app, LX.
  replace (_ && _) with true by (symmetry; apply andb_true_intro; split; apply Nat.leb_le; lia).
  f_equal. rewrite take_app_length. f_equal. rewrite <- LX.
  replace (drop (S (List.length pre)) (pre ++ c :: X ++ rest)) with (X ++ rest)
    by (rewrite (drop_app_ge _ _ (S (List.length pre))) by lia;
        by replace (S (List.length pre) - List.length pre)%nat with 1%nat by lia).
  rewrite take_app_length.
  replace (drop (List.length pre + List.length X) (pre ++ c :: X ++ rest)) with (nul :: rest).
  - unfold X. rewrite <- !app_assoc. f_equal. rewrite (replicate_S_end (S k)), <- app_assoc. done.
  - rewrite (drop_app_ge pre) by lia. replace (_ + _ - _)%nat with (List.length X) by lia.
    assert (c :: X ++ rest = (c :: r ++ replicate k nul) ++ nul :: rest) as ->.
    { unfold X. rewrite replicate_S_end. cbn [app]. by rewrite <- !app_assoc. }
    symmetry. apply drop_app_length'. cbn [List.length]. rewrite LX, length_app, length_replicate. lia.
Qed.

Lemma lookup_mid {A} (pre : list A) c r : (pre ++ c :: r) !! List.length pre = Some c.
Proof. rewrite lookup_app_r, Nat.sub_diag by lia. done. Qed.

(** The loop stays inside the buffer and computes [strip]; bytes behind
    the original terminator are untouched. *)
Lemma strip_loop_ok n pre s k rest ch opts :
  nul_free s = true -> (List.length s < n)%nat ->
  exists j, (List.length (fst (strip ch opts s)) + j = List.length s + k)%nat /\
  strip_loop n (pre ++ s ++ replicate (S k) nul ++ rest) (List.length pre) (List.length s + k) ch opts =
  Some (pre ++ fst (strip ch opts s) ++ replicate (S j) nul ++ rest, snd (strip ch opts s)).
Proof.
  revert s pre k. induction n as [|n IH]; intros s pre k NF Hn; [lia|].
  destruct s as [|c r].
  { exists k. split; [done|]. cbn [strip_loop app replicate fst snd strip]. rewrite lookup_mid. done. }
  unfold nul_free in NF. cbn [forallb] in NF. apply andb_prop in NF as [Nc Nr]. apply negb_true_iff in Nc.
  cbn [List.length] in *. cbn [strip_loop app strip]. rewrite lookup_mid, Nc.
  destruct (takes_param opts c); [exists k; done|].
  assert (forall (p : bytes) x t, p ++ x :: t = (p ++ [x]) ++ t) as Snoc by (intros; by rewrite <- app_assoc).
  assert (forall (p : bytes) x, S (List.length p) = List.length (p ++ [x])) as LSnoc
    by (intros; rewrite length_app; simpl; lia).
  destruct (Ascii.eqb c ch).
  - rewrite memmove_slide. destruct r as [|d r'].
    + exists (S k). split; [simpl; lia|]. destruct n as [|n]; [simpl in Hn; lia|].
      cbn [strip_loop app replicate fst snd]. rewrite (Snoc pre), (LSnoc _ nul), lookup_mid. done.
    + cbn [forallb] in Nr. apply andb_prop in Nr as [_ Nr]. cbn [List.length] in *.
      destruct (IH r' (pre ++ [d]) (S k)) as (j & L & E); [done|lia|].
      destruct (strip ch opts r') as [t e]. cbn [fst snd app List.length] in *. exists j. split; [lia|].
      rewrite (Snoc pre d (r' ++ _)), (Snoc pre d (t ++ _)), (LSnoc pre d), <- E. f_equal. lia.
  - destruct (IH r (pre ++ [c]) k) as (j & L & E); [done|lia|].
    destruct (strip ch opts r) as [t e]. cbn [fst snd app List.length] in *. exists j. split; [lia|].
    rewrite (Snoc pre c (r ++ _)), (Snoc pre c (t ++ _)), (LSnoc pre c), <- E. done.
Qed.

Lemma strip_length ch opts c d r : fst (strip ch opts (c :: d :: r)) <> [].
Proof.
  remember (d :: r) as q eqn:Q. cbn [strip]. destruct (takes_param opts c); [done|].
  destruct (Ascii.eqb c ch).
  - rewrite Q. by destruct (strip ch opts r).
  - by destruct (strip ch opts q).
Qed.

Lemma strip_nul_free ch opts s : nul_free s = true -> nul_free (fst (strip ch opts s)) = true.
Proof.
  unfold nul_free. remember (List.length s) as n eqn:Hn. revert s Hn.
  induction (lt_wf n) as [n _ IH]. intros [|c r] -> NF; [done|]. cbn [strip].
  destruct (takes_param opts c); [done|]. cbn [forallb] in NF. apply andb_prop in NF as [Nc Nr].
  assert (forall t, (List.length t < S (List.length r))%nat ->
    forallb (fun c => negb (Ascii.eqb c nul)) t = true ->
    forallb (fun c => negb (Ascii.eqb c nul)) (fst (strip ch opts t)) = true) as K
    by (intros t Ht; eapply IH; [exact Ht|done]).
  destruct (Ascii.eqb c ch); [destruct r as [|d r']; [done|]|].
  - cbn [forallb] in Nr. apply andb_prop in Nr as [Nd Nr]. specialize (K r' ltac:(simpl; lia) Nr).
    destruct (strip ch opts r') as [t e]. cbn [fst forallb] in *. by rewrite Nd, K.
  - specialize (K r ltac:(lia) Nr). destruct (strip ch opts r) as [t e]. cbn [fst forallb] in *.
    by rewrite Nc, K.
Qed.

Lemma stripped_nul_free ch opts s : nul_free s = true -> nul_free (stripped ch opts s) = true.
Proof.
  intros NF. unfold stripped. destruct s as [|b0 [|b1 r]]; [done|done|]. destruct (Ascii.eqb b0 "-"%char); [|done].
  pose proof (strip_nul_free ch opts _ NF) as K. destruct (strip ch opts (b0 :: b1 :: r)) as [t e].
  simpl in K. by destruct e, t as [|x [|y t]].
Qed.

(** [strip_arg] never leaves the argument's buffer, keeps its size and the
    bytes behind it, and leaves the string [stripped] in it. *)
Lemma strip_arg_ok s rest ch opts :
  nul_free s = true -> s <> [] ->
  exists j, strip_arg (s ++ nul :: rest) ch opts =
    Some (stripped ch opts s ++ replicate (S j) nul ++ rest) /\
    (List.length (stripped ch opts s) + j = List.length s)%nat.
Proof.
  intros NF NE. destruct s as [|b0 [|b1 r]]; [done| |].
  - exists 0%nat. split; [|done]. unfold strip_arg. cbn. by rewrite orb_true_r.
  - assert (Ascii.eqb b1 nul = false) as N1.
    { unfold nul_free in NF. cbn [forallb] in NF. zify_bool. done. }
    set (s := b0 :: b1 :: r) in *. unfold strip_arg.
    change ((s ++ nul :: rest) !! 0%nat) with (Some b0). change ((s ++ nul :: rest) !! 1%nat) with (Some b1).
    cbv beta iota. rewrite N1, orb_false_r. 
    assert (stripped ch opts s = if Ascii.eqb b0 "-"%char then
        match strip ch opts s with (t, true) => t | ([_], false) => [] | (t, false) => t end
      else s) as -> by reflexivity.
    destruct (Ascii.eqb b0 "-"%char); cbn [negb]; [|exists 0%nat; split; [done|simpl; lia]].
    rewrite c_str_app_nul by done.
    destruct (strip_loop_ok (S (List.length (s ++ nul :: rest))) [] s 0 rest ch opts) as (j & L & E);
      [done|rewrite length_app; lia|].
    cbn [app List.length replicate] in E. rewrite Nat.add_0_r in E, L. rewrite E.
    pose proof (strip_length ch opts b0 b1 r) as NT. fold s in NT.
    pose proof (strip_nul_free ch opts s NF) as NFt.
    destruct (strip ch opts s) as [t e]. cbn [fst snd] in *.
    destruct e; [exists j; by destruct t as [|x [|y t]]|].
    destruct t as [|x [|y t]]; [done| |].
    + exists (S j). split; [done|]. simpl in *. lia.
    + exists j. split; [|done]. unfold nul_free in NFt. cbn [forallb] in NFt. zify_bool.
      cbn [app lookup list_lookup]. by rewrite H0.
Qed.

(** What the comment of [strip_arg] promises: every occurrence of the flag
    before a flag with a parameter is removed. *)
Fixpoint strip_all (ch : ascii) (opts s : bytes) : bytes :=
  match s with
  | [] => []
  | c :: r =>
      if takes_param opts c then s
      else if Ascii.eqb c ch then strip_all ch opts r else c :: strip_all ch opts r
  end.

(** No stripped flag is directly followed by another one or by a flag
    with a parameter. *)
Fixpoint spaced (ch : ascii) (opts s : bytes) : bool :=
  match s with
  | [] => true
  | c :: r =>
      takes_param opts c ||
      (negb (Ascii.eqb c ch) ||
       match r with [] => true | d :: _ => negb (Ascii.eqb d ch || takes_param opts d) end)
      && spaced ch opts r
  end.

Lemma strip_is_strip_all ch opts s : spaced ch opts s = true -> fst (strip ch opts s) = strip_all ch opts s.
Proof.
  remember (List.length s) as n eqn:Hn. revert s Hn. induction (lt_wf n) as [n _ IH]. intros [|c r] -> SP; [done|].
  assert (forall t, (List.length t < S (List.length r))%nat -> spaced ch opts t = true ->
    fst (strip ch opts t) = strip_all ch opts t) as K by (intros t Ht; eapply IH; [exact Ht|done]). clear IH.
  cbn [strip strip_all]. cbn [spaced] in SP. destruct (takes_param opts c); [done|].
  cbn [orb] in SP. apply andb_prop in SP as [Sep SP]. destruct (Ascii.eqb c ch); cycle 1.
  { specialize (K r ltac:(lia) SP). destruct (strip ch opts r). simpl in *. by f_equal. }
  destruct r as [|d r']; [done|]. cbn [negb orb] in Sep. apply negb_true_iff, orb_false_elim in Sep as [Ed Pd].
  cbn [strip_all]. rewrite Pd, Ed. cbn [spaced] in SP. rewrite Pd, Ed in SP. cbn [orb negb andb] in SP.
  specialize (K r' ltac:(simpl; lia) SP). destruct (strip ch opts r'). simpl in *. by f_equal.
Qed.

(** ** Properties *)

Section ArgsProperties.
Context {H : Host}.

(** C10: [add_arg] implements appending to a list of strings: the array
    stays NULL-terminated inside its capacity, growing when needed, empty
    and NULL strings are ignored, and no store is out of bounds. *)
Theorem add_arg_appends l s w :
  represents w l -> Z.of_nat (List.length l) < i32_max ->
  wp (add_arg s) (fun _ w' => represents w' (append_arg l s))
    (fun s _ => s <> OutOfBounds /\ s <> NoFuel) w.
Proof. apply add_arg_ok. Qed.

End ArgsProperties.

(** C19: [strip_arg] stays inside the argument's buffer, also in its last
    iteration, leaves the bytes behind the string alone and the string
    [stripped] (never longer, zero-filled) in it. *)
Theorem strip_arg_in_bounds s rest ch opts :
  nul_free s = true -> s <> [] ->
  exists j, strip_arg (s ++ nul :: rest) ch opts =
    Some (stripped ch opts s ++ replicate (S j) nul ++ rest) /\
    (List.length (stripped ch opts s) + j = List.length s)%nat.
Proof. apply strip_arg_ok. Qed.

(** When no flag to be stripped is directly followed by another or by
    a flag with a parameter, the scan removes every occurrence before the
    first flag with a parameter, as its comment says. *)
Theorem strip_removes_all ch opts s :
  spaced ch opts s = true -> fst (strip ch opts s) = strip_all ch opts s.
Proof. apply strip_is_strip_all. Qed.

(** Option string of src/main_logic.rs. *)
Definition OPTION_STRING : bytes :=
  lit "M:V1246ab:c:e:fgi:kl:m:no:p:qstvw:xyACD:E:F:GI:MJKL:NO:PQ:R:S:TW:XYB:".

(** In general it does not: the character after a removed flag is
    skipped, so a doubled flag survives and the parameter of a flag that
    follows is taken for flags and damaged. *)
Theorem strip_arg_skips_after_removal :
  strip_arg (lit "-ff" ++ [nul]) "f"%char OPTION_STRING = Some (lit "-f" ++ [nul; nul]) /\
  strip_arg (lit "-fL8808:foo:80" ++ [nul]) "f"%char OPTION_STRING = Some (lit "-L8808:oo:80" ++ [nul; nul; nul]).
Proof. vm_compute. split; reflexivity. Qed.

(** ** Witnesses *)

Definition alloc_host : Host := mock_host (fun _ => []).

Lemma add_arg_appends_witness :
  newac (snd (@add_arg alloc_host (Some (lit "-N")) (init_world ∅))) = 1 /\
  wp (@add_arg alloc_host (Some (lit "-N"))) (fun _ w' => represents w' [lit "-N"])
    (fun s _ => s <> OutOfBounds /\ s <> NoFuel) (init_world ∅).
Proof.
  split; [vm_compute; reflexivity|].
  apply (@add_arg_appends alloc_host [] (Some (lit "-N")) (init_world ∅)); [split; reflexivity|reflexivity].
Defined.

Lemma strip_arg_in_bounds_witness :
  exists j, strip_arg (lit "-NfT" ++ nul :: lit "X") "f"%char OPTION_STRING =
    Some (lit "-NT" ++ replicate (S j) nul ++ lit "X") /\ (3 + j = 4)%nat.
Proof. apply (strip_arg_in_bounds (lit "-NfT") (lit "X") "f"%char OPTION_STRING); [reflexivity|discriminate]. Defined.

Lemma strip_removes_all_witness : fst (strip "f"%char OPTION_STRING (lit "-NfTfq")) = lit "-NTq".
Proof. apply (strip_removes_all "f"%char OPTION_STRING (lit "-NfTfq")). reflexivity. Defined.
