(* ===== verification/Steady.v ===== *)
(** * Steady invariants

    Rules for invariants that most of the program cannot break: they
    depend on a few variables and on certain system calls only.  A
    discipline names those variables, the calls that are inert, and what
    is to hold when the process stops; an invariant is steady for it when
    it survives everything else.  The files that follow a property through
    the whole program (src/run.rs down to src/kill.rs) use these rules for
    all code that does not concern it. *)

From stdpp Require Import base option list strings gmap functions.
From S2P Require Import Prelude Machine Signals Trace Log Kill Stderr Timing Wait Conn Watch Args.

Record discipline := Discipline {
  inert : syscall -> bool;
  watched_vars : list ivar;
  stop_ok : stop -> world -> Prop
}.

Class Steady (D : discipline) (I : world -> Prop) := {
  steady_calm : forall w, I w -> ints w dolongjmp = 0;
  steady_keep : forall w w', I w -> ints w' dolongjmp = 0 ->
    Forall (fun v => ints w' v = ints w v) (watched_vars D) -> calls (inert D) w w' -> I w';
  steady_stop : forall s w w', I w -> calls (inert D) w w' -> calm s -> stop_ok D s w'
}.

(** A footprint spares the variables of the discipline. *)
Definition spares (D : discipline) (V : list ivar) : bool := forallb (fun v => negb (touches V v)) (watched_vars D).

(** [v] is neither watched nor the jump flag. *)
Definition free_var (D : discipline) (v : ivar) : bool := negb (bool_decide (v ∈ dolongjmp :: watched_vars D)).

Notation law D I := (inv I (stop_ok D) any).

Create HintDb steady.

Section Rules.
Context {H : Host} (D : discipline) (I : world -> Prop) {SI : Steady D I}.

Lemma steady_eff V P w w' :
  I w -> eff V P w w' -> spares D V = true -> (forall c, P c = true -> inert D c = true) -> I w'.
Proof.
  intros Hw E HV HP. eapply steady_keep; [done|apply E, steady_calm, Hw| |].
  - unfold spares in HV. rewrite forallb_forall in HV. apply List.Forall_forall. intros v Hv.
    apply E. specialize (HV v Hv). by destruct (touches V v).
  - eapply calls_mono; [done|apply E].
Qed.

Lemma steady_eff_stop V P X s w w' :
  I w -> eff_stop V P X s w w' -> (forall c, P c = true -> inert D c = true) -> stop_ok D s w'.
Proof.
  intros Hw E HP. eapply steady_stop; [done| |eapply eff_stop_calm; [done|by apply steady_calm]].
  eapply calls_mono; [done|apply E].
Qed.

(** A computation that does not concern the discipline. *)
Lemma wp_steady {A} V W P O X (m : M A) (Q : A -> world -> Prop) w :
  I w -> spec (eff V P) (eff_stop W O X) m -> spares D V = true ->
  (forall c, P c = true -> inert D c = true) -> (forall c, O c = true -> inert D c = true) ->
  (forall a w', I w' -> eff V P w w' -> Q a w') -> wp m Q (stop_ok D) w.
Proof.
  intros Hw Hm HV HP HO HQ. eapply wp_mono; [apply Hm| |]; cbv beta.
  - intros a w' E. apply HQ; [|done]. by eapply steady_eff.
  - intros s w' E. by eapply steady_eff_stop.
Qed.

Lemma law_eff {A} V W P O X (m : M A) :
  spec (eff V P) (eff_stop W O X) m -> spares D V = true ->
  (forall c, P c = true -> inert D c = true) -> (forall c, O c = true -> inert D c = true) -> law D I m.
Proof. intros Hm HV HP HO w Hw. eapply wp_steady; eauto. Qed.

Lemma wp_steady_sys c (Q : reply -> world -> Prop) w :
  I w -> inert D c = true -> spares D [] = true ->
  (forall w', I w' -> eff [] (is_call c) w w' -> trace w' = (c, answer w c) :: trace w -> Q (answer w c) w') ->
  wp (sys c) Q (stop_ok D) w.
Proof.
  intros Hw Hc HV HQ. assert (forall c', is_call c c' = true -> inert D c' = true) as HP.
  { unfold is_call. by intros c' ->%bool_decide_eq_true. }
  apply wp_sys.
  - intros w' T E. apply HQ; [|done|done]. by eapply steady_eff.
  - intros s w' T E. by eapply steady_eff_stop.
Qed.

Lemma law_sys c : inert D c = true -> spares D [] = true -> law D I (sys c).
Proof. intros Hc HV w Hw. by apply wp_steady_sys. Qed.

(** A computation that makes no call. *)
Lemma law_silent {A} (m : M A) :
  (forall w, exists a w', m w = (inl a, w') /\ trace w' = trace w /\ ints w' = ints w) -> law D I m.
Proof.
  intros Hm w Hw. destruct (Hm w) as (a & w' & E & T & J). unfold wp. rewrite E. split; [done|].
  eapply steady_keep; [done|by rewrite J; apply steady_calm| |by apply calls_same].
  rewrite J. by apply Forall_true.
Qed.

Lemma law_wr v x : free_var D v = true -> law D I (wr v x).
Proof.
  unfold free_var. intros N%negb_true_iff%bool_decide_eq_false w Hw. wp_step. split; [done|].
  rewrite not_elem_of_cons in N. destruct N as [N1 N2].
  eapply steady_keep; [done| | |by apply calls_same].
  - cbn [ints set_ints]. rewrite fn_lookup_insert_ne by done. by apply steady_calm.
  - apply List.Forall_forall. intros u Hu. cbn [ints set_ints]. apply fn_lookup_insert_ne.
    intros ->. apply N2. by apply list_elem_of_In.
Qed.

Lemma law_clear_jump : bool_decide (dolongjmp ∈ watched_vars D) = false -> law D I (wr dolongjmp 0).
Proof.
  intros N%bool_decide_eq_false w Hw. wp_step. split; [done|].
  eapply steady_keep; [done|by cbn [ints set_ints]; rewrite wr_eq| |by apply calls_same].
  apply List.Forall_forall. intros u Hu. cbn [ints set_ints]. apply fn_lookup_insert_ne.
  intros <-. apply N. by apply list_elem_of_In.
Qed.

Lemma stop_here s w : I w -> calm s -> stop_ok D s w.
Proof. intros Hw Hs. eapply steady_stop; [done|apply calls_refl|done]. Qed.

Lemma law_halt {A} s : calm s -> law D I (halt (A := A) s).
Proof. intros Hs. apply inv_halt. intros w Hw. by apply stop_here. Qed.

Lemma law_when b m : law D I m -> law D I (when b m).
Proof. intros Hm. destruct b; [done|]. by apply inv_ret. Qed.

(** Using a law at a state. *)
Lemma wp_law {A} (m : M A) (Q : A -> world -> Prop) w :
  law D I m -> I w -> (forall a w', I w' -> Q a w') -> wp m Q (stop_ok D) w.
Proof. intros Hm Hw HQ. eapply wp_mono; [by apply Hm| |done]. cbv beta. intros a w' [_ ?]. auto. Qed.

End Rules.

(** Step over a computation that does not concern the discipline, from [K]. *)
Ltac steady K lem :=
  match type of K with
  | ?I _ => eapply (wp_steady _ I);
            [exact K|apply lem|reflexivity|let c := fresh in intros c; by destruct c
            |let c := fresh in intros c; by destruct c|]
  end.

Ltac law_silent := apply law_silent; [apply _|]; intros ?; do 2 eexists; split_and!; reflexivity.
Ltac law_callee lem :=
  eapply law_eff; [apply _|apply lem|reflexivity|let c := fresh in intros c; by destruct c
                  |let c := fresh in intros c; by destruct c].

#[export] Hint Extern 1 (inv _ (stop_ok _) _ (sys _)) => apply law_sys; [apply _|reflexivity|reflexivity] : steady.
#[export] Hint Extern 1 (inv _ (stop_ok _) _ (wr dolongjmp 0)) => apply law_clear_jump; [apply _|reflexivity] : steady.
#[export] Hint Extern 1 (inv _ (stop_ok _) _ (wr _ _)) => apply law_wr; [apply _|reflexivity] : steady.
#[export] Hint Extern 1 (inv _ (stop_ok _) _ (rd _)) => law_silent : steady.
#[export] Hint Extern 1 (inv _ (stop_ok _) _ (rds _)) => law_silent : steady.
#[export] Hint Extern 1 (inv _ (stop_ok _) _ (wrs _ _)) => law_silent : steady.
#[export] Hint Extern 1 (inv _ (stop_ok _) _ (getenv _)) => law_silent : steady.
#[export] Hint Extern 1 (inv _ (stop_ok _) _ (setenv _ _)) => law_silent : steady.
#[export] Hint Extern 1 (inv _ (stop_ok _) _ (put_args _ _ _)) => law_silent : steady.
#[export] Hint Extern 1 (inv _ (stop_ok _) _ get_newav) => law_silent : steady.
#[export] Hint Extern 1 (inv _ (stop_ok _) _ get_newac) => law_silent : steady.
#[export] Hint Extern 1 (inv _ (stop_ok _) _ get_cap) => law_silent : steady.
#[export] Hint Extern 1 (inv _ (stop_ok _) _ (halt _)) => apply law_halt; [apply _|exact Logic.I] : steady.
#[export] Hint Extern 1 (inv _ (stop_ok _) _ (errlog _ _)) => law_callee errlog_eff : steady.

Ltac law_step :=
  lazymatch goal with
  | |- inv _ (stop_ok _) _ (mret _) => apply inv_ret; exact Logic.I
  | |- inv _ (stop_ok _) _ (_ ≫= _) => apply (inv_bind _ _ any); [|intros ? _]
  | |- inv _ (stop_ok _) _ (when _ _) => apply law_when
  | |- inv _ (stop_ok _) _ (if ?b then _ else _) => destruct b eqn:?
  | |- inv _ (stop_ok _) _ (match ?x with _ => _ end) => destruct x eqn:?
  end.

Ltac law_auto := repeat (law_step || (progress eauto 3 with steady)).

(** ** Signals *)

Section Signals.
Context {H : Host} (D : discipline) (I : world -> Prop) {SI : Steady D I}.

Lemma sigprocmask_set_law m :
  inert D Sys_sigprocmask = true -> spares D [] = true -> law D I (sigprocmask_set m).
Proof.
  intros Hc HV. unfold sigprocmask_set. law_step; [law_silent|]. law_step; [by apply law_sys|law_auto].
Qed.

Lemma sigprocmask_block_law m :
  inert D Sys_sigprocmask = true -> spares D [] = true -> law D I (sigprocmask_block m).
Proof.
  intros Hc HV w Hw.
  assert (law D I (sigprocmask_set (mask w ∪ m);; mret (mask w))) as K; [|by apply K].
  law_step; [by apply sigprocmask_set_law|law_auto].
Qed.

Lemma sigaction_law g d :
  inert D (Sys_sigaction g d) = true -> spares D [] = true -> law D I (sigaction g d).
Proof.
  intros Hc HV. unfold sigaction. law_step; [law_silent|]. law_step; [by apply law_sys|law_auto].
Qed.

End Signals.

#[export] Hint Extern 1 (inv _ (stop_ok _) _ (sigprocmask_set _)) =>
  apply sigprocmask_set_law; [apply _|reflexivity|reflexivity] : steady.
#[export] Hint Extern 1 (inv _ (stop_ok _) _ (sigprocmask_block _)) =>
  apply sigprocmask_block_law; [apply _|reflexivity|reflexivity] : steady.
#[export] Hint Extern 1 (inv _ (stop_ok _) _ (sigaction _ _)) =>
  apply sigaction_law; [apply _|reflexivity|reflexivity] : steady.

(** ** While a jump is armed

    The invariant then holds with the flag cleared, and a jump lands in
    it. *)

Notation wpj D m Q J w := (wp m Q (fun s w' => match s with Jumped _ => J w' | _ => stop_ok D s w' end) w).

Section Armed.
Context {H : Host} (D : discipline) (I : world -> Prop) {SI : Steady D I}.
Context (clear : forallb (fun v => negb (volatile v)) (watched_vars D) = true).

Lemma wpj_stop_ok {A} (m : M A) (Q : A -> world -> Prop) w :
  (forall s w', stop_ok D s w' -> calm s) -> wp m Q (stop_ok D) w -> wpj D m Q I w.
Proof. intros HC HW. eapply wp_mono; [exact HW|done|]. intros [] w' E; try done. by apply HC in E. Qed.

Lemma disarm_watched w w' :
  (forall v, touches [] v = false -> ints w' v = ints w v) ->
  Forall (fun v => ints w' v = ints (disarm w) v) (watched_vars D).
Proof.
  intros HI. apply List.Forall_forall. intros v Hv. rewrite forallb_forall in clear. specialize (clear v Hv).
  unfold disarm. cbn [ints set_ints]. rewrite wr_ne by (by destruct v). apply HI. unfold touches.
  by destruct (volatile v).
Qed.

Lemma wpj_sys m c (Q : reply -> world -> Prop) w :
  I (disarm w) -> inert D c = true ->
  (forall w', I (disarm w') -> Q (answer w c) w') -> wpj D (sys_under m c) Q I w.
Proof.
  intros K Hc HQ.
  assert (forall w', trace w' = (c, answer w c) :: trace w -> calls (inert D) (disarm w) w') as HT.
  { intros w' T. exists [(c, answer w c)]. rewrite T. simpl. by rewrite Hc. }
  eapply wp_mono; [apply sys_under_ok| |]; cbv beta.
  - intros r w' (-> & T & E). apply HQ. eapply steady_keep; [exact K|unfold disarm; cbn [ints set_ints]; by rewrite wr_eq| |].
    + pose proof (disarm_watched w w' (eff_ints _ _ _ _ E)) as F. rewrite List.Forall_forall in F |- *.
      intros v Hv. rewrite <- (F v Hv). unfold disarm. cbn [ints set_ints]. rewrite wr_ne; [done|].
      rewrite forallb_forall in clear. specialize (clear v Hv). by destruct v.
    + by apply HT.
  - intros s w' (T & E). destruct s as [x|g|g|av| |];
      try (eapply steady_stop; [exact K|by apply HT|exact Logic.I]).
    destruct E as [EI _ _ _ _ (_ & _ & _ & D0 & _)].
    eapply steady_keep; [exact K|done|by apply disarm_watched|by apply HT].
Qed.

Lemma arm_alarm_law (Q : unit -> world -> Prop) w :
  (forall s w', stop_ok D s w' -> calm s) ->
  (forall c, is_clock_call c = true -> inert D c = true) -> spares D [SECS_LEFT; my_poll_time] = true ->
  I w -> (forall w', I (disarm w') -> Q tt w') -> wpj D arm_alarm Q I w.
Proof.
  intros HC HA HV K HQ. unfold arm_alarm. wp_step. apply wpj_stop_ok; [done|].
  eapply (wp_steady D I); [exact K|apply choose_secs_left_eff|done|done|done|]. intros _ w1 K1 _.
  do 4 wp_step. wp_step. apply wpj_sys; [|by apply HA|].
  - eapply steady_keep; [exact K1|unfold disarm; cbn [ints set_ints]; by rewrite wr_eq| |by apply calls_same].
    apply List.Forall_forall. intros v Hv. rewrite forallb_forall in clear. specialize (clear v Hv).
    unfold disarm. cbn [ints set_ints]. by rewrite !wr_ne by (by destruct v).
  - intros w2 K2. wp_step. auto.
Qed.

End Armed.
