(* ===== verification/Fds.v ===== *)
(** * Descriptors

    A supervisor that restarts ssh for months must not lose a descriptor
    per session.  The descriptors opened and closed are counted on the
    history of system calls; every round of the restart loop, connection
    tests included, closes exactly what it opened. *)

From Stdlib Require Import Ascii String.
From stdpp Require Import base option list strings gmap functions.
From S2P Require Import Prelude Machine Signals Trace Log Kill Stderr Timing Wait Preload Conn Watch Run Args Steady.

(** ** Counting *)

Definition one (a b : Z) : Z := if a =? b then 1 else 0.

(** What an event does to the number of times [fd] is open. *)
Definition opens (e : event) (fd : Z) : Z :=
  match e with
  | (Sys_pipe, r) => if 0 <=? r_ret r then one (r_aux r) fd + one (r_aux2 r) fd else 0
  | (Sys_socket, r) | (Sys_accept _, r) | (Sys_open _ _ _, r) => one (r_ret r) fd
  | (Sys_close x, _) => - one x fd
  | _ => 0
  end.

Fixpoint open_count (t : list event) (fd : Z) : Z :=
  match t with
  | [] => 0
  | e :: t' => opens e fd + open_count t' fd
  end.

Definition fd_call (c : syscall) : bool :=
  match c with Sys_pipe | Sys_socket | Sys_accept _ | Sys_open _ _ _ | Sys_close _ => true | _ => false end.

Definition fds : discipline := {|
  inert c := negb (fd_call c);
  watched_vars := [ssh_stderr_fd];
  stop_ok s _ := calm s
|}.

(** The open descriptors are those of [base] and the one [ssh_stderr_fd]
    names.  (Descriptor 0 is left out: see [conn_poll_for_accept].) *)
Record held (base : Z -> Z) (w : world) : Prop := Held {
  held_jump : ints w dolongjmp = 0;
  held_count : forall fd, 0 < fd -> open_count (trace w) fd = base fd + one (ints w ssh_stderr_fd) fd
}.

(** One more descriptor. *)
Definition plus (base : Z -> Z) (x : Z) : Z -> Z := fun fd => base fd + one x fd.

Lemma open_count_inert w w' fd : calls (inert fds) w w' -> open_count (trace w') fd = open_count (trace w) fd.
Proof.
  intros (t & -> & F). induction t as [|[c r] t IH]; [done|]. simpl in F. apply andb_prop in F as [Hc F].
  simpl. rewrite IH by done. by destruct c.
Qed.

#[global] Instance held_steady base : Steady fds (held base).
Proof.
  split.
  - by intros w [].
  - intros w w' [D C] D' F T. split; [done|]. intros fd Hfd. apply Forall_inv in F.
    by rewrite (open_count_inert _ _ _ T), F, C.
  - done.
Qed.

Lemma held_ext base base' w : held base w -> (forall fd, 0 < fd -> base fd = base' fd) -> held base' w.
Proof. intros [D C] E. split; [done|]. intros fd Hfd. by rewrite <- E, C. Qed.

Lemma one_neg x fd : x <= 0 -> 0 < fd -> one x fd = 0.
Proof. intros. unfold one. by replace (x =? fd) with false by lia. Qed.

(** A negative number is no descriptor. *)
Lemma plus_none base x w : x <= 0 -> held (plus base x) w <-> held base w.
Proof.
  intros Hx. split; intros K; (eapply held_ext; [exact K|]); intros fd Hfd; unfold plus; rewrite one_neg by done; lia.
Qed.

Notation fin := (stop_ok fds).
Notation law I := (inv I fin any).

Section Calls.
Context {H : Host}.

(** A call that opens or closes, at a state. *)
Lemma wp_fd c base base' (Q : reply -> world -> Prop) w :
  held base w -> (forall fd, 0 < fd -> base' fd = opens (c, answer w c) fd + base fd) ->
  (forall w', held base' w' -> eff [] (is_call c) w w' -> Q (answer w c) w') ->
  wp (sys c) Q fin w.
Proof.
  intros [D C] HB HQ. apply wp_sys.
  - intros w' T E. apply HQ; [|done]. split; [by apply E|]. intros fd Hfd. rewrite T. cbn [open_count].
    rewrite (eff_ints _ _ _ _ E) by done. rewrite C, HB by done. lia.
  - intros s w' T E. by eapply eff_stop_calm.
Qed.

Lemma wp_close fd base (Q : reply -> world -> Prop) w :
  held (plus base fd) w -> (forall w', held base w' -> eff [] (is_call (Sys_close fd)) w w' ->
    Q (answer w (Sys_close fd)) w') ->
  wp (sys (Sys_close fd)) Q fin w.
Proof.
  intros K HQ. eapply (wp_fd _ (plus base fd) base); [done| |done]. intros x Hx. cbn [opens]. unfold plus. lia.
Qed.

(** Nothing is claimed once the process is on its way out. *)
Lemma wp_xerrlog {A} base l m (Q : A -> world -> Prop) w : held base w -> wp (xerrlog l m) Q fin w.
Proof.
  intros [D C]. eapply wp_mono; [apply xerrlog_stops|done|]. cbv beta. intros s w' E. by eapply eff_stop_calm.
Qed.

Lemma law_xerrlog_fds {A} base l m : law (held base) (xerrlog (A := A) l m).
Proof. intros w K. by eapply wp_xerrlog. Qed.

(** [close(ssh_stderr_fd)], to be followed by [ssh_stderr_fd = -1]. *)
Lemma wp_release base (Q : reply -> world -> Prop) w :
  held base w ->
  (forall r w', held base (set_ints (<[ssh_stderr_fd := -1]> (ints w')) w') -> Q r w') ->
  wp (sys (Sys_close (ints w ssh_stderr_fd))) Q fin w.
Proof.
  intros K HQ.
  eapply (wp_fd _ base (fun fd => base fd - one (ints w ssh_stderr_fd) fd)); [done|intros; cbn [opens]; lia|].
  intros w1 [D1 C1] E1. apply HQ. split; [by frame|].
  intros fd Hfd. cbn [ints set_ints trace]. rewrite wr_eq, C1 by done. frame. rewrite (one_neg (-1)) by lia. lia.
Qed.

Lemma close_ssh_stderr_law base : law (held base) close_ssh_stderr.
Proof.
  intros w K. unfold close_ssh_stderr. wp_step. wp_step. wp_step; [|by wp_step]. wp_step.
  apply (wp_release base); [done|]. intros _ w1 K1. by wp_step.
Qed.

End Calls.

#[export] Hint Extern 1 (inv (held _) fin _ (xerrlog _ _)) => apply law_xerrlog_fds : steady.
#[export] Hint Resolve close_ssh_stderr_law : steady.

Section Watching.
Context {H : Host}.
Variable base : Z -> Z.

Lemma ssh_kill_fds : law (held base) ssh_kill.
Proof.
  assert (forall n a, law (held base) (reap_loop n a)) by (intros; induction n; cbn [reap_loop]; law_auto).
  unfold ssh_kill, escalate, reap_with_grace. law_auto.
Qed.

Lemma check_ssh_stderr_law : law (held base) check_ssh_stderr.
Proof. law_callee check_ssh_stderr_eff. Qed.

#[local] Hint Resolve ssh_kill_fds check_ssh_stderr_law : steady.

Lemma ssh_wait_fds o : law (held base) (ssh_wait o).
Proof. law_callee ssh_wait_eff. Qed.

Lemma stderr_closed_law : law (held base) stderr_closed.
Proof.
  unfold stderr_closed. law_step; [law_auto|]. intros w K. wp_step. wp_step. wp_step.
  apply (wp_release base); [done|]. intros _ w1 K1. do 2 wp_step.
  match goal with |- wp ?m _ _ _ => assert (law (held base) m) as L by law_auto end. by apply L.
Qed.

Lemma kill_and_restart_port_fds sm : law (held base) (kill_and_restart_port sm).
Proof. unfold kill_and_restart_port, ret. law_auto. Qed.

#[local] Hint Resolve stderr_closed_law kill_and_restart_port_fds : steady.

Lemma try_branch_fds sm w : held base w -> wpj fds (try_branch sm) (fun _ => held base) (held base) w.
Proof.
  assert (forall s (w' : world), fin s w' -> calm s) as HC by done.
  assert (forall A (m : M A) w, law (held base) m -> held base w -> wpj fds m (fun _ => held base) (held base) w) as Lift.
  { intros A m w' L K. apply wpj_stop_ok; [done|]. eapply (wp_law fds (held base)); eauto. }
  intros K. unfold try_branch. wp_step. apply wpj_stop_ok; [done|].
  eapply (wp_law fds (held base)); [apply ssh_wait_fds|done|]. intros rc w1 K1. wp_step.
  { apply Lift; [unfold ret; law_auto|done]. }
  wp_step. eapply (arm_alarm_law fds (held base)); [done|done|by intros []|done|done|]. intros w2 K2. do 3 wp_step.
  { do 2 wp_step. apply Lift; [unfold ret; law_auto|exact K2]. }
  do 3 wp_step.
  - unfold wait_with_stderr. wp_step. eapply (wpj_sys fds (held base)); [done|done|done|]. intros w3 K3. do 2 wp_step.
    apply Lift; [law_auto|exact K3].
  - wp_step. eapply (wpj_sys fds (held base)); [done|done|done|]. intros w3 K3. do 3 wp_step. exact K3.
Qed.

End Watching.

(** ** Connection tests *)

Section Monitor.
Context {H : Host}.

(** A call that returns a descriptor. *)
Lemma wp_open c base (Q : reply -> world -> Prop) w :
  match c with Sys_socket | Sys_accept _ | Sys_open _ _ _ => True | _ => False end ->
  held base w ->
  (forall w', held (plus base (r_ret (answer w c))) w' -> Q (answer w c) w') -> wp (sys c) Q fin w.
Proof.
  intros Hc K HQ. eapply (wp_fd _ base (plus base (r_ret (answer w c)))); [done| |auto].
  intros fd Hfd. unfold plus. destruct c; try done; cbn [opens]; lia.
Qed.

Lemma shutdown_close_law fd base (Q : unit -> world -> Prop) w :
  held (plus base fd) w -> (forall w', held base w' -> Q tt w') -> wp (shutdown_close fd) Q fin w.
Proof.
  intros K HQ. unfold shutdown_close. wp_step.
  eapply (wp_steady_sys fds (held (plus base fd))); [done|done|done|]. intros w1 K1 _ _. wp_step.
  eapply wp_close; [done|]. intros w2 K2 _. wp_step. auto.
Qed.

(** [Some] descriptor is open on top of [base] when it returns; -1 and 0
    stand for none. *)
Lemma conn_remote_law h p base w :
  held base w -> wp (conn_remote h p) (fun sock w' => held (plus base sock) w') fin w.
Proof.
  intros K. unfold conn_remote, conn_addr. wp_step. wp_step. wp_step.
  eapply (wp_law fds (held base)); [law_auto|done|]. intros _ w1 K1. wp_step.
  apply (wp_open _ base); [done|done|]. intros w2 K2. set (s := answer w1 Sys_socket) in *. wp_step.
  { by eapply wp_xerrlog. }
  wp_step. eapply (wp_steady_sys fds (held (plus base (r_ret s)))); [done|done|done|]. intros w3 K3 _ _. wp_step.
  - wp_step. eapply (wp_law fds (held (plus base (r_ret s)))); [law_auto|done|]. intros _ w4 K4. wp_step.
    apply (wp_close _ base); [done|]. intros w5 K5 _. wp_step. by apply plus_none.
  - by wp_step.
Qed.

(** A message, then no descriptor. *)
Lemma log_none base b l m x w :
  held (plus base b) w -> b <= 0 -> x <= 0 ->
  wp (errlog l m;; mret x) (fun rd w' => held (plus base rd) w') fin w.
Proof.
  intros K Hb Hx. wp_step. eapply (wp_law fds (held base)); [law_auto|by apply (plus_none base b)|]. intros _ w1 K1.
  wp_step. by apply plus_none.
Qed.

Lemma conn_poll_for_accept_law sock base w :
  held base w -> wp (conn_poll_for_accept sock) (fun rd w' => held (plus base rd) w') fin w.
Proof.
  intros K. unfold conn_poll_for_accept. do 3 wp_step.
  eapply (wp_steady_sys fds (held base)); [done|done|done|]. intros w1 K1 _ _.
  assert (held (plus base 0) w1) as K0 by (by apply plus_none).
  wp_step; [by apply (log_none base 0)|]. wp_step; [by apply (log_none base 0)|].
  wp_step; [|by wp_step]. wp_step. apply (wp_open _ base); [done|done|]. intros w2 K2.
  wp_step; [|by wp_step]. zify_bool. eapply log_none; [exact K2|lia|lia].
Qed.

Lemma conn_send_and_receive_law base msg fd0 fd1 ev two :
  law (held base) (conn_send_and_receive msg fd0 fd1 ev two).
Proof.
  assert (forall n fd s, law (held base) (write_loop n fd s)).
  { induction n as [|n IH]; intros; cbn [write_loop]; law_auto. }
  assert (forall n fd s, law (held base) (read_loop n fd s)).
  { induction n as [|n IH]; intros; cbn [read_loop]; law_auto. }
  assert (forall n loops s, law (held base) (io_loop n loops fd0 fd1 two s)).
  { induction n as [|n IH]; intros; cbn [io_loop]; unfold send_half, receive_half; law_auto. }
  unfold conn_send_and_receive. auto.
Qed.

#[local] Hint Resolve conn_send_and_receive_law : steady.

(** The read connection a try works with: without a listening socket
    there is none. *)
Definition reading (sock : Z) (base : Z -> Z) (rd0 : Z) (w : world) : Prop :=
  held (plus base rd0) w /\ (sock = NO_RD_SOCK -> rd0 = -1).

Lemma one_try_fds sock wd node id base rd0 w :
  reading sock base rd0 w ->
  wp (one_try sock wd node id rd0) (fun v w' => reading sock base v.2 w') fin w.
Proof.
  intros [K N]. unfold one_try. wp_step.
  eapply (wp_mono _ (fun _ w' => held (plus base (if sock =? NO_RD_SOCK then rd0 else -1)) w') _ fin); [| |done].
  { destruct (sock =? NO_RD_SOCK) eqn:E; cbn [negb andb]; [by wp_step|]. wp_step.
    - eapply shutdown_close_law; [exact K|]. intros w1 K1. by apply plus_none.
    - zify_bool. by subst. }
  cbv beta. intros _ w1 K1. do 3 wp_step.
  eapply (wp_steady_sys fds (held _)); [exact K1|done|done|]. intros w2 K2 _ _. do 2 wp_step.
  wp_step; [by eapply wp_xerrlog|]. wp_step.
  eapply (wp_mono _ (fun rd1 w' => reading sock base rd1 w') _ fin); [| |done].
  { destruct (sock =? NO_RD_SOCK) eqn:E; cbn [negb]; zify_bool.
    - wp_step. by split.
    - eapply wp_mono; [apply (conn_poll_for_accept_law sock base); by apply (plus_none base (-1))| |done].
      cbv beta. intros rd1 w3 K3. split; [done|]. lia. }
  cbv beta. intros rd1 w3 [K3 N3]. wp_step; [by wp_step|]. wp_step.
  eapply (wp_law fds (held (plus base rd1))); [law_auto|done|]. intros [[se got] er] w4 K4.
  match goal with |- wp ?m _ _ _ => assert (inv (held (plus base rd1)) fin (fun v => v.2 = rd1) m) as L end.
  { repeat (case_match || (apply (inv_bind _ _ any); [law_auto|intros _ _]) || (apply inv_ret; done)). }
  eapply wp_mono; [by apply L| |done]. cbv beta. intros v w5 [-> K5]. by split.
Qed.

Lemma conn_test_fds sock h p base : law (held base) (conn_test sock h p).
Proof.
  assert (forall n tries wd node id b rd0 w, reading sock b rd0 w ->
    wp (try_loop n tries sock wd node id rd0) (fun v w' => reading sock b v.2 w') fin w) as Loop.
  { induction n as [|n IH]; intros tries wd node id b rd0 w K; cbn [try_loop].
    { wp_step. done. }
    wp_step; [by wp_step|]. wp_step.
    { destruct K as [K N]. wp_step. eapply (wp_law fds (held (plus b rd0))); [law_auto|done|].
      intros _ w1 K1. wp_step. by split. }
    wp_step. eapply wp_mono; [by apply one_try_fds| |done]. cbv beta. intros [[v|] rd1] w1 K1; [by wp_step|by apply IH]. }
  intros w K. unfold conn_test. wp_step. eapply (wp_steady_sys fds (held base)); [done|done|done|]. intros w1 K1 _ _.
  wp_step. eapply (wp_steady_sys fds (held base)); [done|done|done|]. intros w2 K2 _ _.
  wp_step. eapply wp_mono; [by apply conn_remote_law| |done]. cbv beta. intros wd w3 K3.
  wp_step. { wp_step. split; [done|]. apply plus_none in K3; [done|]. zify_bool. lia. }
  wp_step. eapply wp_mono; [apply (Loop _ _ _ _ _ (plus base wd)); split; [by apply plus_none|done]| |done].
  cbv beta. intros [v rd1] w4 [K4 N4]. cbn [snd fst] in *. wp_step.
  apply (shutdown_close_law _ (plus base rd1)).
  { eapply held_ext; [exact K4|]. intros fd _. unfold plus. lia. }
  intros w5 K5. wp_step. eapply (wp_mono _ (fun _ w' => held base w') _ fin); [|intros _ w6 K6; by wp_step|done].
  wp_step.
  - by apply (shutdown_close_law _ base).
  - apply plus_none in K5; [done|]. apply andb_false_iff in Heqb0 as [E|E]; zify_bool; [|lia]. rewrite N4 by done. lia.
Qed.

End Monitor.

(** ** A session *)

Section Session.
Context {H : Host}.

Lemma watch_loop_law base n sock sm : law (held base) (watch_loop n sock sm).
Proof.
  assert (law (held base) sigsetjmp) by law_silent.
  pose proof (ssh_kill_fds base). pose proof (check_ssh_stderr_law base). pose proof (kill_and_restart_port_fds base).
  pose proof (fun h p => conn_test_fds sock h p base).
  assert (law (held base) exceeded_lifetime) by (law_callee exceeded_lifetime_eff).
  assert (law (held base) watchdog) by (law_callee watchdog_eff).
  assert (law (held base) (catch_jump (try_branch sm) (catch_branch sock sm))).
  { apply inv_catch.
    - intros w K. eapply wp_mono; [by apply try_branch_fds|done|]. by intros [].
    - intros v. unfold catch_branch, alarm_case, ret. law_auto. }
  induction n as [|n IH]; cbn [watch_loop]; unfold watch_round, ret; law_auto.
Qed.

(** Between sessions: nothing but [base]. *)
Record clean (base : Z -> Z) (w : world) : Prop := Clean {
  clean_held : held base w;
  clean_fd : ints w ssh_stderr_fd < 0
}.

#[local] Instance clean_steady base : Steady fds (clean base).
Proof.
  split.
  - by intros w [[] _].
  - intros w w' [K F] D V T. split; [by eapply (steady_keep (D := fds))|]. apply Forall_inv in V. lia.
  - done.
Qed.

Lemma stderr_pipe_law base w :
  clean base w ->
  wp stderr_pipe (fun p w' => held (plus (plus base p.1) p.2) w' /\ ints w' ssh_stderr_fd < 0) fin w.
Proof.
  intros [K F]. unfold stderr_pipe. wp_step.
  eapply (wp_fd _ base (fun fd => opens (Sys_pipe, answer w Sys_pipe) fd + base fd)); [done|done|].
  intros w1 K1 E1. set (r := answer w Sys_pipe) in *. wp_step; zify_bool.
  - wp_step. eapply (wp_law fds (clean base)); [law_auto| |].
    + split; [|by frame]. eapply held_ext; [exact K1|]. intros fd _. cbn [opens]. by replace (0 <=? r_ret r) with false by lia.
    + intros _ w2 [K2 F2]. wp_step. split; [|done]. by apply plus_none, plus_none.
  - wp_step. split; [|by frame]. eapply held_ext; [exact K1|]. intros fd _. cbn [opens fst snd].
    replace (0 <=? r_ret r) with true by lia. unfold plus. lia.
Qed.

(** The read end becomes [ssh_stderr_fd], the write end is closed. *)
Lemma start_watch_law p base w :
  held (plus (plus base p.1) p.2) w -> ints w ssh_stderr_fd < 0 -> wp (start_watch p) (fun _ => held base) fin w.
Proof.
  intros K F. unfold start_watch, close_if_open. wp_step.
  eapply (wp_mono _ (fun _ w' => held (plus base p.1) w' /\ ints w' ssh_stderr_fd < 0) _ fin); [| |done].
  { wp_step.
    - wp_step. apply (wp_close _ (plus base p.1)); [done|]. intros w1 K1 E1. wp_step. split; [done|by frame].
    - zify_bool. split; [|done]. apply (plus_none (plus base p.1) p.2); [lia|done]. }
  cbv beta. intros _ w1 [K1 F1]. wp_step. wp_step.
  assert (held base (set_ints (<[ssh_stderr_fd := p.1]> (ints w1)) w1)) as K2.
  { destruct K1 as [D1 C1]. split; [by frame|]. intros fd Hfd. cbn [trace ints set_ints]. rewrite wr_eq, C1 by done.
    unfold plus. rewrite (one_neg (ints w1 ssh_stderr_fd)) by lia. lia. }
  eapply (wp_law fds (held base)); [law_auto|exact K2|done].
Qed.

Lemma parent_branch_fds sock p base w :
  held (plus (plus base p.1) p.2) w -> ints w ssh_stderr_fd < 0 ->
  wp (parent_branch sock p) (fun _ => clean base) fin w.
Proof.
  intros K F. unfold parent_branch. wp_step. eapply wp_mono; [by apply start_watch_law| |done]. cbv beta.
  intros _ w1 K1. wp_step.
  eapply (wp_law fds (held base)); [unfold set_sig_handlers; law_auto|done|]. intros _ w2 K2. wp_step.
  assert (law (held base) (ssh_watch sock)) as W.
  { pose proof (watch_loop_law base fuel sock). unfold ssh_watch. law_auto. }
  eapply (wp_law fds (held base)); [exact W|done|]. intros rc w3 K3. wp_step. unfold end_watch.
  do 3 (wp_step; eapply (wp_law fds (held base)); [unfold unset_sig_handlers, clear_alarm_timer; law_auto|eassumption|];
        intros ? ? ?).
  eapply (wp_mono _ (fun _ => clean base) _ fin); [|intros _ w5 K5; by wp_step; wp_step|done].
  match goal with K : held base ?w4 |- wp _ _ _ ?w4 =>
    pose proof (close_ssh_stderr_law base w4 K) as L;
    pose proof (wp_close_ssh_stderr (fun _ w' => ints w' ssh_stderr_fd < 0) w4) as L' end.
  eapply wp_mono; [apply wp_and; [exact L|apply L'; auto]| |by intros ? ? []]. cbv beta.
  intros _ w6 [[_ K6] F6]. by split.
Qed.

Lemma run_round_law sock av base w :
  clean base w -> wp (run_round sock av) (fun _ => clean base) fin w.
Proof.
  intros K. unfold run_round. wp_step. steady K exceeded_lifetime_eff. intros x w1 K1 _. wp_step; [by wp_step|].
  wp_step. steady K1 prepare_start_eff. intros b w2 K2 _. destruct b; [by wp_step|]. unfold start_ssh. wp_step.
  eapply wp_mono; [by apply stderr_pipe_law| |done]. cbv beta. intros p w3 [K3 F3]. wp_step.
  eapply (wp_steady_sys fds (held _)); [exact K3|done|done|]. intros w4 K4 E4 _. wp_step. wp_step.
  set (w5 := set_ints _ w4).
  assert (held (plus (plus base p.1) p.2) w5) as K5.
  { destruct K4 as [D4 C4]. split; [by subst w5; frame|]. intros fd Hfd. subst w5. cbn [trace ints set_ints].
    rewrite wr_ne by done. by apply C4. }
  assert (ints w5 ssh_stderr_fd < 0) as F5 by (subst w5; by frame).
  clearbody w5. destruct K5 as [D5 C5] eqn:EK. wp_step.
  { eapply wp_mono; [apply wp_and; [apply child_branch_stops|apply child_branch_eff]| |]; cbv beta.
    - by intros ? ? [[] _].
    - intros s w' [_ E]. by eapply eff_stop_calm. }
  wp_step; [|by apply (parent_branch_fds sock p base)].
  eapply wp_mono; [apply wp_and; [apply fork_failed_stops|apply fork_failed_eff]| |]; cbv beta.
  - by intros ? ? [[] _].
  - intros s w' [_ E]. by eapply eff_stop_calm.
Qed.

End Session.

(** ** Property *)

(** C14: No descriptor is lost or closed twice from one session to the
    next: when a round of the restart loop returns, after any number of
    connection tests, kills and losses of the stderr pipe, every descriptor
    is open exactly as often as when the round began, and [ssh_stderr_fd]
    is negative again, as the next round needs it.  (Standard input is
    excepted.) *)
Theorem round_leaks_no_descriptor {H : Host} sock av w :
  ints w dolongjmp = 0 -> ints w ssh_stderr_fd < 0 ->
  wp (run_round sock av)
    (fun _ w' => (forall fd, 0 < fd -> open_count (trace w') fd = open_count (trace w) fd) /\
       ints w' dolongjmp = 0 /\ ints w' ssh_stderr_fd < 0)
    (fun s _ => calm s) w.
Proof.
  intros D F. eapply wp_mono; [apply (run_round_law sock av (open_count (trace w)))| |done].
  - split; [|done]. split; [done|]. intros fd Hfd. rewrite one_neg by lia. lia.
  - cbv beta. intros _ w' [[D' C'] F']. split_and!; auto. intros fd Hfd. rewrite C', one_neg by lia. lia.
Qed.

(** ** Witness *)

(** A session with a connection test: the monitor connects (6), accepts
    (7), gets no answer and gives up; ssh is killed and restarted. *)
Definition tested_host : Host := mock_host (at_time t0 (fun c =>
  match c with
  | Sys_pipe => [Reply 0 0 4 5 [] []]
  | Sys_fork => [ret_reply 777]
  | Sys_ppoll _ _ => [sig_reply SIGALRM]
  | Sys_socket => [ret_reply 6]
  | Sys_accept _ => [ret_reply 7]
  | Sys_poll _ _ => [poll_reply POLLIN; err_reply EAGAIN]
  | Sys_waitpid _ _ => [ok_reply; wait_reply 777 15]
  | _ => []
  end)).

Definition tested_world : world :=
  set_strs (<[writep := Some (lit "20000")]> init_strs) (init_world ∅).

Lemma round_leaks_no_descriptor_witness :
  let r := @run_round tested_host 3 ssh_argv tested_world in
  result r = inl Again /\
  map (fun fd => count_calls (fun c => bool_decide (c = Sys_close fd)) (trace r.2)) [4; 5; 6; 7] = [1; 1; 1; 1] /\
  wp (@run_round tested_host 3 ssh_argv)
    (fun _ w' => (forall fd, 0 < fd -> open_count (trace w') fd = open_count (trace tested_world) fd) /\
       ints w' dolongjmp = 0 /\ ints w' ssh_stderr_fd < 0)
    (fun s _ => calm s) tested_world.
Proof.
  split; [vm_compute; reflexivity|]. split; [vm_compute; reflexivity|].
  apply (@round_leaks_no_descriptor tested_host 3 ssh_argv tested_world); reflexivity.
Defined.
