(* ===== verification/Env.v ===== *)
(** * The environment (src/env.rs) *)

From Stdlib Require Import Ascii String.
From stdpp Require Import base option list strings gmap functions.
From S2P Require Import Prelude CNum Machine Signals Trace Log Kill.

Definition MAX_MESSAGE : Z := 64.
Definition POLL_TIME_DEFAULT : Z := 600.
Definition LOG_PERROR : Z := 32.

Definition is_nil {A} (l : list A) : bool := match l with [] => true | _ => false end.

(** [is_empty_cstr(s) || *t != 0]: nothing, or something left over. *)
Definition malformed (s t : bytes) : bool := is_nil s || negb (is_nil t).

Section Env.
Context {H : Host}.

Definition quoted (what s : bytes) : bytes := what ++ lit " " ++ [dquote] ++ cstr_or (Some s) EmptyString ++ [dquote].

Definition env_path : M unit :=
  s ← getenv "AUTOSSH_PATH";
  match s with Some p => wrs ssh_path (Some p) | None => mret tt end.

Definition env_loglevel : M unit :=
  d ← getenv "AUTOSSH_DEBUG";
  match d with
  | Some _ => wr syslog_perror LOG_PERROR;; wr loglevel LOG_DEBUG
  | None =>
      s ← getenv "AUTOSSH_LOGLEVEL";
      match s with
      | None => mret tt
      | Some s =>
          let '(v, t) := strtol s in
          when (malformed s t || (v <? LOG_EMERG) || (LOG_DEBUG <? v))
            (xerrlog LOG_ERR (quoted (lit "invalid log level") s));;
          wr loglevel (wrap32 v)
      end
  end.

(** [v as c_int], or the default when that is not positive. *)
Definition poll_of (v : Z) : Z := if wrap32 v <=? 0 then POLL_TIME_DEFAULT else wrap32 v.

Definition env_poll : M unit :=
  s ← getenv "AUTOSSH_POLL";
  match s with
  | None => mret tt
  | Some s =>
      let '(v, t) := strtoul s in
      when (is_nil s || (v =? 0) || negb (is_nil t))
        (xerrlog LOG_ERR (quoted (lit "invalid poll time") s));;
      wr poll_time (poll_of v)
  end.

Definition env_first_poll : M unit :=
  s ← getenv "AUTOSSH_FIRST_POLL";
  match s with
  | None => p ← rd poll_time; wr first_poll_time p
  | Some s =>
      let '(v, t) := strtoul s in
      when (is_nil s || (v =? 0) || negb (is_nil t))
        (xerrlog LOG_ERR (quoted (lit "invalid first poll time") s));;
      wr first_poll_time (poll_of v)
  end.

Definition env_gatetime : M unit :=
  s ← getenv "AUTOSSH_GATETIME";
  match s with
  | None => mret tt
  | Some s =>
      let '(v, t) := strtol s in
      when (is_nil s || (v <? 0) || negb (is_nil t))
        (xerrlog LOG_ERR (quoted (lit "invalid gate time") s));;
      wr gate_time (f64_of_Z v)
  end.

Definition env_maxstart : M unit :=
  s ← getenv "AUTOSSH_MAXSTART";
  match s with
  | None => mret tt
  | Some s =>
      let '(v, t) := strtol s in
      when (is_nil s || (v <? -1) || negb (is_nil t))
        (xerrlog LOG_ERR (quoted (lit "invalid max start number") s));;
      wr max_start (wrap32 v)
  end.

Definition env_message : M unit :=
  s ← getenv "AUTOSSH_MESSAGE";
  match s with
  | None => mret tt
  | Some s =>
      when (negb (is_nil s)) (wrs echo_message (Some s));;
      m ← rds echo_message;
      when (MAX_MESSAGE <? strlen (default [] m))
        (xerrlog LOG_ERR (lit "echo message may only be " ++ show_Z MAX_MESSAGE ++ lit " bytes long"))
  end.

Definition env_portvar : M unit :=
  s ← getenv "AUTOSSH_PORT";
  match s with
  | Some (c :: r) => wrs env_port (Some (c :: r))
  | _ => mret tt
  end.

Definition drop_poll (what : bytes) (v : ivar) (configured : Z) : M unit :=
  p ← rd v;
  when (configured <? p) (
    errlog LOG_INFO (what ++ lit " is greater than lifetime, dropping " ++ what ++ lit " to "
                     ++ show_Z configured);;
    wr v (sat32 configured)).

Definition env_maxlifetime : M unit :=
  s ← getenv "AUTOSSH_MAXLIFETIME";
  match s with
  | None => mret tt
  | Some s =>
      let '(v, t) := strtoul s in
      when (malformed s t) (xerrlog LOG_ERR (quoted (lit "invalid max lifetime") s));;
      wr max_lifetime (f64_of_Z v);;
      ml ← rd max_lifetime;
      if ml <=? 0 then wr max_lifetime 0
      else
        drop_poll (lit "poll time") poll_time ml;;
        drop_poll (lit "first poll time") first_poll_time ml;;
        t ← sys Sys_time;
        wr pid_start_time (r_ret t)
  end.

Definition env_maxsession : M unit :=
  s ← getenv "AUTOSSH_MAX_SESSION";
  match s with
  | None => mret tt
  | Some s =>
      let '(v, t) := strtoul s in
      when (malformed s t) (xerrlog LOG_ERR (quoted (lit "invalid max session time") s));;
      wr max_session (f64_of_Z v)
  end.

Definition env_pidfile : M unit :=
  s ← getenv "AUTOSSH_PIDFILE";
  match s with
  | Some (c :: r) => wrs pid_file_name (Some (c :: r))
  | _ => mret tt
  end.

Definition env_logfile : M unit :=
  s ← getenv "AUTOSSH_LOGFILE";
  match s with
  | None => mret tt
  | Some s =>
      f ← sys (Sys_fopen s (lit "a"));
      when (r_ret f =? 0)
        (xerrlog LOG_ERR (cstr_or (Some s) EmptyString ++ lit ": " ++ cstr_or (strerror (r_errno f)) "?"));;
      wr flog (r_ret f);;
      wr logtype L_FILELOG
  end.

Definition get_env_args : M unit :=
  env_path;;
  env_loglevel;;
  env_poll;;
  env_first_poll;;
  env_gatetime;;
  env_maxstart;;
  env_message;;
  env_portvar;;
  env_maxlifetime;;
  env_maxsession;;
  env_pidfile;;
  env_logfile.

End Env.

(** ** What the environment must look like *)

Notation env := (gmap string bytes).

(** A numeric variable is unset or [f] accepts value and rest. *)
Definition accepts (e : env) (k : string) (parse : bytes -> Z * bytes) (f : Z -> bool) : bool :=
  match e !! k with
  | None => true
  | Some s => let '(v, t) := parse s in negb (malformed s t) && f v
  end.

Definition loglevel_valid (e : env) : bool :=
  match e !! "AUTOSSH_DEBUG"%string with
  | Some _ => true
  | None => accepts e "AUTOSSH_LOGLEVEL" strtol (fun v => (LOG_EMERG <=? v) && (v <=? LOG_DEBUG))
  end.

Definition message_valid (e : env) : bool :=
  match e !! "AUTOSSH_MESSAGE"%string with
  | None => true
  | Some s => strlen s <=? MAX_MESSAGE
  end.

Definition env_valid (e : env) : bool :=
  loglevel_valid e &&
  accepts e "AUTOSSH_POLL" strtoul (fun v => negb (v =? 0)) &&
  accepts e "AUTOSSH_FIRST_POLL" strtoul (fun v => negb (v =? 0)) &&
  accepts e "AUTOSSH_GATETIME" strtol (fun v => 0 <=? v) &&
  accepts e "AUTOSSH_MAXSTART" strtol (fun v => -1 <=? v) &&
  message_valid e &&
  accepts e "AUTOSSH_MAXLIFETIME" strtoul (fun _ => true) &&
  accepts e "AUTOSSH_MAX_SESSION" strtoul (fun _ => true).

(** The configuration every later component relies on; [read] tells
    whether the lifetime has been read yet. *)
Record sane (read : bool) (w : world) : Prop := Sane {
  sane_poll : 1 <= ints w poll_time <= i32_max;
  sane_first : 1 <= ints w first_poll_time <= i32_max;
  sane_level : LOG_EMERG <= ints w loglevel <= LOG_DEBUG;
  sane_gate : 0 <= ints w gate_time;
  sane_start : is_i32 (ints w max_start);
  sane_session : 0 <= ints w max_session;
  sane_message : strlen (default [] (strs w echo_message)) <= MAX_MESSAGE;
  sane_life : if read then 0 <= ints w max_lifetime /\
      (0 < ints w max_lifetime ->
       ints w poll_time <= ints w max_lifetime /\ ints w first_poll_time <= ints w max_lifetime)
    else ints w max_lifetime = 0
}.

Section EnvFacts.
Context {H : Host}.

Lemma f64_of_Z_nonneg z : 0 <= z -> 0 <= f64_of_Z z.
Proof.
  intros Hz. unfold f64_of_Z. apply Z.mul_nonneg_nonneg; [destruct z; simpl; lia|].
  pose proof (Z.div_pos (Z.abs z) (2 ^ Z.max 0 (Z.log2 (Z.abs z) - 52))).
  pose proof (Z.pow_pos_nonneg 2 (Z.max 0 (Z.log2 (Z.abs z) - 52))). split_if; nia.
Qed.

Lemma poll_of_range v : 1 <= poll_of v <= i32_max.
Proof.
  unfold poll_of, POLL_TIME_DEFAULT. pose proof (wrap32_range v) as R.
  unfold is_i32, i32_min, i32_max in *. split_if; zify_bool; lia.
Qed.

(** A rejecting guard: past it, the condition is false. *)
Lemma wp_guard {A} c l m (k : M A) (Q : A -> world -> Prop) w :
  (c = false -> wp k Q (fun _ _ => True) w) ->
  wp (when c (xerrlog l m);; k) Q (fun _ _ => True) w.
Proof.
  intros HK. wp_step. destruct c; simpl when; [|by apply HK].
  eapply wp_mono; [apply xerrlog_stops|done|done].
Qed.

(** The steps keep the environment and the sanity of the configuration,
    and come back only when their variable is valid. *)
Definition step_ok (pre post : bool) (valid : env -> bool) (m : M unit) : Prop :=
  forall w, sane pre w ->
  wp m (fun _ w' => sane post w' /\ environ w' = environ w /\ valid (environ w) = true) (fun _ _ => True) w.

Ltac sane_wr := split; simpl; rewrite ?wr_eq; repeat rewrite wr_ne by reflexivity; auto.

Lemma env_path_ok b : step_ok b b (fun _ => true) env_path.
Proof.
  intros w S. unfold env_path. wp_step. wp_step. destruct (environ w !! _); wp_step; [|done].
  split; [|done]. destruct S. by split.
Qed.

(** Validity from the guard that let the value pass. *)
Ltac guard_valid s t :=
  unfold malformed, LOG_EMERG, LOG_DEBUG in *; destruct (is_nil s), (is_nil t); simpl in *; (done || lia).

Lemma env_loglevel_ok b : step_ok b b loglevel_valid env_loglevel.
Proof.
  intros w S. unfold env_loglevel, loglevel_valid, accepts. wp_step. wp_step.
  destruct (environ w !! "AUTOSSH_DEBUG"%string) as [d|].
  { do 2 wp_step. wp_step. split; [|done]. destruct S. sane_wr. unfold LOG_DEBUG, LOG_EMERG. lia. }
  wp_step. wp_step. destruct (environ w !! "AUTOSSH_LOGLEVEL"%string) as [s|]; [|by wp_step].
  destruct (strtol s) as [v t]. apply wp_guard. intros G. wp_step. split; [|split; [done|guard_valid s t]].
  zify_bool. destruct S. sane_wr. unfold LOG_DEBUG, LOG_EMERG in *. rewrite wrap32_id; [lia|].
  unfold is_i32, i32_min, i32_max. lia.
Qed.

Lemma env_poll_ok :
  step_ok false false (fun e => accepts e "AUTOSSH_POLL" strtoul (fun v => negb (v =? 0))) env_poll.
Proof.
  intros w S. unfold env_poll, accepts. wp_step. wp_step.
  destruct (environ w !! "AUTOSSH_POLL"%string) as [s|]; [|by wp_step].
  destruct (strtoul s) as [v t]. apply wp_guard. intros G. wp_step. split; [|split; [done|guard_valid s t]].
  destruct S. sane_wr. apply poll_of_range.
Qed.

Lemma env_first_poll_ok :
  step_ok false false (fun e => accepts e "AUTOSSH_FIRST_POLL" strtoul (fun v => negb (v =? 0))) env_first_poll.
Proof.
  intros w S. unfold env_first_poll, accepts. wp_step. wp_step.
  destruct (environ w !! "AUTOSSH_FIRST_POLL"%string) as [s|].
  - destruct (strtoul s) as [v t]. apply wp_guard. intros G. wp_step. split; [|split; [done|guard_valid s t]].
    destruct S. sane_wr. apply poll_of_range.
  - do 3 wp_step. split; [|done]. destruct S. sane_wr.
Qed.

Lemma env_gatetime_ok b :
  step_ok b b (fun e => accepts e "AUTOSSH_GATETIME" strtol (fun v => 0 <=? v)) env_gatetime.
Proof.
  intros w S. unfold env_gatetime, accepts. wp_step. wp_step.
  destruct (environ w !! "AUTOSSH_GATETIME"%string) as [s|]; [|by wp_step].
  destruct (strtol s) as [v t]. apply wp_guard. intros G. wp_step. split; [|split; [done|guard_valid s t]].
  zify_bool. destruct S. sane_wr. by apply f64_of_Z_nonneg.
Qed.

Lemma env_maxstart_ok b :
  step_ok b b (fun e => accepts e "AUTOSSH_MAXSTART" strtol (fun v => -1 <=? v)) env_maxstart.
Proof.
  intros w S. unfold env_maxstart, accepts. wp_step. wp_step.
  destruct (environ w !! "AUTOSSH_MAXSTART"%string) as [s|]; [|by wp_step].
  destruct (strtol s) as [v t]. apply wp_guard. intros G. wp_step. split; [|split; [done|guard_valid s t]].
  destruct S. sane_wr. apply wrap32_range.
Qed.

Lemma env_message_ok b : step_ok b b message_valid env_message.
Proof.
  intros w S. unfold env_message, message_valid. wp_step. wp_step.
  destruct (environ w !! "AUTOSSH_MESSAGE"%string) as [s|]; [|by wp_step]. wp_step.
  destruct s as [|c s]; cbn [is_nil negb when].
  - wp_step. wp_step. wp_step. wp_step; [|done]. destruct S. zify_bool. lia.
  - wp_step. wp_step. wp_step. wp_step.
    { eapply wp_mono; [apply xerrlog_stops|done|done]. }
    rename Heqb0 into L. cbn [strs set_strs] in L. rewrite fn_lookup_insert in L. cbn [default id] in L.
    wp_step. split; [|split; [done|lia]]. destruct S. split; auto. cbn [strs set_strs].
    rewrite fn_lookup_insert. cbn [default id]. lia.
Qed.

Lemma env_portvar_ok b : step_ok b b (fun _ => true) env_portvar.
Proof.
  intros w S. unfold env_portvar. wp_step. wp_step. destruct (environ w !! _) as [[|c s]|]; wp_step; try done.
  split; [|done]. destruct S. by split.
Qed.

Lemma env_pidfile_ok b : step_ok b b (fun _ => true) env_pidfile.
Proof.
  intros w S. unfold env_pidfile. wp_step. wp_step. destruct (environ w !! _) as [[|c s]|]; wp_step; try done.
  split; [|done]. destruct S. by split.
Qed.

Lemma env_maxsession_ok b :
  step_ok b b (fun e => accepts e "AUTOSSH_MAX_SESSION" strtoul (fun _ => true)) env_maxsession.
Proof.
  intros w S. unfold env_maxsession, accepts. wp_step. wp_step.
  destruct (environ w !! "AUTOSSH_MAX_SESSION"%string) as [s|]; [|by wp_step].
  pose proof (strtoul_range s). destruct (strtoul s) as [v t]. apply wp_guard. intros G. wp_step.
  split; [|split; [done|guard_valid s t]]. destruct S. sane_wr. apply f64_of_Z_nonneg. simpl in *. lia.
Qed.

(** The variables [sane] speaks about. *)
Definition config_vars : list ivar :=
  [poll_time; first_poll_time; loglevel; gate_time; max_start; max_session; max_lifetime].

Lemma sane_same b w w' :
  sane b w -> strs w' = strs w -> Forall (fun v => ints w' v = ints w v) config_vars -> sane b w'.
Proof.
  intros [] E F. apply Forall_cons_1 in F as [F1 F]. apply Forall_cons_1 in F as [F2 F].
  apply Forall_cons_1 in F as [F3 F]. apply Forall_cons_1 in F as [F4 F]. apply Forall_cons_1 in F as [F5 F].
  apply Forall_cons_1 in F as [F6 F]. apply Forall_cons_1 in F as [F7 _]. split; rewrite ?F1, ?F2, ?F3, ?F4, ?F5, ?F6, ?F7, ?E; auto.
Qed.

Lemma env_logfile_ok b : step_ok b b (fun _ => true) env_logfile.
Proof.
  intros w S. unfold env_logfile. wp_step. wp_step. destruct (environ w !! _) as [s|]; [|by wp_step].
  wp_step. apply wp_sys; [|done]. intros w1 _ E1. apply wp_guard. intros _. wp_step. wp_step. wp_step.
  split; [|split; [by frame|done]]. eapply sane_same; [done|by frame|].
  repeat constructor; cbn [ints set_ints]; repeat rewrite wr_ne by reflexivity; by apply E1.
Qed.

(** Clipping one of the poll times to the lifetime. *)
Lemma drop_poll_ok what v ml (Q : unit -> world -> Prop) w :
  0 < ml -> 1 <= ints w v <= i32_max -> volatile v = false ->
  (forall w', 1 <= ints w' v <= i32_max -> ints w' v <= ml -> eff [v] is_log w w' -> Q tt w') ->
  wp (drop_poll what v ml) Q (fun _ _ => True) w.
Proof.
  intros ML R V HQ. unfold drop_poll. wp_step. wp_step. wp_step; cycle 1.
  { zify_bool. apply HQ; [done|lia|reflexivity]. }
  wp_step. apply wp_errlog; [|done]. intros w1 E1. zify_bool.
  assert (spec (eff [v] is_log) (eff_stop [v] is_log by_signal) (wr v (sat32 ml))) as W.
  { apply spec_wr; [done|]. by destruct v. }
  wp_step. apply HQ; [| |].
  - simpl. rewrite wr_eq. unfold sat32, i32_max, i32_min in *. lia.
  - simpl. rewrite wr_eq. unfold sat32, i32_max, i32_min in *. lia.
  - transitivity w1; [|exact (W w1)]. eapply eff_mono; [|done|exact E1]. done.
Qed.

Lemma env_maxlifetime_ok :
  step_ok false true (fun e => accepts e "AUTOSSH_MAXLIFETIME" strtoul (fun _ => true)) env_maxlifetime.
Proof.
  intros w S. unfold env_maxlifetime, accepts. wp_step. wp_step.
  destruct (environ w !! "AUTOSSH_MAXLIFETIME"%string) as [s|].
  2:{ wp_step. split; [|done]. destruct S as [? ? ? ? ? ? ? L]. split; auto. rewrite L. lia. }
  destruct (strtoul s) as [v t]. apply wp_guard. intros G. do 4 wp_step. frame. wp_step.
  { wp_step. split; [|split; [done|guard_valid s t]]. destruct S. sane_wr. lia. }
  zify_bool. set (ml := f64_of_Z v) in *. wp_step.
  apply drop_poll_ok; [done|destruct S; by frame|done|]. intros w1 P1 L1 E1. wp_step.
  apply drop_poll_ok; [done|destruct S; by frame|done|]. intros w2 P2 L2 E2. wp_step.
  apply wp_sys; [|done]. intros w3 _ E3. wp_step. split; [|split; [by frame|guard_valid s t]].
  destruct S. split; frame; cbn [strs set_ints]; frame; auto; try lia. all: rewrite ?wr_eq; auto; lia.
Qed.

Lemma get_env_args_ok w :
  sane false w ->
  wp get_env_args (fun _ w' => sane true w' /\ environ w' = environ w /\ env_valid (environ w) = true)
    (fun _ _ => True) w.
Proof.
  intros S. unfold get_env_args, env_valid.
  wp_step. eapply wp_mono; [by apply env_path_ok| |done]. cbv beta. intros _ w1 (S1 & E1 & _).
  wp_step. eapply wp_mono; [by apply env_loglevel_ok| |done]. cbv beta. rewrite E1. intros _ w2 (S2 & E2 & ->).
  wp_step. eapply wp_mono; [by apply env_poll_ok| |done]. cbv beta. rewrite E2. intros _ w3 (S3 & E3 & ->).
  wp_step. eapply wp_mono; [by apply env_first_poll_ok| |done]. cbv beta. rewrite E3. intros _ w4 (S4 & E4 & ->).
  wp_step. eapply wp_mono; [by apply env_gatetime_ok| |done]. cbv beta. rewrite E4. intros _ w5 (S5 & E5 & ->).
  wp_step. eapply wp_mono; [by apply env_maxstart_ok| |done]. cbv beta. rewrite E5. intros _ w6 (S6 & E6 & ->).
  wp_step. eapply wp_mono; [by apply env_message_ok| |done]. cbv beta. rewrite E6. intros _ w7 (S7 & E7 & ->).
  wp_step. eapply wp_mono; [by apply env_portvar_ok| |done]. cbv beta. rewrite E7. intros _ w8 (S8 & E8 & _).
  wp_step. eapply wp_mono; [by apply env_maxlifetime_ok| |done]. cbv beta. rewrite E8. intros _ w9 (S9 & E9 & ->).
  wp_step. eapply wp_mono; [by apply env_maxsession_ok| |done]. cbv beta. rewrite E9. intros _ wa (Sa & Ea & ->).
  wp_step. eapply wp_mono; [by apply env_pidfile_ok| |done]. cbv beta. rewrite Ea. intros _ wb (Sb & Eb & _).
  eapply wp_mono; [by apply env_logfile_ok| |done]. cbv beta. rewrite Eb. by intros _ wc (Sc & Ec & _).
Qed.

(** *** Valid environments are accepted *)

Lemma errlog_quiet l m : spec quiet quiet_stop (errlog l m).
Proof. unfold errlog, errlog_str, timestr. spec_auto. Qed.

(** Without a caught signal only a default action can stop a step. *)
Definition killed (s : stop) (w : world) : Prop :=
  match s with Killed _ => True | _ => False end.

Definition step_total (valid : env -> bool) (m : M unit) : Prop :=
  forall w, sane false w \/ sane true w -> all_blocked w -> valid (environ w) = true ->
  wp m (fun _ w' => all_blocked w') killed w.

Lemma wp_pass {A} c l m (k : M A) (Q : A -> world -> Prop) E w :
  c = false -> wp k Q E w -> wp (when c (xerrlog l m);; k) Q E w.
Proof. intros -> HK. by wp_step. Qed.

(** Footprint and quietness together. *)
Lemma wp_quiet {A} (m : M A) (Q : A -> world -> Prop) V P X w :
  all_blocked w -> spec quiet quiet_stop m -> spec (eff V P) (eff_stop V P X) m ->
  (forall s, X s = false) -> (forall a w', all_blocked w' -> Q a w') -> wp m Q killed w.
Proof.
  intros B Hq Hm HX HQ. eapply wp_mono; [apply wp_and; [apply Hq|apply Hm]| |]; cbv beta.
  - intros a w' [[D M] _]. apply HQ. intros g. rewrite D, M. apply B.
  - intros s w' [Hs [_ _ _ _ _ W]]. specialize (Hs B). destruct s; try done; by rewrite HX in W.
Qed.

Lemma blocked_wr v x w : all_blocked w -> all_blocked (set_ints (<[v:=x]> (ints w)) w).
Proof. done. Qed.

Ltac read_var k := unfold accepts in *; wp_step; wp_step; destruct (environ _ !! k%string) as [s|]; [|by wp_step].

Ltac pass s t := apply wp_pass; [guard_valid s t|].

Lemma env_loglevel_total : step_total loglevel_valid env_loglevel.
Proof.
  intros w S B V. unfold env_loglevel, loglevel_valid in *. wp_step. wp_step.
  destruct (environ w !! "AUTOSSH_DEBUG"%string) as [d|]; [by repeat wp_step|].
  read_var "AUTOSSH_LOGLEVEL". destruct (strtol s) as [v t]. pass s t. by wp_step.
Qed.

Lemma env_poll_total : step_total (fun e => accepts e "AUTOSSH_POLL" strtoul (fun v => negb (v =? 0))) env_poll.
Proof.
  intros w S B V. unfold env_poll. read_var "AUTOSSH_POLL". destruct (strtoul s) as [v t]. pass s t. by wp_step.
Qed.

Lemma env_first_poll_total :
  step_total (fun e => accepts e "AUTOSSH_FIRST_POLL" strtoul (fun v => negb (v =? 0))) env_first_poll.
Proof.
  intros w S B V. unfold env_first_poll, accepts in *. wp_step. wp_step.
  destruct (environ w !! "AUTOSSH_FIRST_POLL"%string) as [s|]; [|by repeat wp_step].
  destruct (strtoul s) as [v t]. pass s t. by wp_step.
Qed.

Lemma env_gatetime_total : step_total (fun e => accepts e "AUTOSSH_GATETIME" strtol (fun v => 0 <=? v)) env_gatetime.
Proof.
  intros w S B V. unfold env_gatetime. read_var "AUTOSSH_GATETIME". destruct (strtol s) as [v t]. pass s t. by wp_step.
Qed.

Lemma env_maxstart_total : step_total (fun e => accepts e "AUTOSSH_MAXSTART" strtol (fun v => -1 <=? v)) env_maxstart.
Proof.
  intros w S B V. unfold env_maxstart. read_var "AUTOSSH_MAXSTART". destruct (strtol s) as [v t]. pass s t. by wp_step.
Qed.

Lemma env_maxsession_total :
  step_total (fun e => accepts e "AUTOSSH_MAX_SESSION" strtoul (fun _ => true)) env_maxsession.
Proof.
  intros w S B V. unfold env_maxsession. read_var "AUTOSSH_MAX_SESSION". destruct (strtoul s) as [v t]. pass s t. by wp_step.
Qed.

Lemma env_message_total : step_total message_valid env_message.
Proof.
  intros w S B V. unfold env_message, message_valid in *. wp_step. wp_step.
  destruct (environ w !! "AUTOSSH_MESSAGE"%string) as [s|]; [|by wp_step]. wp_step.
  assert (strlen (default [] (strs w echo_message)) <= MAX_MESSAGE) as L by (by destruct S as [[]|[]]).
  destruct s as [|c s]; cbn [is_nil negb when]; do 3 wp_step.
  - rewrite (proj2 (Z.ltb_ge _ _)) by done. by wp_step.
  - cbn [strs set_strs]. rewrite fn_lookup_insert. cbn [default id].
    rewrite (proj2 (Z.ltb_ge _ _)) by lia. by wp_step.
Qed.

Lemma drop_poll_total what v ml (Q : unit -> world -> Prop) w :
  all_blocked w -> (forall w', all_blocked w' -> Q tt w') -> wp (drop_poll what v ml) Q killed w.
Proof.
  intros B HQ. unfold drop_poll. wp_step. wp_step. wp_step; [|by apply HQ]. wp_step.
  eapply wp_quiet; [done|apply errlog_quiet|apply errlog_eff|done|]. intros _ w1 B1. wp_step. by apply HQ.
Qed.

Lemma env_maxlifetime_total :
  step_total (fun e => accepts e "AUTOSSH_MAXLIFETIME" strtoul (fun _ => true)) env_maxlifetime.
Proof.
  intros w S B V. unfold env_maxlifetime. read_var "AUTOSSH_MAXLIFETIME". destruct (strtoul s) as [v t]. pass s t.
  do 4 wp_step. wp_step; [by wp_step|]. wp_step. apply drop_poll_total; [done|]. intros w1 B1.
  wp_step. apply drop_poll_total; [done|]. intros w2 B2. wp_step.
  eapply (wp_quiet _ _ [] (is_call Sys_time) by_signal); [done|apply sys_quiet| |done|].
  - apply spec_sys; unfold is_call; by rewrite bool_decide_true.
  - intros r w3 B3. by wp_step.
Qed.

Lemma step_both (pre post : bool) (valid : env -> bool) m (Q : unit -> world -> Prop) w :
  step_ok pre post valid m -> step_total valid m -> sane pre w -> all_blocked w -> valid (environ w) = true ->
  (forall w', sane post w' -> all_blocked w' -> environ w' = environ w -> Q tt w') -> wp m Q killed w.
Proof.
  intros Hok Htot S B V HQ. eapply wp_mono; [apply wp_and; [by apply Hok|apply Htot; try done]| |]; cbv beta.
  - destruct pre; auto.
  - intros [] w' [(S' & E' & _) B']. auto.
  - by intros s w' [_ K].
Qed.

(** The steps without a guard. *)
Lemma plain_total m : (forall w, all_blocked w -> wp m (fun _ w' => all_blocked w') (fun _ _ => False) w) ->
  step_total (fun _ => true) m.
Proof. intros Hm w _ B _. eapply wp_mono; [by apply Hm|done|done]. Qed.

Lemma env_path_total : step_total (fun _ => true) env_path.
Proof. apply plain_total. intros w B. unfold env_path. do 2 wp_step. by destruct (environ w !! _). Qed.

Lemma env_portvar_total : step_total (fun _ => true) env_portvar.
Proof. apply plain_total. intros w B. unfold env_portvar. do 2 wp_step. by destruct (environ w !! _) as [[|]|]. Qed.

Lemma env_pidfile_total : step_total (fun _ => true) env_pidfile.
Proof. apply plain_total. intros w B. unfold env_pidfile. do 2 wp_step. by destruct (environ w !! _) as [[|]|]. Qed.

Lemma get_env_args_total w :
  sane false w -> all_blocked w -> env_valid (environ w) = true ->
  environ w !! "AUTOSSH_LOGFILE"%string = None ->
  wp get_env_args (fun _ _ => True) killed w.
Proof.
  intros S B V LF. unfold env_valid in V. rewrite !andb_true_iff in V.
  destruct V as (((((((V1 & V2) & V3) & V4) & V5) & V6) & V7) & V8). unfold get_env_args.
  wp_step. eapply step_both; [apply (env_path_ok false)|apply env_path_total|done|done|done|]. intros w1 S1 B1 E1.
  wp_step. eapply step_both; [apply env_loglevel_ok|apply env_loglevel_total|done|done|by rewrite E1|].
  intros w2 S2 B2 E2. rewrite E1 in E2.
  wp_step. eapply step_both; [apply env_poll_ok|apply env_poll_total|done|done|by rewrite E2|].
  intros w3 S3 B3 E3. rewrite E2 in E3.
  wp_step. eapply step_both; [apply env_first_poll_ok|apply env_first_poll_total|done|done|by rewrite E3|].
  intros w4 S4 B4 E4. rewrite E3 in E4.
  wp_step. eapply step_both; [apply env_gatetime_ok|apply env_gatetime_total|done|done|by rewrite E4|].
  intros w5 S5 B5 E5. rewrite E4 in E5.
  wp_step. eapply step_both; [apply env_maxstart_ok|apply env_maxstart_total|done|done|by rewrite E5|].
  intros w6 S6 B6 E6. rewrite E5 in E6.
  wp_step. eapply step_both; [apply env_message_ok|apply env_message_total|done|done|by rewrite E6|].
  intros w7 S7 B7 E7. rewrite E6 in E7.
  wp_step. eapply step_both; [apply env_portvar_ok|apply env_portvar_total|done|done|done|].
  intros w8 S8 B8 E8. rewrite E7 in E8.
  wp_step. eapply step_both; [apply env_maxlifetime_ok|apply env_maxlifetime_total|done|done|by rewrite E8|].
  intros w9 S9 B9 E9. rewrite E8 in E9.
  wp_step. eapply step_both; [apply env_maxsession_ok|apply env_maxsession_total|done|done|by rewrite E9|].
  intros wa Sa Ba Ea. rewrite E9 in Ea.
  wp_step. eapply step_both; [apply env_pidfile_ok|apply env_pidfile_total|done|done|done|].
  intros wb Sb Bb Eb. rewrite Ea in Eb.
  unfold env_logfile. do 2 wp_step. rewrite Eb, LF. by wp_step.
Qed.

End EnvFacts.

(** ** Properties *)

Section EnvProperties.
Context {H : Host}.

(** C9: Whatever the environment, when [get_env_args] returns from the
    initial state the configuration is sane: positive poll times not
    beyond the lifetime, a syslog level, non-negative times, an echo
    message of at most 64 bytes. *)
Theorem get_env_args_sane e :
  wp get_env_args (fun _ w' => sane true w' /\ environ w' = e) (fun _ _ => True) (init_world e).
Proof.
  eapply wp_mono; [apply get_env_args_ok| |done].
  - split; vm_compute; repeat split; discriminate.
  - by intros _ w' (? & ? & _).
Qed.

(** C8: It accepts exactly the valid environments: it returns only if
    every numeric variable is well formed and in range and the message is
    short enough, and on such an environment (no log file to open) nothing
    but a fatal signal keeps it from returning. *)
Theorem get_env_args_accepts_exactly_valid e :
  wp get_env_args (fun _ _ => env_valid e = true)
    (fun s _ => env_valid e = true -> e !! "AUTOSSH_LOGFILE"%string = None -> exists g, s = Killed g)
    (init_world e).
Proof.
  assert (sane false (init_world e)) as S by (split; vm_compute; repeat split; discriminate).
  pose proof (get_env_args_ok (init_world e) S) as K.
  pose proof (get_env_args_total (init_world e) S ltac:(done)) as T.
  unfold wp in *. destruct (get_env_args (init_world e)) as [[u|s] w'].
  - by destruct K as (_ & _ & K).
  - intros V LF. specialize (T V LF). destruct s; try done. eauto.
Qed.

End EnvProperties.

(** A concrete environment, through the parser. *)
Example env_example :
  let e : env := <["AUTOSSH_POLL"%string := lit "30"]> (<["AUTOSSH_MAXLIFETIME"%string := lit "0x10"]>
                 (<["AUTOSSH_GATETIME"%string := lit "0"]> ∅)) in
  let r := @get_env_args (mock_host (fun _ => [])) (init_world e) in
  fst r = inl tt /\ ints (snd r) poll_time = 16 /\ ints (snd r) first_poll_time = 16 /\
  ints (snd r) max_lifetime = 16 /\ ints (snd r) gate_time = 0.
Proof. vm_compute. auto. Qed.
