(* ===== verification/EnvSpec.v ===== *)
(** * The configuration as a function of the environment

    [get_env_args] reads a dozen variables one after the other, each step
    seeing what the earlier ones stored.  Here is the configuration it
    should arrive at, variable by variable, as a function of the
    environment alone, and the proof that the two agree. *)

From Stdlib Require Import Ascii String.
From stdpp Require Import base option list strings gmap functions.
From S2P Require Import Prelude CNum Machine Signals Trace Log Kill Env.

(** ** The reference *)

Section Reference.
Variable e : env.

Definition num (k : string) (parse : bytes -> Z * bytes) : option Z := fst ∘ parse <$> e !! k.

(** A variable that counts only when it is not empty. *)
Definition text (k : string) : option bytes :=
  match e !! k with Some (c :: r) => Some (c :: r) | _ => None end.

Definition is_set (k : string) : bool := bool_decide (e !! k <> None).

Definition lifetime : Z := from_option f64_of_Z 0 (num "AUTOSSH_MAXLIFETIME" strtoul).

(** Poll times are cut to the lifetime. *)
Definition within_lifetime (t : Z) : Z := if 0 <? lifetime then Z.min t lifetime else t.

Definition poll : Z := from_option poll_of 600 (num "AUTOSSH_POLL" strtoul).

Definition config (v : ivar) : Z :=
  match v with
  | loglevel => if is_set "AUTOSSH_DEBUG" then LOG_DEBUG else from_option wrap32 LOG_INFO (num "AUTOSSH_LOGLEVEL" strtol)
  | syslog_perror => if is_set "AUTOSSH_DEBUG" then LOG_PERROR else 0
  | logtype => if is_set "AUTOSSH_LOGFILE" then L_FILELOG else L_SYSLOG
  | poll_time => within_lifetime poll
  | first_poll_time => within_lifetime (from_option poll_of poll (num "AUTOSSH_FIRST_POLL" strtoul))
  | gate_time => from_option f64_of_Z 30 (num "AUTOSSH_GATETIME" strtol)
  | max_start => from_option wrap32 (-1) (num "AUTOSSH_MAXSTART" strtol)
  | max_lifetime => lifetime
  | max_session => from_option f64_of_Z 0 (num "AUTOSSH_MAX_SESSION" strtoul)
  | _ => init_ints v
  end.

Definition config_strs (v : svar) : option bytes :=
  match v with
  | ssh_path => Some (default (lit "/usr/bin/ssh") (e !! "AUTOSSH_PATH"%string))
  | echo_message => Some (default [] (text "AUTOSSH_MESSAGE"))
  | env_port => text "AUTOSSH_PORT"
  | pid_file_name => text "AUTOSSH_PIDFILE"
  | _ => init_strs v
  end.

End Reference.

(** Variables whose value is the host's: the log stream, the start time,
    the flags of the signal handler. *)
Definition from_host (v : ivar) : bool :=
  volatile v || match v with flog | pid_start_time => true | _ => false end.

(** ** Steps as updates *)

Definition upd {A} (o : option A) (v : ivar) (h : A -> Z) (f : ivar -> Z) : ivar -> Z :=
  match o with None => f | Some a => <[v := h a]> f end.

Definition upds (o : option bytes) (v : svar) (g : svar -> option bytes) : svar -> option bytes :=
  match o with None => g | Some s => <[v := Some s]> g end.

Lemma upd_eq {A} (o : option A) v h f : upd o v h f v = from_option h (f v) o.
Proof. destruct o; [apply wr_eq|done]. Qed.

Lemma upd_ne {A} (o : option A) v h f u : bool_decide (v = u) = false -> upd o v h f u = f u.
Proof. intros N. destruct o; [by apply wr_ne|done]. Qed.

Lemma upds_eq o v g : upds o v g v = match o with None => g v | Some s => Some s end.
Proof. destruct o; [apply fn_lookup_insert|done]. Qed.

Lemma upds_ne o v g u : bool_decide (v = u) = false -> upds o v g u = g u.
Proof. intros N%bool_decide_eq_false. destruct o; [by apply fn_lookup_insert_ne|done]. Qed.

Record config_is (e : env) (f : ivar -> Z) (g : svar -> option bytes) (w : world) : Prop := ConfigIs {
  ci_ints : forall v, from_host v = false -> ints w v = f v;
  ci_strs : forall v, strs w v = g v;
  ci_env : environ w = e
}.

Section Steps.
Context {H : Host} (e : env).

Lemma ci_wr f g v x w : config_is e f g w -> config_is e (<[v:=x]> f) g (set_ints (<[v:=x]> (ints w)) w).
Proof.
  intros [I S E]. split; cbn; auto. intros u Hu. destruct (decide (v = u)) as [<-|N]; [by rewrite !wr_eq|].
  rewrite !fn_lookup_insert_ne by done. auto.
Qed.

Lemma ci_wrs f g v x w : config_is e f g w -> config_is e f (<[v:=x]> g) (set_strs (<[v:=x]> (strs w)) w).
Proof.
  intros [I S E]. split; cbn; auto. intros u. destruct (decide (v = u)) as [<-|N];
    [by rewrite !fn_lookup_insert|by rewrite !fn_lookup_insert_ne].
Qed.

Lemma ci_eff f g V P w w' :
  config_is e f g w -> eff V P w w' -> forallb from_host V = true -> config_is e f g w'.
Proof.
  intros [I S E] K HV. split.
  - intros v Hv. rewrite (eff_ints _ _ _ _ K); [auto|]. unfold touches.
    replace (volatile v) with false by (unfold from_host in Hv; by apply orb_false_elim in Hv as [-> _]).
    apply bool_decide_eq_false. intros Hin. rewrite forallb_forall in HV.
    rewrite list_elem_of_In in Hin. specialize (HV v Hin). congruence.
  - intros v. by rewrite (eff_strs _ _ _ _ K).
  - by rewrite (eff_environ _ _ _ _ K).
Qed.

(** [m] computes the update from [f], [g] to [f'], [g']. *)
Definition computes (m : M unit) (f f' : ivar -> Z) (g g' : svar -> option bytes) : Prop :=
  forall w, config_is e f g w -> wp m (fun _ w' => config_is e f' g' w') (fun _ _ => True) w.

Lemma computes_bind m k f1 f2 f3 g1 g2 g3 :
  computes m f1 f2 g1 g2 -> computes k f2 f3 g2 g3 -> computes (m;; k) f1 f3 g1 g3.
Proof.
  intros Hm Hk w Hw. wp_step. eapply wp_mono; [by apply Hm| |done]. cbv beta. intros _ w' Hw'. by apply Hk.
Qed.

(** A variable read by [parse], rejected or stored. *)
Lemma computes_num k (parse : bytes -> Z * bytes) (bad : bytes -> Z -> bytes -> bool) msg v h f g :
  computes (s ← getenv k;
            match s with
            | None => mret tt
            | Some s => let '(x, t) := parse s in
                        when (bad s x t) (xerrlog LOG_ERR (msg s));; wr v (h x)
            end) f (upd (num e k parse) v h f) g g.
Proof.
  intros w Hw. wp_step. wp_step. rewrite (ci_env _ _ _ _ Hw). unfold num.
  destruct (e !! k) as [s|]; [|by wp_step]. cbn. destruct (parse s) as [x t]. apply wp_guard. intros _.
  wp_step. by apply ci_wr.
Qed.

Lemma computes_text k v f g :
  computes (s ← getenv k; match s with Some (c :: r) => wrs v (Some (c :: r)) | _ => mret tt end)
    f f g (upds (text e k) v g).
Proof.
  intros w Hw. wp_step. wp_step. rewrite (ci_env _ _ _ _ Hw). unfold text.
  destruct (e !! k) as [[|c r]|]; [by wp_step| |by wp_step]. wp_step. by apply ci_wrs.
Qed.

Lemma env_path_computes f g : computes env_path f f g (upds (e !! "AUTOSSH_PATH"%string) ssh_path g).
Proof.
  intros w Hw. unfold env_path. wp_step. wp_step. rewrite (ci_env _ _ _ _ Hw).
  destruct (e !! _) as [s|]; wp_step; [by apply ci_wrs|done].
Qed.

Definition level_upd (f : ivar -> Z) : ivar -> Z :=
  if is_set e "AUTOSSH_DEBUG" then <[loglevel := LOG_DEBUG]> (<[syslog_perror := LOG_PERROR]> f)
  else upd (num e "AUTOSSH_LOGLEVEL" strtol) loglevel wrap32 f.

Lemma level_ne f u : bool_decide (loglevel = u) = false -> bool_decide (syslog_perror = u) = false ->
  level_upd f u = f u.
Proof. intros N1 N2. unfold level_upd. destruct (is_set _ _); [by rewrite !wr_ne|by rewrite upd_ne]. Qed.

Lemma env_loglevel_computes f g : computes env_loglevel f (level_upd f) g g.
Proof.
  intros w Hw. unfold env_loglevel, level_upd, is_set. wp_step. wp_step. rewrite (ci_env _ _ _ _ Hw).
  destruct (e !! "AUTOSSH_DEBUG"%string) as [d|].
  - rewrite bool_decide_true by done. do 3 wp_step. by apply ci_wr, ci_wr.
  - rewrite bool_decide_false by (by intros K).
    exact (computes_num "AUTOSSH_LOGLEVEL" strtol
      (fun s v t => malformed s t || (v <? LOG_EMERG) || (LOG_DEBUG <? v))
      (fun s => quoted (lit "invalid log level") s) loglevel wrap32 f g w Hw).
Qed.

Lemma env_first_poll_computes f g :
  computes env_first_poll f
    (<[first_poll_time := from_option poll_of (f poll_time) (num e "AUTOSSH_FIRST_POLL" strtoul)]> f) g g.
Proof.
  intros w Hw. unfold env_first_poll, num. wp_step. wp_step. rewrite (ci_env _ _ _ _ Hw).
  destruct (e !! _) as [s|]; cbn.
  - destruct (strtoul s) as [v t]. apply wp_guard. intros _. wp_step. by apply ci_wr.
  - do 3 wp_step. rewrite (ci_ints _ _ _ _ Hw) by done. by apply ci_wr.
Qed.

Lemma env_message_computes f g :
  computes env_message f f g (upds (text e "AUTOSSH_MESSAGE") echo_message g).
Proof.
  intros w Hw. unfold env_message, text. wp_step. wp_step. rewrite (ci_env _ _ _ _ Hw).
  destruct (e !! _) as [[|c r]|]; cbn [is_nil negb when]; [| |by wp_step].
  - do 4 wp_step. wp_step; [|done]. eapply wp_mono; [apply xerrlog_stops|done|done].
  - do 4 wp_step. wp_step; [|by apply ci_wrs]. eapply wp_mono; [apply xerrlog_stops|done|done].
Qed.

Lemma drop_poll_computes what v ml f g :
  from_host v = false -> 0 < ml -> 0 <= f v <= i32_max ->
  computes (drop_poll what v ml) f (<[v := Z.min (f v) ml]> f) g g.
Proof.
  intros Hv ML R w Hw. unfold drop_poll. wp_step. wp_step. rewrite (ci_ints _ _ _ _ Hw) by done. wp_step.
  - wp_step. apply wp_errlog; [|done]. intros w1 E1. wp_step. zify_bool.
    replace (Z.min (f v) ml) with (sat32 ml) by (unfold sat32, i32_max, i32_min in *; lia).
    by apply ci_wr; eapply ci_eff.
  - replace (Z.min (f v) ml) with (f v) by (zify_bool; lia). destruct Hw as [I S E]. split; auto. intros u Hu.
    destruct (decide (v = u)) as [<-|N]; [rewrite wr_eq; auto|]. rewrite fn_lookup_insert_ne by done. auto.
Qed.

(** The lifetime, and the poll times it cuts. *)
Lemma env_maxlifetime_computes f g :
  f max_lifetime = 0 -> 0 <= f poll_time <= i32_max -> 0 <= f first_poll_time <= i32_max ->
  computes env_maxlifetime f
    (<[first_poll_time := within_lifetime e (f first_poll_time)]>
       (<[poll_time := within_lifetime e (f poll_time)]> (<[max_lifetime := lifetime e]> f))) g g.
Proof.
  intros F0 FP FF w Hw. unfold env_maxlifetime, within_lifetime. wp_step. wp_step. rewrite (ci_env _ _ _ _ Hw).
  set (F := fun (lt p q : Z) => <[first_poll_time := q]> (<[poll_time := p]> (<[max_lifetime := lt]> f))).
  assert (config_is e (F 0 (f poll_time) (f first_poll_time)) g w) as Same.
  { destruct Hw as [I S E]. split; auto. intros u Hu. rewrite I by done. unfold F. symmetry.
    destruct u; rewrite ?wr_eq; repeat rewrite wr_ne by done; rewrite ?wr_eq; done. }
  unfold lifetime, num. destruct (e !! _) as [s|]; cbn [fmap option_fmap option_map from_option]; [|by wp_step].
  unfold compose. pose proof (strtoul_range s) as SR. destruct (strtoul s) as [v t]. cbn [fst] in *.
  apply wp_guard. intros _. do 4 wp_step. cbn [ints set_ints]. rewrite wr_eq.
  pose proof (f64_of_Z_nonneg v ltac:(lia)) as ML. set (ml := f64_of_Z v) in *.
  pose proof (ci_wr _ _ max_lifetime ml _ Hw) as K1. wp_step; zify_bool.
  - wp_step. replace (0 <? ml) with false by lia. replace ml with 0 by lia. fold (F 0 (f poll_time) (f first_poll_time)).
    destruct Same as [I S E]. split; cbn; auto. intros u Hu. specialize (I u Hu).
    destruct u; rewrite ?wr_eq; repeat rewrite wr_ne by done; done.
  - replace (0 <? ml) with true by lia.
    set (w1 := set_ints _ w) in *. clearbody w1.
    eapply (computes_bind (drop_poll (lit "poll time") poll_time ml)); [| |exact K1].
    { apply drop_poll_computes; [done|done|]. by rewrite wr_ne. }
    eapply computes_bind; [apply drop_poll_computes; [done|done|]; by rewrite !wr_ne|].
    intros w2 K2. wp_step. apply wp_sys; [|done]. intros w3 _ E3. wp_step.
    assert (config_is e (F ml (Z.min (f poll_time) ml) (Z.min (f first_poll_time) ml)) g w3) as K3.
    { eapply ci_eff; [exact K2|exact E3|done]. }
    destruct K3 as [I S E]. split; cbn; auto. intros u Hu. rewrite wr_ne; [by apply I|]. by destruct u.
Qed.

Lemma env_logfile_computes f g :
  computes env_logfile f (upd (e !! "AUTOSSH_LOGFILE"%string) logtype (fun _ => L_FILELOG) f) g g.
Proof.
  intros w Hw. unfold env_logfile. wp_step. wp_step. rewrite (ci_env _ _ _ _ Hw).
  destruct (e !! _) as [s|]; [|by wp_step]. wp_step. apply wp_sys; [|done]. intros w1 _ E1.
  apply wp_guard. intros _. do 3 wp_step. pose proof (ci_eff _ _ _ _ _ _ Hw E1 eq_refl) as K1.
  pose proof (ci_wr _ _ logtype L_FILELOG _ K1) as [I S E]. split; cbn; auto. intros u Hu. cbn in I.
  specialize (I u Hu). destruct u; rewrite ?wr_eq in *; repeat rewrite wr_ne in * by done; done.
Qed.

End Steps.

(** ** Property *)

(** The variables of the configuration, step by step. *)
Ltac config_var :=
  repeat first [rewrite wr_eq | rewrite wr_ne by done | rewrite upd_eq | rewrite upd_ne by done
               | rewrite level_ne by done].

Ltac config_str := repeat first [rewrite upds_eq | rewrite upds_ne by done].

(** C15: [get_env_args] computes the reference configuration: when it
    returns, every static that does not come from the host has the value
    [config] gives it as a function of the environment, and so has every
    string. *)
Theorem get_env_args_computes_config {H : Host} e :
  wp get_env_args
    (fun _ w' => (forall v, from_host v = false -> ints w' v = config e v) /\
       (forall v, strs w' v = config_strs e v) /\ environ w' = e)
    (fun _ _ => True) (init_world e).
Proof.
  assert (config_is e init_ints init_strs (init_world e)) as K0 by (by split).
  assert (0 <= poll e <= i32_max) as PR.
  { unfold poll. destruct (num e _ _) as [x|]; cbn; [pose proof (poll_of_range x); lia|by vm_compute]. }
  unfold get_env_args. eapply (wp_mono _ (fun _ w' => config_is e _ _ w') _ (fun _ _ => True)); [|intros _ w' K|done].
  - refine (computes_bind e _ _ _ _ _ _ _ _ (env_path_computes e _ _) _ _ K0).
    refine (computes_bind e _ _ _ _ _ _ _ _ (env_loglevel_computes e _ _) _).
    refine (computes_bind e _ _ _ _ _ _ _ _ (computes_num e "AUTOSSH_POLL" strtoul
      (fun s v t => is_nil s || (v =? 0) || negb (is_nil t)) (quoted (lit "invalid poll time")) poll_time poll_of _ _) _).
    refine (computes_bind e _ _ _ _ _ _ _ _ (env_first_poll_computes e _ _) _).
    refine (computes_bind e _ _ _ _ _ _ _ _ (computes_num e "AUTOSSH_GATETIME" strtol
      (fun s v t => is_nil s || (v <? 0) || negb (is_nil t)) (quoted (lit "invalid gate time")) gate_time f64_of_Z _ _) _).
    refine (computes_bind e _ _ _ _ _ _ _ _ (computes_num e "AUTOSSH_MAXSTART" strtol
      (fun s v t => is_nil s || (v <? -1) || negb (is_nil t)) (quoted (lit "invalid max start number")) max_start wrap32 _ _) _).
    refine (computes_bind e _ _ _ _ _ _ _ _ (env_message_computes e _ _) _).
    refine (computes_bind e _ _ _ _ _ _ _ _ (computes_text e "AUTOSSH_PORT" env_port _ _) _).
    refine (computes_bind e _ _ _ _ _ _ _ _ (env_maxlifetime_computes e _ _ _ _ _) _).
    4: refine (computes_bind e _ _ _ _ _ _ _ _ (computes_num e "AUTOSSH_MAX_SESSION" strtoul
      (fun s v t => malformed s t) (quoted (lit "invalid max session time")) max_session f64_of_Z _ _) _).
    4: refine (computes_bind e _ _ _ _ _ _ _ _ (computes_text e "AUTOSSH_PIDFILE" pid_file_name _ _) _).
    4: apply env_logfile_computes.
    + by config_var.
    + by config_var.
    + config_var. change (0 <= from_option poll_of (poll e) (num e "AUTOSSH_FIRST_POLL" strtoul) <= i32_max).
      destruct (num e _ _) as [x|]; cbn; [pose proof (poll_of_range x); lia|done].
  - destruct K as [I S E]. split_and!; [| |done].
    + intros v Hv. rewrite I by done. destruct v; try discriminate Hv; config_var; try done.
      all: cbn [config]; unfold level_upd, is_set.
      * destruct (e !! "AUTOSSH_LOGFILE"%string); [by rewrite bool_decide_true|].
        by rewrite bool_decide_false by (by intros N).
      * case_bool_decide; by config_var.
      * case_bool_decide; by config_var.
    + intros v. rewrite S. destruct v; config_str; try done; cbn [config_strs].
      all: by repeat case_match.
Qed.

(** The reference on a concrete environment. *)
Example config_example :
  let e : env := <["AUTOSSH_POLL"%string := lit "30"]> (<["AUTOSSH_MAXLIFETIME"%string := lit "0x10"]>
                 (<["AUTOSSH_DEBUG"%string := []]> (<["AUTOSSH_MAXSTART"%string := lit "4294967299"]> ∅))) in
  map (config e) [poll_time; first_poll_time; max_lifetime; loglevel; max_start; gate_time] = [16; 16; 16; 7; 3; 30].
Proof. vm_compute. reflexivity. Qed.
