(* ===== verification/MainLogic.v ===== *)
(** * The entry point (src/main_logic.rs)

    Command line, monitoring ports, the argument list for ssh, daemon mode,
    the pid file, and the call of the restart loop.  [getopt] of the C
    library is a parameter. *)

From Stdlib Require Import Ascii String.
From stdpp Require Import base option list strings gmap functions.
From S2P Require Import Prelude CNum Machine Signals Trace Log Kill Stderr Timing Wait Preload Conn Watch Run Args Env.

(** ** [getopt] *)

(** The options found, each with the place of its argument (which string
    of the command line, and where in it); the order in which the strings
    stand in [argv] afterwards (GNU getopt permutes them); [optind]. *)
Record getopt_result := GetoptResult {
  go_opts : list (ascii * option (nat * nat));
  go_order : list nat;
  go_ind : Z
}.

Class Getopt := { getopt : list bytes -> bytes -> getopt_result }.

Definition VER : bytes := lit "1.5.3".
Definition stdout_stream : Z := 1.

(** The lines [usage] prints, one entry per [eprintln!]. *)
Definition usage_text : list (list string) :=
  [[EmptyString];
   ["    -M specifies monitor port. May be overridden by environment"%string;
    "       variable AUTOSSH_PORT. 0 turns monitoring loop off."%string;
    "       Alternatively, a port for an echo service on the remote"%string;
    "       machine may be specified. (Normally port 7.)"%string];
   ["    -f run in background (autossh handles this, and does not"%string;
    "       pass it to ssh.)"%string];
   ["    -V print autossh version and exit."%string];
   [EmptyString];
   ["Environment variables are:"%string];
   ["    AUTOSSH_GATETIME    - how long must an ssh session be established"%string;
    "                        before we decide it really was established"%string;
    "                        (in seconds). Default is 30 seconds; use of -f"%string;
    "                        flag sets this to 0."%string];
   ["    AUTOSSH_LOGFILE     - file to log to (default is to use the syslog"%string;
    "                        facility)"%string];
   ["    AUTOSSH_LOGLEVEL    - level of log verbosity"%string];
   ["    AUTOSSH_MAXLIFETIME - set the maximum time to live (seconds)"%string];
   ["    AUTOSSH_MAXSTART    - max times to restart (default is no limit)"%string];
   ["    AUTOSSH_MAX_SESSION - max seconds SSH may be silent on stderr (or stuck"%string;
    "                        after stderr pipe loss) before being considered"%string;
    "                        stuck and killed. 0 = no watchdog (default)."%string;
    "                        Recommended with -M 0."%string];
   ["    AUTOSSH_MESSAGE     - message to append to echo string (max 64 bytes)"%string];
   ["    AUTOSSH_PATH        - path to ssh if not default"%string];
   ["    AUTOSSH_PIDFILE     - write pid to this file"%string];
   ["    AUTOSSH_POLL        - how often to check the connection (seconds)"%string];
   ["    AUTOSSH_FIRST_POLL  - time before first connection check (seconds)"%string];
   ["    AUTOSSH_PORT        - port to use for monitor connection"%string];
   ["    AUTOSSH_DEBUG       - turn logging to maximum verbosity and log to"%string;
    "                        stderr"%string];
   [EmptyString]].

Section Main.
Context {H : Host} {G : Getopt}.

(** The lines of one [eprintln!], each ended by a newline. *)
Definition lines (l : list string) : bytes := flat_map (fun s => lit s ++ [nl]) l.

Fixpoint eprint_all (l : list (list string)) : M unit :=
  match l with
  | [] => mret tt
  | t :: r => sys (Sys_write 2 (lines t));; eprint_all r
  end.

(** [usage]: the long form goes to stderr, the short one to stdout. *)
Definition usage {A} (code : Z) : M A :=
  p ← rds progname;
  let header := lit "usage: " ++ utf8_lossy (default (lit "autossh") p)
                ++ lit " [-V] [-M monitor_port[:echo_port]] [-f] [SSH_OPTIONS]" ++ [nl] in
  (if negb (code =? 0)
   then sys (Sys_write 2 header);; eprint_all usage_text
   else sys (Sys_write 1 header);; mret tt);;
  halt (Exited code).

(** The string at a place of the command line. *)
Definition deref (mem : list bytes) (p : nat * nat) : bytes := drop p.2 (nth p.1 mem []).

(** The [getopt] loop: where [-M] found the port, and whether [-f] was
    seen. *)
Fixpoint option_loop (mem : list bytes) (opts : list (ascii * option (nat * nat)))
    (port : option (nat * nat)) (runasdaemon : bool) : M (option (nat * nat) * bool) :=
  match opts with
  | [] => mret (port, runasdaemon)
  | (ch, arg) :: r =>
      if Ascii.eqb ch "M"%char then
        e ← rds env_port;
        match e with
        | None =>
            wrs writep (deref mem <$> arg);;
            option_loop mem r arg runasdaemon
        | Some _ => option_loop mem r port runasdaemon
        end
      else if Ascii.eqb ch "V"%char then
        p ← rds progname;
        sys (Sys_fprintf stdout_stream (default (lit "autossh") p ++ lit " " ++ VER ++ [nl]));;
        halt (Exited 0)
      else if Ascii.eqb ch "f"%char then option_loop mem r port true
      else if Ascii.eqb ch "?"%char then usage 1
      else option_loop mem r port runasdaemon
  end.

(** [*colon = 0] in the string [writep] points into: the environment's
    when [AUTOSSH_PORT] is set, else a string of the command line. *)
Definition cut_at_colon (mem : list bytes) (port : option (nat * nat)) (s : bytes) : M (list bytes) :=
  e ← rds env_port;
  match e with
  | Some _ =>
      wrs env_port (Some s);;
      setenv "AUTOSSH_PORT" s;;
      mret mem
  | None =>
      match port with
      | Some (id, off) => mret (<[id := take (off + List.length s) (nth id mem [])]> mem)
      | None => mret mem
      end
  end.

(** Step 3: ["writeport:echoport"].  Returns the echo port. *)
Definition split_echo (mem : list bytes) (port : option (nat * nat)) : M (list bytes * Z) :=
  w ← rds writep;
  let s := default [] w in
  match strchr s ":"%char with
  | Some (_ :: e) =>
      let pre := take (List.length s - S (List.length e)) s in
      mem' ← cut_at_colon mem port pre;
      wrs writep (Some pre);;
      wrs echop (Some e);;
      let '(v, t) := strtoul e in
      when (is_nil e || negb (is_nil t) || (u32 v =? 0))
        (xerrlog LOG_ERR (lit "invalid echo port  " ++ [dquote] ++ cstr_or (Some e) EmptyString ++ [dquote]));;
      mret (mem', u32 v)
  | _ => mret (mem, 0)
  end.

Definition set_mhost : M unit :=
  s ← getenv "AUTOSSH_MHOST";
  match s with
  | Some (c :: r) => wrs mhost (Some (c :: r))
  | _ => mret tt
  end.

Definition FWD_SZ : Z := 256.

(** [snprintf(buf, 256, "%d:%s:%d", ...)] and its overflow check. *)
Definition forward (wp port : Z) : M bytes :=
  h ← rds mhost;
  let text := show_Z wp ++ lit ":" ++ default [] h ++ lit ":" ++ show_Z port in
  when (FWD_SZ <? strlen text) (xerrlog LOG_ERR (lit "overflow building forwarding string"));;
  mret (take (Z.to_nat (FWD_SZ - 1)) text).

(** Step 4: the write port and the two forwarding strings. *)
Definition ports (ep : Z) : M (Z * bytes * bytes) :=
  w ← rds writep;
  let s := default [] w in
  let '(v, t) := strtoul s in
  let wp := wrap32 v in
  when (malformed s t)
    (xerrlog LOG_ERR (lit "invalid port " ++ [dquote] ++ cstr_or (Some s) EmptyString ++ [dquote]));;
  if wp =? 0 then
    errlog LOG_INFO (lit "port set to 0, monitoring disabled");;
    wrs writep None;;
    mret (wp, [], [])
  else if (65534 <? wp) || (wp <? 0) then
    xerrlog LOG_ERR (lit "monitor port (" ++ show_Z wp ++ lit ") out of range")
  else
    let rp := wp + 1 in
    wrs readp (Some (show_Z rp));;
    e ← rds echop;
    wm ← forward wp (match e with Some _ => wrap32 ep | None => wp end);
    match e with
    | Some _ => mret (wp, wm, [])
    | None => rm ← forward wp rp; mret (wp, wm, rm)
    end.

(** Step 5. *)
Definition adjust_timeout : M unit :=
  p ← rd poll_time;
  nt ← rd net_timeout;
  let half := Z.quot (wrap32 (p * 1000)) 2 in
  when (half <? nt) (
    wr net_timeout half;;
    errlog LOG_INFO (lit "short poll time: adjusting net timeouts to " ++ show_Z half)).

Definition byte_at (s : bytes) (i : nat) : ascii := nth i s nul.

Definition add_forwards (wm rm : bytes) : M unit :=
  add_arg (Some (lit "-L"));;
  add_arg (Some wm);;
  e ← rds echop;
  match e with
  | None => add_arg (Some (lit "-R"));; add_arg (Some rm)
  | Some _ => mret tt
  end.

(** [writep] may point into the command line: when the string it points
    into (number [port.1], at offset [port.2]) is edited, it reads the new
    bytes.  [echop] points behind that string's new end. *)
Definition repoint (port : option (nat * nat)) (id : nat) (buf : bytes) : M unit :=
  w ← rds writep;
  e ← rds env_port;
  match w, e, port with
  | Some _, None, Some (id', off) => when (id =? id')%nat (wrs writep (Some (c_str (drop off buf))))
  | _, _, _ => mret tt
  end.

(** [strip_arg] in place, then [add_arg] of the result. *)
Definition strip_and_add (port : option (nat * nat)) (id : nat) (s : bytes) : M unit :=
  match strip_arg (s ++ [nul]) "f"%char OPTION_STRING with
  | Some buf => repoint port id buf;; add_arg (Some (c_str buf))
  | None => halt OutOfBounds
  end.

(** Step 6: the loop over [argv\[1..\]].  For an empty string the code
    reads the byte behind its terminator, whose value it never uses. *)
Fixpoint arg_loop (mem : list bytes) (port : option (nat * nat)) (ids : list nat) (wp : Z) (wm rm : bytes)
    (sawargstop done_fwds : bool) : M unit :=
  match ids with
  | [] => mret tt
  | id :: r =>
      let s := nth id mem [] in
      let dash := Ascii.eqb (byte_at s 0) "-"%char in
      if dash && Ascii.eqb (byte_at s 1) "-"%char && negb sawargstop
      then arg_loop mem port r wp wm rm true done_fwds
      else
      e ← rds env_port;
      if negb (wp =? 0) && bool_decide (e <> None) && negb done_fwds then
        add_forwards wm rm;;
        strip_and_add port id s;;
        arg_loop mem port r wp wm rm sawargstop true
      else if negb sawargstop && dash && Ascii.eqb (byte_at s 1) "M"%char then
        when (negb (wp =? 0) && negb done_fwds) (add_forwards wm rm);;
        let done' := done_fwds || negb (wp =? 0) in
        if Ascii.eqb (byte_at s 2) nul
        then match r with
             | [] => mret tt
             | _ :: r' => arg_loop mem port r' wp wm rm sawargstop done'
             end
        else arg_loop mem port r wp wm rm sawargstop done'
      else
        strip_and_add port id s;;
        arg_loop mem port r wp wm rm sawargstop done_fwds
  end.

Definition daemonize (runasdaemon : bool) : M unit :=
  when runasdaemon (
    r ← sys Sys_daemon;
    when (r_ret r =? -1) (xerrlog LOG_ERR (lit "run as daemon failed: " ++ cstr_or (strerror (r_errno r)) "?"));;
    wr gate_time 0).

Definition F_SETFD : Z := 2.
Definition FD_CLOEXEC : Z := 1.

(** Step 7. *)
Definition listen_socket : M Z :=
  w ← rds writep;
  e ← rds echop;
  match w, e with
  | None, _ => mret (-1)
  | Some _, None =>
      h ← rds mhost;
      p ← rds readp;
      sock ← conn_listen h p;
      sys (Sys_fcntl sock F_SETFD FD_CLOEXEC);;
      mret sock
  | Some _, Some _ => mret NO_RD_SOCK
  end.

(** Step 8. *)
Definition write_pid_file : M unit :=
  n ← rds pid_file_name;
  match n with
  | None => mret tt
  | Some name =>
      f ← sys (Sys_fopen name (lit "w"));
      when (r_ret f =? 0)
        (xerrlog LOG_ERR (lit "cannot open pid file " ++ [dquote] ++ cstr_or (Some name) EmptyString ++ [dquote]
                          ++ lit ": " ++ cstr_or (strerror (r_errno f)) "?"));;
      wr pid_file_created 1;;
      sys Sys_atexit;;
      pid ← sys Sys_getpid;
      p ← sys (Sys_fprintf (r_ret f) (show_Z (r_ret pid) ++ [nl]));
      when (r_ret p =? 0)
        (xerrlog LOG_ERR (lit "write failed to pid file " ++ [dquote] ++ cstr_or (Some name) EmptyString ++ [dquote]
                          ++ lit ": " ++ cstr_or (strerror (r_errno p)) "?"));;
      sys (Sys_fflush (r_ret f));;
      sys (Sys_fclose (r_ret f));;
      mret tt
  end.

(** The strings [execvp] sees in [newav]. *)
Fixpoint argv_of (a : list slot) : list bytes :=
  match a with
  | Str s :: r => s :: argv_of r
  | _ => []
  end.

Definition read_newav : M (list bytes) := fun w => (inl (argv_of (default [] (newav w))), w).

(** Steps 2 to 8: everything between the environment and [ssh_run]. *)
Definition prepare (argv : list bytes) : M Z :=
  let g := getopt argv OPTION_STRING in
  o ← option_loop argv (go_opts g) None false;
  e ← rds env_port;
  when (bool_decide (e <> None)) (wrs writep e);;
  w ← rds writep;
  when (bool_decide (w = None) || (Z.of_nat (List.length argv) =? go_ind g)) (usage 1);;
  lt ← rd logtype;
  when (negb (Z.land lt L_SYSLOG =? 0)) (sys Sys_openlog;; mret tt);;
  me ← split_echo argv o.1;
  set_mhost;;
  f ← ports me.2;
  adjust_timeout;;
  sp ← rds ssh_path;
  add_arg sp;;
  arg_loop me.1 o.1 (drop 1 (go_order g)) f.1.1 f.1.2 f.2 false false;;
  daemonize o.2;;
  sock ← listen_socket;
  write_pid_file;;
  mret sock.

(** After the run: the socket, the log and the exit status. *)
Definition wind_up (sock retval : Z) : M Z :=
  when (0 <=? sock) (shutdown_close sock);;
  lt ← rd logtype;
  when (negb (Z.land lt L_SYSLOG =? 0)) (sys Sys_closelog;; mret tt);;
  mret (if retval =? P_EXITERR then 1 else 0).

Definition autossh_main (argv : list bytes) : M Z :=
  get_env_args;;
  sock ← prepare argv;
  av ← read_newav;
  retval ← ssh_run sock av;
  wind_up sock retval.

Definition unlink_pid_atexit : M unit := unlink_pid_file.

(** The handlers registered with [atexit], run by [exit]. *)
Definition run_atexit : M unit := fun w =>
  if existsb (fun e => bool_decide (e.1 = Sys_atexit)) (trace w) then unlink_pid_atexit w else (inl tt, w).

(** src/main.rs: an argument with a NUL inside panics, else the status of
    [autossh_main] is the exit status. *)
Definition main {A} (argv : list bytes) : M A :=
  if forallb nul_free argv then rc ← autossh_main argv; run_atexit;; halt (Exited rc)
  else halt (Exited 101).

End Main.

(** ** Facts *)

(** *** Everything before [ssh_run] leaves processes and jumps alone *)

Record mild (w w' : world) : Prop := Mild {
  mild_jump : ints w dolongjmp = 0 -> ints w' dolongjmp = 0;
  mild_count : ints w' start_count = ints w start_count;
  mild_max : is_i32 (ints w max_start) -> is_i32 (ints w' max_start);
  mild_calls : calls (fun c => negb (changes_live c)) w w'
}.

Record mild_stop (s : stop) (w w' : world) : Prop := MildStop {
  mild_calm : ints w dolongjmp = 0 -> calm s;
  mild_no_fork : calls no_fork w w'
}.

#[global] Instance mild_framed : Framed mild mild_stop.
Proof.
  split; [split|].
  - intros w. split; auto using calls_refl.
  - intros w1 w2 w3 [J1 C1 I1 T1] [J2 C2 I2 T2]. split; [auto|congruence|auto|by eapply calls_trans].
  - intros s w1 w2 w3 [J1 C1 I1 T1] [Cm F]. split; [auto|]. eapply calls_trans; [|exact F].
    eapply calls_mono; [|exact T1]. by intros [].
Qed.

(** A computation that makes no call and leaves the flags alone. *)
Lemma mild_silent {A} (m : M A) :
  (forall w, exists a w', m w = (inl a, w') /\ trace w' = trace w /\
     ints w' dolongjmp = ints w dolongjmp /\ ints w' start_count = ints w start_count /\
     (is_i32 (ints w max_start) -> is_i32 (ints w' max_start))) ->
  spec mild mild_stop m.
Proof.
  intros Hm w. destruct (Hm w) as (a & w' & E & T & J & C & I). unfold wp. rewrite E.
  split; [by rewrite J|done|done|by apply calls_same].
Qed.

Ltac silent := apply mild_silent; intros ?; do 2 eexists; split_and!; done.

Section MainFacts.
Context {H : Host} {G : Getopt}.

Lemma mild_eff {A} V W (P O : syscall -> bool) X (m : M A) :
  spec (eff V P) (eff_stop W O X) m -> touches V start_count = false -> touches V max_start = false ->
  (forall c, P c = true -> negb (changes_live c) = true) -> (forall c, O c = true -> no_fork c = true) ->
  spec mild mild_stop m.
Proof.
  intros Hm HV HX HP HO w. eapply wp_mono; [apply Hm| |]; cbn.
  - intros _ w' E. split; [apply E|by apply E|by rewrite (eff_ints _ _ _ _ E)|]. eapply calls_mono; [|apply E]. done.
  - intros s w' E. split; [by eapply eff_stop_calm|]. eapply calls_mono; [|apply E]. done.
Qed.

Lemma mild_sys c : changes_live c = false -> spec mild mild_stop (sys c).
Proof.
  intros Hc. apply (mild_eff [] [] (is_call c) (is_call c) by_signal).
  - apply spec_sys; unfold is_call; by rewrite bool_decide_true.
  - done.
  - done.
  - unfold is_call. intros c' ->%bool_decide_eq_true. by rewrite Hc.
  - unfold is_call. intros c' ->%bool_decide_eq_true. by destruct c.
Qed.

Lemma mild_wr v x :
  v <> dolongjmp -> v <> start_count -> (v = max_start -> is_i32 x) -> spec mild mild_stop (wr v x).
Proof.
  intros N1 N2 N3. apply mild_silent. intros w. do 2 eexists. split; [done|]. simpl.
  rewrite !fn_lookup_insert_ne by done. split_and!; [done..|]. intros K.
  destruct (decide (v = max_start)) as [->|N]; [rewrite fn_lookup_insert; auto|by rewrite fn_lookup_insert_ne].
Qed.

Lemma mild_wrs v x : spec mild mild_stop (wrs v x).
Proof. silent. Qed.

Lemma mild_setenv k v : spec mild mild_stop (setenv k v).
Proof. silent. Qed.

Lemma mild_halt {A} s : calm s -> spec mild mild_stop (halt (A := A) s).
Proof. intros Hs w. split; [done|apply calls_refl]. Qed.

Lemma mild_errlog l m : spec mild mild_stop (errlog l m).
Proof. eapply mild_eff; [apply errlog_eff|done|done|by intros []|by intros []]. Qed.

Lemma mild_xerrlog {A} l m : spec mild mild_stop (xerrlog (A := A) l m).
Proof.
  intros w. eapply wp_mono; [apply xerrlog_stops|done|]. cbv beta. intros s w' E.
  split; [by eapply eff_stop_calm|]. eapply calls_mono; [|apply E]. by intros [].
Qed.

End MainFacts.

#[export] Hint Resolve mild_wrs mild_setenv mild_errlog mild_xerrlog : machine.
#[export] Hint Extern 1 (spec mild _ (sys _)) => apply mild_sys; reflexivity : machine.
#[export] Hint Extern 1 (spec mild _ (wr _ _)) => apply mild_wr; (discriminate || (intros _; apply wrap32_range)) : machine.
#[export] Hint Extern 1 (spec mild _ (halt _)) => apply mild_halt; exact I : machine.

Section Startup.
Context {H : Host} {G : Getopt}.

Lemma get_env_args_mild : spec mild mild_stop get_env_args.
Proof.
  unfold get_env_args, env_path, env_loglevel, env_poll, env_first_poll, env_gatetime, env_maxstart,
    env_message, env_portvar, env_maxlifetime, env_maxsession, env_pidfile, env_logfile, drop_poll.
  spec_auto.
Qed.

Lemma add_arg_mild s : spec mild mild_stop (add_arg s).
Proof.
  assert (forall a n c, spec mild mild_stop (put_args a n c)) by (intros; silent).
  assert (spec mild mild_stop get_newav) by silent.
  assert (spec mild mild_stop get_newac) by silent.
  assert (spec mild mild_stop get_cap) by silent.
  unfold add_arg, reserve, store, incr_newac, alloc, alloc_fail. spec_auto.
Qed.

#[local] Hint Resolve add_arg_mild : machine.

Lemma add_forwards_mild wm rm : spec mild mild_stop (add_forwards wm rm).
Proof. unfold add_forwards. spec_auto. Qed.

Lemma repoint_mild port id buf : spec mild mild_stop (repoint port id buf).
Proof.
  unfold repoint. spec_step; [spec_auto|]. spec_step; [spec_auto|]. destruct a, a0, port as [[]|]; spec_auto.
Qed.

#[local] Hint Resolve repoint_mild : machine.

Lemma strip_and_add_mild port id s : spec mild mild_stop (strip_and_add port id s).
Proof. unfold strip_and_add. spec_auto. Qed.

#[local] Hint Resolve add_forwards_mild strip_and_add_mild : machine.

Lemma arg_loop_mild mem port ids wp wm rm saw dn : spec mild mild_stop (arg_loop mem port ids wp wm rm saw dn).
Proof.
  remember (List.length ids) as n eqn:Hn. revert ids Hn saw dn.
  induction (lt_wf n) as [n _ IH]. intros [|id r] -> saw dn; [simpl; spec_auto|].
  assert (forall ids saw dn, (List.length ids <= List.length r)%nat ->
    spec mild mild_stop (arg_loop mem port ids wp wm rm saw dn)) as K
    by (intros ids s d L; eapply IH; [|done]; simpl; lia).
  clear IH. simpl arg_loop. spec_auto; apply K; simpl; lia.
Qed.

Lemma eprint_all_mild l : spec mild mild_stop (eprint_all l).
Proof. induction l; simpl; spec_auto. Qed.

Lemma usage_mild {A} code : spec mild mild_stop (usage (A := A) code).
Proof. unfold usage. spec_auto. apply eprint_all_mild. Qed.

#[local] Hint Resolve eprint_all_mild usage_mild : machine.

Lemma option_loop_mild mem opts p d : spec mild mild_stop (option_loop mem opts p d).
Proof.
  revert p d. induction opts as [|[ch arg] r IH]; intros p d; simpl; spec_auto.
Qed.

Lemma listen_socket_mild : spec mild mild_stop listen_socket.
Proof.
  unfold listen_socket, conn_listen, conn_addr. spec_step; [spec_auto|]. spec_step; [spec_auto|].
  destruct a, a0; spec_auto.
Qed.

Lemma prepare_mild argv : spec mild mild_stop (prepare argv).
Proof.
  pose proof listen_socket_mild.
  unfold prepare, split_echo, cut_at_colon, set_mhost, ports, forward, adjust_timeout, daemonize,
    write_pid_file.
  spec_auto; auto using option_loop_mild, arg_loop_mild.
Qed.

(** *** The whole program *)

Lemma mild_halted k s w w' : tidy [] k w -> mild_stop s w w' -> calm s /\ single_child (trace w').
Proof.
  intros [D S L F] [C N]. split; [auto|]. by apply (no_fork_calls _ _ _ N).
Qed.

Lemma tidy_mild k w w' : tidy [] k w -> mild w w' -> tidy [] k w'.
Proof.
  intros [D S L F] [J C I T]. destruct (no_fork_calls _ _ _ T) as [IS IF]; [by intros []|].
  split; [auto|auto| |lia]. rewrite (live_same _ _ _ T); [done|]. by intros [].
Qed.

Lemma exit_code_range sock rc w :
  wp (wind_up sock rc) (fun c _ => c = 0 \/ c = 1) (fun _ _ => True) w.
Proof.
  unfold wind_up. wp_step. eapply wp_mono; [|intros a w' K; exact K|done].
  apply (wp_eff [] (fun c => is_hangup c) by_signal); [unfold shutdown_close; spec_auto|]. intros _ w1 _.
  do 2 wp_step. wp_step.
  apply (wp_eff [] (is_call Sys_closelog) by_signal); [spec_auto|]. intros _ w2 _. wp_step.
  destruct (rc =? P_EXITERR); auto.
Qed.

Lemma autossh_main_ok argv e :
  wp (autossh_main argv)
    (fun rc w' => (exists k, tidy [] k w') /\ (rc = 0 \/ rc = 1))
    (fun s w' => calm s /\ single_child (trace w')) (init_world e).
Proof.
  assert (tidy [] 0 (init_world e)) as T0 by (split; done).
  unfold autossh_main. wp_step.
  eapply wp_mono; [apply wp_and; [apply get_env_args_ok|apply get_env_args_mild]| |]; cbv beta.
  { split; vm_compute; repeat split; discriminate. }
  2:{ intros s w' [_ E]. by eapply mild_halted. }
  intros _ w1 [_ E1]. pose proof (tidy_mild _ _ _ T0 E1) as T1. wp_step.
  eapply wp_mono; [apply prepare_mild| |]; cbv beta.
  2:{ intros s w' E. by eapply mild_halted. }
  intros sock w2 E2. pose proof (tidy_mild _ _ _ T1 E2) as T2. wp_step. hnf. apply wp_bind.
  assert (is_i32 (ints w2 max_start)) as MS by (apply E2, E1; vm_compute; split; discriminate).
  assert (ints w2 start_count = 0) as SC by (rewrite (mild_count _ _ E2), (mild_count _ _ E1); done).
  eapply wp_mono; [apply (ssh_run_ok sock _ 0); [done|done|rewrite SC; done]| |]; cbv beta.
  2:{ by intros s w' (? & ? & _). }
  intros rc w3 (S3 & L3 & D3 & _ & _).
  assert (tidy [] (forks (trace w3)) w3) as T3 by (split; auto; lia).
  assert (spec mild mild_stop (wind_up sock rc)) as Tail by (unfold wind_up, shutdown_close; spec_auto).
  eapply wp_mono; [apply wp_and; [apply (exit_code_range sock rc)|apply Tail]| |]; cbv beta.
  - intros c w4 [R E4]. split; [|done]. eexists. by eapply tidy_mild.
  - intros s w4 [_ E4]. by eapply mild_halted.
Qed.

Lemma run_atexit_mild : spec mild mild_stop run_atexit.
Proof.
  assert (spec mild mild_stop unlink_pid_atexit) as U by (unfold unlink_pid_atexit, unlink_pid_file; spec_auto).
  intros w. unfold run_atexit, wp. destruct (existsb _ _); [apply U|reflexivity].
Qed.

(** The process started by src/main.rs. *)
Lemma main_ok {A} argv e :
  wp (main (A := A) argv) (fun _ _ => False) (fun s w' => calm s /\ single_child (trace w')) (init_world e).
Proof.
  unfold main. wp_step; [|by wp_step]. wp_step.
  eapply wp_mono; [apply autossh_main_ok| |done]. cbv beta. intros rc w1 [[k T] _]. wp_step.
  eapply wp_mono; [apply run_atexit_mild| |]; cbv beta.
  - intros _ w2 E. wp_step. by destruct (tidy_mild _ _ _ T E).
  - intros s w2 E. by eapply mild_halted.
Qed.

End Startup.

(** ** The argument list ssh gets *)

Definition nonempty (l : list bytes) : list bytes := List.filter (fun s => negb (is_nil s)) l.

(** The forwarding options. *)
Definition forwards (echo : bool) (wm rm : bytes) : list bytes :=
  [lit "-L"; wm] ++ (if echo then [] else [lit "-R"; rm]).

Definition strip_f (s : bytes) : bytes := stripped "f"%char OPTION_STRING s.

(** The list of arguments, without the array and the byte buffers. *)
Fixpoint ssh_args (mem : list bytes) (ids : list nat) (envp : bool) (wp : Z) (fw : list bytes)
    (saw dn : bool) : list bytes :=
  match ids with
  | [] => []
  | id :: r =>
      let s := nth id mem [] in
      let dash := Ascii.eqb (byte_at s 0) "-"%char in
      if dash && Ascii.eqb (byte_at s 1) "-"%char && negb saw then ssh_args mem r envp wp fw true dn
      else if negb (wp =? 0) && envp && negb dn then fw ++ strip_f s :: ssh_args mem r envp wp fw saw true
      else if negb saw && dash && Ascii.eqb (byte_at s 1) "M"%char then
        (if negb (wp =? 0) && negb dn then fw else []) ++
        let dn' := dn || negb (wp =? 0) in
        if Ascii.eqb (byte_at s 2) nul
        then match r with [] => [] | _ :: r' => ssh_args mem r' envp wp fw saw dn' end
        else ssh_args mem r envp wp fw saw dn'
      else strip_f s :: ssh_args mem r envp wp fw saw dn
  end.

(** What the loop reads and never changes. *)
Definition same_strs (w w' : world) : Prop :=
  strs w' env_port = strs w env_port /\ strs w' echop = strs w echop.

#[global] Instance same_strs_framed : Framed same_strs (fun _ _ _ => True).
Proof. split; [split|]; unfold same_strs; [done|intros ??? [] []; split; congruence|done]. Qed.

Section ArgList.
Context {H : Host}.

Lemma add_arg_strs s : spec same_strs (fun _ _ _ => True) (add_arg s).
Proof.
  assert (forall c, spec same_strs (fun _ _ _ => True) (sys c)).
  { intros c w. apply wp_sys; [|done]. intros w' _ E. split; by rewrite (eff_strs _ _ _ _ E). }
  assert (forall A (s : stop), spec same_strs (fun _ _ _ => True) (halt (A := A) s)) by done.
  assert (forall a n c, spec same_strs (fun _ _ _ => True) (put_args a n c)) by done.
  assert (spec same_strs (fun _ _ _ => True) get_newav) by done.
  assert (spec same_strs (fun _ _ _ => True) get_newac) by done.
  assert (spec same_strs (fun _ _ _ => True) get_cap) by done.
  unfold add_arg, reserve, store, incr_newac, alloc, alloc_fail. spec_auto.
Qed.

Lemma append_arg_nonempty l s : append_arg l (Some s) = l ++ nonempty [s].
Proof. destruct s; simpl; by rewrite ?app_nil_r. Qed.

(** Appending one argument, with room to spare below [c_int]. *)
Lemma wp_add_arg l s (Q : unit -> world -> Prop) w :
  represents w l -> Z.of_nat (List.length l) < i32_max ->
  (forall w', represents w' (l ++ nonempty [s]) -> same_strs w w' -> Q tt w') ->
  wp (add_arg (Some s)) Q (fun s _ => alloc_stop s) w.
Proof.
  intros R L HQ. eapply wp_mono; [apply wp_and; [by apply (add_arg_ok l)|apply add_arg_strs]| |]; cbv beta.
  - intros [] w' [R' S']. rewrite append_arg_nonempty in R'. auto.
  - by intros st w' [K _].
Qed.

Lemma nonempty_app a b : nonempty (a ++ b) = nonempty a ++ nonempty b.
Proof. apply filter_app. Qed.

Lemma nonempty_length l : (List.length (nonempty l) <= List.length l)%nat.
Proof. unfold nonempty. induction l as [|x l IH]; simpl; [done|]. destruct (negb (is_nil x)); simpl; lia. Qed.

(** The list being built has room for [more] further arguments. *)
Definition fits (l : list bytes) (more : nat) : Prop :=
  Z.of_nat (List.length l) + Z.of_nat more < i32_max.

Lemma fits_app l x more k :
  fits l (List.length x + more) -> (k <= more)%nat -> fits (l ++ nonempty x) k.
Proof. unfold fits. rewrite length_app. pose proof (nonempty_length x). lia. Qed.

Lemma add_forwards_ok l wm rm more (Q : unit -> world -> Prop) w :
  represents w l -> fits l (4 + more) ->
  (forall w', represents w' (l ++ nonempty (forwards (bool_decide (strs w echop <> None)) wm rm)) ->
     same_strs w w' -> Q tt w') ->
  wp (add_forwards wm rm) Q (fun s _ => alloc_stop s) w.
Proof.
  intros R F HQ. unfold add_forwards, fits in *.
  wp_step. eapply wp_add_arg; [done|lia|]. intros w1 R1 S1.
  wp_step. eapply wp_add_arg; [done|rewrite length_app; simpl; lia|]. intros w2 R2 S2.
  assert (same_strs w w2) as S02 by (by transitivity w1).
  wp_step. wp_step. rewrite (proj2 S02). unfold forwards in HQ.
  assert (Z.of_nat (List.length ((l ++ nonempty [lit "-L"]) ++ nonempty [wm])) + 2 < i32_max) as L2.
  { rewrite !length_app. pose proof (nonempty_length [lit "-L"]). pose proof (nonempty_length [wm]). simpl in *. lia. }
  destruct (strs w echop) as [e|].
  - wp_step. apply HQ; [|done]. rewrite bool_decide_true, app_nil_r by done.
    rewrite <- app_assoc, <- nonempty_app in R2. exact R2.
  - wp_step. eapply wp_add_arg; [done|lia|]. intros w3 R3 S3.
    eapply wp_add_arg; [done| |].
    { rewrite length_app. pose proof (nonempty_length [lit "-R"]) as K. cbn [List.length] in K. lia. }
    intros w4 R4 S4. apply HQ; [|by do 2 (etrans; [eassumption|])].
    rewrite <- !app_assoc, <- !nonempty_app in R4. exact R4.
Qed.

Lemma repoint_ok port id buf l (Q : unit -> world -> Prop) w :
  represents w l -> (forall w', represents w' l -> same_strs w w' -> Q tt w') ->
  wp (repoint port id buf) Q (fun s _ => alloc_stop s) w.
Proof.
  intros R HQ. assert (Q tt w) as Q0 by (by apply HQ). unfold repoint. do 4 wp_step.
  destruct (strs w writep), (strs w env_port), port as [[id' off]|]; try by wp_step.
  wp_step; [|done]. apply HQ; [exact R|]. split; simpl; by rewrite fn_lookup_insert_ne.
Qed.

Lemma strip_and_add_ok port id l s (Q : unit -> world -> Prop) w :
  represents w l -> nul_free s = true -> Z.of_nat (List.length l) < i32_max ->
  (forall w', represents w' (l ++ nonempty [strip_f s]) -> same_strs w w' -> Q tt w') ->
  wp (strip_and_add port id s) Q (fun s _ => alloc_stop s) w.
Proof.
  intros R NF L HQ. unfold strip_and_add.
  assert (exists buf, strip_arg (s ++ [nul]) "f"%char OPTION_STRING = Some buf /\ c_str buf = strip_f s)
    as (buf & -> & E).
  { destruct s as [|c s]; [by eexists|].
    destruct (strip_arg_ok (c :: s) [] "f"%char OPTION_STRING NF) as (j & E & _); [done|].
    eexists. split; [exact E|]. cbn [replicate app]. apply c_str_app_nul. by apply stripped_nul_free. }
  wp_step. eapply repoint_ok; [done|]. intros w1 R1 S1.
  eapply wp_add_arg; [done|done|]. intros w2 R2 S2. rewrite E in R2. apply HQ; [done|by transitivity w1].
Qed.

(** The loop builds [ssh_args] behind what is there. *)
Lemma arg_loop_ok mem port ids wpt wm rm saw dn l w :
  Forall (fun s => nul_free s = true) mem ->
  represents w l -> fits l (5 * List.length ids) ->
  wp (arg_loop mem port ids wpt wm rm saw dn)
    (fun _ w' => represents w' (l ++ nonempty (ssh_args mem ids (bool_decide (strs w env_port <> None)) wpt
                   (forwards (bool_decide (strs w echop <> None)) wm rm) saw dn)) /\ same_strs w w')
    (fun s _ => alloc_stop s) w.
Proof.
  intros NF. remember (List.length ids) as n eqn:Hn. revert ids Hn saw dn l w.
  induction (lt_wf n) as [n _ IH]. intros [|id r] -> saw dn l w R F.
  { simpl. wp_step. by rewrite app_nil_r. }
  assert (nul_free (nth id mem []) = true) as NFs.
  { destruct (nth_in_or_default id mem []) as [Hin| ->]; [|done]. rewrite List.Forall_forall in NF. auto. }
  set (s := nth id mem []) in *. set (envp := bool_decide (strs w env_port <> None)).
  set (fw := forwards (bool_decide (strs w echop <> None)) wm rm).
  assert (forall ids' saw' dn' x w', (List.length ids' <= List.length r)%nat ->
    represents w' (l ++ nonempty x) -> same_strs w w' -> (List.length x <= 5)%nat ->
    wp (arg_loop mem port ids' wpt wm rm saw' dn')
      (fun _ w2 => represents w2 (l ++ nonempty (x ++ ssh_args mem ids' envp wpt fw saw' dn')) /\ same_strs w w2)
      (fun s _ => alloc_stop s) w') as Rest.
  { intros ids' saw' dn' x w' Li R' S' Lx.
    eapply wp_mono; [eapply (IH (List.length ids')); [simpl; lia|done|exact R'|]| |done]; cbv beta.
    - unfold fits in *. rewrite length_app. pose proof (nonempty_length x). simpl in F. lia.
    - rewrite (proj1 S'), (proj2 S'). intros _ w2 [R2 S2]. rewrite <- app_assoc, <- nonempty_app in R2.
      split; [exact R2|by transitivity w']. }
  clear IH. cbn [arg_loop ssh_args]. fold s.
  assert (represents w (l ++ nonempty [])) as R0 by (by rewrite app_nil_r).
  assert (Z.of_nat (List.length l) < i32_max) as FL by (unfold fits in F; simpl in F; lia).
  assert (fits l (4 + 1)) as F5 by (unfold fits in *; simpl in *; lia).
  assert (List.length fw <= 4)%nat as Lfw
    by (unfold fw, forwards; destruct (bool_decide (strs w echop <> None)); simpl; lia).
  wp_step; [apply (Rest r true dn []); [lia|done|done|simpl; lia]|].
  wp_step. wp_step. fold envp. wp_step.
  { wp_step. eapply add_forwards_ok; [exact R|exact F5|]. intros w1 R1 S1. fold fw in R1. wp_step.
    eapply strip_and_add_ok; [done|done| |].
    { unfold fits in F5. rewrite length_app. pose proof (nonempty_length fw) as Lne. lia. }
    intros w2 R2 S2. rewrite <- app_assoc, <- nonempty_app in R2.
    replace (fw ++ strip_f s :: ssh_args mem r envp wpt fw saw true)
      with ((fw ++ [strip_f s]) ++ ssh_args mem r envp wpt fw saw true) by (by rewrite <- app_assoc).
    apply Rest; [lia|done|by transitivity w1|]. rewrite length_app. cbn [List.length]. lia. }
  wp_step.
  { wp_step. set (x := if negb (wpt =? 0) && negb dn then fw else []).
    eapply (wp_mono _ (fun _ w1 => represents w1 (l ++ nonempty x) /\ same_strs w w1) _ (fun s _ => alloc_stop s));
      [| |done].
    - unfold x. wp_step; [|done]. eapply add_forwards_ok; [exact R|exact F5|]. auto.
    - assert (List.length x <= 5)%nat as Lx by (unfold x; case_match; cbn [List.length]; lia).
      cbv beta. intros _ w1 [R1 S1]. cbv zeta. wp_step; [|by apply Rest].
      destruct r as [|q r']; [wp_step; by rewrite app_nil_r|]. apply Rest; [simpl; lia|done|done|done]. }
  wp_step. eapply strip_and_add_ok; [exact R|done|done|]. intros w1 R1 S1.
  apply (Rest r saw dn [strip_f s]); [lia|done|done|simpl; lia].
Qed.

End ArgList.

(** *** What the list looks like *)

(** Not [--], and not [-M] with or without its port. *)
Definition plain (s : bytes) : bool :=
  negb (Ascii.eqb (byte_at s 0) "-"%char && (Ascii.eqb (byte_at s 1) "-"%char || Ascii.eqb (byte_at s 1) "M"%char)).

Definition strings (mem : list bytes) (ids : list nat) : list bytes := map (fun id => nth id mem []) ids.

(** Plain arguments are copied, once the forwardings are in or are not
    due to [AUTOSSH_PORT]. *)
Lemma ssh_args_plain mem pre post envp wpt fw saw dn :
  forallb plain (strings mem pre) = true -> negb (wpt =? 0) && envp && negb dn = false ->
  ssh_args mem (pre ++ post) envp wpt fw saw dn =
  map strip_f (strings mem pre) ++ ssh_args mem post envp wpt fw saw dn.
Proof.
  intros P E. induction pre as [|id pre IH]; [done|]. cbn [strings map forallb app ssh_args] in *.
  apply andb_prop in P as [P1 P2]. unfold plain in P1. apply negb_true_iff in P1.
  rewrite E, IH by done. destruct (Ascii.eqb (byte_at (nth id mem []) 0) "-"%char); cbn [andb].
  - cbn [andb] in P1. apply orb_false_elim in P1 as [-> ->]. cbn [andb]. by rewrite andb_false_r.
  - by rewrite andb_false_r.
Qed.

(** [-M port] gives way to the forwardings. *)
Lemma ssh_args_monitor mem pre im ip post wpt fw :
  nth im mem [] = lit "-M" -> wpt <> 0 ->
  forallb plain (strings mem pre) = true -> forallb plain (strings mem post) = true ->
  ssh_args mem (pre ++ im :: ip :: post) false wpt fw false false =
  map strip_f (strings mem pre) ++ fw ++ map strip_f (strings mem post).
Proof.
  intros M W P1 P2. rewrite ssh_args_plain by (done || by rewrite andb_false_r). f_equal. cbn [ssh_args].
  rewrite M, (proj2 (Z.eqb_neq wpt 0)) by done. cbn [negb andb orb]. cbn -[ssh_args]. f_equal.
  pose proof (ssh_args_plain mem post [] false wpt fw false true P2) as K. rewrite !app_nil_r in K.
  apply K. by rewrite andb_false_r.
Qed.

(** With [AUTOSSH_PORT], an [-M port] in front is not removed. *)
Lemma ssh_args_env_port mem im post wpt fw :
  nth im mem [] = lit "-M" -> wpt <> 0 -> forallb plain (strings mem post) = true ->
  ssh_args mem (im :: post) true wpt fw false false =
  fw ++ lit "-M" :: map strip_f (strings mem post).
Proof.
  intros M W P. cbn [ssh_args]. rewrite M, (proj2 (Z.eqb_neq wpt 0)) by done. cbn [negb andb orb].
  do 2 f_equal. pose proof (ssh_args_plain mem post [] true wpt fw false true P) as K.
  rewrite !app_nil_r in K. apply K. by rewrite andb_false_r.
Qed.

(** ** Ports and forwardings *)

Lemma show_Z_length n k : Z.abs n < 10 ^ Z.of_nat (S k) -> (List.length (show_Z n) <= S (S k))%nat.
Proof.
  intros Hn. unfold show_Z. repeat split_if; zify_bool; [simpl; lia| |].
  - rewrite length_app, length_rev. pose proof (dec_rev_length (dec_fuel (- n)) (- n) (S k) ltac:(lia)). cbn [List.length lit String.list_ascii_of_string]. lia.
  - rewrite length_rev. pose proof (dec_rev_length (dec_fuel n) n (S k) ltac:(lia)). lia.
Qed.

(** A forwarding specification. *)
Definition fwd_text (p : Z) (h : bytes) (q : Z) : bytes :=
  show_Z p ++ lit ":" ++ h ++ lit ":" ++ show_Z q.

Lemma fwd_text_length p h q :
  0 <= p <= 65535 -> is_i32 q -> strlen h <= 230 -> (List.length (fwd_text p h q) <= 255)%nat.
Proof.
  intros Hp Hq Hh. unfold fwd_text, strlen, is_i32, i32_min, i32_max in *.
  pose proof (show_Z_length p 4 ltac:(simpl; lia)). pose proof (show_Z_length q 9 ltac:(simpl; lia)).
  rewrite !length_app. simpl. lia.
Qed.

Section Ports.
Context {H : Host}.

(** What [forward] makes of a text it lets pass: 256 bytes are one too many
    for the buffer, so the last one is lost. *)
Definition fwd_cut (p : Z) (h : bytes) (q : Z) : bytes := take 255 (fwd_text p h q).

Lemma forward_run p q h w :
  strs w mhost = Some h -> strlen (fwd_text p h q) <= FWD_SZ -> forward p q w = (inl (fwd_cut p h q), w).
Proof.
  intros Hh L. unfold forward, mbind, M_bind, rds, when, mret, M_ret. rewrite Hh. cbn [default].
  change (show_Z p ++ lit ":" ++ id h ++ lit ":" ++ show_Z q) with (fwd_text p h q).
  by rewrite (proj2 (Z.ltb_ge _ _) L).
Qed.

Lemma forward_checked p q h w :
  strs w mhost = Some h ->
  wp (forward p q) (fun t w' => strlen (fwd_text p h q) <= FWD_SZ /\ t = fwd_cut p h q /\ w' = w)
    (fun _ _ => True) w.
Proof.
  intros Hh. unfold forward. do 2 wp_step. rewrite Hh. cbn [default].
  change (show_Z p ++ lit ":" ++ id h ++ lit ":" ++ show_Z q) with (fwd_text p h q). wp_step. wp_step.
  - eapply wp_mono; [apply xerrlog_stops|done|done].
  - do 2 wp_step. zify_bool. done.
Qed.

(** The port the [-L] option leads to. *)
Definition fwd_target (ep p : Z) (w : world) : Z :=
  if bool_decide (strs w echop = None) then p else wrap32 ep.

(** The checks on the port text [s], for the host [h]: all of it is a
    number, which as a [c_int] is in range, and the texts of the
    forwardings are at most 256 bytes long. *)
Definition port_passes (ep : Z) (s h : bytes) (w : world) : Prop :=
  let p := wrap32 (fst (strtoul s)) in
  s <> [] /\ snd (strtoul s) = [] /\ 0 <= p <= 65534 /\
  (p <> 0 -> strlen (fwd_text p h (fwd_target ep p w)) <= FWD_SZ /\
             (strs w echop = None -> strlen (fwd_text p h (p + 1)) <= FWD_SZ)).

(** The result for a port that passes: monitoring off for 0, else the
    read port is the next one and the forwardings are made. *)
Definition port_result (ep : Z) (s h : bytes) (w : world) : Z * bytes * bytes :=
  let p := wrap32 (fst (strtoul s)) in
  if p =? 0 then (0, [], [])
  else (p, fwd_cut p h (fwd_target ep p w), if bool_decide (strs w echop = None) then fwd_cut p h (p + 1) else []).

Definition port_strs (s : bytes) (f : svar -> option bytes) : svar -> option bytes :=
  let p := wrap32 (fst (strtoul s)) in
  if p =? 0 then <[writep := None]> f else <[readp := Some (show_Z (p + 1))]> f.

Lemma ports_checked ep s h w :
  strs w writep = Some s -> strs w mhost = Some h ->
  wp (ports ep)
    (fun r w' => port_passes ep s h w /\ r = port_result ep s h w /\ strs w' = port_strs s (strs w))
    (fun _ _ => True) w.
Proof.
  intros E Hh. unfold ports, port_passes, port_result, port_strs. do 2 wp_step. rewrite E. cbn [default].
  unfold id. destruct (strtoul s) as [v t]. cbn [fst snd].
  wp_step. wp_step; [eapply wp_mono; [apply xerrlog_stops|done|done]|].
  assert (s <> [] /\ t = []) as [Hs ->].
  { unfold malformed in *. apply orb_false_elim in Heqb as [E1 E2]. by destruct s, t. }
  do 2 wp_step.
  { zify_bool. rewrite Heqb0. wp_step. eapply wp_mono; [apply errlog_eff| |done]. cbv beta. intros _ w1 E1. do 3 wp_step.
    cbn [strs set_strs]. rewrite (eff_strs _ _ _ _ E1). split_and!; done || lia. }
  wp_step; [eapply wp_mono; [apply xerrlog_stops|done|done]|].
  apply orb_false_elim in Heqb1 as [R1 R2]. zify_bool.
  do 5 wp_step. set (w1 := set_strs _ w). assert (strs w1 mhost = Some h) as Hh1 by (simpl; by rewrite fn_lookup_insert_ne).
  eapply wp_mono; [by apply forward_checked| |done]; cbv beta. intros wm w2 (L1 & -> & ->).
  simpl strs in *. rewrite fn_lookup_insert_ne in * by done. unfold fwd_target.
  destruct (strs w echop) as [e|] eqn:EP.
  - wp_step. split_and!; try done; lia.
  - wp_step. eapply wp_mono; [by apply forward_checked| |done]; cbv beta. intros rm w2 (L2 & -> & ->). wp_step.
    split_and!; try done; lia.
Qed.

(** And a port that passes and switches monitoring on is accepted. *)
Lemma ports_run ep s h w :
  strs w writep = Some s -> strs w mhost = Some h -> port_passes ep s h w -> wrap32 (fst (strtoul s)) <> 0 ->
  ports ep w = (inl (port_result ep s h w), set_strs (port_strs s (strs w)) w).
Proof.
  intros E Hh (Hs & Ht & R & L) N. destruct (L N) as [L1 L2]. clear L. revert Ht R N L1 L2.
  unfold ports, port_result, port_strs. unfold mbind at 1, M_bind at 1, rds at 1. rewrite E. cbn [default].
  unfold id. destruct (strtoul s) as [v t]. cbn [fst snd]. intros -> R N L1 L2.
  assert (malformed s [] = false) as -> by (by destruct s).
  replace (wrap32 v =? 0) with false by lia. replace ((65534 <? wrap32 v) || (wrap32 v <? 0)) with false by lia.
  set (w1 := set_strs _ w). assert (strs w1 mhost = Some h) as Hh1 by (simpl; by rewrite fn_lookup_insert_ne).
  cbn [when]. unfold mbind at 1, M_bind at 1, mret at 1, M_ret at 1.
  unfold mbind at 1, M_bind at 1, wrs at 1. fold w1.
  unfold mbind at 1, M_bind at 1, rds at 1. simpl strs. rewrite fn_lookup_insert_ne by done.
  unfold fwd_target in *. destruct (strs w echop) as [e|]; unfold mbind at 1, M_bind at 1.
  - rewrite (forward_run _ _ h) by done. done.
  - rewrite (forward_run _ _ h) by done. unfold mbind at 1, M_bind at 1. rewrite (forward_run _ _ h) by auto. done.
Qed.

Lemma fwd_cut_whole p h q : (List.length (fwd_text p h q) <= 255)%nat -> fwd_cut p h q = fwd_text p h q.
Proof. apply take_ge. Qed.

(** The forwarding strings for a port in decimal and a host name that is
    not too long. *)
Lemma ports_forwards_ok ep p h w :
  strs w writep = Some (show_Z p) -> 1 <= p <= 65534 -> strs w mhost = Some h -> strlen h <= 230 ->
  exists w', ports ep w =
    (inl (p, fwd_text p h (if bool_decide (strs w echop = None) then p else wrap32 ep),
          if bool_decide (strs w echop = None) then fwd_text p h (p + 1) else []), w') /\
    strs w' = <[readp := Some (show_Z (p + 1))]> (strs w).
Proof.
  intros E Hp Hh L.
  assert (wrap32 (fst (strtoul (show_Z p))) = p /\ snd (strtoul (show_Z p)) = []) as [V T].
  { rewrite strtoul_show by (unfold ULONG_MAX; lia). split; [|done]. apply wrap32_id. unfold is_i32, i32_min, i32_max; lia. }
  assert (forall q, is_i32 q -> (List.length (fwd_text p h q) <= 255)%nat) as F
    by (intros q Hq; by apply fwd_text_length; [lia|..]).
  assert (is_i32 (fwd_target ep p w) /\ is_i32 (p + 1)) as [I1 I2].
  { unfold fwd_target. split; [|unfold is_i32, i32_min, i32_max; lia].
    case_bool_decide; [unfold is_i32, i32_min, i32_max; lia|apply wrap32_range]. }
  pose proof (F _ I1). pose proof (F _ I2).
  exists (set_strs (port_strs (show_Z p) (strs w)) w). rewrite (ports_run ep (show_Z p) h); [|done|done| |lia].
  - unfold port_result, port_strs. rewrite V. replace (p =? 0) with false by lia.
    fold (fwd_target ep p w). rewrite !fwd_cut_whole by done. done.
  - unfold port_passes. rewrite V, T. unfold FWD_SZ, strlen. split_and!; try done; try lia.
    intros Sh. rewrite Sh in T. pose proof (strtoul_show p ltac:(unfold ULONG_MAX; lia)) as K.
    rewrite Sh in K. injection K. lia.
Qed.

(** *** The network timeout *)

Lemma adjust_timeout_ok w :
  wp adjust_timeout
    (fun _ w' => ints w' net_timeout = Z.min (ints w net_timeout) (Z.quot (wrap32 (ints w poll_time * 1000)) 2))
    (fun _ _ => True) w.
Proof.
  unfold adjust_timeout. do 4 wp_step. wp_step; zify_bool; [|wp_step; lia].
  do 2 wp_step. eapply wp_mono; [apply errlog_eff| |done]. intros ? w1 E. cbv beta in E. frame. lia.
Qed.

End Ports.

(** ** Properties *)

Section MainProperties.
Context {H : Host}.

(** C5: Whatever the command line, the environment and the host do, the
    whole program starts an ssh child only when every earlier one has been
    reaped or given up (SIGKILL sent and two more polls made), and no jump
    escapes; when the program returns all of its children are reaped or
    given up and its status is 0 or 1. *)
Theorem autossh_main_one_child {G : Getopt} argv e :
  wp (autossh_main argv)
    (fun rc w' => single_child (trace w') /\ live (trace w') = [] /\ (rc = 0 \/ rc = 1))
    (fun s w' => calm s /\ single_child (trace w')) (init_world e).
Proof.
  eapply wp_mono; [apply autossh_main_ok| |done]. cbv beta. by intros rc w' [[k []] ?].
Qed.

(** C6: The loop over the command line appends to [newav] the non-empty
    strings of [ssh_args], the specification on lists, and stops only for
    want of memory or by a signal. *)
Theorem arg_loop_builds_ssh_args mem port ids wpt wm rm l w :
  Forall (fun s => nul_free s = true) mem ->
  represents w l -> fits l (5 * List.length ids) ->
  wp (arg_loop mem port ids wpt wm rm false false)
    (fun _ w' => represents w' (l ++ nonempty (ssh_args mem ids (bool_decide (strs w env_port <> None)) wpt
                   (forwards (bool_decide (strs w echop <> None)) wm rm) false false)))
    (fun s _ => s <> OutOfBounds /\ s <> NoFuel) w.
Proof.
  intros NF R F. eapply wp_mono; [by apply (arg_loop_ok mem port ids wpt wm rm false false l)| |done].
  by intros _ w' [? _].
Qed.

(** C7: Without [AUTOSSH_PORT] and with a port other than 0, [-M port]
    among plain arguments (none of them [--] or another [-M]) is replaced,
    in place, by the forwarding options ([-L] only with an echo port); the
    other arguments are passed on in order, each as [strip_arg] leaves it
    for [f] (see [strip_arg_in_bounds]), those left empty dropped. *)
Theorem monitor_option_replaced mem port pre im ip post wpt wm rm l w :
  Forall (fun s => nul_free s = true) mem ->
  represents w l -> fits l (5 * List.length (pre ++ im :: ip :: post)) ->
  nth im mem [] = lit "-M" -> wpt <> 0 -> strs w env_port = None ->
  forallb plain (strings mem pre) = true -> forallb plain (strings mem post) = true ->
  wp (arg_loop mem port (pre ++ im :: ip :: post) wpt wm rm false false)
    (fun _ w' => represents w' (l ++ nonempty (map strip_f (strings mem pre) ++
                   forwards (bool_decide (strs w echop <> None)) wm rm ++ map strip_f (strings mem post))))
    (fun s _ => s <> OutOfBounds /\ s <> NoFuel) w.
Proof.
  intros NF R F M W E P1 P2.
  eapply wp_mono; [by apply (arg_loop_ok mem port (pre ++ im :: ip :: post) wpt wm rm false false l)| |done].
  rewrite E. intros _ w' [K _]. by rewrite bool_decide_false, ssh_args_monitor in K by auto.
Qed.

(** With [AUTOSSH_PORT] set and [-M port] first on the command line,
    both strings are passed on to ssh behind the forwarding options. *)
Theorem env_port_keeps_monitor_option mem port im post wpt wm rm l w :
  Forall (fun s => nul_free s = true) mem ->
  represents w l -> fits l (5 * List.length (im :: post)) ->
  nth im mem [] = lit "-M" -> wpt <> 0 -> strs w env_port <> None ->
  forallb plain (strings mem post) = true ->
  wp (arg_loop mem port (im :: post) wpt wm rm false false)
    (fun _ w' => represents w' (l ++ nonempty (forwards (bool_decide (strs w echop <> None)) wm rm ++
                   lit "-M" :: map strip_f (strings mem post))))
    (fun s _ => s <> OutOfBounds /\ s <> NoFuel) w.
Proof.
  intros NF R F M W E P.
  eapply wp_mono; [by apply (arg_loop_ok mem port (im :: post) wpt wm rm false false l)| |done].
  intros _ w' [K _]. by rewrite (bool_decide_true _ E), ssh_args_env_port in K.
Qed.

(** C31: A monitor port is accepted exactly when all of its text is a
    number, that number cut to 32 bits is 0 to 65534, and neither
    forwarding text is longer than 256 bytes: whenever [ports] returns
    these hold, and a port other than 0 for which they hold is accepted.
    Port 0 switches monitoring off; otherwise the read port is the next
    one, and the forwardings are the texts without a 256th byte. *)
Theorem ports_accepts_range ep s h w :
  strs w writep = Some s -> strs w mhost = Some h ->
  wp (ports ep)
    (fun r w' => port_passes ep s h w /\ r = port_result ep s h w /\ strs w' = port_strs s (strs w))
    (fun _ _ => True) w /\
  (port_passes ep s h w -> wrap32 (fst (strtoul s)) <> 0 ->
   ports ep w = (inl (port_result ep s h w), set_strs (port_strs s (strs w)) w)).
Proof. intros. split; [by apply ports_checked|by apply ports_run]. Qed.

(** C32: For a port in decimal and a host name of at most 230 bytes, the
    forwardings are port:host:port and port:host:port+1, or port:host:echo
    alone with an echo port; nothing is printed and nothing stops. *)
Theorem ports_forwards ep p h w :
  strs w writep = Some (show_Z p) -> 1 <= p <= 65534 -> strs w mhost = Some h -> strlen h <= 230 ->
  exists w', ports ep w =
    (inl (p, fwd_text p h (if bool_decide (strs w echop = None) then p else wrap32 ep),
          if bool_decide (strs w echop = None) then fwd_text p h (p + 1) else []), w') /\
    strs w' = <[readp := Some (show_Z (p + 1))]> (strs w).
Proof. apply ports_forwards_ok. Qed.

(** C33: For poll times up to 2147483 seconds the network timeout is
    lowered to half the poll time; beyond that, up to 4294967 seconds, the
    product overflows and the timeout becomes negative, which poll(2)
    takes for no timeout. *)
Theorem adjust_timeout_bounds w :
  wp adjust_timeout
    (fun _ w' =>
       (0 <= ints w poll_time <= 2147483 ->
          ints w' net_timeout = Z.min (ints w net_timeout) (ints w poll_time * 500)) /\
       (2147484 <= ints w poll_time <= 4294967 -> ints w' net_timeout < 0)) (fun _ _ => True) w.
Proof.
  eapply wp_mono; [apply adjust_timeout_ok| |done]. cbv beta. intros _ w' ->. split; intros P.
  - rewrite wrap32_id by (unfold is_i32, i32_min, i32_max; lia).
    replace (ints w poll_time * 1000) with (ints w poll_time * 500 * 2) by lia. by rewrite Z.quot_mul.
  - apply Z.min_lt_iff. right.
    replace (wrap32 (ints w poll_time * 1000)) with (- (2 ^ 32 - ints w poll_time * 1000)).
    + rewrite Z.quot_opp_l by done. pose proof (Z.quot_pos (2 ^ 32 - ints w poll_time * 1000) 2).
      pose proof (Z.quot_le_lower_bound (2 ^ 32 - ints w poll_time * 1000) 2 1). lia.
    + unfold wrap32. rewrite (Z.mod_eq _ (2 ^ 32)) by done.
      replace ((ints w poll_time * 1000 + 2 ^ 31) / 2 ^ 32) with 1; [lia|].
      apply Z.div_unique with (ints w poll_time * 1000 + 2 ^ 31 - 2 ^ 32); lia.
Qed.

End MainProperties.

(** ** Runs *)

(** What getopt reports for "autossh -M 20000 -N host". *)
Definition typical_line : list bytes := [lit "autossh"; lit "-M"; lit "20000"; lit "-N"; lit "host"].

Definition typical_getopt : Getopt := {| getopt := fun _ _ =>
  GetoptResult [("M"%char, Some (2%nat, 0%nat)); ("N"%char, None)] [0; 1; 2; 3; 4]%nat 4 |}.

(** A host on which [fork] returns in the child. *)
Definition child_host : Host := mock_host (at_time t0 (fun c =>
  match c with
  | Sys_getaddrinfo _ _ => [ret_reply 0]
  | Sys_pipe => [Reply 0 0 5 6 [] []]
  | _ => []
  end)).

(** For "autossh -M 20000 -N host" in an empty environment the program
    gets from its first instruction to the exec of ssh with exactly these
    arguments. *)
Theorem typical_run_execs_ssh :
  result (@autossh_main child_host typical_getopt typical_line (init_world ∅)) =
  inr (Execed (map lit ["/usr/bin/ssh"; "-L"; "20000:127.0.0.1:20000"; "-R"; "20000:127.0.0.1:20001";
                        "-N"; "host"]%string)).
Proof. vm_compute. reflexivity. Qed.

(** A monitor port is compared with 65534 after the conversion to
    [c_int], so 4294987296 passes for 20000; a forwarding string of exactly
    256 bytes passes the overflow check and loses its last byte. *)
Theorem port_checks_miss :
  let w := set_strs (<[writep := Some (lit "4294987296")]> init_strs) (init_world ∅) in
  let long := replicate 244 "h"%char in
  let w' := set_strs (<[mhost := Some long]> init_strs) (init_world ∅) in
  result (@ports alloc_host 0 w) =
    inl (20000, lit "20000:127.0.0.1:20000", lit "20000:127.0.0.1:20001") /\
  strlen (fwd_text 20000 long 20001) = 256 /\
  result (@forward alloc_host 20000 20001 w') = inl (lit "20000:" ++ long ++ lit ":2000").
Proof. vm_compute. split_and!; reflexivity. Qed.

(** An [-M] behind [-f] in one argument is not recognised: it reaches
    ssh as its own [-M], and where the port is part of that argument the
    removal of the [f] moves the text under [writep], which then names
    another port. *)
Theorem clustered_monitor_option :
  let w := set_strs (<[writep := Some (lit "20000")]> init_strs) (init_world ∅) in
  let w1 := snd (@arg_loop alloc_host [lit "autossh"; lit "-fM"; lit "20000"; lit "host"] (Some (2, 0)%nat)
                   [1; 2; 3]%nat 20000 (lit "wm") (lit "rm") false false w) in
  let w2 := snd (@arg_loop alloc_host [lit "autossh"; lit "-fM20000"; lit "host"] (Some (1, 3)%nat)
                   [1; 2]%nat 20000 (lit "wm") (lit "rm") false false w) in
  argv_of (default [] (newav w1)) = map lit ["-M"; "20000"; "host"]%string /\
  argv_of (default [] (newav w2)) = map lit ["-M20000"; "host"]%string /\
  strs w2 writep = Some (lit "0000").
Proof. vm_compute. split_and!; reflexivity. Qed.

(** ** Witnesses *)

Definition port_world : world := set_strs (<[writep := Some (lit "20000")]> init_strs) (init_world ∅).

Lemma arg_loop_builds_ssh_args_witness :
  wp (@arg_loop alloc_host typical_line (Some (2, 0)%nat) [1; 2; 3; 4]%nat 20000 (lit "wm") (lit "rm") false false)
    (fun _ w' => represents w' (map lit ["-L"; "wm"; "-R"; "rm"; "-N"; "host"]%string))
    (fun s _ => s <> OutOfBounds /\ s <> NoFuel) port_world.
Proof.
  apply (@arg_loop_builds_ssh_args alloc_host typical_line (Some (2, 0)%nat) [1; 2; 3; 4]%nat 20000 (lit "wm")
    (lit "rm") [] port_world); [repeat constructor|split; reflexivity|reflexivity].
Defined.

Lemma monitor_option_replaced_witness :
  wp (@arg_loop alloc_host typical_line (Some (2, 0)%nat) ([] ++ 1 :: 2 :: [3; 4])%nat 20000 (lit "wm") (lit "rm")
        false false)
    (fun _ w' => represents w' (map lit ["-L"; "wm"; "-R"; "rm"; "-N"; "host"]%string))
    (fun s _ => s <> OutOfBounds /\ s <> NoFuel) port_world.
Proof.
  apply (@monitor_option_replaced alloc_host typical_line (Some (2, 0)%nat) [] 1%nat 2%nat [3; 4]%nat 20000
    (lit "wm") (lit "rm") [] port_world);
    [repeat constructor|split; reflexivity|reflexivity|reflexivity|discriminate|reflexivity..].
Defined.

Definition env_world : world := set_strs (<[env_port := Some (lit "30000")]> init_strs) (init_world ∅).

Lemma env_port_keeps_monitor_option_witness :
  wp (@arg_loop alloc_host typical_line None (1 :: [2; 3; 4])%nat 30000 (lit "wm") (lit "rm") false false)
    (fun _ w' => represents w' (map lit ["-L"; "wm"; "-R"; "rm"; "-M"; "20000"; "-N"; "host"]%string))
    (fun s _ => s <> OutOfBounds /\ s <> NoFuel) env_world.
Proof.
  apply (@env_port_keeps_monitor_option alloc_host typical_line None 1%nat [2; 3; 4]%nat 30000 (lit "wm") (lit "rm")
    [] env_world);
    [repeat constructor|split; reflexivity|reflexivity|reflexivity|discriminate|discriminate|reflexivity].
Defined.

(** The echo service is used, so the read forwarding is not made. *)
Definition echo_world : world := set_strs (<[echop := Some (lit "7")]> (strs port_world)) port_world.

Lemma ports_accepts_range_witness :
  port_result 7 (lit "20000") (lit "127.0.0.1") echo_world = (20000, lit "20000:127.0.0.1:7", []) /\
  @ports alloc_host 7 echo_world =
    (inl (port_result 7 (lit "20000") (lit "127.0.0.1") echo_world),
     set_strs (port_strs (lit "20000") (strs echo_world)) echo_world).
Proof.
  split; [vm_compute; reflexivity|].
  apply (@ports_accepts_range alloc_host 7 (lit "20000") (lit "127.0.0.1") echo_world);
    [reflexivity|reflexivity| |discriminate].
  split_and!; [discriminate|vm_compute; reflexivity|discriminate|discriminate|]. intros _.
  split; [discriminate|discriminate].
Defined.

Lemma ports_forwards_witness :
  exists w', @ports alloc_host 0 port_world =
    (inl (20000, fwd_text 20000 (lit "127.0.0.1") 20000, fwd_text 20000 (lit "127.0.0.1") 20001), w') /\
    strs w' = <[readp := Some (show_Z 20001)]> (strs port_world).
Proof.
  apply (@ports_forwards alloc_host 0 20000 (lit "127.0.0.1") port_world);
    [reflexivity|split; discriminate|reflexivity|discriminate].
Defined.
