(* ===== verification/Types.v ===== *)
(** * Well-formed processes

    Beyond the machine types that the compiler guarantees, the statics of
    the supervisor have ranges the code relies on (flags are 0 or 1, poll
    times are positive, [cchild] is 0 or a process id, [readp] is the text
    of a port, ...), and its system calls have arguments that make sense:
    kill(2) never gets 0 or a negative number, which would signal a whole
    process group, a wait never blocks, a descriptor that is used is one
    that was obtained.  This file states these as an invariant of the
    process and shows, for every component from the signal handler up to
    [main], that it is kept. *)

From Stdlib Require Import Ascii String.
From stdpp Require Import base option list strings gmap functions.
From S2P Require Import Prelude CNum Machine Signals Trace Log Kill Stderr Timing Wait Preload Conn Watch Run Args Env MainLogic.

(** ** Ranges *)

Definition flag (x : Z) : Prop := x = 0 \/ x = 1.
Definition natural (x : Z) : Prop := 0 <= x <= i32_max.
Definition natural_or_neg1 (x : Z) : Prop := -1 <= x <= i32_max.
Definition is_u32 (x : Z) : Prop := 0 <= x < 2 ^ 32.

(** The static integers of src/globals.rs, src/grace.rs, src/watch.rs and
    src/conn.rs.  The counters that wrap around keep their width only. *)
Definition ivar_ok (v : ivar) (x : Z) : Prop :=
  match v with
  | pid_file_created | port_fwd_failed | exit_signalled | restart_ssh | dolongjmp | RES => flag x
  | loglevel => LOG_EMERG <= x <= LOG_DEBUG
  | poll_time | first_poll_time => 1 <= x <= i32_max
  | my_poll_time => natural x
  | gate_time | max_lifetime | max_session => 0 <= x /\ is_f64 x
  | cchild => natural x
  | ssh_stderr_fd => natural_or_neg1 x
  | pid_start_time | start_time | pipe_lost_time | last_stderr_time => is_i64 x
  | flog => True
  | _ => is_i32 x
  end.

(** A C string holds no NUL; [readp] is empty or a port number's text. *)
Definition string_ok (v : svar) (s : bytes) : Prop :=
  nul_free s = true /\ (v = readp -> s = [] \/ exists p, s = show_Z p /\ 2 <= p <= 65535).

Definition slot_ok (s : slot) : Prop := match s with Str t => nul_free t = true | _ => True end.

Definition ostring_ok (s : option bytes) : Prop := forall t, s = Some t -> nul_free t = true.

(** The monitor socket: none, the echo mode, or a descriptor. *)
Definition sock_ok (s : Z) : Prop := s = -1 \/ s = NO_RD_SOCK \/ natural s.

(** What each call may be given. *)
Definition call_ok (c : syscall) : Prop :=
  match c with
  | Sys_kill p sig => 1 <= p <= i32_max /\ (sig = SIGTERM \/ sig = SIGKILL)
  | Sys_waitpid p options => natural p /\ options = WNOHANG
  | Sys_sleep n => 1 <= n <= i32_max
  | Sys_alarm n | Sys_srandom n => is_u32 n
  | Sys_close fd | Sys_read fd _ | Sys_write fd _ | Sys_connect fd | Sys_setsockopt fd | Sys_bind fd
  | Sys_accept fd | Sys_shutdown fd => natural fd
  | Sys_dup2 a b => natural a /\ b = STDERR_FILENO
  | Sys_ppoll fd events => natural fd /\ events = POLLIN
  | Sys_listen fd backlog => natural fd /\ backlog = 1
  | Sys_fcntl fd cmd arg => natural fd /\ is_i32 cmd /\ is_i32 arg
  | Sys_execvp argv => Forall (fun s => nul_free s = true) argv
  | Sys_poll fds timeout => Forall (fun p => natural p.1 /\ is_i32 p.2) fds /\ is_i32 timeout
  | Sys_syslog level msg => LOG_EMERG <= level <= LOG_DEBUG /\ nul_free msg = true
  | Sys_fprintf stream text => stream <> 0 /\ nul_free text = true
  | Sys_fflush stream | Sys_fclose stream => stream <> 0
  | Sys_fopen path mode => nul_free path = true /\ nul_free mode = true
  | Sys_open path flags mode => nul_free path = true /\ flags = O_SO_FLAGS /\ mode = O_SO_MODE
  | Sys_unlink path => nul_free path = true
  | Sys_getaddrinfo host port => ostring_ok host /\ ostring_ok port
  | Sys_sigaction sig _ => 1 <= sig <= 31
  | Sys_strftime t => is_i64 t
  | _ => True
  end.

(** What the operating system promises about its answers: calls that
    create a process or a descriptor answer -1 or a number that is not
    negative, a pipe that succeeds has two descriptors, the parent is a
    process, and results have the widths of their C types. *)
Definition reply_ok (c : syscall) (r : reply) : Prop :=
  match c with
  | Sys_fork | Sys_socket | Sys_accept _ | Sys_open _ _ _ => natural_or_neg1 (r_ret r)
  | Sys_getppid => 1 <= r_ret r <= i32_max
  | Sys_waitpid _ _ | Sys_getpid | Sys_fcntl _ _ _ => is_i32 (r_ret r)
  | Sys_pipe => 0 <= r_ret r -> natural (r_aux r) /\ natural (r_aux2 r)
  | Sys_time => is_i64 (r_ret r)
  | _ => True
  end.

Class PosixHost (H : Host) := { kernel_ok : forall h c, reply_ok c (kernel h c) }.

(** ** The invariant *)

Record typed (w : world) : Prop := Typed {
  typed_ints : forall v, ivar_ok v (ints w v);
  typed_strs : forall v s, strs w v = Some s -> string_ok v s;
  typed_env : forall k s, environ w !! k = Some s -> nul_free s = true;
  typed_args : Forall slot_ok (default [] (newav w));
  typed_newac : is_i32 (newac w);
  typed_calls : Forall (fun e => call_ok e.1) (trace w)
}.

(** [ty T m]: run by a well-formed process, [m] leaves one behind however
    it ends, and what it returns satisfies [T]. *)
Notation ty := (inv typed (fun _ => typed)).

Create HintDb typing.
#[export] Hint Constants Opaque : typing.

(** ** The rules of the judgement *)

Lemma ty_any {A} (T : A -> Prop) m : ty T m -> ty any m.
Proof. intros Hm. by eapply inv_sub. Qed.

Lemma ty_halt {A} (T : A -> Prop) s : ty T (halt s).
Proof. by apply inv_halt. Qed.

Lemma ty_catch {A} (T : A -> Prop) m h : ty T m -> (forall v, ty T (h v)) -> ty T (catch_jump m h).
Proof.
  intros Hm. apply inv_catch. intros w Hw. eapply wp_mono; [by apply Hm|done|]. by intros [].
Qed.

Lemma ty_when b m : ty any m -> ty any (when b m).
Proof. intros Hm. destruct b; [done|]. by apply inv_ret. Qed.

(** ** Arithmetic and strings of the declared types *)

Lemma is_i32_u32 x : is_u32 (u32 x).
Proof. unfold is_u32, u32. apply Z.mod_pos_bound. lia. Qed.

Lemma u32_lxor a b : is_u32 a -> is_u32 b -> is_u32 (Z.lxor a b).
Proof.
  unfold is_u32. intros Ha Hb. assert (0 <= Z.lxor a b) by (apply Z.lxor_nonneg; lia). split; [done|].
  destruct (decide (Z.lxor a b = 0)) as [->|]; [done|]. apply Z.log2_lt_pow2; [lia|].
  eapply Z.le_lt_trans; [apply Z.log2_lxor; lia|].
  apply Z.max_lub_lt; (destruct (decide (a = 0)) as [->|]; destruct (decide (b = 0)) as [->|];
    first [done | apply Z.log2_lt_pow2; lia]).
Qed.

Lemma i32_lor a b : is_i32 a -> 0 <= b < 2 ^ 31 -> 0 <= a -> is_i32 (Z.lor a b).
Proof.
  unfold is_i32, i32_min, i32_max. intros Ha Hb Hp.
  assert (0 <= Z.lor a b) by (apply Z.lor_nonneg; lia). split; [lia|].
  destruct (decide (Z.lor a b = 0)) as [->|]; [done|].
  enough (Z.lor a b < 2 ^ 31) by lia. apply Z.log2_lt_pow2; [lia|]. rewrite Z.log2_lor by lia.
  apply Z.max_lub_lt; (destruct (decide (a = 0)) as [->|]; destruct (decide (b = 0)) as [->|];
    first [done | apply Z.log2_lt_pow2; lia]).
Qed.

Lemma i32_quot x y : is_i32 x -> 1 < y -> is_i32 (Z.quot x y).
Proof.
  unfold is_i32, i32_min, i32_max. intros Hx Hy.
  destruct (decide (0 <= x)).
  - pose proof (Z.quot_pos x y ltac:(lia) ltac:(lia)). pose proof (Z.quot_le_upper_bound x y x ltac:(lia)).
    enough (Z.quot x y <= x) by lia. apply Z.quot_le_upper_bound; nia.
  - replace x with (- - x) by lia. rewrite Z.quot_opp_l by lia.
    pose proof (Z.quot_pos (- x) y ltac:(lia) ltac:(lia)).
    enough (Z.quot (- x) y <= - x) by lia. apply Z.quot_le_upper_bound; nia.
Qed.

Lemma i32_const x : (i32_min <=? x) && (x <=? i32_max) = true -> is_i32 x.
Proof. intros. zify_bool. by split. Qed.

Lemma nul_free_app a b : nul_free a = true -> nul_free b = true -> nul_free (a ++ b) = true.
Proof. unfold nul_free. rewrite forallb_app. by intros -> ->. Qed.

Lemma nul_free_sub a b : (forall x, In x a -> In x b) -> nul_free b = true -> nul_free a = true.
Proof. unfold nul_free. rewrite !forallb_forall. auto. Qed.

Lemma nul_free_take n s : nul_free s = true -> nul_free (take n s) = true.
Proof. apply nul_free_sub. intros x. rewrite <- (take_drop n s) at 2. rewrite in_app_iff. auto. Qed.

Lemma nul_free_drop n s : nul_free s = true -> nul_free (drop n s) = true.
Proof. apply nul_free_sub. intros x. rewrite <- (take_drop n s) at 2. rewrite in_app_iff. auto. Qed.

Lemma nul_free_default a s : nul_free a = true -> ostring_ok s -> nul_free (default a s) = true.
Proof. intros Ha Hs. destruct s as [t|]; [by apply Hs|done]. Qed.

Lemma nul_free_nth mem i : Forall (fun s => nul_free s = true) mem -> nul_free (nth i mem []) = true.
Proof. intros Hm. destruct (nth_in_or_default i mem []) as [K| ->]; [|done]. rewrite List.Forall_forall in Hm. auto. Qed.

Lemma nul_free_cons c s : nul_free (c :: s) = true -> nul_free s = true.
Proof. simpl. by intros [_ ?]%andb_prop. Qed.

Lemma strchr_nul_free s c t : strchr s c = Some t -> nul_free s = true -> nul_free t = true.
Proof.
  revert t. induction s as [|x s IH]; intros t; simpl.
  - destruct (decide (c = nul)); [|done]. by intros [= <-].
  - destruct (decide (x = c)); [by intros [= <-]|]. intros E [_ Hs]%andb_prop. by apply IH.
Qed.

(** Text without NUL: literals, printed numbers, parts of C strings. *)
Ltac text_ok :=
  repeat first
    [ assumption
    | lazymatch goal with
      | |- nul_free (_ ++ _) = true => apply nul_free_app
      | |- nul_free (take _ _) = true => apply nul_free_take
      | |- nul_free (drop _ _) = true => apply nul_free_drop
      | |- nul_free (default _ _) = true => apply nul_free_default
      | |- nul_free (nth _ _ []) = true => apply nul_free_nth
      | |- nul_free (show_Z _) = true => apply show_Z_nul_free
      | |- nul_free (c_str _) = true => apply c_str_nul_free
      | |- nul_free (lit _) = true => reflexivity
      | |- nul_free [_] = true => reflexivity
      | |- nul_free [] = true => reflexivity
      | |- nul_free VER = true => reflexivity
      | S : ostring_ok ?s |- nul_free ?t = true => apply S; reflexivity
      end ].

(** Ranges from the guards passed and the laws of the host. *)
Ltac range :=
  zify_bool; unfold sock_ok, natural, natural_or_neg1, NO_RD_SOCK, is_i32, i32_min, i32_max in *;
  unfold LOG_EMERG, LOG_DEBUG, LOG_ERR, LOG_WARNING, LOG_INFO, SIGHUP, SIGINT, SIGUSR1, SIGUSR2, SIGPIPE, SIGALRM,
    SIGTERM, SIGCHLD, PORT_FWD_FAIL_DELAY, STDERR_FILENO, PORT_FWD_FAIL_DELAY in *;
  lia.

#[export] Hint Resolve wrap32_range sat32_range is_i32_u32 u32_lxor f64_of_Z_is_f64 : typing.
#[export] Hint Extern 2 (flag _) => unfold flag; first [left; reflexivity | right; reflexivity] : typing.
#[export] Hint Extern 2 (_ \/ _) => first [left; reflexivity | right; reflexivity | solve [range]] : typing.
#[export] Hint Extern 2 (_ <= _ <= _) => solve [range] : typing.
#[export] Hint Extern 2 (_ <= _) => solve [range] : typing.
#[export] Hint Extern 2 (_ <> 0) => solve [discriminate | range] : typing.
#[export] Hint Extern 2 (sock_ok _) => solve [range] : typing.
#[export] Hint Extern 2 (natural _) => solve [range] : typing.
#[export] Hint Extern 2 (natural_or_neg1 _) => solve [range] : typing.
#[export] Hint Extern 3 (is_i32 _) => solve [range] : typing.
#[export] Hint Extern 2 (is_i32 _) => apply i32_const; reflexivity : typing.
#[export] Hint Extern 2 (is_u32 ?x) =>
  lazymatch x with
  | Z.lxor _ _ => fail
  | u32 _ => fail
  | _ => unfold is_u32; vm_compute; split; discriminate || reflexivity
  end : typing.
#[export] Hint Extern 2 (is_f64 _) => reflexivity : typing.
#[export] Hint Extern 2 (is_i64 _) => vm_compute; split; discriminate : typing.
#[export] Hint Extern 1 (nul_free _ = true) => solve [text_ok] : typing.

(** ** The primitives *)

Section Primitives.
Context {H : Host} {TH : PosixHost H}.

Lemma typed_set_ints w v x : typed w -> ivar_ok v x -> typed (set_ints (<[v:=x]> (ints w)) w).
Proof.
  intros [] Hx. split; cbn; auto. intros u. destruct (decide (v = u)) as [<-|N]; [by rewrite wr_eq|].
  by rewrite fn_lookup_insert_ne.
Qed.

Lemma rd_ty v : ty (ivar_ok v) (rd v).
Proof. intros w Hw. wp_step. split; [apply Hw|done]. Qed.

Lemma wr_ty v x : ivar_ok v x -> ty any (wr v x).
Proof. intros Hx w Hw. wp_step. split; [done|]. by apply typed_set_ints. Qed.

Lemma rds_ty v : ty (fun s => forall t, s = Some t -> string_ok v t) (rds v).
Proof. intros w Hw. wp_step. split; [|done]. intros t. apply Hw. Qed.

Lemma rds_ostring v : ty ostring_ok (rds v).
Proof. eapply inv_sub; [apply rds_ty|]. intros s Hs t E. by apply Hs. Qed.

Lemma wrs_ty v x : (forall s, x = Some s -> string_ok v s) -> ty any (wrs v x).
Proof.
  intros Hx w Hw. wp_step. split; [done|]. destruct Hw. split; cbn; auto. intros u s.
  destruct (decide (v = u)) as [<-|N]; [rewrite fn_lookup_insert; auto|].
  rewrite fn_lookup_insert_ne by done. auto.
Qed.

Lemma wrs_some v s : v <> readp -> nul_free s = true -> ty any (wrs v (Some s)).
Proof. intros N Hs. apply wrs_ty. intros t [= <-]. by split. Qed.

Lemma getenv_ty k : ty ostring_ok (getenv k).
Proof. intros w Hw. wp_step. split; [|done]. intros t. apply Hw. Qed.

Lemma setenv_ty k s : nul_free s = true -> ty any (setenv k s).
Proof.
  intros Hs w Hw. hnf. split; [done|]. destruct Hw. split; cbn; auto. intros j t.
  destruct (decide (k = j)) as [<-|N].
  - rewrite lookup_insert_eq. by intros [= <-].
  - rewrite lookup_insert_ne by done. eauto.
Qed.

End Primitives.

#[export] Hint Resolve rd_ty rds_ostring getenv_ty : typing.

(** Discharge the side conditions: constants, casts, text. *)
Ltac ty_side := cbn [call_ok fst snd ivar_ok default] in *;
  repeat match goal with |- _ /\ _ => split end; eauto 4 with typing.

#[export] Hint Extern 1 (ty _ (wr _ _)) => apply wr_ty; solve [ty_side] : typing.
#[export] Hint Extern 1 (ty _ (wrs _ (Some _))) => apply wrs_some; [done|]; solve [ty_side] : typing.
#[export] Hint Extern 1 (ty _ (setenv _ _)) => apply setenv_ty; solve [ty_side] : typing.
#[export] Hint Extern 1 (ty _ (halt _)) => apply ty_halt : typing.

(** Peel the structure of a monadic body. *)
Ltac ty_step :=
  lazymatch goal with
  | |- ty _ (mret _) => apply inv_ret; try solve [ty_side]
  | |- ty _ (halt _) => apply ty_halt
  | |- ty _ (_ ≫= _) =>
      first [ eapply inv_bind; [solve [eauto 3 with typing]|intros ? ?]
            | apply (inv_bind _ _ any); [|intros ? _] ]
  | |- ty _ (when ?b _) => destruct b eqn:?; cbn [when]
  | |- ty _ (if ?b then _ else _) => destruct b eqn:?
  | |- ty _ (match ?x with _ => _ end) => destruct x eqn:?
  end; cbn [reply_ok ivar_ok] in *.

Ltac ty_auto := repeat (ty_step || (progress (eauto 3 with typing))).

(** ** Signals and system calls *)

Section Calls.
Context {H : Host} {TH : PosixHost H}.

(** The handler writes flags only. *)
Lemma siglongjmp_ty g : ty any (siglongjmp g).
Proof. intros w []. hnf. by split. Qed.

Lemma sig_catch_ty g : ty any (sig_catch g).
Proof. pose proof siglongjmp_ty. unfold sig_catch. ty_auto. Qed.

Lemma deliver_ty m sigs : ty any (deliver m sigs).
Proof.
  induction sigs as [|g r IH]; simpl; [by apply inv_ret|]. apply (inv_bind _ _ any); [|by intros _ _].
  apply ty_when. intros w Hw. pose proof (sig_catch_ty g w Hw) as K. unfold wp, deliver1 in *.
  destruct (disp w g); [by destruct (default_terminates g)|done|done].
Qed.

Lemma sys_under_ty m c : call_ok c -> ty (reply_ok c) (sys_under m c).
Proof.
  intros Hc w Hw. unfold sys_under. set (r := answer w c).
  assert (reply_ok c r) as Hr by apply kernel_ok.
  assert (ty (reply_ok c) (deliver m (r_sigs r);; mret r)) as K.
  { apply (inv_bind _ _ any); [apply deliver_ty|]. intros _ _. by apply inv_ret. }
  apply K. destruct Hw. split; cbn; auto.
Qed.

Lemma sys_ty c : call_ok c -> ty (reply_ok c) (sys c).
Proof. intros Hc w. by apply (sys_under_ty (mask w)). Qed.

Lemma sys_any c : call_ok c -> ty any (sys c).
Proof. intros Hc. by eapply ty_any, sys_ty. Qed.

Lemma set_mask_ty m : ty any (fun w => (inl tt, set_mask m w)).
Proof. intros w [] . split; [done|]. by split. Qed.

Lemma sigprocmask_set_ty m : ty any (sigprocmask_set m).
Proof.
  apply (inv_bind _ _ any); [apply set_mask_ty|]. intros _ _. eapply inv_bind; [by apply sys_ty|].
  intros. by apply inv_ret.
Qed.

Lemma sigprocmask_block_ty m : ty any (sigprocmask_block m).
Proof.
  intros w Hw. unfold sigprocmask_block.
  assert (ty any (sigprocmask_set (mask w ∪ m);; mret (mask w))) as K; [|by apply K].
  eapply inv_bind; [apply sigprocmask_set_ty|]. intros. by apply inv_ret.
Qed.

Lemma sigaction_ty g d : 1 <= g <= 31 -> ty any (sigaction g d).
Proof.
  intros Hg. apply (inv_bind _ _ any).
  - intros w []. split; [done|]. by split.
  - intros _ _. eapply inv_bind; [by apply sys_ty|]. intros. by apply inv_ret.
Qed.

Lemma sigsetjmp_ty : ty any sigsetjmp.
Proof. intros w []. split; [done|]. by split. Qed.

Lemma get_newav_ty : ty (fun a => Forall slot_ok (default [] a)) get_newav.
Proof. intros w Hw. hnf. split; [apply Hw|done]. Qed.

Lemma get_newac_ty : ty is_i32 get_newac.
Proof. intros w Hw. hnf. split; [apply Hw|done]. Qed.

Lemma get_cap_ty : ty any get_cap.
Proof. intros w Hw. by hnf. Qed.

Lemma put_args_ty a n c : Forall slot_ok (default [] a) -> is_i32 n -> ty any (put_args a n c).
Proof. intros Ha Hn w []. hnf. split; [done|]. by split. Qed.

End Calls.

#[export] Hint Resolve deliver_ty sigprocmask_set_ty sigprocmask_block_ty
  sigsetjmp_ty get_newav_ty get_newac_ty get_cap_ty : typing.
#[export] Hint Extern 1 (ty _ (sys _)) => apply sys_ty; solve [ty_side] : typing.
#[export] Hint Extern 1 (ty any (sys _)) => apply sys_any; solve [ty_side] : typing.
#[export] Hint Extern 1 (ty _ (sys_under _ _)) => apply sys_under_ty; solve [ty_side] : typing.
#[export] Hint Extern 1 (ty _ (sigaction _ _)) => apply sigaction_ty; solve [ty_side] : typing.

(** ** The components *)

Section Components.
Context {H : Host} {TH : PosixHost H}.

Lemma timestr_ty : ty (fun s => nul_free s = true) timestr.
Proof. unfold timestr. ty_auto. Qed.

#[local] Hint Resolve timestr_ty : typing.

Lemma errlog_str_ty l m : LOG_EMERG <= l <= LOG_DEBUG -> ostring_ok m -> ty any (errlog_str l m).
Proof.
  intros Hl Hm. unfold errlog_str. ty_step. destruct m as [m|]; [|by ty_step].
  pose proof (Hm m eq_refl). ty_auto.
Qed.

Lemma errlog_ty l m : LOG_EMERG <= l <= LOG_DEBUG -> ty any (errlog l m).
Proof.
  intros Hl. unfold errlog. destruct (nul_free m) eqn:E; [|by apply inv_ret].
  apply errlog_str_ty; [done|]. by intros t [= <-].
Qed.

#[local] Hint Extern 1 (ty _ (errlog _ _)) => apply errlog_ty; solve [ty_side] : typing.

Lemma reap_loop_ty n a : ty any (reap_loop n a).
Proof. induction n as [|n IH]; simpl; ty_auto. Qed.

Lemma close_ssh_stderr_ty : ty any close_ssh_stderr.
Proof. unfold close_ssh_stderr. ty_auto. Qed.

#[local] Hint Resolve reap_loop_ty close_ssh_stderr_ty : typing.

(** A call or a computation at a particular state, with its footprint. *)
Lemma wp_ty {A} V W P X T (m : M A) (Q : A -> world -> Prop) w :
  typed w -> ty T m -> spec (eff V P) (eff_stop W P X) m ->
  (forall a w', T a -> typed w' -> eff V P w w' -> Q a w') -> wp m Q (fun _ => typed) w.
Proof.
  intros Hw Hm He HQ. eapply wp_mono; [apply wp_and; [apply (Hm w Hw)|apply He]| |by intros s w' []].
  cbv beta. intros a w' [[] ]. auto.
Qed.

Lemma wp_ty_sys c (Q : reply -> world -> Prop) w :
  typed w -> call_ok c ->
  (forall r w', reply_ok c r -> typed w' -> eff [] (is_call c) w w' -> Q r w') -> wp (sys c) Q (fun _ => typed) w.
Proof.
  intros Hw Hc HQ. eapply wp_mono; [apply wp_and; [apply (sys_ty c Hc w Hw)|apply sys_ok]| |by intros s w' []].
  cbv beta. intros r w' [[] (_ & _ & E)]. auto.
Qed.

Lemma wp_ty_tail {A} (m : M A) w : typed w -> ty any m -> wp m (fun _ w' => typed w') (fun _ => typed) w.
Proof. intros Hw Hm. eapply wp_mono; [apply (Hm w Hw)| |done]. by intros a w' []. Qed.

Lemma ty_wp {A} (m : M A) : (forall w, typed w -> wp m (fun _ w' => typed w') (fun _ => typed) w) -> ty any m.
Proof. intros Hm w Hw. eapply wp_mono; [apply (Hm w Hw)| |done]. by intros a w'. Qed.

(** A child that was not reaped is still the one in [cchild]. *)
Lemma reap_loop_keeps n a w :
  wp (reap_loop n a) (fun b w' => b = false -> ints w' cchild = ints w cchild) (fun _ _ => True) w.
Proof.
  revert w. induction n as [|n IH]; intros w; simpl; [by wp_step|].
  wp_step. wp_step. wp_step. apply wp_sys; [|done]. intros w1 T1 E1.
  wp_step; [by do 3 wp_step|]. wp_step; [by do 3 wp_step|]. wp_step.
  { wp_step. apply wp_errlog; [|done]. intros w2 _. by do 3 wp_step. }
  wp_step. apply wp_sys; [|done]. intros w2 T2 E2. eapply wp_mono; [apply IH| |done]. cbv beta.
  intros b w3 K ->. rewrite K by done. by frame.
Qed.

Lemma child_killable w sig :
  typed w -> ints w cchild <> 0 -> sig = SIGTERM \/ sig = SIGKILL -> call_ok (Sys_kill (ints w cchild) sig).
Proof. intros Hw N S. pose proof (typed_ints _ Hw cchild) as K. cbn in *. unfold natural in K. split; [lia|done]. Qed.

(** SIGKILL as well goes to a process, not to a group. *)
Lemma escalate_ty w :
  typed w -> ints w cchild <> 0 -> wp escalate (fun _ w' => typed w') (fun _ => typed) w.
Proof.
  intros Hw N. unfold escalate. do 3 wp_step.
  eapply wp_ty; [done|apply errlog_ty; ty_side|apply errlog_eff|]. intros _ w1 _ H1 E1. do 3 wp_step.
  apply wp_ty_sys; [done|apply child_killable; [done|by frame|by right]|]. intros _ w2 _ H2 E2.
  apply wp_ty_tail; [done|]. unfold reap_with_grace. ty_auto.
Qed.

Lemma ssh_kill_ty : ty any ssh_kill.
Proof.
  apply ty_wp. intros w Hw. unfold ssh_kill. wp_step. eapply wp_mono; [apply (close_ssh_stderr_ty w Hw)| |done].
  cbv beta. intros _ w1 [_ H1]. do 2 wp_step. wp_step; [by wp_step|]. zify_bool. wp_step.
  apply wp_ty_sys; [done|apply child_killable; auto|]. intros _ w2 _ H2 E2. wp_step.
  eapply wp_mono; [apply wp_and; [apply (reap_loop_ty _ _ w2 H2)|apply reap_loop_keeps]| |by intros s w' []].
  cbv beta. intros [] w3 [[_ H3] K]; [by wp_step|]. apply escalate_ty; [done|]. rewrite K by done. by frame.
Qed.

Lemma unlink_pid_file_ty : ty any unlink_pid_file.
Proof.
  unfold unlink_pid_file. ty_step. ty_step. ty_step; [|ty_auto].
  destruct a0 as [s|]; [|ty_auto]. pose proof (H1 s eq_refl). ty_auto.
Qed.

#[local] Hint Resolve ssh_kill_ty unlink_pid_file_ty : typing.

(** A fatal error is of any type. *)
Lemma xerrlog_ty {A} (T : A -> Prop) l m : LOG_EMERG <= l <= LOG_DEBUG -> ty T (xerrlog l m).
Proof.
  intros Hl. unfold xerrlog, xerrlog_str.
  assert (ty any (errlog_str l (Some (if nul_free m then m else lit "autossh: log formatting failed")))).
  { apply errlog_str_ty; [done|]. intros t [= <-]. by destruct (nul_free m) eqn:?. }
  ty_auto.
Qed.

#[local] Hint Extern 1 (ty _ (xerrlog _ _)) => apply xerrlog_ty; solve [ty_side] : typing.

(** The drain reads a descriptor that is open. *)
Lemma drain_ty n w :
  typed w -> 0 <= ints w ssh_stderr_fd -> wp (drain n) (fun _ w' => typed w') (fun _ => typed) w.
Proof.
  revert w. induction n as [|n IH]; intros w Hw F; simpl; [by wp_step|]. do 3 wp_step.
  apply wp_ty_sys; [done|pose proof (typed_ints _ Hw ssh_stderr_fd); cbn in *; range|]. intros r w1 _ H1 E1.
  wp_step; [by wp_step|]. wp_step; [by wp_step|]. cbv zeta. wp_step.
  apply wp_ty_sys; [done|done|]. intros t w2 Ht H2 E2. do 2 wp_step. set (w3 := set_ints _ w2).
  assert (typed w3) as H3 by (apply typed_set_ints; [done|exact Ht]).
  assert (ints w3 ssh_stderr_fd = ints w ssh_stderr_fd) as F3 by (unfold w3; by frame). clearbody w3.
  wp_step. apply wp_ty_sys; [done|ty_side|]. intros _ w4 _ H4 E4.
  wp_step; [apply wp_ty_tail; [done|]; ty_auto|]. wp_step; [apply wp_ty_tail; [done|]; ty_auto|].
  apply IH; [done|]. frame. by rewrite F3.
Qed.

Lemma check_ssh_stderr_ty : ty any check_ssh_stderr.
Proof.
  apply ty_wp. intros w Hw. unfold check_ssh_stderr. do 2 wp_step. wp_step; [by wp_step|].
  apply drain_ty; [done|]. by zify_bool.
Qed.

Lemma exceeded_lifetime_ty : ty any exceeded_lifetime.
Proof. unfold exceeded_lifetime. ty_auto. Qed.

Lemma backoff_i32 poll tries : is_i32 (backoff poll tries).
Proof.
  unfold backoff, f64_to_i32. repeat case_match; auto with typing.
Qed.

Lemma backoff_sleep_ty : ty any backoff_sleep.
Proof.
  unfold backoff_sleep. ty_step. ty_step; [|by ty_step]. ty_step. ty_step; [|by ty_step].
  assert (1 <= backoff_interval a0 a <= i32_max).
  { pose proof (backoff_i32 a0 a). unfold backoff_interval, is_i32, i32_min, i32_max in *.
    cbv zeta in *. destruct (a0 <? backoff a0 a); zify_bool; lia. }
  ty_auto.
Qed.

#[local] Hint Resolve check_ssh_stderr_ty exceeded_lifetime_ty backoff_sleep_ty : typing.

Lemma grace_time_ty t : is_i64 t -> ty any (grace_time t).
Proof. intros Ht. unfold grace_time, update_tries, port_fwd_delay. ty_auto. Qed.

Lemma ssh_wait_ty o : o = WNOHANG -> ty any (ssh_wait o).
Proof.
  intros Ho. unfold ssh_wait, child_exit, dispatch_exit, log_exiting, log_restarting. ty_auto.
Qed.

#[local] Hint Extern 1 (ty _ (ssh_wait _)) => apply ssh_wait_ty; solve [ty_side] : typing.
#[local] Hint Extern 1 (ty _ (grace_time _)) => apply grace_time_ty; solve [ty_side] : typing.

(** *** The network monitor *)

Lemma conn_addr_ty h p : ostring_ok h -> ostring_ok p -> ty any (conn_addr h p).
Proof. intros Hh Hp. unfold conn_addr. ty_auto. Qed.

#[local] Hint Extern 1 (ty _ (conn_addr _ _)) => apply conn_addr_ty; solve [ty_side] : typing.

Lemma conn_remote_ty h p : ostring_ok h -> ostring_ok p -> ty natural_or_neg1 (conn_remote h p).
Proof. intros Hh Hp. unfold conn_remote. ty_auto. Qed.

Lemma conn_listen_ty h p : ostring_ok h -> ostring_ok p -> ty natural (conn_listen h p).
Proof. intros Hh Hp. unfold conn_listen. ty_auto. Qed.

Lemma poll_ok fds timeout : Forall (fun p => natural p.1 /\ is_i32 p.2) fds -> is_i32 timeout -> call_ok (Sys_poll fds timeout).
Proof. done. Qed.

Lemma conn_poll_for_accept_ty sock : natural sock -> ty natural_or_neg1 (conn_poll_for_accept sock).
Proof.
  intros Hs. unfold conn_poll_for_accept. ty_step.
  eapply inv_bind; [apply sys_ty, poll_ok; [|done]|intros ? _].
  { apply Forall_singleton. split; [done|by apply i32_const]. }
  ty_auto.
Qed.

(** The [events] of the first descriptor. *)
Definition io_ok (s : io_state + Z) : Prop := match s with inl s => is_i32 (events0 s) | inr _ => True end.

Lemma write_loop_ty n fd s : natural fd -> io_ok (inl s) -> ty io_ok (write_loop n fd s).
Proof. intros Hf. revert s. induction n as [|n IH]; intros s Hs; cbn [write_loop]; ty_auto. Qed.

Lemma read_loop_ty n fd s : natural fd -> io_ok (inl s) -> ty io_ok (read_loop n fd s).
Proof. intros Hf. revert s. induction n as [|n IH]; intros s Hs; cbn [read_loop]; ty_auto. Qed.

Lemma send_half_ty fd0 fd1 two rv s :
  natural fd0 -> natural fd1 -> io_ok (inl s) -> ty io_ok (send_half fd0 fd1 two rv s).
Proof.
  intros H0 H1 Hs. unfold send_half. ty_step; [|by ty_step].
  eapply inv_bind; [apply write_loop_ty; [by destruct two|done]|]. intros [s1|e] K; [|by apply inv_ret].
  ty_step. destruct (wleft s1 =? 0), two; done.
Qed.

Lemma io_loop_ty n loops fd0 fd1 two s :
  natural fd0 -> natural fd1 -> io_ok (inl s) -> ty any (io_loop n loops fd0 fd1 two s).
Proof.
  intros H0 H1. revert loops s. induction n as [|n IH]; intros loops s Hs; cbn [io_loop]; [by ty_step|].
  ty_step; [by ty_step|]. ty_step.
  assert (call_ok (Sys_poll ((fd0, events0 s) :: (if ntopoll s =? 2 then [(fd1, POLLOUT)] else [])) a)).
  { split; [|done]. constructor; [done|]. destruct (ntopoll s =? 2); [|done]. constructor; [split; [done|by apply i32_const]|done]. }
  eapply inv_bind; [by apply sys_ty|]. intros p _. ty_step; [by ty_step|]. ty_step; [by ty_step|].
  eapply inv_bind; [by apply send_half_ty|]. intros [s1|e] K1; [|by ty_step].
  apply (inv_bind _ _ io_ok).
  { unfold receive_half. ty_step; [by apply read_loop_ty|by ty_step]. }
  intros [s2|e] K2; [|by ty_step]. ty_auto.
Qed.

Lemma shutdown_close_ty fd : natural fd -> ty any (shutdown_close fd).
Proof. intros Hf. unfold shutdown_close. ty_auto. Qed.

#[local] Hint Extern 1 (ty _ (shutdown_close _)) => apply shutdown_close_ty; solve [ty_side] : typing.
#[local] Hint Extern 1 (ty _ (conn_poll_for_accept _)) => apply conn_poll_for_accept_ty; solve [ty_side] : typing.
#[local] Hint Extern 1 (ty _ (conn_remote _ _)) => apply conn_remote_ty; solve [ty_side] : typing.
#[local] Hint Extern 1 (ty _ (conn_listen _ _)) => apply conn_listen_ty; solve [ty_side] : typing.

Lemma conn_send_and_receive_ty msg fd0 fd1 ev two :
  natural fd0 -> natural fd1 -> is_i32 ev -> ty any (conn_send_and_receive msg fd0 fd1 ev two).
Proof. intros. by apply io_loop_ty. Qed.

#[local] Hint Extern 1 (ty _ (conn_send_and_receive _ _ _ _ _)) =>
  apply conn_send_and_receive_ty; solve [ty_side] : typing.

Lemma one_try_ty sock wd node id rd0 :
  (sock = NO_RD_SOCK \/ natural sock) -> natural wd -> natural_or_neg1 rd0 -> ty (fun v => natural_or_neg1 v.2) (one_try sock wd node id rd0).
Proof.
  intros Hs Hw Hr. unfold one_try. ty_step; [ty_auto|]. ty_step. ty_step. ty_step. ty_step; [ty_auto|].
  apply (inv_bind _ _ natural_or_neg1); [ty_auto|]. intros rd1 Hr1. ty_step; [by ty_step|].
  ty_step; [ty_auto|]. destruct a3 as [[e g] er]. ty_auto.
Qed.

Lemma try_loop_ty n tries sock wd node id rd0 :
  (sock = NO_RD_SOCK \/ natural sock) -> natural wd -> natural_or_neg1 rd0 -> ty (fun v => natural_or_neg1 v.2) (try_loop n tries sock wd node id rd0).
Proof.
  intros Hs Hw. revert tries rd0. induction n as [|n IH]; intros tries rd0 Hr; cbn [try_loop]; [by ty_step|].
  ty_step; [by ty_step|]. ty_step; [ty_auto|].
  eapply inv_bind; [by apply one_try_ty|]. intros [[v|] rd1] K; [by ty_step|by apply IH].
Qed.

Lemma conn_test_ty sock h p : (sock = NO_RD_SOCK \/ natural sock) -> ostring_ok h -> ostring_ok p -> ty any (conn_test sock h p).
Proof.
  intros Hs Hh Hp. unfold conn_test. ty_step. ty_step. ty_step. ty_step; [by ty_step|].
  eapply inv_bind; [apply try_loop_ty; [done|ty_side|ty_side]|]. intros v Hv. ty_auto.
Qed.

#[local] Hint Extern 1 (ty _ (conn_test _ _ _)) => apply conn_test_ty; solve [ty_side] : typing.

(** *** Watching and restarting *)

Lemma ret_ty sm rc : ty any (ret sm rc).
Proof. unfold ret. ty_auto. Qed.

#[local] Hint Resolve ret_ty : typing.

Lemma arm_alarm_ty : ty any arm_alarm.
Proof. unfold arm_alarm, choose_secs_left, clear_alarm_timer. ty_auto. Qed.

Lemma kill_and_restart_port_ty sm : ty any (kill_and_restart_port sm).
Proof. unfold kill_and_restart_port. ty_auto. Qed.

#[local] Hint Resolve arm_alarm_ty kill_and_restart_port_ty : typing.

(** The descriptor that is closed is the one that was polled. *)
Lemma stderr_closed_ty w :
  typed w -> 0 <= ints w ssh_stderr_fd -> wp stderr_closed (fun _ w' => typed w') (fun _ => typed) w.
Proof.
  intros Hw F. unfold stderr_closed. wp_step.
  eapply wp_ty; [done|apply errlog_ty; ty_side|apply errlog_eff|]. intros _ w1 _ H1 E1. do 3 wp_step.
  apply wp_ty_sys; [done| |].
  { pose proof (typed_ints _ Hw ssh_stderr_fd). cbn in *. frame. range. }
  intros _ w2 _ H2 E2. apply wp_ty_tail; [done|]. ty_auto.
Qed.

Lemma wait_with_stderr_ty sm fd w :
  typed w -> ints w ssh_stderr_fd = fd -> 0 <= fd ->
  wp (wait_with_stderr sm fd) (fun _ w' => typed w') (fun _ => typed) w.
Proof.
  intros Hw F P. unfold wait_with_stderr. wp_step.
  assert (call_ok (Sys_ppoll fd POLLIN)) as Hc.
  { pose proof (typed_ints _ Hw ssh_stderr_fd). cbn in *. split; [range|done]. }
  eapply wp_mono; [apply wp_and; [apply (sys_under_ty sm _ Hc w Hw)|apply sys_under_ok]| |by intros s w' []].
  cbv beta. intros r w1 [[_ H1] (_ & _ & E1)]. do 2 wp_step. set (w2 := set_ints _ w1).
  assert (typed w2) as H2 by (apply typed_set_ints; [done|by left]).
  assert (ints w2 ssh_stderr_fd = fd) as F2 by (unfold w2; by frame). clearbody w2. cbv zeta. wp_step.
  eapply (wp_mono _ (fun _ w3 => typed w3 /\ ints w3 ssh_stderr_fd = fd) _ (fun _ => typed)); [| |done].
  { wp_step; [|by wp_step].
    eapply wp_ty; [done|apply check_ssh_stderr_ty|apply check_ssh_stderr_eff|]. intros _ w3 _ H3 E3. split; [done|]. by frame. }
  cbv beta. intros bad w3 [H3 F3]. wp_step; [apply wp_ty_tail; [done|]; ty_auto|]. wp_step.
  wp_step; [|by wp_step]. eapply wp_mono; [apply stderr_closed_ty; [done|lia]| |done]. cbv beta. intros _ w4 H4. by wp_step.
Qed.

Lemma try_branch_ty sm : ty any (try_branch sm).
Proof.
  unfold try_branch. ty_step. ty_step; [ty_auto|]. ty_step. ty_step. ty_step; [ty_auto|].
  apply ty_wp. intros w Hw. do 2 wp_step. wp_step; [apply wait_with_stderr_ty; [done|done|by zify_bool]|].
  apply wp_ty_tail; [done|]. ty_auto.
Qed.

Lemma catch_branch_ty sock sm val : sock_ok sock -> ty any (catch_branch sock sm val).
Proof. intros Hs. unfold catch_branch, alarm_case, watchdog. ty_auto. Qed.

Lemma watch_loop_ty n sock sm : sock_ok sock -> ty any (watch_loop n sock sm).
Proof.
  intros Hs. induction n as [|n IH]; cbn [watch_loop]; [by ty_step|]. unfold watch_round.
  ty_step; [|ty_auto]. ty_step. ty_step. ty_step; [ty_auto|]. ty_step.
  apply ty_catch; [apply try_branch_ty|]. intros v. by apply catch_branch_ty.
Qed.

Lemma ssh_watch_ty sock : sock_ok sock -> ty any (ssh_watch sock).
Proof. intros Hs. unfold ssh_watch. pose proof (watch_loop_ty fuel sock). ty_auto. Qed.

#[local] Hint Extern 1 (ty _ (ssh_watch _)) => apply ssh_watch_ty; solve [ty_side] : typing.

Definition argv_ok (av : list bytes) : Prop := Forall (fun s => nul_free s = true) av.

(** Both ends are open, or there is no pipe. *)
Definition pipe_ok (p : Z * Z) : Prop := p = (-1, -1) \/ natural p.1 /\ natural p.2.

Lemma pipe_ends p : pipe_ok p -> natural_or_neg1 p.1 /\ natural_or_neg1 p.2 /\ (0 <= p.2 -> natural p.1).
Proof. intros [->|[]]; simpl; range. Qed.

Lemma stderr_pipe_ty : ty pipe_ok stderr_pipe.
Proof.
  unfold stderr_pipe. ty_step. ty_step; [ty_step; ty_step; by left|].
  ty_step. right. apply H0. by zify_bool.
Qed.

Lemma child_branch_ty p av : pipe_ok p -> argv_ok av -> ty any (child_branch p av).
Proof. intros (H1 & H2 & H3)%pipe_ends Ha. unfold child_branch. ty_auto. Qed.

(** The -1 of a failed fork does not stay in [cchild]. *)
Lemma fork_failed_ty p e x w :
  pipe_ok p -> typed w ->
  wp (fork_failed p e) (fun _ w' => typed w') (fun _ => typed) (set_ints (<[cchild := x]> (ints w)) w).
Proof.
  intros (H1 & H2 & H3)%pipe_ends Hw. unfold fork_failed. do 2 wp_step. apply wp_ty_tail.
  - destruct Hw. split; cbn; auto. intros v. destruct (decide (v = cchild)) as [->|N].
    + rewrite wr_eq. cbn. range.
    + by rewrite !fn_lookup_insert_ne.
  - unfold close_errno. ty_auto.
Qed.

Lemma start_watch_ty p : pipe_ok p -> ty any (start_watch p).
Proof.
  intros (H1 & H2 & H3)%pipe_ends. unfold start_watch, close_if_open. ty_step; [ty_auto|]. ty_step. ty_step; [|ty_auto].
  ty_step; [|by ty_step]. ty_step. ty_step; [|by ty_step].
  assert (is_i32 (Z.lor (r_ret a1) O_NONBLOCK)) by (apply i32_lor; [done|done|by zify_bool]). ty_auto.
Qed.

Lemma parent_branch_ty sock p : sock_ok sock -> pipe_ok p -> ty any (parent_branch sock p).
Proof.
  intros Hs Hp. pose proof (start_watch_ty p Hp).
  unfold parent_branch, set_sig_handlers, end_watch, unset_sig_handlers, clear_alarm_timer. ty_auto.
Qed.

Lemma start_ssh_ty sock av : sock_ok sock -> argv_ok av -> ty any (start_ssh sock av).
Proof.
  intros Hs Ha. unfold start_ssh. eapply inv_bind; [apply stderr_pipe_ty|]. intros p Hp.
  apply ty_wp. intros w Hw. wp_step. apply wp_ty_sys; [done|done|]. intros f w1 Hf H1 _. do 2 wp_step. cbn in Hf.
  wp_step; [|wp_step; [by apply fork_failed_ty|]]; (apply wp_ty_tail; [apply typed_set_ints; [done|cbn; range]|]).
  - by apply child_branch_ty.
  - by apply parent_branch_ty.
Qed.

Lemma run_loop_ty n sock av : sock_ok sock -> argv_ok av -> ty any (run_loop n sock av).
Proof.
  intros Hs Ha. pose proof (start_ssh_ty sock av Hs Ha).
  induction n as [|n IH]; cbn [run_loop]; unfold run_round, prepare_start, log_start; ty_auto.
Qed.

(** *** Staging the watchdog *)

Lemma write_so_ty n fd k : natural fd -> ty any (write_so n fd k).
Proof. intros Hf. revert k. induction n as [|n IH]; intros k; cbn [write_so]; ty_auto. Qed.

#[local] Hint Resolve so_path_nul_free : typing.

Lemma path_ty : ty (fun p => nul_free p = true) path.
Proof.
  assert (ty (fun p => nul_free p = true) extract_once) as K.
  { unfold extract_once. ty_step. ty_step. ty_step; [ty_auto|].
    eapply inv_bind; [apply write_so_ty; ty_side|]. intros ok _. ty_auto. }
  unfold path. ty_auto.
Qed.

Lemma putenv_preload_ty v : ty any (putenv_preload v).
Proof. unfold putenv_preload. destruct (nul_free v) eqn:E; [by apply setenv_ty|by apply inv_ret]. Qed.

Lemma install_for_child_ty : ty any install_for_child.
Proof.
  pose proof putenv_preload_ty. unfold install_for_child. eapply inv_bind; [apply path_ty|].
  intros [|c so] _; ty_auto.
Qed.

#[local] Hint Resolve install_for_child_ty : typing.

Lemma ssh_run_ty sock av : sock_ok sock -> argv_ok av -> ty any (ssh_run sock av).
Proof.
  intros Hs Ha. pose proof (run_loop_ty fuel sock av Hs Ha). unfold ssh_run, set_exit_sig_handler. ty_auto.
Qed.

(** *** Arguments *)

Lemma slots_insert l i s : Forall slot_ok l -> slot_ok s -> Forall slot_ok (<[i := s]> l).
Proof. intros. by apply Forall_insert. Qed.

Lemma store_ty i s : slot_ok s -> ty any (store i s).
Proof.
  intros Hs. unfold store. ty_step. ty_step. ty_step. destruct a as [l|]; [|by ty_step].
  ty_step; [|by ty_step]. apply put_args_ty; [by apply slots_insert|done].
Qed.

Lemma alloc_ty what n : ty any (alloc what n).
Proof. unfold alloc, alloc_fail. ty_auto. Qed.

Lemma reserve_ty : ty any reserve.
Proof.
  pose proof alloc_ty. unfold reserve. ty_step. ty_step. ty_step. destruct a as [l|].
  - ty_step; [|by ty_step]. ty_step. apply put_args_ty; [|done]. simpl.
    apply Forall_app_2; [done|]. by apply Forall_replicate.
  - ty_step. apply put_args_ty; [by apply Forall_replicate|done].
Qed.

Lemma add_arg_ty s : ostring_ok s -> ty any (add_arg s).
Proof.
  intros Hs. unfold add_arg. destruct s as [[|c s]|]; [by ty_step| |by ty_step].
  pose proof (Hs _ eq_refl). ty_step; [apply reserve_ty|]. ty_step; [apply alloc_ty|]. ty_step.
  ty_step; [by apply store_ty|]. ty_step.
  { unfold incr_newac. ty_step. ty_step. ty_step. apply put_args_ty; [done|ty_side]. }
  ty_step. by apply store_ty.
Qed.

#[local] Hint Extern 1 (ty _ (add_arg _)) => apply add_arg_ty; solve [ty_side] : typing.

(** *** The environment *)

(** Past a rejecting guard its condition is false. *)
Lemma ty_guard {A} (T : A -> Prop) b m (k : M A) :
  (b = false -> ty T k) -> ty T (when b (xerrlog LOG_ERR m);; k).
Proof.
  intros Hk. destruct b; cbn [when].
  - eapply inv_bind; [apply (xerrlog_ty (fun _ => False)); ty_side|by intros ? []].
  - eapply (inv_bind _ _ any); [by apply inv_ret|]. intros. by apply Hk.
Qed.

Lemma drop_poll_ty what v x : v = poll_time \/ v = first_poll_time -> 0 < x -> ty any (drop_poll what v x).
Proof.
  intros Hv Hx. unfold drop_poll. ty_step. ty_step; [|by ty_step]. ty_step. apply wr_ty.
  destruct Hv as [->| ->]; cbn; unfold sat32; range.
Qed.

Lemma env_loglevel_ty : ty any env_loglevel.
Proof.
  unfold env_loglevel. ty_step. ty_step; [ty_auto|]. ty_step. ty_step; [|by ty_step].
  destruct (strtol _) as [v t]. apply ty_guard. intros G. apply wr_ty. cbn. rewrite wrap32_id; range.
Qed.

Lemma env_poll_ty : ty any env_poll.
Proof.
  unfold env_poll. ty_step. ty_step; [|by ty_step]. destruct (strtoul _) as [v t]. apply ty_guard. intros _.
  apply wr_ty, poll_of_range.
Qed.

Lemma env_first_poll_ty : ty any env_first_poll.
Proof.
  unfold env_first_poll. ty_step. ty_step; [|ty_auto]. destruct (strtoul _) as [v t]. apply ty_guard. intros _.
  apply wr_ty, poll_of_range.
Qed.

Lemma env_gatetime_ty : ty any env_gatetime.
Proof.
  unfold env_gatetime. ty_step. ty_step; [|by ty_step]. destruct (strtol _) as [v t]. apply ty_guard. intros G.
  apply wr_ty. split; [apply f64_of_Z_nonneg; by zify_bool|apply f64_of_Z_is_f64].
Qed.

Lemma env_maxlifetime_ty : ty any env_maxlifetime.
Proof.
  unfold env_maxlifetime. ty_step. ty_step; [|by ty_step].
  match goal with |- context [strtoul ?s] => pose proof (strtoul_range s) as R; destruct (strtoul s) as [v t] end.
  apply ty_guard. intros _. cbn [fst] in R.
  apply (inv_bind _ _ any); [apply wr_ty; split; [apply f64_of_Z_nonneg; lia|apply f64_of_Z_is_f64]|]. intros _ _.
  ty_step. ty_step; [apply wr_ty; split; [done|reflexivity]|]. zify_bool.
  apply (inv_bind _ _ any); [apply drop_poll_ty; auto|]. intros _ _.
  apply (inv_bind _ _ any); [apply drop_poll_ty; auto|]. intros _ _. ty_auto.
Qed.

Lemma env_maxsession_ty : ty any env_maxsession.
Proof.
  unfold env_maxsession. ty_step. ty_step; [|by ty_step].
  match goal with |- context [strtoul ?s] => pose proof (strtoul_range s) as R; destruct (strtoul s) as [v t] end.
  apply ty_guard. intros _. cbn [fst] in R. apply wr_ty. split; [apply f64_of_Z_nonneg; lia|apply f64_of_Z_is_f64].
Qed.

#[local] Hint Resolve env_loglevel_ty env_poll_ty env_first_poll_ty env_gatetime_ty env_maxlifetime_ty
  env_maxsession_ty : typing.

Lemma get_env_args_ty : ty any get_env_args.
Proof.
  unfold get_env_args, env_path, env_maxstart, env_message, env_portvar, env_pidfile, env_logfile. ty_auto.
Qed.

(** *** The command line *)

Context {G : Getopt}.

Lemma eprint_all_ty l : ty any (eprint_all l).
Proof. induction l as [|x l IH]; cbn [eprint_all]; ty_auto. Qed.

Lemma usage_ty {A} (T : A -> Prop) code : ty T (usage code).
Proof. pose proof eprint_all_ty. unfold usage. ty_auto. Qed.

#[local] Hint Extern 1 (ty _ (usage _)) => apply usage_ty : typing.

Lemma deref_ok mem p : argv_ok mem -> nul_free (deref mem p) = true.
Proof. intros Hm. unfold deref. apply nul_free_drop, nul_free_nth, Hm. Qed.

Lemma option_loop_ty mem opts port d : argv_ok mem -> ty any (option_loop mem opts port d).
Proof.
  intros Hm. revert port d. induction opts as [|[ch arg] r IH]; intros port d; cbn [option_loop]; [by ty_step|].
  ty_step.
  - ty_step. destruct a; [done|]. ty_step; [|done]. apply wrs_ty.
    destruct arg as [q|]; [|done]. intros s [= <-]. split; [by apply deref_ok|done].
  - ty_auto.
Qed.

Lemma cut_at_colon_ty mem port s : argv_ok mem -> nul_free s = true -> ty argv_ok (cut_at_colon mem port s).
Proof.
  intros Hm Hs. unfold cut_at_colon. ty_step. destruct a as [e|]; [ty_auto|].
  destruct port as [[id off]|]; [|by apply inv_ret]. apply inv_ret, Forall_insert; [done|].
  by apply nul_free_take, nul_free_nth.
Qed.

Lemma split_echo_ty mem port : argv_ok mem -> ty (fun me => argv_ok me.1) (split_echo mem port).
Proof.
  intros Hm. unfold split_echo. ty_step. assert (nul_free (default [] a) = true) as Hs by text_ok.
  destruct (strchr (default [] a) ":"%char) as [[|c e]|] eqn:E; [by ty_step| |by ty_step].
  assert (nul_free e = true) as He by (eapply nul_free_cons, strchr_nul_free; eauto).
  eapply inv_bind; [apply cut_at_colon_ty; [done|by apply nul_free_take]|]. intros mem' Hm'. ty_auto.
Qed.

Lemma forward_ty p q : ty (fun s => nul_free s = true) (forward p q).
Proof. unfold forward. ty_auto. Qed.

#[local] Hint Resolve forward_ty : typing.

Lemma readp_port p : 2 <= p <= 65535 -> string_ok readp (show_Z p).
Proof. intros Hp. split; [apply show_Z_nul_free|]. eauto. Qed.

Lemma ports_ty ep : ty (fun f => nul_free f.1.2 = true /\ nul_free f.2 = true) (ports ep).
Proof.
  unfold ports. ty_step. destruct (strtoul (default [] a)) as [v t]. ty_step; [ty_auto|].
  ty_step. { ty_step. ty_step; [by apply wrs_ty|by ty_step]. }
  ty_step; [ty_auto|].
  ty_step; [apply wrs_ty; intros s [= <-]; apply readp_port; zify_bool; lia|]. ty_auto.
Qed.

Lemma adjust_timeout_ty : ty any adjust_timeout.
Proof.
  unfold adjust_timeout. ty_step. ty_step.
  assert (is_i32 (Z.quot (wrap32 (a * 1000)) 2)) by (apply i32_quot; [apply wrap32_range|lia]). ty_auto.
Qed.

Lemma add_forwards_ty wm rm : nul_free wm = true -> nul_free rm = true -> ty any (add_forwards wm rm).
Proof.
  intros Hw Hr. assert (forall s, nul_free s = true -> ty any (add_arg (Some s))) as K.
  { intros s Hs. apply add_arg_ty. by intros t [= <-]. }
  pose proof (K wm Hw). pose proof (K rm Hr). pose proof (K (lit "-L") eq_refl). pose proof (K (lit "-R") eq_refl).
  unfold add_forwards. ty_auto.
Qed.

Lemma strip_and_add_ty port id s : ty any (strip_and_add port id s).
Proof.
  unfold strip_and_add. destruct (strip_arg _ _ _) as [buf|]; [|by ty_step]. ty_step.
  - unfold repoint. do 2 ty_step. destruct a, a0; ty_auto.
  - apply add_arg_ty. intros t [= <-]. apply c_str_nul_free.
Qed.

Lemma arg_loop_ty mem port ids wpt wm rm saw dn :
  nul_free wm = true -> nul_free rm = true -> ty any (arg_loop mem port ids wpt wm rm saw dn).
Proof.
  intros Hw Hr. pose proof (add_forwards_ty wm rm Hw Hr). pose proof strip_and_add_ty.
  revert ids saw dn. fix IH 1. intros [|id ids] saw dn; cbn [arg_loop]; [by ty_step|].
  ty_step; [apply IH|]. ty_step. ty_step; [ty_step; ty_step; apply IH|]. ty_step.
  - ty_step; [ty_auto|]. ty_step; [|apply IH]. destruct ids as [|i ids]; [by ty_step|apply IH].
  - ty_step. apply IH.
Qed.

Lemma listen_socket_ty : ty sock_ok listen_socket.
Proof. unfold listen_socket. do 2 ty_step. destruct a, a0; ty_auto. Qed.

Lemma write_pid_file_ty : ty any write_pid_file.
Proof.
  unfold write_pid_file. ty_step. destruct a as [n|]; [|by ty_step]. pose proof (H0 n eq_refl). ty_step.
  apply ty_guard. intros F. ty_auto.
Qed.

Lemma prepare_ty argv : argv_ok argv -> ty sock_ok (prepare argv).
Proof.
  intros Ha. unfold prepare, daemonize, set_mhost.
  eapply inv_bind; [by apply option_loop_ty|]. intros o _. apply (inv_bind _ _ _ _ _ _ (rds_ostring env_port)). intros e He.
  ty_step. { ty_step; [|by ty_step]. destruct e as [s|]; [ty_auto|done]. }
  ty_step. ty_step; [ty_auto|]. ty_step. ty_step; [ty_auto|].
  eapply inv_bind; [by apply split_echo_ty|]. intros me Hme. ty_step; [ty_auto|].
  eapply inv_bind; [apply ports_ty|]. intros f [Hf1 Hf2]. pose proof adjust_timeout_ty. ty_step.
  ty_step. ty_step. ty_step; [by apply arg_loop_ty|]. ty_step; [ty_auto|].
  eapply inv_bind; [apply listen_socket_ty|]. intros sock Hs. ty_step; [apply write_pid_file_ty|]. by ty_step.
Qed.

Lemma argv_of_ok l : Forall slot_ok l -> argv_ok (argv_of l).
Proof. induction 1 as [|[]]; simpl; constructor; auto. Qed.

Lemma autossh_main_ty argv : argv_ok argv -> ty is_i32 (autossh_main argv).
Proof.
  intros Ha. pose proof get_env_args_ty. unfold autossh_main. ty_step.
  eapply inv_bind; [by apply prepare_ty|]. intros sock Hs.
  apply (inv_bind _ _ argv_ok). { intros w Hw. hnf. split; [apply argv_of_ok, Hw|done]. }
  intros av Hav. ty_step; [by apply ssh_run_ty|]. unfold wind_up. ty_step; [ty_auto|]. ty_step. ty_step; [ty_auto|].
  ty_step. by destruct (_ =? _); apply i32_const.
Qed.

Lemma main_ty {A} (T : A -> Prop) argv : ty T (main argv).
Proof.
  unfold main. destruct (forallb nul_free argv) eqn:E; [|by ty_step].
  eapply inv_bind; [apply autossh_main_ty; apply List.Forall_forall; by rewrite forallb_forall in E|].
  intros rc _. ty_step; [|by ty_step]. intros w Hw. unfold run_atexit, wp.
  destruct (existsb _ _); [by apply unlink_pid_file_ty|done].
Qed.

End Components.

(** ** Properties *)

(** C12: Whatever the command line, the environment (of C strings), the
    signals and a host that keeps the promises of [reply_ok] do, [main]
    never returns, and at every point where it can end its statics are in
    their ranges (flags 0 or 1, the log level one of syslog's, poll times
    positive, gate time, lifetime and session limit not negative, [cchild]
    0 or a process id, [readp] the text of a port from 2 to 65535) and
    every system call made was given sensible arguments: kill(2) a positive
    pid, never a group, with SIGTERM or SIGKILL; waitpid always WNOHANG;
    reads, writes, polls and closes a descriptor that is not negative; a
    sleep of at least a second; a stream that is open; strings without
    NUL. *)
Theorem main_well_formed {H : Host} {TH : PosixHost H} {G : Getopt} argv e :
  (forall k s, e !! k = Some s -> nul_free s = true) ->
  wp (main argv : M Empty_set) (fun _ _ => False) (fun _ w' => typed w') (init_world e).
Proof.
  intros He. eapply wp_mono; [apply (main_ty (fun _ => False) argv)| |done]; [|by intros ? ? []].
  split; cbn; auto.
  - intros []; cbn; unfold flag; try range; auto; try (split; [range|reflexivity]); vm_compute; split; discriminate.
  - intros [] s; cbn; intros [= <-]; split; auto; done.
  - by apply i32_const.
Qed.

(** ** Witness *)

(** A scripted host on which the process has a parent. *)
Definition posix_host (q : syscall -> list reply) : Host := {|
  kernel h c := match c with Sys_getppid => ret_reply 1000 | _ => @kernel (mock_host q) h c end;
  strerror _ := None;
  gai_strerror _ := None;
  SO_BYTES := lit "ELF";
  fuel := 50
|}.

Lemma posix_host_ok q : (forall c, Forall (reply_ok c) (q c)) -> PosixHost (posix_host q).
Proof.
  intros Hq. split. intros h c.
  assert (c <> Sys_getppid -> reply_ok c (@kernel (mock_host q) h c)) as K.
  { intros N. cbn. set (n := List.length _). destruct (nth_in_or_default n (q c) ok_reply) as [K| ->].
    - specialize (Hq c). rewrite List.Forall_forall in Hq. auto.
    - destruct c; cbn; auto; try range; try (intros _; split; range). all: try done; vm_compute; split; discriminate. }
  destruct c; try (by apply K). cbn. range.
Qed.

(** ssh ignores SIGTERM when the supervisor is told to exit. *)
Definition stubborn_replies : syscall -> list reply := at_time t0 (fun c =>
  match c with
  | Sys_pipe => [Reply 0 0 5 6 [] []]
  | Sys_fork => [ret_reply 777]
  | Sys_ppoll _ _ => [sig_reply SIGTERM]
  | Sys_waitpid _ _ => [ok_reply; ok_reply; ok_reply; wait_reply 777 9]
  | _ => []
  end).

Lemma main_well_formed_witness :
  let r := @main (posix_host stubborn_replies) typical_getopt Empty_set typical_line (init_world ∅) in
  result r = inr (Exited 1) /\ kill_calls (trace r.2) = [(777, SIGKILL); (777, SIGTERM)] /\
  wp (@main (posix_host stubborn_replies) typical_getopt Empty_set typical_line) (fun _ _ => False)
    (fun _ w' => typed w') (init_world ∅).
Proof.
  split; [vm_compute; reflexivity|]. split; [vm_compute; reflexivity|].
  assert (PosixHost (posix_host stubborn_replies)) as TH.
  { apply posix_host_ok. intros []; cbn; repeat constructor; try range; vm_compute; discriminate. }
  apply (@main_well_formed (posix_host stubborn_replies) TH typical_getopt typical_line ∅).
  intros k s. by rewrite lookup_empty.
Defined.
