(* ===== verification/Lifecycle.v ===== *)
(** * The life of an ssh child

    An abstract specification of how the supervisor may treat its ssh
    children: an automaton over the history of system calls that allows a
    wait only for the child that was forked, SIGTERM only to a running
    child and once, SIGKILL only after SIGTERM and two waits that did not
    find the child gone, and a fork only when no child is left, or when the
    one that is left was sent SIGKILL and two more waits did not find it
    gone: such a child, in an uninterruptible state, is given up and may
    still be alive.  The program refines the automaton: the history of
    every run of [main] is accepted. *)

From Stdlib Require Import Ascii String.
From stdpp Require Import base option list strings gmap functions.
From S2P Require Import Prelude CNum Machine Signals Trace Log Kill Stderr Timing Wait Preload Conn Watch Run Args Env MainLogic Steady.

(** ** The automaton *)

(** No child; a running child; one that was sent SIGTERM, and one that was
    sent SIGKILL, each with the number of waits since that did not find it
    gone; and the forked process itself. *)
Inductive proc := Idle | Running (p : Z) | Asked (p : Z) (polls : nat) | Doomed (p : Z) (polls : nat) | InChild.

#[global] Instance proc_eq_dec : EqDecision proc.
Proof. solve_decision. Defined.

Definition child_of (s : proc) : option Z :=
  match s with Running p | Asked p _ | Doomed p _ => Some p | Idle | InChild => None end.

(** The waits a child is granted after each of the two signals. *)
Definition GRACE : nat := 2.

(** No child, or one that did not go away within the grace period after
    SIGKILL: it is given up, and a fork may follow. *)
Definition settled (s : proc) : bool :=
  match s with Idle => true | Doomed _ n => (GRACE <=? n)%nat | _ => false end.

Definition proc_fork (r : reply) (s : proc) : option proc :=
  if settled s
  then Some (if 0 <? r_ret r then Running (r_ret r) else if r_ret r =? 0 then InChild else Idle)
  else None.

(** One more wait that did not find the child gone. *)
Definition still_there (s : proc) : proc :=
  match s with Asked p n => Asked p (S n) | Doomed p n => Doomed p (S n) | _ => s end.

Definition proc_wait (p : Z) (r : reply) (s : proc) : option proc :=
  if bool_decide (child_of s = Some p) then Some (if gone r then Idle else still_there s) else None.

Definition proc_kill (p g : Z) (s : proc) : option proc :=
  match s with
  | Running q => if (p =? q) && (g =? SIGTERM) then Some (Asked q 0) else None
  | Asked q n => if (p =? q) && (g =? SIGKILL) && (GRACE <=? n)%nat then Some (Doomed q 0) else None
  | InChild => if g =? SIGTERM then Some InChild else None
  | _ => None
  end.

Definition proc_step (e : event) (s : proc) : option proc :=
  match e with
  | (Sys_fork, r) => proc_fork r s
  | (Sys_waitpid p _, r) => proc_wait p r s
  | (Sys_kill p g, _) => proc_kill p g s
  | _ => Some s
  end.

(** The state after a history (latest event first); [None] if some event
    was not allowed. *)
Fixpoint proc_run (t : list event) : option proc :=
  match t with
  | [] => Some Idle
  | e :: t' => proc_run t' ≫= proc_step e
  end.

Definition accepted (t : list event) : Prop := proc_run t <> None.

(** What the operating system promises: a wait for a child that has not
    been reaped fails only when it is interrupted, and reports (without
    [WUNTRACED]) only children that exited or were killed; fork answers -1,
    0 or a process id. *)
Class WaitHost (H : Host) := {
  wait_law : forall h p o, (proc_run h ≫= child_of) = Some p ->
    let r := kernel h (Sys_waitpid p o) in
    (r_ret r < 0 -> r_errno r = EINTR) /\
    (0 < r_ret r -> WIFSIGNALED (r_aux r) || WIFEXITED (r_aux r) = true);
  fork_law : forall h, -1 <= r_ret (kernel h Sys_fork)
}.

(** ** How [cchild] follows the automaton *)

(** The child [c] is running. *)
Record hold (c : Z) (w : world) : Prop := Hold {
  hold_jump : ints w dolongjmp = 0;
  hold_child : ints w cchild = c;
  hold_pid : c <> 0;
  hold_proc : proc_run (trace w) = Some (Running c)
}.

(** No child, or one given up, whatever [cchild] says. *)
Record rest (w : world) : Prop := Rest {
  rest_jump : ints w dolongjmp = 0;
  rest_proc : exists s, proc_run (trace w) = Some s /\ settled s = true
}.

(** No child, or one given up, and [cchild] is 0. *)
Definition free (w : world) : Prop := rest w /\ ints w cchild = 0.

Definition bound (w : world) : Prop := free w \/ exists c, hold c w.

(** However the process ends. *)
Definition ended (s : stop) (w : world) : Prop := calm s /\ accepted (trace w).

(** Forks, waits and kills, and [cchild], are what these invariants depend
    on. *)
Definition life : discipline := {|
  inert c := negb (changes_live c);
  watched_vars := [cchild];
  stop_ok := ended
|}.

Lemma proc_inert w w' : calls (inert life) w w' -> proc_run (trace w') = proc_run (trace w).
Proof.
  intros (t & -> & F). induction t as [|[c r] t IH]; [done|]. simpl in F. apply andb_prop in F as [Hc F].
  simpl. rewrite IH by done. destruct (proc_run (trace w)); [|done]. by destruct c.
Qed.

(** An invariant of [dolongjmp], [cchild] and the automaton. *)
Lemma life_steady (I : world -> Prop) :
  (forall w, I w -> ints w dolongjmp = 0 /\ accepted (trace w)) ->
  (forall w w', I w -> ints w' dolongjmp = 0 -> ints w' cchild = ints w cchild ->
     proc_run (trace w') = proc_run (trace w) -> I w') ->
  Steady life I.
Proof.
  intros HS HK. split.
  - intros w Hw. by apply HS.
  - intros w w' Hw D C T. apply (HK w); [done|done| |by apply proc_inert]. by apply Forall_inv in C.
  - intros s w w' Hw T C. split; [done|]. unfold accepted. rewrite (proc_inert _ _ T). by apply HS.
Qed.

#[global] Instance hold_steady c : Steady life (hold c).
Proof.
  apply life_steady.
  - intros w [D C N P]. split; [done|]. unfold accepted. by rewrite P.
  - intros w w' [D0 C0 N0 P0] D C P. split; [done|congruence|done|congruence].
Qed.

#[global] Instance rest_steady : Steady life rest.
Proof.
  apply life_steady.
  - intros w [D (s & P & _)]. split; [done|]. unfold accepted. by rewrite P.
  - intros w w' [_ (s & P & S)] D C E. split; [done|]. exists s. by rewrite E.
Qed.

#[global] Instance free_steady : Steady life free.
Proof.
  apply life_steady.
  - intros w [[D (s & P & _)] _]. split; [done|]. unfold accepted. by rewrite P.
  - intros w w' [[_ (s & P & S)] Z] D C E. split; [|congruence]. split; [done|]. exists s. by rewrite E.
Qed.

#[global] Instance bound_steady : Steady life bound.
Proof.
  split.
  - intros w [F|[c K]]; [by apply (steady_calm (D := life) (I := free))|by apply (steady_calm (D := life) (I := hold c))].
  - intros w w' [F|[c K]] D C T; [left|right; exists c]; by eapply (steady_keep (D := life)).
  - intros s w w' [F|[c K]] T C; [by eapply (steady_stop (D := life) (I := free))|].
    by eapply (steady_stop (D := life) (I := hold c)).
Qed.

Notation fin := (stop_ok life).
Notation law I := (inv I fin any).

(** ** Killing *)

Section Killing.
Context {H : Host}.

(** A child that was sent a signal and is waited for. *)
Record dying (s : proc) (c : Z) (w : world) : Prop := Dying {
  dying_jump : ints w dolongjmp = 0;
  dying_child : ints w cchild = c;
  dying_proc : proc_run (trace w) = Some s
}.

#[global] Instance dying_steady s c : Steady life (dying s c).
Proof.
  apply life_steady.
  - intros w [D C P]. split; [done|]. unfold accepted. by rewrite P.
  - intros w w' [D0 C0 P0] D C P. split; congruence.
Qed.

(** A call the automaton answers with [s']. *)
Lemma wp_event c s s' (Q : reply -> world -> Prop) w :
  ints w dolongjmp = 0 -> proc_run (trace w) = Some s -> proc_step (c, answer w c) s = Some s' ->
  (forall w', dying s' (ints w cchild) w' -> trace w' = (c, answer w c) :: trace w ->
     eff [] (is_call c) w w' -> Q (answer w c) w') ->
  wp (sys c) Q fin w.
Proof.
  intros D P S HQ.
  assert (forall w', trace w' = (c, answer w c) :: trace w -> proc_run (trace w') = Some s') as K.
  { intros w' T. rewrite T. cbn [proc_run]. by rewrite P. }
  apply wp_sys.
  - intros w' T E. apply HQ; [|done|done]. split; [by apply E|by apply E|by apply K].
  - intros s0 w' T E. split; [by eapply eff_stop_calm|]. unfold accepted. by rewrite (K w' T).
Qed.

Lemma bound_idle w : dying Idle 0 w -> bound w.
Proof. intros [D C P]. left. split; [|done]. split; [done|]. by exists Idle. Qed.

Lemma reap_law n a s c w :
  dying s c w -> child_of s = Some c ->
  wp (reap_loop n a) (fun b w' => if b then dying Idle 0 w' else dying (Nat.iter n still_there s) c w') fin w.
Proof.
  revert s w. induction n as [|n IH]; intros s w K Sc; cbn [reap_loop]; [by wp_step|].
  wp_step. wp_step. wp_step. rewrite (dying_child _ _ _ K). set (r := answer w (Sys_waitpid c WNOHANG)).
  eapply (wp_event _ s (if gone r then Idle else still_there s)); [apply K|apply K| |].
  { cbn [proc_step]. unfold proc_wait. by rewrite bool_decide_true. }
  fold r. rewrite (dying_child _ _ _ K). intros w1 K1 _ _.
  assert (gone r = true -> wp (wr cchild 0;; mret true)
    (fun b w' => if b then dying Idle 0 w' else dying (Nat.iter (S n) still_there s) c w') fin w1) as Reaped.
  { intros G. rewrite G in K1. destruct K1 as [D1 C1 P1]. do 3 wp_step. split; by frame. }
  assert (gone r = false -> wp (sys (Sys_sleep 1);; reap_loop n a)
    (fun b w' => if b then dying Idle 0 w' else dying (Nat.iter (S n) still_there s) c w') fin w1) as Again.
  { intros G. rewrite G in K1. wp_step. eapply (wp_steady_sys life (dying (still_there s) c)); [done|done|done|].
    intros w2 K2 _ _. rewrite Nat.iter_succ_r. apply IH; [done|]. by destruct s. }
  unfold gone in *. destruct (0 <? r_ret r); [by apply Reaped|]. destruct (r_ret r <? 0); cbn [andb orb] in *;
    [|by apply Again].
  destruct (r_errno r =? ECHILD) eqn:E1.
  { apply Reaped. zify_bool. by rewrite E1. }
  destruct (r_errno r =? EINTR); cbn [negb] in *; [by apply Again|].
  wp_step. steady K1 errlog_eff. intros _ w2 [D2 C2 P2] _. do 3 wp_step. split; by frame.
Qed.

Lemma escalate_law c w : dying (Asked c GRACE) c w -> wp escalate (fun _ => bound) fin w.
Proof.
  intros K. unfold escalate. wp_step. wp_step. wp_step.
  steady K errlog_eff. intros _ w1 K1 _.
  wp_step. wp_step. wp_step. rewrite (dying_child _ _ _ K1).
  eapply (wp_event _ (Asked c GRACE) (Doomed c 0)); [apply K1|apply K1| |].
  { cbn [proc_step]. unfold proc_kill. by rewrite !Z.eqb_refl. }
  rewrite (dying_child _ _ _ K1). intros w2 K2 _ _. wp_step.
  eapply wp_mono; [by apply (reap_law _ _ (Doomed c 0) c)| |done]. cbv beta. intros [] w3 K3.
  { wp_step. by apply bound_idle. }
  wp_step. wp_step. wp_step.
  steady K3 errlog_eff. intros _ w4 [D4 C4 P4] _.
  wp_step. left. split; [|by frame]. split; [by frame|]. by exists (Doomed c 2).
Qed.

(** [ssh_kill] signals the child only while it is running, in the order
    of the automaton, and leaves none behind. *)
Lemma ssh_kill_law w : bound w -> wp ssh_kill (fun _ w' => bound w' /\ ints w' cchild = 0) fin w.
Proof.
  intros B. assert (forall w', dying Idle 0 w' -> bound w' /\ ints w' cchild = 0) as Out.
  { intros w' K. split; [by apply bound_idle|apply K]. }
  unfold ssh_kill. wp_step.
  steady B close_eff. intros _ w1 B1 _.
  wp_step. wp_step. wp_step. { wp_step. split; [done|by zify_bool]. }
  zify_bool. destruct B1 as [[_ Z]|[c K]]; [done|]. rewrite (hold_child _ _ K). wp_step.
  eapply (wp_event _ (Running c) (Asked c 0)); [apply K|apply K| |].
  { cbn [proc_step]. unfold proc_kill. by rewrite !Z.eqb_refl. }
  rewrite (hold_child _ _ K). intros w2 K2 _ _. wp_step.
  eapply wp_mono; [by apply (reap_law _ _ (Asked c 0) c)| |done]. cbv beta. intros [] w3 K3.
  { wp_step. by apply Out. }
  eapply wp_mono; [apply wp_and; [by apply (escalate_law c)|apply escalate_ok]| |by intros s w' []].
  cbv beta. by intros _ w' [? [? _]].
Qed.

Lemma unlink_pid_file_inert :
  spec (eff [pid_file_created] (fun c => match c with Sys_unlink _ => true | _ => false end))
    (eff_stop [pid_file_created] (fun c => match c with Sys_unlink _ => true | _ => false end) by_signal)
    unlink_pid_file.
Proof. unfold unlink_pid_file. spec_auto. Qed.

(** A fatal error, with a running child or with none. *)
Lemma xerrlog_law {A} l m (Q : A -> world -> Prop) w : bound w -> wp (xerrlog l m) Q fin w.
Proof.
  intros B. unfold xerrlog, xerrlog_str. do 2 wp_step.
  steady B errlog_str_eff. intros _ w1 B1 _.
  wp_step. eapply wp_mono; [by apply ssh_kill_law| |done]. cbv beta. intros _ w2 [B2 _]. wp_step.
  steady B2 unlink_pid_file_inert. intros _ w3 B3 _.
  wp_step. by apply (stop_here _ _ _ _ B3).
Qed.

Lemma law_xerrlog {A} (I : world -> Prop) l m : (forall w, I w -> bound w) -> law I (xerrlog (A := A) l m).
Proof. intros HI w Hw. by apply xerrlog_law, HI. Qed.

Lemma hold_bound c w : hold c w -> bound w.
Proof. intros K. right. by exists c. Qed.

End Killing.

#[export] Hint Extern 1 (inv free fin _ (xerrlog _ _)) => apply law_xerrlog; exact (fun _ b => or_introl b) : steady.
#[export] Hint Extern 1 (inv (hold _) fin _ (xerrlog _ _)) => apply law_xerrlog; apply hold_bound : steady.

(** ** Everything but the watch and the restart loop *)

Section Startup.
Context {H : Host} {G : Getopt}.

Lemma get_env_args_law : law free get_env_args.
Proof.
  unfold get_env_args, env_path, env_loglevel, env_poll, env_first_poll, env_gatetime, env_maxstart, env_message,
    env_portvar, env_maxlifetime, env_maxsession, env_pidfile, env_logfile, drop_poll. law_auto.
Qed.

Lemma add_arg_law s : law free (add_arg s).
Proof. unfold add_arg, reserve, alloc, alloc_fail, store, incr_newac. law_auto. Qed.

#[local] Hint Resolve add_arg_law : steady.

Lemma add_forwards_law wm rm : law free (add_forwards wm rm).
Proof. unfold add_forwards. law_auto. Qed.

Lemma strip_and_add_law port id s : law free (strip_and_add port id s).
Proof.
  unfold strip_and_add, repoint. destruct (strip_arg _ _ _); [|law_auto]. law_step; [|law_auto].
  do 2 (law_step; [law_auto|]). destruct a, a0; law_auto.
Qed.

#[local] Hint Resolve add_forwards_law strip_and_add_law : steady.

Lemma arg_loop_law mem port ids wp wm rm saw dn : law free (arg_loop mem port ids wp wm rm saw dn).
Proof.
  revert ids saw dn. fix IH 1. intros [|id ids] saw dn; cbn [arg_loop]; [by law_step|].
  law_step; [apply IH|]. law_step; [law_auto|]. law_step.
  { law_step; [law_auto|]. law_step; [law_auto|]. apply IH. }
  law_step.
  - law_step; [law_auto|]. law_step; [|apply IH]. destruct ids as [|i ids]; [by law_step|apply IH].
  - law_step; [law_auto|]. apply IH.
Qed.

Lemma usage_law {A} code : law free (usage (A := A) code).
Proof.
  assert (forall l, law free (eprint_all l)) by (intros l; induction l; cbn [eprint_all]; law_auto).
  unfold usage. law_auto.
Qed.

#[local] Hint Extern 1 (inv free fin _ (usage _)) => apply usage_law : steady.

Lemma option_loop_law mem opts p d : law free (option_loop mem opts p d).
Proof.
  revert p d. induction opts as [|[ch arg] r IH]; intros p d; cbn [option_loop]; law_auto.
Qed.

Lemma listen_socket_law : law free listen_socket.
Proof.
  unfold listen_socket, conn_listen, conn_addr. do 2 (law_step; [law_auto|]). destruct a, a0; law_auto.
Qed.

Lemma prepare_law argv : law free (prepare argv).
Proof.
  pose proof listen_socket_law. pose proof option_loop_law. pose proof arg_loop_law.
  unfold prepare, split_echo, cut_at_colon, set_mhost, ports, forward, adjust_timeout, daemonize, write_pid_file.
  law_auto.
Qed.

Lemma install_for_child_law : law free install_for_child.
Proof.
  assert (forall n fd k, law free (write_so n fd k)).
  { induction n as [|n IH]; intros; cbn [write_so]; law_auto. }
  unfold install_for_child, path, extract_once, putenv_preload. law_auto.
Qed.

(** *** The network monitor, with the child running *)

Section Monitor.
Variable c : Z.

Lemma write_loop_law n fd s : law (hold c) (write_loop n fd s).
Proof. revert s. induction n as [|n IH]; intros s; cbn [write_loop]; law_auto. Qed.

Lemma read_loop_law n fd s : law (hold c) (read_loop n fd s).
Proof. revert s. induction n as [|n IH]; intros s; cbn [read_loop]; law_auto. Qed.

#[local] Hint Resolve write_loop_law read_loop_law : steady.

Lemma io_loop_law n loops fd0 fd1 two s : law (hold c) (io_loop n loops fd0 fd1 two s).
Proof.
  revert loops s. induction n as [|n IH]; intros loops s; cbn [io_loop]; unfold send_half, receive_half; law_auto.
Qed.

Lemma one_try_law sock wd node id rd0 : law (hold c) (one_try sock wd node id rd0).
Proof.
  assert (forall msg fd0 fd1 ev two, law (hold c) (conn_send_and_receive msg fd0 fd1 ev two)).
  { intros. apply io_loop_law. }
  unfold one_try, shutdown_close, conn_poll_for_accept. law_auto.
Qed.

Lemma conn_test_law sock h p : law (hold c) (conn_test sock h p).
Proof.
  assert (forall n tries wd node id rd0, law (hold c) (try_loop n tries sock wd node id rd0)).
  { pose proof one_try_law. induction n as [|n IH]; intros; cbn [try_loop]; law_auto. }
  unfold conn_test, conn_remote, conn_addr, shutdown_close. law_auto.
Qed.

End Monitor.

End Startup.

(** ** Watching *)

Section Watching.
Context {H : Host}.

(** What a round leaves: the child running, or none. *)
Definition round_ok (c : Z) (d : next) (w : world) : Prop :=
  match d with Again => hold c w | Return _ => rest w end.

Lemma ret_law c sm rc w : rest w -> wp (ret sm rc) (round_ok c) fin w.
Proof.
  intros R. unfold ret. wp_step. eapply (wp_law life rest); [law_auto|done|].
  intros _ w' R'. by wp_step.
Qed.

Lemma wp_kill c (Q : unit -> world -> Prop) w :
  hold c w -> (forall w', rest w' -> Q tt w') -> wp ssh_kill Q fin w.
Proof.
  intros K HQ. eapply wp_mono; [apply ssh_kill_law; by eapply hold_bound| |done]. cbv beta.
  intros [] w' [[[R _]|[c' K']] Z]; apply HQ; [done|]. destruct (hold_pid _ _ K'). by rewrite <- (hold_child _ _ K').
Qed.

Lemma kill_ret_law c sm rc w : hold c w -> wp (ssh_kill;; ret sm rc) (round_ok c) fin w.
Proof. intros K. wp_step. eapply wp_kill; [done|]. intros. by apply ret_law. Qed.

Lemma kill_and_restart_port_law c sm w : hold c w -> wp (kill_and_restart_port sm) (round_ok c) fin w.
Proof.
  intros K. unfold kill_and_restart_port. wp_step. eapply wp_kill; [done|]. intros w1 R1. wp_step.
  steady R1 errlog_eff. intros _ w2 R2 _. wp_step. eapply (wp_steady_sys life rest); [done|done|done|].
  intros w3 R3 _ _. by apply ret_law.
Qed.

Lemma log_kill_ret c sm lv m rc w :
  hold c w -> wp (errlog lv m;; ssh_kill;; ret sm rc) (round_ok c) fin w.
Proof. intros K. wp_step. steady K errlog_eff. intros _ w1 K1 _. by apply kill_ret_law. Qed.

(** A verdict on the child is given only once it has been reaped. *)
Lemma child_exit_law e : inv rest fin (fun rc => rc <> P_CONTINUE) (child_exit e).
Proof.
  assert (forall lv m rc, rc <> P_CONTINUE ->
    inv rest fin (fun rc => rc <> P_CONTINUE) (errlog lv m;; mret rc)) as K.
  { intros lv m rc N. apply (inv_bind _ _ any); [law_auto|]. intros _ _. by apply inv_ret. }
  unfold child_exit, dispatch_exit, log_exiting, log_restarting.
  do 3 (apply (inv_bind _ _ any); [law_auto|]; intros ? _). apply (inv_bind _ _ any); [law_auto|]. intros b _.
  repeat match goal with
         | |- inv _ _ _ (if ?x then _ else _) => destruct x
         | |- inv _ _ _ (errlog _ _;; _) => apply K; discriminate
         | |- inv _ _ _ (_ ≫= _) => apply (inv_bind _ _ any); [law_auto|]; intros ? _
         end.
Qed.

Lemma ssh_wait_law `{!WaitHost H} o c w :
  hold c w -> wp (ssh_wait o) (fun rc w' => if rc =? P_CONTINUE then hold c w' else rest w') fin w.
Proof.
  intros [D C N P]. unfold ssh_wait. wp_step. wp_step. rewrite C. wp_step.
  pose proof (wait_law (trace w) c o) as L. rewrite P in L. specialize (L eq_refl).
  fold (answer w (Sys_waitpid c o)) in L. set (r := answer w (Sys_waitpid c o)) in *. cbv zeta in L.
  destruct L as [L1 L2].
  eapply (wp_event _ (Running c) (if gone r then Idle else Running c)); [done|done| |].
  { cbn [proc_step]. unfold proc_wait. by rewrite bool_decide_true. }
  fold r. rewrite C. intros w1 [D1 C1 P1] _ _. unfold gone in P1. wp_step.
  { wp_step. zify_bool. replace (0 <? r_ret r) with false in P1 by lia.
    destruct (r_ret r <? 0) eqn:E; [|by split]. rewrite L1 in P1 by lia. by split. }
  zify_bool. replace (0 <? r_ret r) with true in P1 by lia.
  assert (rest w1) as R1 by (split; [done|by exists Idle]). specialize (L2 ltac:(lia)).
  wp_step. steady R1 check_ssh_stderr_eff. intros _ w2 R2 _. wp_step.
  { wp_step. steady R2 errlog_eff. intros _ w3 R3 _. by wp_step. }
  wp_step; [|done]. eapply wp_mono; [by apply child_exit_law| |done]. cbv beta. intros rc w3 [V R3].
  by rewrite (proj2 (Z.eqb_neq _ _) V).
Qed.

Lemma after_wait_law c sm p w :
  hold c w ->
  wp (bad ← (if has (r_aux p) POLLIN then check_ssh_stderr else mret 0);
      if negb (bad =? 0) then kill_and_restart_port sm else
      when (has (r_aux p) (Z.lor POLLHUP POLLERR) && negb (has (r_aux p) POLLIN)) stderr_closed;;
      mret Again) (round_ok c) fin w.
Proof.
  intros K. wp_step. eapply (wp_law life (hold c)); [|done|].
  { law_step; [law_callee check_ssh_stderr_eff|law_auto]. }
  intros bad w1 K1. wp_step; [by apply kill_and_restart_port_law|]. wp_step.
  eapply (wp_law life (hold c)); [law_step; law_callee stderr_closed_eff|done|]. intros _ w2 K2. by wp_step.
Qed.

Lemma try_branch_law `{!WaitHost H} c sm w :
  hold c w -> wpj life (try_branch sm) (round_ok c) (hold c) w.
Proof.
  intros K. unfold try_branch. wp_step. apply wpj_stop_ok; [by intros ? ? []|]. eapply wp_mono; [by apply ssh_wait_law| |done].
  cbv beta. intros rc w1 K1. destruct (rc =? P_CONTINUE); cbn [negb]; cycle 1.
  { apply wpj_stop_ok; [by intros ? ? []|]. by apply ret_law. }
  wp_step. eapply (arm_alarm_law life (hold c)); [done|by intros ? ? []|by intros []|done|done|]. intros w2 K2. wp_step. wp_step. wp_step.
  { apply wpj_stop_ok; [by intros ? ? []|]. do 2 wp_step. change (hold c (disarm w2)) in K2. by apply log_kill_ret. }
  wp_step. wp_step. wp_step.
  - unfold wait_with_stderr. wp_step. eapply (wpj_sys life (hold c)); [done|done|done|]. intros w3 K3. do 2 wp_step.
    apply wpj_stop_ok; [by intros ? ? []|]; apply after_wait_law. exact K3.
  - wp_step. eapply (wpj_sys life (hold c)); [done|done|done|]. intros w3 K3. do 3 wp_step. exact K3.
Qed.

Lemma alarm_case_law c sock sm w : hold c w -> wp (alarm_case sock sm) (round_ok c) fin w.
Proof.
  intros K. unfold alarm_case. wp_step. steady K exceeded_lifetime_eff. intros r w1 K1 _.
  wp_step; [by apply kill_ret_law|]. wp_step. steady K1 watchdog_eff. intros [msg|] w2 K2 _.
  { by apply log_kill_ret. }
  wp_step. steady K2 check_ssh_stderr_eff. intros bad w3 K3 _. wp_step; [by apply kill_and_restart_port_law|].
  wp_step. wp_step. destruct (strs w3 writep); [|by wp_step]. wp_step; [|by wp_step]. wp_step. wp_step. wp_step.
  eapply (wp_law life (hold c)); [apply conn_test_law|done|]. intros ok w4 K4.
  wp_step; [by apply log_kill_ret|by wp_step].
Qed.

Lemma watch_round_law `{!WaitHost H} c sock sm w : hold c w -> wp (watch_round sock sm) (round_ok c) fin w.
Proof.
  intros K. unfold watch_round. wp_step.
  eapply (wp_law life (hold c)); [law_auto|done|]. intros _ w1 K1.
  wp_step. wp_step. wp_step; [by apply log_kill_ret|]. wp_step. unfold sigsetjmp. hnf. apply wp_catch.
  eapply wp_mono; [apply (try_branch_law c)|done|]; [by destruct K1|]. intros [] w2 K2; try done.
  unfold catch_branch. wp_step. eapply (wp_law life (hold c)); [law_auto|done|].
  intros _ w3 K3. wp_step; [by apply log_kill_ret|]. wp_step; [by apply alarm_case_law|by wp_step].
Qed.

Lemma ssh_watch_law `{!WaitHost H} c sock w : hold c w -> wp (ssh_watch sock) (fun _ => rest) fin w.
Proof.
  intros K. unfold ssh_watch. do 3 wp_step. eapply (wp_law life (hold c)); [|done|].
  { law_auto. }
  intros _ w1 K1. wp_step. eapply (wp_law life (hold c)); [law_auto|done|].
  intros sm w2 K2. clear K K1 w w1. revert w2 K2. generalize fuel.
  induction n as [|n IH]; intros w K; cbn [watch_loop].
  { wp_step. by apply (stop_here _ _ _ _ K). }
  wp_step. eapply wp_mono; [by apply (watch_round_law c)| |done]. intros [|rc] w1 K1; [by apply IH|by wp_step].
Qed.

End Watching.

(** ** Restarting *)

Section Restarting.
Context {H : Host} {WH : WaitHost H} {G : Getopt}.

(** The forked process: until the exec it may only tell its parent. *)
Lemma child_branch_law c p av w : dying InChild c w -> wp (child_branch p av) (fun _ => rest) fin w.
Proof.
  intros K. unfold child_branch. wp_step. eapply (wp_law life (dying InChild c)); [law_auto|done|]. intros _ w1 K1.
  wp_step. eapply (wp_steady_sys life (dying InChild c)); [done|done|done|]. intros w2 K2 _ _. wp_step.
  { wp_step. by apply (stop_here _ _ _ _ K2). }
  wp_step. eapply (wp_steady_sys life (dying InChild c)); [done|done|done|]. intros w3 K3 _ _.
  wp_step. eapply (wp_steady_sys life (dying InChild c)); [done|done|done|]. intros w4 K4 _ _.
  wp_step. eapply (wp_event _ InChild InChild); [apply K4|apply K4|done|]. intros w5 K5 _ _.
  wp_step. by apply (stop_here _ _ _ _ K5).
Qed.

Lemma fork_failed_law p e w : rest w -> wp (fork_failed p e) (fun _ => rest) fin w.
Proof.
  intros [D P]. unfold fork_failed, close_errno. do 2 wp_step.
  eapply (wp_law life free); [law_auto| |by intros _ w' [? _]]. split; [split|]; by frame.
Qed.

Lemma parent_branch_law c sock p w : hold c w -> wp (parent_branch sock p) (fun _ => rest) fin w.
Proof.
  intros K. unfold parent_branch. wp_step. steady K start_watch_eff. intros _ w1 K1 _. wp_step.
  eapply (wp_law life (hold c)); [unfold set_sig_handlers; law_auto|done|]. intros _ w2 K2. wp_step.
  eapply wp_mono; [by apply (ssh_watch_law c)| |done]. cbv beta. intros rc w3 R3. wp_step.
  assert (law rest close_ssh_stderr) by (law_callee close_eff).
  eapply (wp_law life rest); [unfold end_watch, unset_sig_handlers, clear_alarm_timer; law_auto|done|].
  intros _ w4 R4. by wp_step; wp_step.
Qed.

Lemma start_ssh_law sock av w : rest w -> wp (start_ssh sock av) (fun _ => rest) fin w.
Proof.
  intros R. unfold start_ssh. wp_step. steady R stderr_pipe_eff. intros p w1 R1 _. wp_step.
  destruct R1 as [D1 (s & P1 & S1)]. pose proof (fork_law (trace w1)) as L.
  fold (answer w1 Sys_fork) in L. set (r := answer w1 Sys_fork) in *.
  eapply (wp_event _ s); [done|exact P1|cbn [proc_step]; unfold proc_fork; by rewrite S1|]. fold r.
  intros w2 [D2 C2 P2] _ _. wp_step. wp_step. wp_step.
  { zify_bool. apply (child_branch_law 0). split; frame; [done|done|]. cbn [trace set_ints]. by rewrite P2, Heqb. }
  wp_step.
  { zify_bool. apply fork_failed_law. split; [by frame|]. exists Idle. cbn [trace set_ints]. by rewrite P2, Heqb0. }
  zify_bool. apply (parent_branch_law (r_ret r)). split; frame; [done|done|done|].
  cbn [trace set_ints]. rewrite P2.
  by replace (0 <? r_ret r) with true by lia.
Qed.

Lemma ssh_run_law sock av w : free w -> wp (ssh_run sock av) (fun _ => rest) fin w.
Proof.
  intros F. unfold ssh_run.
  do 3 (wp_step; apply (wp_steady_sys life free); [assumption|reflexivity|reflexivity|]; clear F; intros ? F _ _).
  wp_step. eapply (wp_law life free); [unfold set_exit_sig_handler; law_auto|done|]. clear F. intros _ w4 F.
  wp_step. eapply (wp_law life free); [apply install_for_child_law|done|]. clear F. intros _ w5 F.
  assert (forall n w, rest w -> wp (run_loop n sock av) (fun _ => rest) fin w) as Loop; [|apply Loop, F].
  clear - WH. induction n as [|n IH]; intros w R; cbn [run_loop].
  { wp_step. by apply (stop_here _ _ _ _ R). }
  do 4 wp_step. wp_step; cycle 1.
  { wp_step. steady R errlog_eff. intros _ w1 R1 _. by wp_step. }
  wp_step. eapply (wp_mono _ (fun _ => rest) _ fin); [|intros [|rc] w1 R1; [by apply IH|by wp_step]|done].
  unfold run_round. wp_step. steady R exceeded_lifetime_eff. intros x w1 R1 _. wp_step; [by wp_step|].
  wp_step. steady R1 prepare_start_eff. intros b w2 R2 _. destruct b; [by wp_step|by apply start_ssh_law].
Qed.

Lemma autossh_main_law argv w : free w -> wp (autossh_main argv) (fun _ => rest) fin w.
Proof.
  intros F. unfold autossh_main. wp_step. eapply (wp_law life free); [apply get_env_args_law|done|]. intros _ w1 F1.
  wp_step. eapply (wp_law life free); [apply prepare_law|done|]. intros sock w2 F2. wp_step. hnf. apply wp_bind.
  eapply wp_mono; [by apply ssh_run_law| |done]. cbv beta. intros rc w3 R3.
  eapply (wp_law life rest); [unfold wind_up, shutdown_close; law_auto|done|done].
Qed.

Lemma main_law {A} argv w : free w -> wp (main (A := A) argv) (fun _ _ => False) fin w.
Proof.
  intros F. unfold main. wp_step; cycle 1.
  { wp_step. by apply (stop_here _ _ _ _ F). }
  wp_step. eapply wp_mono; [by apply autossh_main_law| |done]. cbv beta. intros rc w1 R1. wp_step.
  assert (law rest run_atexit) as K.
  { assert (law rest unlink_pid_atexit) as U by (law_callee unlink_pid_file_inert).
    intros w' R'. unfold run_atexit, wp. destruct (existsb _ _); [by apply U|done]. }
  eapply (wp_law life rest); [exact K|done|]. intros _ w2 R2. wp_step.
  by apply (stop_here _ _ _ _ R2).
Qed.

End Restarting.

(** ** What acceptance means for the signals sent *)

(** [p] was the last process forked and no wait has found it gone since. *)
Definition own_child (p : Z) (t : list event) : Prop :=
  exists t2 r t1, t = t2 ++ (Sys_fork, r) :: t1 /\ r_ret r = p /\ 0 < p /\
    forallb (fun e => match e with
                      | (Sys_fork, _) => false
                      | (Sys_waitpid q _, r) => negb ((q =? p) && gone r)
                      | _ => true
                      end) t2 = true.

(** This process is the one a fork created. *)
Definition forked_here (t : list event) : Prop := exists r, In (Sys_fork, r) t /\ r_ret r = 0.

Lemma own_child_later p e t :
  own_child p t ->
  match e with (Sys_fork, _) => False | (Sys_waitpid q _, r) => gone r = false | _ => True end ->
  own_child p (e :: t).
Proof.
  intros (t2 & r & t1 & -> & R & P & F) He. exists (e :: t2), r, t1. split_and!; auto. simpl. rewrite F.
  destruct e as [[] re]; try done. by rewrite He, andb_false_r.
Qed.

Lemma proc_state t :
  match proc_run t with
  | Some InChild => forked_here t
  | Some s => forall p, child_of s = Some p -> own_child p t
  | None => True
  end.
Proof.
  induction t as [|[c r] t IH]; [done|]. cbn [proc_run]. destruct (proc_run t) as [s|]; [|done]. cbn [mbind option_bind].
  assert (forall p, own_child p t -> match c with Sys_fork | Sys_waitpid _ _ => False | _ => True end ->
    own_child p ((c, r) :: t)) as Same.
  { intros p U Hc. apply own_child_later; [done|]. by destruct c. }
  assert (forked_here t -> forked_here ((c, r) :: t)) as Here.
  { intros (r0 & ? & ?). exists r0. split; [by right|done]. }
  destruct c; cbn [proc_step]; try (destruct s; auto; fail).
  - unfold proc_kill. destruct s; try done.
    + repeat split_if; try done. intros q [= <-]. by apply Same; [apply IH|].
    + repeat split_if; try done. intros q [= <-]. by apply Same; [apply IH|].
    + split_if; [|done]. by apply Here.
  - unfold proc_wait. case_bool_decide as B; [|done]. destruct (gone r) eqn:Gr; [done|].
    destruct s; try done; (intros q [= <-]; apply own_child_later; [by apply IH|done]).
  - unfold proc_fork. destruct (settled s); [|done]. destruct (0 <? r_ret r) eqn:R.
    { intros q [= <-]. exists [], r, t. zify_bool. by split_and!. }
    destruct (r_ret r =? 0) eqn:Z; [|done]. exists r. zify_bool. split; [by left|done].
Qed.

Lemma accepted_before t1 e t0 : accepted (t1 ++ e :: t0) -> exists s, proc_run t0 = Some s /\ proc_step e s <> None.
Proof.
  unfold accepted. induction t1 as [|x t1 IH]; cbn [app proc_run]; intros A.
  - destruct (proc_run t0) as [s|]; [|done]. by exists s.
  - apply IH. by destruct (proc_run (t1 ++ e :: t0)).
Qed.

(** SIGKILL is sent only to a child that has been sent SIGTERM. *)
Lemma asked_before t p n : proc_run t = Some (Asked p n) -> exists r, In (Sys_kill p SIGTERM, r) t.
Proof.
  revert n. induction t as [|[c r] t IH]; intros n; [done|]. cbn [proc_run]. destruct (proc_run t) as [s|]; [|done].
  cbn [mbind option_bind].
  assert (forall m, s = Asked p m -> exists r0, In (Sys_kill p SIGTERM, r0) ((c, r) :: t)) as Old.
  { intros m ->. destruct (IH m eq_refl) as [r0 ?]. exists r0. by right. }
  destruct c; cbn [proc_step]; try (by intros [= ->]; eapply Old).
  - unfold proc_kill. destruct s; try done; repeat split_if; try done. intros [= <- _].
    zify_bool. subst. exists r. by left.
  - unfold proc_wait. case_bool_decide; [|done]. destruct (gone r); [done|].
    destruct s; simpl; try done. intros [= -> _]. by eapply Old.
  - unfold proc_fork. repeat split_if; done.
Qed.

(** A signal of an accepted history. *)
Definition aimed (p g : Z) (t : list event) : Prop :=
  (own_child p t /\ (g = SIGTERM \/ g = SIGKILL /\ exists r, In (Sys_kill p SIGTERM, r) t)) \/
  (forked_here t /\ g = SIGTERM).

Lemma accepted_aimed t1 p g r t0 : accepted (t1 ++ (Sys_kill p g, r) :: t0) -> aimed p g t0.
Proof.
  intros A. destruct (accepted_before _ _ _ A) as (s & P & S). pose proof (proc_state t0) as K. rewrite P in K.
  cbn [proc_step] in S. unfold proc_kill in S. destruct s as [|q|q m|q m|]; try done.
  - destruct ((p =? q) && (g =? SIGTERM)) eqn:E; [|done]. zify_bool. subst. left. split; [by apply K|by left].
  - destruct ((p =? q) && (g =? SIGKILL) && _) eqn:E; [|done]. zify_bool. subst. left. split; [by apply K|right].
    split; [done|]. by eapply asked_before.
  - destruct (g =? SIGTERM) eqn:E; [|done]. zify_bool. right. by split.
Qed.

(** ** Properties *)

Section LifecycleProperties.
Context {H : Host} {WH : WaitHost H} {G : Getopt}.

Lemma free_init e : free (init_world e).
Proof. split; [|done]. split; [done|]. by exists Idle. Qed.

(** C11: On a host that keeps the promises of fork and waitpid, the whole
    program refines the life-cycle automaton of its ssh child: the history
    of system calls of [main] is accepted however the process ends, and no
    jump escapes.  Each wait is for the child that was forked; SIGTERM goes
    to a running child, once; SIGKILL follows only when two waits after
    SIGTERM did not find it gone; and a fork happens only when no child is
    left, or when the one left (in an uninterruptible state, say) was sent
    SIGKILL and given two more waits in vain. *)
Theorem main_refines_lifecycle argv e :
  wp (main argv : M Empty_set) (fun _ _ => False) (fun s w' => calm s /\ accepted (trace w')) (init_world e).
Proof. apply main_law, free_init. Qed.

(** C13: On a host that keeps the promises of fork and waitpid (a wait for
    a child that was not reaped fails only when interrupted), no signal
    goes astray: every kill(2) of a run hits the process forked last,
    before any wait has found it gone, so its pid cannot have been given to
    another process; SIGKILL comes after a SIGTERM to the same pid.  The
    one exception is the forked process itself, which tells its parent when
    the exec failed. *)
Theorem signals_hit_own_child argv e :
  wp (main argv : M Empty_set) (fun _ _ => False)
    (fun _ w' => forall t1 p g r t0, trace w' = t1 ++ (Sys_kill p g, r) :: t0 -> aimed p g t0) (init_world e).
Proof.
  eapply wp_mono; [apply main_law, free_init|done|]. intros s w' [_ A] t1 p g r t0 T. rewrite T in A.
  by eapply accepted_aimed.
Qed.

End LifecycleProperties.

(** ** Witnesses *)

(** ssh ignores SIGTERM when the supervisor is told to exit. *)
Definition stubborn_host : Host := mock_host (at_time t0 (fun c =>
  match c with
  | Sys_pipe => [Reply 0 0 5 6 [] []]
  | Sys_fork => [ret_reply 777]
  | Sys_ppoll _ _ => [sig_reply SIGTERM]
  | Sys_waitpid _ _ => [ok_reply; ok_reply; ok_reply; wait_reply 777 9]
  | _ => []
  end)).

Lemma stubborn_waits : WaitHost stubborn_host.
Proof.
  split.
  - intros h p o _. cbn. set (n := List.length _). do 4 (destruct n as [|n]; [done|]). destruct n; done.
  - intros h. cbn. set (n := List.length _). destruct n as [|[|n]]; done.
Qed.

Lemma main_refines_lifecycle_witness :
  let r := @main stubborn_host typical_getopt Empty_set typical_line (init_world ∅) in
  result r = inr (Exited 1) /\ kill_calls (trace r.2) = [(777, SIGKILL); (777, SIGTERM)] /\
  wp (@main stubborn_host typical_getopt Empty_set typical_line) (fun _ _ => False)
    (fun s w' => calm s /\ accepted (trace w')) (init_world ∅).
Proof.
  split; [vm_compute; reflexivity|]. split; [vm_compute; reflexivity|].
  apply (@main_refines_lifecycle stubborn_host stubborn_waits typical_getopt typical_line ∅).
Defined.

Lemma signals_hit_own_child_witness :
  wp (@main stubborn_host typical_getopt Empty_set typical_line) (fun _ _ => False)
    (fun _ w' => forall t1 p g r t0, trace w' = t1 ++ (Sys_kill p g, r) :: t0 -> aimed p g t0) (init_world ∅).
Proof. apply (@signals_hit_own_child stubborn_host stubborn_waits typical_getopt typical_line ∅). Defined.

(** ** Without the promise of waitpid

    A process started with SIGCHLD ignored has children that vanish without
    being waited for until the first [set_sig_handlers]; the wait then fails
    with ECHILD.  [ssh_wait] takes any failure for a running child, so the
    supervisor neither restarts nor forgets it, and on its way out sends
    SIGTERM to the pid the kernel has just disowned. *)
Example failed_wait_goes_unnoticed :
  let host := mock_host (at_time t0 (fun c =>
     match c with
     | Sys_pipe => [Reply 0 0 5 6 [] []]
     | Sys_fork => [ret_reply 777]
     | Sys_waitpid _ _ => repeat (err_reply ECHILD) 9
     | Sys_ppoll _ _ => [sig_reply SIGCHLD; sig_reply SIGTERM]
     | _ => []
     end)) in
  let r := @main host typical_getopt Empty_set typical_line (init_world ∅) in
  result r = inr (Exited 1) /\ kill_calls (trace r.2) = [(777, SIGTERM)] /\ proc_run (trace r.2) = None.
Proof. vm_compute. split_and!; reflexivity. Qed.
