(* ===== verification/Double.v ===== *)
(** * Doubles of the C interface, and how Rust prints them

    [gate_time] and [max_session] of the configuration are doubles a C
    caller fills in: any binary64 value.  They are compared with 0.0 and
    printed with ["{}"], which gives the shortest decimal that reads back as
    the same double, without an exponent. *)

From Stdlib Require Import Ascii String SpecFloat.
From stdpp Require Import base option list strings.
From S2P Require Import Prelude.

(** [x >= 0.0] and [x > 0.0]. *)
Definition f64_ge0 (x : spec_float) : bool :=
  match x with
  | S754_zero _ | S754_infinity false | S754_finite false _ _ => true
  | _ => false
  end.

Definition f64_gt0 (x : spec_float) : bool :=
  match x with
  | S754_infinity false | S754_finite false _ _ => true
  | _ => false
  end.

(** ** The shortest decimal *)

(** The doubles around [m * 2^e] leave it the interval from
    [low / 4 * 2^e] to [(4m + 2) / 4 * 2^e]; the ends belong to it when [m]
    is even. *)
Definition low (m e : Z) : Z := if (m =? 2 ^ 52) && (-1074 <? e) then 4 * m - 1 else 4 * m - 2.

(** [10^k] as a fraction, and [2^(e-2)]. *)
Definition ten_num (k : Z) : Z := if 0 <=? k then 10 ^ k else 1.
Definition ten_den (k : Z) : Z := if 0 <=? k then 1 else 10 ^ (- k).
Definition two_num (e : Z) : Z := if 2 <=? e then 2 ^ (e - 2) else 1.
Definition two_den (e : Z) : Z := if 2 <=? e then 1 else 2 ^ (2 - e).

(** Whether [c * 10^k] is in the interval. *)
Definition reads_back (m e k c : Z) : bool :=
  let x := c * ten_num k * two_den e in
  let u := two_num e * ten_den k in
  if Z.even m then (low m e * u <=? x) && (x <=? (4 * m + 2) * u)
  else (low m e * u <? x) && (x <? (4 * m + 2) * u).

(** The multiple of [10^k] in the interval that is closest to the value,
    the upper of two that are equally close. *)
Definition candidate (m e k : Z) : option Z :=
  let v := 4 * m * two_num e * ten_den k in
  let t := ten_num k * two_den e in
  let c := v / t in
  let near := if 2 * (v mod t) <? t then c else c + 1 in
  let far := if 2 * (v mod t) <? t then c + 1 else c in
  if reads_back m e k near then Some near
  else if reads_back m e k far then Some far
  else None.

Fixpoint shortest (fuel : nat) (m e k : Z) : Z * Z :=
  match candidate m e k, fuel with
  | Some c, _ => (c, k)
  | None, S f => shortest f m e (k - 1)
  | None, O => (0, 0)
  end.

(** No multiple of this power of ten but 0 is below the value; from there
    down to [10^-1076] every interval is found. *)
Definition first_power (m e : Z) : Z := Z.max 0 (Z.log2 m + e + 1).

(** The text of [d * 10^k]. *)
Definition decimal (d k : Z) : bytes :=
  if 0 <=? k then show_Z (d * 10 ^ k)
  else
    let s := show_Z d in
    let n := Z.of_nat (List.length s) in
    if - k <? n then take (Z.to_nat (n + k)) s ++ lit "." ++ drop (Z.to_nat (n + k)) s
    else lit "0." ++ replicate (Z.to_nat (- k - n)) "0"%char ++ s.

Definition show_f64 (x : spec_float) : bytes :=
  match x with
  | S754_nan => lit "NaN"
  | S754_infinity s => (if s then lit "-" else []) ++ lit "inf"
  | S754_zero s => (if s then lit "-" else []) ++ lit "0"
  | S754_finite s m e =>
      let k := first_power (Z.pos m) e in
      let '(d, k') := shortest (Z.to_nat (k + 1100)) (Z.pos m) e k in
      (if s then lit "-" else []) ++ decimal d k'
  end.

(** ** Integers print as integers *)

Section Integral.
Context (m e z : Z).
Context (He : e <= 0) (Hm : m = z * 2 ^ (- e)) (Hz : 0 < z).

Lemma two_parts : two_num e = 1 /\ two_den e = 4 * 2 ^ (- e) /\ 1 <= 2 ^ (- e).
Proof using He.
  unfold two_num, two_den. replace (2 <=? e) with false by lia.
  replace (2 - e) with (2 + - e) by lia. rewrite Z.pow_add_r by lia.
  pose proof (Z.pow_pos_nonneg 2 (- e)). lia.
Qed.

(** A multiple of a non-negative power of ten in the interval is [z]. *)
Lemma reads_back_exact k c : 0 <= k -> reads_back m e k c = true -> c * 10 ^ k = z.
Proof using He Hm Hz.
  intros Hk. destruct two_parts as (E1 & E2 & P). unfold reads_back, ten_num, ten_den.
  replace (0 <=? k) with true by lia. rewrite E1, E2.
  assert (4 * m - 2 <= low m e) as L by (unfold low; split_if; lia).
  set (p := 2 ^ (- e)) in *. set (t := 10 ^ k). intros R.
  assert (4 * m - 2 <= c * t * (4 * p) <= 4 * m + 2) as [R1 R2] by (destruct (Z.even m); zify_bool; lia).
  assert (z - 1 < c * t < z + 1); [|lia]. subst m. split; apply Z.nle_gt; intros Q; nia.
Qed.

Lemma candidate_zero : exists c, candidate m e 0 = Some c.
Proof using He Hm Hz.
  destruct two_parts as (E1 & E2 & P). unfold candidate, ten_num, ten_den. cbn [Z.leb Z.compare].
  rewrite E1, E2. change (10 ^ 0) with 1. rewrite !Z.mul_1_r, Z.mul_1_l.
  set (p := 2 ^ (- e)) in *. assert (4 * m = z * (4 * p)) as Ev by (subst m; lia).
  rewrite Ev, Z.div_mul, Z_mod_mult by lia. replace (2 * 0 <? 4 * p) with true by lia.
  assert (reads_back m e 0 z = true) as ->; [|by exists z].
  unfold reads_back, ten_num, ten_den. cbn [Z.leb Z.compare]. rewrite E1, E2. change (10 ^ 0) with 1. fold p.
  assert (low m e <= 4 * m - 1) as L by (unfold low; split_if; lia).
  destruct (Z.even m); apply andb_true_iff; split; lia.
Qed.

Lemma shortest_exact fuel k :
  0 <= k -> (Z.to_nat k <= fuel)%nat ->
  let '(d, k') := shortest fuel m e k in 0 <= k' /\ d * 10 ^ k' = z.
Proof using He Hm Hz.
  revert k. induction fuel as [|f IH]; intros k Hk Hf; simpl.
  - replace k with 0 by lia. destruct candidate_zero as [c Hc]. rewrite Hc. split; [lia|].
    apply reads_back_exact; [lia|]. unfold candidate in Hc. repeat case_match; simplify_eq; done.
  - destruct (candidate m e k) as [c|] eqn:Hc.
    + split; [done|]. apply reads_back_exact; [done|]. unfold candidate in Hc. repeat case_match; simplify_eq; done.
    + destruct (decide (k = 0)) as [->|]; [destruct candidate_zero; congruence|]. apply IH; lia.
Qed.

End Integral.

(** An integral double below 2^53 in size prints as the integer. *)
Lemma show_f64_integral m e z :
  e <= 0 -> Z.pos m = z * 2 ^ (- e) -> 0 < z -> show_f64 (S754_finite false m e) = show_Z z.
Proof.
  intros He Hm Hz. unfold show_f64. set (k := first_power (Z.pos m) e).
  assert (0 <= k) as Hk by (unfold k, first_power; lia).
  pose proof (shortest_exact (Z.pos m) e z He Hm Hz (Z.to_nat (k + 1100)) k Hk ltac:(lia)) as K.
  destruct (shortest _ _ _ _) as [d k']. destruct K as [K1 K2]. unfold decimal.
  replace (0 <=? k') with true by lia. by rewrite K2.
Qed.

(** What the text looks like: 0.5, 30 (53-bit mantissa), 0.1, 1e23, 2^60 and
    -1.5. *)
Example show_f64_examples :
  show_f64 (S754_finite false 4503599627370496 (-53)) = lit "0.5" /\
  show_f64 (S754_finite false 8444249301319680 (-48)) = lit "30" /\
  show_f64 (S754_finite false 7205759403792794 (-56)) = lit "0.1" /\
  show_f64 (S754_finite false 5960464477539062 24) = lit "100000000000000000000000" /\
  show_f64 (S754_finite false 4503599627370496 8) = lit "1152921504606847000" /\
  show_f64 (S754_finite true 6755399441055744 (-52)) = lit "-1.5".
Proof. vm_compute. split_and!; reflexivity. Qed.
