(* ===== verification/Detector.v ===== *)
(** * The stuck detector (ssh-stuck-detector/src/lib.rs)

    The library that [Preload.install_for_child] puts into ssh's
    environment.  It lives in the ssh process: the threads of ssh run the
    hooked functions, and a monitor thread watches the trackers.  The
    threads share the trackers only through atomics, so the model is an
    interleaving of steps, one atomic access each.  The real functions are
    not modelled: a call stays in them until its thread returns. *)

From Stdlib Require Import Ascii String.
From stdpp Require Import base option list strings functions.
From S2P Require Import Prelude CNum Machine Signals Trace Log Kill Stderr.

(** ** Data *)

(** The hooked functions; each has one tracker. *)
Inductive hook := Connect | Getaddrinfo | Recv | Recvfrom | Recvmsg.

#[global] Instance hook_eq_dec : EqDecision hook.
Proof. solve_decision. Defined.

Definition name (k : hook) : bytes :=
  lit match k with
      | Connect => "connect" | Getaddrinfo => "getaddrinfo" | Recv => "recv"
      | Recvfrom => "recvfrom" | Recvmsg => "recvmsg"
      end.

Definition TRACKERS : list hook := [Connect; Getaddrinfo; Recv; Recvfrom; Recvmsg].

Definition DEFAULT_THRESHOLD_SECS : Z := 30.

Definition wrap64 (x : Z) : Z := (x + 2 ^ 63) mod 2 ^ 64 - 2 ^ 63.

(** Where a hooked call is: before the load of [enter]; after it; after
    [now_secs] when it found 0; inside the real function, with the [prev]
    it will pass to [leave] and the time it stored if [prev] is 0; between
    the two stores of [leave]. *)
Inductive phase :=
| Entering
| Loaded (prev : Z)
| Stamped (now : Z)
| InReal (prev stamp : Z)
| Clearing.

(** Where [monitor_main] is, with the locals that are alive there. *)
Inductive mpc :=
| MOff
| MSleep
| MAwake
| MNow (now : Z)
| MScan (now thr : Z) (todo : list hook)
| MCheck (now thr : Z) (k : hook) (start : Z) (todo : list hook)
| MStore (now thr : Z) (k : hook) (elapsed : Z) (todo : list hook)
| MWrite (now thr : Z) (k : hook) (elapsed : Z) (todo : list hook)
| MAbort (now thr elapsed : Z) (todo : list hook).

Inductive ending := Exit (code : Z) | Panic.

(** The process.  A thread is the stack of its hooked calls, innermost
    first: a real function (or a signal handler that interrupts it) may
    call a hooked one. *)
Record det := Det {
  start_sec : hook -> Z;
  last_warn_sec : hook -> Z;
  MONITOR_STARTED : bool;
  THRESHOLD_SECS : Z;
  monitor : mpc;
  threads : nat -> list (hook * phase);
  clock : Z;
  stderr_out : list bytes;
  ended : option ending
}.

Definition set_start (f : hook -> Z) (s : det) : det :=
  Det f (last_warn_sec s) (MONITOR_STARTED s) (THRESHOLD_SECS s) (monitor s) (threads s) (clock s)
    (stderr_out s) (ended s).
Definition set_last (f : hook -> Z) (s : det) : det :=
  Det (start_sec s) f (MONITOR_STARTED s) (THRESHOLD_SECS s) (monitor s) (threads s) (clock s)
    (stderr_out s) (ended s).
Definition set_started (b : bool) (thr : Z) (m : mpc) (s : det) : det :=
  Det (start_sec s) (last_warn_sec s) b thr m (threads s) (clock s) (stderr_out s) (ended s).
Definition set_mon (m : mpc) (s : det) : det :=
  set_started (MONITOR_STARTED s) (THRESHOLD_SECS s) m s.
Definition set_stack (tid : nat) (st : list (hook * phase)) (s : det) : det :=
  Det (start_sec s) (last_warn_sec s) (MONITOR_STARTED s) (THRESHOLD_SECS s) (monitor s)
    (<[tid := st]> (threads s)) (clock s) (stderr_out s) (ended s).
Definition set_clock (t : Z) (s : det) : det :=
  Det (start_sec s) (last_warn_sec s) (MONITOR_STARTED s) (THRESHOLD_SECS s) (monitor s) (threads s) t
    (stderr_out s) (ended s).
Definition write_stderr (l : bytes) (s : det) : det :=
  Det (start_sec s) (last_warn_sec s) (MONITOR_STARTED s) (THRESHOLD_SECS s) (monitor s) (threads s) (clock s)
    (l :: stderr_out s) (ended s).
Definition finish (e : ending) (s : det) : det :=
  Det (start_sec s) (last_warn_sec s) (MONITOR_STARTED s) (THRESHOLD_SECS s) (monitor s) (threads s) (clock s)
    (stderr_out s) (Some e).

(** ** [warn_stderr] *)

Definition BUF_LEN : nat := 128.

(** [if n < buf.len() { buf\[n\] = b; n += 1; }] *)
Definition push (buf : bytes) (b : ascii) : bytes :=
  if (List.length buf <? BUF_LEN)%nat then buf ++ [b] else buf.

Definition push_all (buf src : bytes) : bytes := fold_left push src buf.

(** The digits, least significant first, in an array with [room] left;
    storing beyond it panics. *)
Fixpoint itoa (room : nat) (s : Z) : option bytes :=
  if s <=? 0 then Some []
  else match room with
       | O => None
       | S r => cons (digit (s mod 10)) <$> itoa r (s / 10)
       end.

(** The bytes written, or a panic. *)
Definition warn_stderr (name : bytes) (secs : Z) : option bytes :=
  let s := if secs <? 0 then 0 else secs in
  digits ← (if s =? 0 then Some (lit "0") else itoa 20 s);
  let buf := push_all [] (lit "ssh-stuck-detector: STUCK in ") in
  let buf := push_all buf name in
  let buf := push_all buf (lit "() for ") in
  let buf := push_all buf (rev digits) in
  Some (push_all buf (lit " secs" ++ [nl])).

Definition abort_line : bytes := lit "ssh-stuck-detector: aborting stuck process" ++ [nl].

(** ** Threshold and monitor start *)

(** [strtol(raw, &end, 10)]. *)
Definition strtol10 (s : bytes) : Z * bytes :=
  let '(neg, r) := sign (skip_space s) in
  match r with
  | c :: _ =>
      match digit_in 10 c with
      | Some _ =>
          let '(m, rest) := digits 10 0 r in
          (Z.max LONG_MIN (Z.min LONG_MAX (if (neg : bool) then - m else m)), rest)
      | None => (0, s)
      end
  | [] => (0, s)
  end.

Section Detector.

(** The value of SSH_STUCK_THRESHOLD. *)
Context (raw : option bytes).

Definition read_threshold (old : Z) : Z :=
  match raw with
  | None => old
  | Some t => let '(v, e) := strtol10 t in if (0 <? v) && bool_decide (e = []) then v else old
  end.

(** [call_once]; [created] is whether [pthread_create] succeeds. *)
Definition ensure_monitor (created : bool) (s : det) : det :=
  if MONITOR_STARTED s then s
  else set_started true (read_threshold (THRESHOLD_SECS s)) (if created then MSleep else MOff) s.

(** ** Steps *)

(** A hooked function is called: on an empty stack, or from inside a real
    function. *)
Definition call (tid : nat) (k : hook) (created : bool) (s : det) : option det :=
  match threads s tid with
  | [] => Some (set_stack tid [(k, Entering)] (ensure_monitor created s))
  | (k', InReal p t) :: st => Some (set_stack tid ((k, Entering) :: (k', InReal p t) :: st) (ensure_monitor created s))
  | _ => None
  end.

(** The next atomic access of the innermost call: [enter], the return of
    the real function, [leave]. *)
Definition advance (tid : nat) (s : det) : option det :=
  match threads s tid with
  | [] => None
  | (k, ph) :: st =>
      let goto ph' := set_stack tid ((k, ph') :: st) in
      match ph with
      | Entering => Some (goto (Loaded (start_sec s k)) s)
      | Loaded prev => Some (goto (if prev =? 0 then Stamped (clock s) else InReal prev 0) s)
      | Stamped now => Some (goto (InReal 0 now) (set_start (<[k := now]> (start_sec s)) s))
      | InReal prev _ =>
          if prev =? 0 then Some (goto Clearing (set_start (<[k := 0]> (start_sec s)) s))
          else Some (set_stack tid st s)
      | Clearing => Some (set_stack tid st (set_last (<[k := 0]> (last_warn_sec s)) s))
      end
  end.

(** The next access of [monitor_main]. *)
Definition monitor_main (s : det) : option det :=
  match monitor s with
  | MOff => None
  | MSleep => Some (set_mon MAwake s)
  | MAwake => Some (set_mon (MNow (clock s)) s)
  | MNow now => Some (set_mon (MScan now (THRESHOLD_SECS s) TRACKERS) s)
  | MScan _ _ [] => Some (set_mon MSleep s)
  | MScan now thr (k :: r) =>
      let start := start_sec s k in
      if start =? 0 then Some (set_mon (MScan now thr r) s)
      else if wrap64 (now - start) <? thr then Some (set_mon (MScan now thr r) s)
      else Some (set_mon (MCheck now thr k start r) s)
  | MCheck now thr k start r =>
      let elapsed := wrap64 (now - start) in
      if thr <=? wrap64 (now - last_warn_sec s k)
      then Some (set_mon (MStore now thr k elapsed r) s)
      else Some (set_mon (MAbort now thr elapsed r) s)
  | MStore now thr k elapsed r =>
      Some (set_mon (MWrite now thr k elapsed r) (set_last (<[k := now]> (last_warn_sec s)) s))
  | MWrite now thr k elapsed r =>
      match warn_stderr (name k) elapsed with
      | Some l => Some (set_mon (MAbort now thr elapsed r) (write_stderr l s))
      | None => Some (finish Panic s)
      end
  | MAbort now thr elapsed r =>
      if wrap64 (thr * 2) <=? elapsed then Some (finish (Exit 1) (write_stderr abort_line s))
      else Some (set_mon (MScan now thr r) s)
  end.

(** What can happen next: time passes, a thread calls a hooked function
    or goes on in one, the monitor goes on. *)
Inductive act := Tick (d : Z) | Call (tid : nat) (k : hook) (created : bool) | Advance (tid : nat) | Mon.

Definition step (a : act) (s : det) : option det :=
  match ended s with
  | Some _ => None
  | None =>
      match a with
      | Tick d => if (0 <=? d) && (clock s + d <=? LONG_MAX) then Some (set_clock (clock s + d) s) else None
      | Call tid k created => call tid k created s
      | Advance tid => advance tid s
      | Mon => monitor_main s
      end
  end.

(** The library as loaded, at a monotonic time after boot. *)
Definition loaded (t : Z) : det :=
  Det (fun _ => 0) (fun _ => 0) false DEFAULT_THRESHOLD_SECS MOff (fun _ => []) t [] None.

(** The states reached by actions that satisfy [P]. *)
Inductive reaches (P : act -> Prop) (s : det) : det -> Prop :=
| reaches_refl : reaches P s s
| reaches_step a s1 s2 : reaches P s s1 -> P a -> step a s1 = Some s2 -> reaches P s s2.

Fixpoint run (l : list act) (s : det) : option det :=
  match l with
  | [] => Some s
  | a :: r => s' ← step a s; run r s'
  end.

End Detector.

(** ** Text *)

(** The line, as the documentation gives it. *)
Definition stuck_text (k : hook) (secs : Z) : bytes :=
  lit "ssh-stuck-detector: STUCK in " ++ name k ++ lit "() for " ++ show_Z secs ++ lit " secs" ++ [nl].

Lemma push_all_fits buf src :
  (List.length buf + List.length src <= BUF_LEN)%nat -> push_all buf src = buf ++ src.
Proof.
  revert buf. induction src as [|b src IH]; intros buf L; [by rewrite app_nil_r|].
  cbn [push_all fold_left]. cbn [List.length] in L. unfold push at 2.
  replace (List.length buf <? BUF_LEN)%nat with true by (symmetry; apply Nat.ltb_lt; lia).
  fold (push_all (buf ++ [b]) src). rewrite IH, <- app_assoc; [done|]. rewrite length_app. simpl. lia.
Qed.

Lemma itoa_dec room f s :
  s < 10 ^ Z.of_nat room -> s < 2 ^ Z.of_nat f -> itoa room s = Some (dec_rev f s).
Proof.
  revert f s. induction room as [|r IH]; intros f s Hs Hf.
  - simpl in *. replace (s <=? 0) with true by lia. destruct f; simpl; [done|]. by replace (s <=? 0) with true by lia.
  - simpl. destruct (s <=? 0) eqn:E; zify_bool.
    { destruct f; simpl; [done|]. by replace (s <=? 0) with true by lia. }
    destruct f as [|f]; [simpl in Hf; lia|]. rewrite Nat2Z.inj_succ, Z.pow_succ_r in Hs, Hf by lia.
    simpl. replace (s <=? 0) with false by lia.
    rewrite (IH f); [done|apply Z.div_lt_upper_bound; lia|apply Z.div_lt_upper_bound; lia].
Qed.

Lemma name_length k : (List.length (name k) <= 11)%nat.
Proof. destruct k; simpl; lia. Qed.

Lemma warn_stderr_text k secs :
  secs <= LONG_MAX -> warn_stderr (name k) secs = Some (stuck_text k (Z.max 0 secs)).
Proof.
  intros Hs. unfold warn_stderr. replace (if secs <? 0 then 0 else secs) with (Z.max 0 secs) by (split_if; zify_bool; lia).
  set (s := Z.max 0 secs). assert (0 <= s <= LONG_MAX) as Hr by (unfold s, LONG_MAX in *; lia).
  assert ((if s =? 0 then Some (lit "0") else itoa 20 s) = Some (rev (show_Z s)) /\ (List.length (show_Z s) <= 20)%nat)
    as [-> L].
  { unfold show_Z. destruct (s =? 0) eqn:E; zify_bool; [split; [done|simpl; lia]|].
    replace (s <? 0) with false by lia. rewrite rev_involutive, length_rev. split.
    - apply itoa_dec; [unfold LONG_MAX in *; simpl; lia|apply dec_fuel_enough; lia].
    - apply dec_rev_length. unfold LONG_MAX in *. simpl. lia. }
  cbn [mbind option_bind]. rewrite rev_involutive. pose proof (name_length k).
  assert (List.length (lit "ssh-stuck-detector: STUCK in ") = 29%nat /\ List.length (lit "() for ") = 7%nat /\
    List.length (lit " secs" ++ [nl]) = 6%nat) as (L1 & L2 & L3) by (split_and!; reflexivity).
  rewrite (push_all_fits [] (lit "ssh-stuck-detector: STUCK in ")) by (rewrite L1; unfold BUF_LEN; simpl; lia).
  rewrite app_nil_l, (push_all_fits _ (name k)) by (rewrite L1; unfold BUF_LEN; lia).
  rewrite (push_all_fits _ (lit "() for ")) by (rewrite length_app, L1, L2; unfold BUF_LEN; lia).
  rewrite (push_all_fits _ (show_Z s)) by (rewrite !length_app, L1, L2; unfold BUF_LEN; lia).
  rewrite (push_all_fits _ (lit " secs" ++ [nl])) by (rewrite (length_app _ (show_Z s)), !length_app, L1, L2 in *; simpl; unfold BUF_LEN; lia).
  unfold stuck_text. by rewrite <- !app_assoc.
Qed.

Lemma c_str_app a b : nul_free a = true -> c_str (a ++ b) = a ++ c_str b.
Proof.
  induction a as [|c a IH]; simpl; [done|]. intros N. apply andb_prop in N as [N1 N2].
  rewrite IH by done. destruct (decide (c = nul)) as [->|]; done.
Qed.

(** A chunk of stderr that contains the line makes the supervisor restart
    ssh, whatever surrounds it. *)
Lemma stuck_text_fatal k e a b : nul_free a = true -> fatal (a ++ stuck_text k e ++ b) = true.
Proof.
  intros N. unfold fatal. apply orb_true_intro. right. apply strstr_spec.
  assert (nul_free (lit "ssh-stuck-detector: STUCK") = true) as Ns by reflexivity.
  change (stuck_text k e) with (stuck_line ++ (lit " in " ++ name k ++ lit "() for " ++ show_Z e ++ lit " secs" ++ [nl])).
  rewrite <- app_assoc, c_str_app, c_str_app by done. by eexists _, _.
Qed.

(** ** The invariant of every interleaving *)

Definition mon_ok (s : det) : Prop :=
  let at_ now thr := 0 <= now <= clock s /\ thr = THRESHOLD_SECS s in
  match monitor s with
  | MOff | MSleep | MAwake => True
  | MNow now => 0 <= now <= clock s
  | MScan now thr _ => at_ now thr
  | MCheck now thr k start _ => at_ now thr /\ 0 < start /\ start + thr <= now
  | MStore now thr k e _ | MWrite now thr k e _ => at_ now thr /\ thr <= e <= now
  | MAbort now thr e _ => at_ now thr /\ thr <= e <= now
  end.

Definition frame_ok (s : det) (f : hook * phase) : Prop :=
  match f.2 with
  | Loaded prev => 0 <= prev
  | Stamped t | InReal _ t => 0 <= t <= clock s
  | _ => True
  end.

(** A call on [k] that stored the time [t] is inside the real function. *)
Definition in_flight (s : det) (k : hook) (t : Z) : Prop :=
  exists tid, In (k, InReal 0 t) (threads s tid).

Definition line_ok (s : det) (l : bytes) : Prop :=
  l = abort_line \/ exists k e, l = stuck_text k e /\ THRESHOLD_SECS s <= e <= clock s.

Record inv (s : det) : Prop := Inv {
  inv_clock : 0 <= clock s <= LONG_MAX;
  inv_thr : 0 < THRESHOLD_SECS s <= LONG_MAX;
  inv_off : MONITOR_STARTED s = false -> monitor s = MOff /\ stderr_out s = [];
  inv_frames : forall tid f, In f (threads s tid) -> frame_ok s f;
  inv_start : forall k, start_sec s k = 0 \/ (0 < start_sec s k <= clock s /\ in_flight s k (start_sec s k));
  inv_last : forall k, 0 <= last_warn_sec s k <= clock s;
  inv_mon : mon_ok s;
  inv_out : forall l, In l (stderr_out s) -> line_ok s l;
  inv_end : ended s <> Some Panic
}.

Lemma wrap64_id x : - 2 ^ 63 <= x <= LONG_MAX -> wrap64 x = x.
Proof. unfold wrap64, LONG_MAX. intros Hx. rewrite Z.mod_small; lia. Qed.

Lemma inv_loaded t : 0 <= t <= LONG_MAX -> inv (loaded t).
Proof. intros Ht. split; simpl; try done; unfold LONG_MAX in *; lia || by left. Qed.

Lemma frame_ok_mono s s' f : clock s <= clock s' -> frame_ok s f -> frame_ok s' f.
Proof. intros C. unfold frame_ok. destruct f as [k []]; simpl; lia. Qed.

Lemma inv_tick d s : inv s -> 0 <= d -> clock s + d <= LONG_MAX -> inv (set_clock (clock s + d) s).
Proof.
  intros I Hd L. destruct I. split; simpl; auto; try lia.
  - intros tid f Hf. eapply frame_ok_mono; [|eauto]. simpl. lia.
  - intros k. destruct (inv_start0 k) as [E|[E F]]; [by left|right; split; [lia|exact F]].
  - intros k. specialize (inv_last0 k). lia.
  - unfold mon_ok in *. simpl. destruct (monitor s); lia || tauto || auto with lia.
  - intros l Hl. destruct (inv_out0 l Hl) as [E|(k & e & E & ?)]; [by left|right]. exists k, e. simpl. split; [done|lia].
Qed.

(** Replacing the stack of one thread keeps the other owners. *)
Lemma in_flight_stack s tid st k t :
  (In (k, InReal 0 t) (threads s tid) -> In (k, InReal 0 t) st) ->
  in_flight s k t -> in_flight (set_stack tid st s) k t.
Proof.
  intros Hst [u Hu]. exists u. simpl. destruct (decide (tid = u)) as [->|N].
  - rewrite fn_lookup_insert. auto.
  - by rewrite fn_lookup_insert_ne.
Qed.

Lemma frames_stack s tid st :
  (forall u f, In f (threads s u) -> frame_ok s f) -> (forall f, In f st -> frame_ok s f) ->
  forall u f, In f (<[tid := st]> (threads s) u) -> frame_ok s f.
Proof.
  intros H1 H2 u f. destruct (decide (tid = u)) as [->|N].
  - rewrite fn_lookup_insert. auto.
  - rewrite fn_lookup_insert_ne by done. apply H1.
Qed.

(** A change of one stack alone. *)
Lemma inv_stack s tid st :
  inv s -> (forall f, In f st -> frame_ok s f) ->
  (forall k t, start_sec s k = t -> t <> 0 -> In (k, InReal 0 t) (threads s tid) -> In (k, InReal 0 t) st) ->
  inv (set_stack tid st s).
Proof.
  intros I Hf Ho. destruct I. split; simpl; auto.
  - by apply frames_stack.
  - intros k. destruct (inv_start0 k) as [E|[E F]]; [by left|right]. split; [done|].
    apply in_flight_stack; [|done]. apply Ho; [done|lia].
Qed.

Section Preserved.
Context (raw : option bytes).

Lemma read_threshold_range old : 0 < old <= LONG_MAX -> 0 < read_threshold raw old <= LONG_MAX.
Proof.
  intros Ho. unfold read_threshold. destruct raw as [t|]; [|done].
  destruct (strtol10 t) as [v e] eqn:E. split_if; [|done]. zify_bool. split; [done|].
  unfold strtol10 in E. destruct (sign (skip_space t)) as [neg r].
  destruct r as [|c r]; [injection E as <- <-; done|].
  destruct (digit_in 10 c); [|injection E as <- <-; done].
  destruct (digits 10 0 (c :: r)) as [m rest]. injection E as <- <-. unfold LONG_MAX, LONG_MIN. lia.
Qed.

Lemma inv_ensure created s : inv s -> inv (ensure_monitor raw created s).
Proof.
  intros I. unfold ensure_monitor. destruct (MONITOR_STARTED s) eqn:M; [done|].
  destruct (inv_off s I M) as [Mo So]. pose proof (inv_start s I) as IS. destruct I. split; simpl; auto.
  - by apply read_threshold_range.
  - done.
  - unfold mon_ok. simpl. by destruct created.
  - rewrite So. done.
Qed.

Lemma inv_call tid k created s s' : inv s -> call raw tid k created s = Some s' -> inv s'.
Proof.
  intros I E. pose proof (inv_ensure created s I) as I1.
  assert (threads (ensure_monitor raw created s) = threads s) as Th by (unfold ensure_monitor; by split_if).
  assert (s' = set_stack tid ((k, Entering) :: threads s tid) (ensure_monitor raw created s)) as ->.
  { unfold call in E. destruct (threads s tid) as [|[k' []] st]; by simplify_eq. }
  apply inv_stack; [done| |].
  - intros f [<-|Hf]; [done|]. rewrite <- Th in Hf. by apply (inv_frames _ I1 tid).
  - intros k' t _ _. rewrite Th. by right.
Qed.

Lemma inv_last_zero k s : inv s -> inv (set_last (<[k := 0]> (last_warn_sec s)) s).
Proof.
  intros I. destruct I. split; simpl; auto. intros k'. destruct (decide (k = k')) as [->|N].
  - rewrite fn_lookup_insert. lia.
  - rewrite fn_lookup_insert_ne by done. auto.
Qed.

(** A store to [start_sec] by the innermost call of a thread. *)
Lemma inv_store s tid k ph ph' st v :
  inv s -> threads s tid = (k, ph) :: st -> frame_ok s (k, ph') ->
  v = 0 \/ (0 < v <= clock s /\ ph' = InReal 0 v) ->
  inv (set_stack tid ((k, ph') :: st) (set_start (<[k := v]> (start_sec s)) s)).
Proof.
  intros I Hs Hf Hv. pose proof (inv_frames s I) as IF. pose proof (inv_start s I) as IS. destruct I. split; simpl; auto.
  - apply (frames_stack s tid); [done|]. intros f [<-|Hin]; [done|]. apply (IF tid). rewrite Hs. by right.
  - intros k'. destruct (decide (k = k')) as [<-|N].
    + rewrite fn_lookup_insert. destruct Hv as [->|[Hv ->]]; [by left|right]. split; [done|].
      exists tid. simpl. rewrite fn_lookup_insert. by left.
    + rewrite fn_lookup_insert_ne by done. destruct (IS k') as [E|[E F]]; [by left|right]. split; [done|].
      apply (in_flight_stack (set_start (<[k := v]> (start_sec s)) s)); [|exact F].
      simpl. rewrite Hs. intros [E'|Hin]; [congruence|by right].
Qed.

Lemma inv_advance tid s s' : inv s -> advance tid s = Some s' -> inv s'.
Proof.
  intros I E. unfold advance in E. destruct (threads s tid) as [|[k ph] st] eqn:Hs; [done|].
  pose proof (inv_frames s I tid) as IF. rewrite Hs in IF.
  pose proof (IF _ (or_introl eq_refl)) as F0. unfold frame_ok in F0. cbn [snd] in F0.
  assert (forall f, In f st -> frame_ok s f) as Fr by (intros f Hf; apply IF; by right).
  assert (forall ph', frame_ok s (k, ph') -> forall f, In f ((k, ph') :: st) -> frame_ok s f) as Fc
    by (intros ph' H1 f [<-|Hf]; auto).
  pose proof (inv_clock s I) as Cl.
  destruct ph as [|prev|now|prev stamp|].
  - injection E as <-. apply inv_stack; [done| |].
    + apply Fc. unfold frame_ok. cbn [snd]. destruct (inv_start s I k); lia.
    + rewrite Hs. intros k' t _ _ [K|K]; [done|by right].
  - injection E as <-. apply inv_stack; [done| |].
    + apply Fc. unfold frame_ok. destruct (prev =? 0); simpl; lia.
    + rewrite Hs. intros k' t _ _ [K|K]; [done|by right].
  - injection E as <-. eapply inv_store; eauto.
    destruct (decide (now = 0)) as [->|]; [by left|right]. split; [lia|done].
  - destruct (prev =? 0) eqn:P; zify_bool; injection E as <-.
    + eapply inv_store; eauto. done.
    + apply inv_stack; [done|done|]. rewrite Hs. intros k' t _ _ [K|K]; [congruence|done].
  - injection E as <-. apply (inv_stack (set_last (<[k := 0]> (last_warn_sec s)) s) tid st).
    + by apply inv_last_zero.
    + done.
    + simpl. rewrite Hs. intros k' t _ _ [K|K]; [done|done].
Qed.

Lemma inv_set_mon m s : inv s -> (MONITOR_STARTED s = true) -> mon_ok (set_mon m s) -> inv (set_mon m s).
Proof. intros I M Hm. destruct I. split; simpl; auto. rewrite M. done. Qed.

Lemma inv_write l s : inv s -> MONITOR_STARTED s = true -> line_ok s l -> inv (write_stderr l s).
Proof.
  intros I M Hl. destruct I. split; simpl; auto; [congruence|]. intros l' [<-|Hin]; [done|exact (inv_out0 l' Hin)].
Qed.

Ltac go_on := apply inv_set_mon; [done|done|unfold mon_ok; simpl; try lia; auto].

Lemma inv_monitor s s' : inv s -> monitor_main s = Some s' -> inv s'.
Proof.
  intros I E. assert (MONITOR_STARTED s = true) as M.
  { destruct (MONITOR_STARTED s) eqn:M; [done|]. destruct (inv_off s I M) as [Mo _].
    unfold monitor_main in E. by rewrite Mo in E. }
  pose proof (inv_clock s I) as Cl. pose proof (inv_thr s I) as Th.
  pose proof (inv_mon s I) as Mk. unfold mon_ok in Mk. unfold monitor_main in E.
  destruct (monitor s) as [| | |now|now thr [|k r]|now thr k start r|now thr k e r|now thr k e r|now thr e r] eqn:Ms;
    try done.
  - injection E as <-. go_on.
  - injection E as <-. go_on.
  - injection E as <-. go_on.
  - injection E as <-. go_on.
  - destruct Mk as [Mk ->]. destruct (inv_start s I k) as [Z0|[Hst _]].
    { rewrite Z0 in E. injection E as <-. go_on. }
    rewrite (proj2 (Z.eqb_neq _ 0)) in E by lia. rewrite wrap64_id in E by (unfold LONG_MAX in *; lia).
    destruct (now - start_sec s k <? THRESHOLD_SECS s) eqn:L; zify_bool; injection E as <-; go_on.
  - destruct Mk as [[Mk ->] Hst]. pose proof (inv_last s I k) as La. rewrite !wrap64_id in E by (unfold LONG_MAX in *; lia).
    destruct (_ <=? now - _) in E; injection E as <-; go_on.
  - destruct Mk as [[Mk ->] He]. injection E as <-.
    apply (inv_set_mon _ (set_last (<[k := now]> (last_warn_sec s)) s)); [|done|unfold mon_ok; simpl; lia].
    destruct I. split; simpl; auto. intros k'. destruct (decide (k = k')) as [->|N].
    + rewrite fn_lookup_insert. lia.
    + rewrite fn_lookup_insert_ne by done. auto.
  - destruct Mk as [[Mk ->] He]. rewrite warn_stderr_text in E by lia. injection E as <-.
    apply (inv_set_mon _ (write_stderr _ s)); [|done|unfold mon_ok; simpl; lia].
    apply inv_write; [done|done|]. right. exists k, (Z.max 0 e). split; [done|lia].
  - destruct Mk as [[Mk ->] He]. destruct (_ <=? e) in E; injection E as <-; [|go_on].
    pose proof (inv_write abort_line s I M (or_introl eq_refl)) as I1. destruct I1. by split.
Qed.

Lemma inv_step a s s' : inv s -> step raw a s = Some s' -> inv s'.
Proof.
  intros I E. unfold step in E. destruct (ended s); [done|]. destruct a.
  - destruct (_ && _) eqn:B; [|done]. zify_bool. injection E as <-. by apply inv_tick.
  - by eapply inv_call.
  - by eapply inv_advance.
  - by eapply inv_monitor.
Qed.

Lemma inv_reaches P t s : 0 <= t <= LONG_MAX -> reaches raw P (loaded t) s -> inv s.
Proof. intros Ht R. induction R; [by apply inv_loaded|by eapply inv_step]. Qed.

End Preserved.

(** ** One thread: nested calls keep their tracker *)

Definition by_thread0 (a : act) : Prop :=
  match a with Call tid _ _ | Advance tid => tid = 0%nat | _ => True end.

(** The time stored by the call on [k] that owns the tracker. *)
Fixpoint owner (k : hook) (st : list (hook * phase)) : Z :=
  match st with
  | [] => 0
  | (k', InReal 0 t) :: r => if decide (k = k') then t else owner k r
  | _ :: r => owner k r
  end.

(** Every call of the stack knows whether it is the outermost on its
    tracker; only the innermost is outside a real function. *)
Fixpoint nested (st : list (hook * phase)) : Prop :=
  match st with
  | [] => True
  | (k, ph) :: r =>
      nested r /\ Forall (fun f => match f.2 with InReal _ _ => True | _ => False end) r /\
      match ph with
      | Entering => True
      | Loaded prev => prev = owner k r
      | Stamped t => owner k r = 0 /\ 0 < t
      | InReal prev t => prev = owner k r /\ (prev = 0 -> 0 < t)
      | Clearing => owner k r = 0
      end
  end.

Record alone (s : det) : Prop := Alone {
  alone_clock : 0 < clock s;
  alone_nested : nested (threads s 0%nat);
  alone_start : forall k, start_sec s k = owner k (threads s 0%nat)
}.

Lemma owner_other k k' ph r : k <> k' -> owner k ((k', ph) :: r) = owner k r.
Proof. intros N. destruct ph as [| | |[] t|]; simpl; try done. by rewrite decide_False. Qed.

Lemma owner_same k ph r :
  owner k ((k, ph) :: r) = match ph with InReal 0 t => t | _ => owner k r end.
Proof. destruct ph as [| | |[] t|]; simpl; try done. by rewrite decide_True. Qed.

(** A call inside a real function owns the tracker or is inside one that
    does. *)
Lemma nested_owner k prev t st : nested st -> In (k, InReal prev t) st -> owner k st <> 0.
Proof.
  induction st as [|[k' ph] r IH]; [done|]. intros (Nr & _ & Np) [E|Hin].
  - injection E as -> ->. rewrite owner_same. destruct Np as [-> P].
    destruct (owner k r) eqn:O; [pose proof (P eq_refl); lia|done|done].
  - specialize (IH Nr Hin). destruct (decide (k = k')) as [<-|N]; [|by rewrite owner_other].
    rewrite owner_same. destruct ph as [| | |[] u|]; try done. destruct Np as [K _]. congruence.
Qed.

Section OneThread.
Context (raw : option bytes).

Lemma alone_same s s' :
  alone s -> clock s <= clock s' -> threads s' = threads s -> start_sec s' = start_sec s -> alone s'.
Proof. intros [C N S] Hc Ht Hs. split; [lia|by rewrite Ht|by rewrite Ht, Hs]. Qed.

(** The innermost call of the stack moves on. *)
Lemma alone_goto s s' k ph ph' st :
  alone s -> threads s 0%nat = (k, ph) :: st -> clock s' = clock s -> threads s' 0%nat = (k, ph') :: st ->
  (nested ((k, ph) :: st) -> nested ((k, ph') :: st)) ->
  (forall k', k' <> k -> start_sec s' k' = start_sec s k') ->
  start_sec s' k = owner k ((k, ph') :: st) -> alone s'.
Proof.
  intros [C N S] Hs Hc Hs' Hn Ho Hk. rewrite Hs in N. split; [lia|rewrite Hs'; auto|].
  intros k'. rewrite Hs'. destruct (decide (k' = k)) as [->|Nk]; [done|].
  rewrite owner_other, Ho, S, Hs by done. by apply owner_other.
Qed.

(** The innermost call is over. *)
Lemma alone_pop s s' k ph st :
  alone s -> threads s 0%nat = (k, ph) :: st -> clock s' = clock s -> threads s' 0%nat = st ->
  start_sec s' = start_sec s -> owner k ((k, ph) :: st) = owner k st -> alone s'.
Proof.
  intros [C N S] Hs Hc Hs' Hk Ho. rewrite Hs in N. split; [lia|rewrite Hs'; apply N|].
  intros k'. rewrite Hs', Hk, S, Hs. destruct (decide (k' = k)) as [->|Nk]; [done|by apply owner_other].
Qed.

Lemma alone_advance s s' : alone s -> advance 0 s = Some s' -> alone s'.
Proof.
  intros I E. unfold advance in E. destruct (threads s 0%nat) as [|[k ph] st] eqn:Hs; [done|].
  pose proof (alone_start s I k) as Sk. rewrite Hs, owner_same in Sk.
  pose proof (alone_nested s I) as N. rewrite Hs in N. destruct N as (_ & _ & Np).
  pose proof (alone_clock s I) as Cl.
  destruct ph as [|prev|now|prev stamp|]; cbn [owner] in Sk.
  - injection E as <-. apply (alone_goto s _ k Entering (Loaded (start_sec s k)) st); auto.
    intros (? & ? & _). by split_and!.
  - injection E as <-. destruct (prev =? 0) eqn:P; zify_bool.
    + apply (alone_goto s _ k (Loaded prev) (Stamped (clock s)) st); auto.
      intros (? & ? & ?). split_and!; auto. congruence.
    + apply (alone_goto s _ k (Loaded prev) (InReal prev 0) st); auto.
      * intros (? & ? & ?). split_and!; auto. done.
      * rewrite owner_same. by destruct prev.
  - injection E as <-. apply (alone_goto s _ k (Stamped now) (InReal 0 now) st); auto.
    + intros (? & ? & ? & ?). split_and!; auto.
    + intros k' Nk. apply fn_lookup_insert_ne. congruence.
    + rewrite owner_same. apply fn_lookup_insert.
  - destruct (prev =? 0) eqn:P; zify_bool; injection E as <-.
    + subst prev. apply (alone_goto s _ k (InReal 0 stamp) Clearing st); auto.
      * intros (? & ? & ? & ?). split_and!; auto.
      * intros k' Nk. apply fn_lookup_insert_ne. congruence.
      * rewrite owner_same. destruct Np as [<- _]. apply fn_lookup_insert.
    + apply (alone_pop s _ k (InReal prev stamp) st); auto.
      rewrite owner_same. by destruct prev.
  - injection E as <-. apply (alone_pop s _ k Clearing st); auto.
Qed.

Lemma alone_call k created s s' : alone s -> call raw 0 k created s = Some s' -> alone s'.
Proof.
  intros [C N S] E. set (s1 := ensure_monitor raw created s).
  assert (threads s1 = threads s /\ start_sec s1 = start_sec s /\ clock s1 = clock s) as (Ht & Hst & Hc)
    by (unfold s1, ensure_monitor; by split_if).
  assert (s' = set_stack 0 ((k, Entering) :: threads s 0%nat) s1 /\
    Forall (fun f => match f.2 with InReal _ _ => True | _ => False end) (threads s 0%nat)) as [-> F].
  { unfold call in E. fold s1 in E. destruct (threads s 0%nat) as [|[k' []] st]; simplify_eq; [done|].
    split; [done|]. constructor; [done|]. apply N. }
  split; cbn [clock threads start_sec set_stack]; [lia|rewrite fn_lookup_insert; done|].
  intros k'. rewrite fn_lookup_insert, Hst, S. by destruct (decide (k' = k)).
Qed.

Lemma alone_monitor s s' : alone s -> monitor_main s = Some s' -> alone s'.
Proof.
  intros I E. apply (alone_same s); [done|..]; unfold monitor_main in E;
    repeat case_match; simplify_eq; simpl; done.
Qed.

Lemma alone_reaches t s : 0 < t -> reaches raw by_thread0 (loaded t) s -> alone s.
Proof.
  intros Ht R. induction R as [|a s1 s2 R IH Pa E]; [by split|].
  unfold step in E. destruct (ended s1); [done|]. destruct a as [d|tid k c|tid|]; simpl in Pa; subst.
  - destruct (_ && _) eqn:B; [|done]. zify_bool. injection E as <-. apply (alone_same s1); auto. simpl. lia.
  - by eapply alone_call.
  - by eapply alone_advance.
  - by eapply alone_monitor.
Qed.

End OneThread.

(** ** The monitor's loop, undisturbed *)

(** One pass over the trackers as a function on the state. *)
Fixpoint scan (now thr : Z) (ks : list hook) (s : det) : det :=
  match ks with
  | [] => set_mon MSleep s
  | k :: r =>
      let elapsed := now - start_sec s k in
      if (start_sec s k =? 0) || (elapsed <? thr) then scan now thr r s
      else
        let s1 := if thr <=? now - last_warn_sec s k
                  then write_stderr (stuck_text k elapsed) (set_last (<[k := now]> (last_warn_sec s)) s)
                  else s in
        if 2 * thr <=? elapsed
        then finish (Exit 1) (write_stderr abort_line (set_mon (MAbort now thr elapsed r) s1))
        else scan now thr r s1
  end.

Section Scan.
Context (raw : option bytes).

Lemma run_app l1 l2 s : run raw (l1 ++ l2) s = run raw l1 s ≫= run raw l2.
Proof.
  revert s. induction l1 as [|a l IH]; intros s; simpl; [done|].
  destruct (step raw a s); simpl; [apply IH|done].
Qed.

(** Times as [inv] gives them; the threshold is below half the range, as
    [threshold * 2] needs. *)
Definition scannable (now thr : Z) (s : det) : Prop :=
  ended s = None /\ 0 <= now <= LONG_MAX /\ 0 < thr /\ 2 * thr <= LONG_MAX /\
  (forall k, 0 <= start_sec s k <= LONG_MAX) /\ (forall k, 0 <= last_warn_sec s k <= LONG_MAX).

(** The steps of the monitor for one tracker. *)
Lemma scan_one now thr k r s :
  scannable now thr s ->
  let elapsed := now - start_sec s k in
  exists n, (n <= 5)%nat /\
  run raw (repeat Mon n) (set_mon (MScan now thr (k :: r)) s) =
  Some (if (start_sec s k =? 0) || (elapsed <? thr) then set_mon (MScan now thr r) s
        else
          let s1 := if thr <=? now - last_warn_sec s k
                    then write_stderr (stuck_text k elapsed) (set_last (<[k := now]> (last_warn_sec s)) s)
                    else s in
          if 2 * thr <=? elapsed
          then finish (Exit 1) (write_stderr abort_line (set_mon (MAbort now thr elapsed r) s1))
          else set_mon (MScan now thr r) s1).
Proof.
  intros (Hi & Hn & Ht & Ht2 & Hs & Hl). cbv zeta. pose proof (Hs k) as Hsk. pose proof (Hl k) as Hlk.
  assert (wrap64 (now - start_sec s k) = now - start_sec s k) as W1 by (apply wrap64_id; unfold LONG_MAX in *; lia).
  assert (wrap64 (now - last_warn_sec s k) = now - last_warn_sec s k) as W2 by (apply wrap64_id; unfold LONG_MAX in *; lia).
  assert (wrap64 (thr * 2) = 2 * thr) as W3 by (rewrite wrap64_id; unfold LONG_MAX in *; lia).
  destruct (start_sec s k =? 0) eqn:E0; [exists 1%nat|destruct (now - start_sec s k <? thr) eqn:E1; [exists 1%nat|]].
  - split; [lia|]. simpl. unfold step, monitor_main. simpl. by rewrite Hi, E0.
  - split; [lia|]. simpl. unfold step, monitor_main. simpl. by rewrite Hi, E0, W1, E1.
  - zify_bool. pose proof (warn_stderr_text k (now - start_sec s k) ltac:(lia)) as Wt.
    rewrite Z.max_r in Wt by lia. cbn [orb].
    assert (step raw Mon (set_mon (MScan now thr (k :: r)) s) = Some (set_mon (MCheck now thr k (start_sec s k) r) s)) as S1.
    { unfold step, monitor_main. simpl. rewrite Hi, W1, (proj2 (Z.eqb_neq _ 0)), (proj2 (Z.ltb_ge _ _)) by lia. done. }
    destruct (thr <=? now - last_warn_sec s k) eqn:E2; [exists 5%nat|exists 3%nat]; (split; [lia|]);
      cbn [repeat run]; rewrite S1; cbn [mbind option_bind];
      unfold step, monitor_main; simpl; rewrite Hi, W1, W2, E2; simpl; rewrite Hi; simpl; rewrite ?Hi, ?Wt; simpl;
      rewrite ?Hi, W3; by destruct (2 * thr <=? now - start_sec s k).
Qed.

Lemma scannable_warned now thr k l s :
  scannable now thr s ->
  scannable now thr (write_stderr l (set_last (<[k := now]> (last_warn_sec s)) s)).
Proof.
  intros (Hi & Hn & Ht & Ht2 & Hs & Hl). split_and!; simpl; auto; try lia. intros k'.
  destruct (decide (k = k')) as [->|N]; [rewrite fn_lookup_insert; lia|rewrite fn_lookup_insert_ne; auto].
Qed.

(** The fine-grained steps compute [scan]. *)
Lemma scan_runs now thr ks s :
  scannable now thr s ->
  exists n, (n <= 5 * List.length ks + 1)%nat /\
    run raw (repeat Mon n) (set_mon (MScan now thr ks) s) = Some (scan now thr ks s).
Proof.
  revert s. induction ks as [|k r IH]; intros s Sc.
  { exists 1%nat. split; [simpl; lia|]. simpl. unfold step, monitor_main. simpl. by rewrite (proj1 Sc). }
  destruct (scan_one now thr k r s Sc) as (n & Ln & E). cbn [scan]. cbv zeta in E.
  set (s1 := if thr <=? now - last_warn_sec s k then _ else s) in *.
  assert (scannable now thr s1) as Sc1 by (unfold s1; split_if; [by apply scannable_warned|done]).
  assert (forall s2, scannable now thr s2 ->
    run raw (repeat Mon n) (set_mon (MScan now thr (k :: r)) s) = Some (set_mon (MScan now thr r) s2) ->
    exists m, (m <= 5 * List.length (k :: r) + 1)%nat /\
      run raw (repeat Mon m) (set_mon (MScan now thr (k :: r)) s) = Some (scan now thr r s2)) as Go.
  { intros s2 Sc2 E2. destruct (IH s2 Sc2) as (m & Lm & Em). exists (n + m)%nat. split; [simpl; lia|].
    rewrite repeat_app, run_app, E2. exact Em. }
  destruct ((start_sec s k =? 0) || _); [by apply Go|].
  destruct (2 * thr <=? _); [|by apply Go].
  exists n. split; [simpl; lia|exact E].
Qed.

End Scan.

(** *** What a pass reports *)

Lemma scan_keeps_lines now thr ks s l : In l (stderr_out s) -> In l (stderr_out (scan now thr ks s)).
Proof.
  revert s. induction ks as [|k r IH]; intros s Hl; cbn [scan]; [done|].
  split_if; [auto|]. set (s1 := if thr <=? _ then _ else s).
  assert (In l (stderr_out s1)) as H1 by (unfold s1; split_if; [by right|done]).
  split_if; [by right|auto].
Qed.

(** A tracker over the threshold and not warned about within the last
    [thr] seconds gets its line, unless another one ends the process
    first. *)
Lemma scan_warns now thr ks k s :
  In k ks -> start_sec s k <> 0 -> thr <= now - start_sec s k -> thr <= now - last_warn_sec s k ->
  In (stuck_text k (now - start_sec s k)) (stderr_out (scan now thr ks s)) \/
  ended (scan now thr ks s) = Some (Exit 1).
Proof.
  intros Hin Hs He Hl. revert s Hs He Hl. induction ks as [|k' r IH]; intros s Hs He Hl; [done|].
  cbn [scan]. destruct (decide (k' = k)) as [->|N].
  - rewrite (proj2 (Z.eqb_neq _ 0)), (proj2 (Z.ltb_ge _ _)), (proj2 (Z.leb_le thr (now - last_warn_sec s k))) by lia.
    cbn [orb]. split_if; [by right|]. left. apply scan_keeps_lines. by left.
  - destruct Hin as [->|Hin]; [done|]. split_if; [by apply IH|].
    split_if; [by right|]. set (s1 := if thr <=? _ then _ else s).
    assert (start_sec s1 k = start_sec s k) as E1 by (unfold s1; by split_if).
    rewrite <- E1 in *. apply IH; auto. unfold s1 in *. split_if; [|done]. simpl. by rewrite fn_lookup_insert_ne.
Qed.

Lemma scan_aborts now thr ks k s :
  In k ks -> start_sec s k <> 0 -> thr <= now - start_sec s k -> 2 * thr <= now - start_sec s k ->
  ended (scan now thr ks s) = Some (Exit 1).
Proof.
  intros Hin Hs He H2. revert s Hs He H2. induction ks as [|k' r IH]; intros s Hs He H2; [done|]. cbn [scan].
  destruct (decide (k' = k)) as [->|N].
  - rewrite (proj2 (Z.eqb_neq _ 0)), (proj2 (Z.ltb_ge _ _)), (proj2 (Z.leb_le (2 * thr) _)) by lia. done.
  - destruct Hin as [->|Hin]; [done|]. split_if; [by apply IH|]. split_if; [done|].
    set (s1 := if thr <=? _ then _ else s).
    assert (start_sec s1 k = start_sec s k) as E1 by (unfold s1; by split_if). rewrite <- E1 in *. by apply IH.
Qed.

(** A pass ends in the sleep, or ends the process. *)
Lemma scan_ends now thr ks s :
  monitor (scan now thr ks s) = MSleep \/ ended (scan now thr ks s) = Some (Exit 1).
Proof.
  revert s. induction ks as [|k r IH]; intros s; cbn [scan]; [by left|].
  split_if; [auto|]. set (s1 := if thr <=? _ then _ else s). split_if; [by right|auto].
Qed.

(** From the sleep to the scan: the clock and the threshold are read. *)
Lemma wakes raw s :
  ended s = None -> monitor s = MSleep ->
  run raw (repeat Mon 3) s = Some (set_mon (MScan (clock s) (THRESHOLD_SECS s) TRACKERS) s).
Proof.
  intros En M. cbn [repeat run]. unfold step, monitor_main. rewrite En, M. cbn [mbind option_bind].
  simpl. rewrite En. simpl. by rewrite En.
Qed.

(** The monitor takes up a tracker whose [start_sec] it has just read. *)
Lemma monitor_takes_up s s' now thr k start r :
  monitor_main s = Some s' -> monitor s' = MCheck now thr k start r ->
  start = start_sec s k /\ start <> 0 /\ clock s' = clock s /\ THRESHOLD_SECS s' = THRESHOLD_SECS s.
Proof.
  intros E M. unfold monitor_main in E.
  destruct (monitor s) as [| | |?|? ? [|k' ?]|? ? ? ? ?|? ? ? ? ?|? ? ? ? ?|? ? ? ?] eqn:Ms;
    repeat case_match; simplify_eq; simpl in M; simplify_eq; try congruence.
  zify_bool. done.
Qed.

(** ** Properties *)

Section DetectorProperties.
Context (raw : option bytes).

(** C23: In every interleaving of the threads of ssh with the monitor, the
    detector never panics, each line it writes is the abort line or a
    warning for at least the threshold, and whenever the monitor takes up
    a tracker, a call on it is in flight that has lasted that long. *)
Theorem no_false_alarm t s :
  0 <= t <= LONG_MAX -> reaches raw (fun _ => True) (loaded t) s ->
  ended s <> Some Panic /\
  (forall l, In l (stderr_out s) ->
     l = abort_line \/ exists k e, l = stuck_text k e /\ THRESHOLD_SECS s <= e <= clock s) /\
  (forall s' now thr k start r,
     step raw Mon s = Some s' -> monitor s' = MCheck now thr k start r ->
     in_flight s k start /\ THRESHOLD_SECS s <= now - start /\ now <= clock s).
Proof.
  intros Ht R. pose proof (inv_reaches raw _ t s Ht R) as I. split_and!; [apply I|apply I|].
  intros s' now thr k start r E M. pose proof (inv_step raw Mon s s' I E) as I'.
  pose proof (inv_mon _ I') as Mk. unfold mon_ok in Mk. rewrite M in Mk.
  unfold step in E. destruct (ended s); [done|].
  destruct (monitor_takes_up s s' now thr k start r E M) as (-> & N & Hc & Hthr).
  destruct (inv_start s I k) as [?|[_ F]]; [done|]. split; [done|lia].
Qed.

(** A pass of the monitor over the trackers while a call is inside a real
    function. *)
Lemma pass_ok t s k prev stamp now :
  0 < t <= LONG_MAX -> reaches raw by_thread0 (loaded t) s -> ended s = None ->
  In (k, InReal prev stamp) (threads s 0%nat) -> 0 <= now <= clock s -> 2 * THRESHOLD_SECS s <= LONG_MAX ->
  0 < start_sec s k /\ 0 < THRESHOLD_SECS s /\ 0 <= last_warn_sec s k /\ In k TRACKERS /\
  exists n, (n <= 26)%nat /\
    run raw (repeat Mon n) (set_mon (MScan now (THRESHOLD_SECS s) TRACKERS) s) =
      Some (scan now (THRESHOLD_SECS s) TRACKERS s).
Proof.
  intros Ht R En Hin Hn H2.
  assert (inv s) as I by (eapply inv_reaches; [|exact R]; lia).
  pose proof (alone_reaches raw t s ltac:(lia) R) as A.
  pose proof (nested_owner k prev stamp _ (alone_nested s A) Hin) as O. rewrite <- (alone_start s A) in O.
  pose proof (inv_clock s I). pose proof (inv_thr s I).
  assert (forall k, 0 <= start_sec s k <= LONG_MAX) as Hs by (intros k'; destruct (inv_start s I k'); lia).
  assert (forall k, 0 <= last_warn_sec s k <= LONG_MAX) as Hw by (intros k'; pose proof (inv_last s I k'); lia).
  specialize (Hs k) as Hk. specialize (Hw k) as Hwk.
  assert (In k TRACKERS) as Kin by (unfold TRACKERS; destruct k; simpl; auto 10).
  split_and!; [lia|lia|lia|done|].
  destruct (scan_runs raw now (THRESHOLD_SECS s) TRACKERS s) as (n & Ln & E); [split_and!; auto; lia|].
  exists n. split; [simpl in Ln; lia|done].
Qed.

(** A pass over a call that has hung for the threshold and was not warned
    about yet. *)
Lemma hung_call_ok t s k prev stamp now :
  0 < t <= LONG_MAX -> reaches raw by_thread0 (loaded t) s -> ended s = None ->
  In (k, InReal prev stamp) (threads s 0%nat) ->
  now <= clock s -> start_sec s k + THRESHOLD_SECS s <= now -> last_warn_sec s k = 0 ->
  2 * THRESHOLD_SECS s <= LONG_MAX ->
  0 < start_sec s k /\
  exists n s', (n <= 26)%nat /\
    run raw (repeat Mon n) (set_mon (MScan now (THRESHOLD_SECS s) TRACKERS) s) = Some s' /\
    (In (stuck_text k (now - start_sec s k)) (stderr_out s') \/ ended s' = Some (Exit 1)) /\
    (start_sec s k + 2 * THRESHOLD_SECS s <= now -> ended s' = Some (Exit 1)).
Proof.
  intros Ht R En Hin Hn He Hl H2.
  destruct (pass_ok t s k prev stamp (Z.max 0 now) Ht R En Hin) as (K1 & K2 & K3 & Kin & n & Ln & E); [|done|].
  { pose proof (inv_clock s (inv_reaches raw _ t s ltac:(lia) R)). lia. }
  rewrite Z.max_r in E by lia. split; [done|].
  exists n, (scan now (THRESHOLD_SECS s) TRACKERS s). split_and!; [done|done| |].
  - apply scan_warns; auto; lia.
  - intros H2'. apply (scan_aborts _ _ _ k); auto; lia.
Qed.

(** C24: In a single-threaded ssh whose monitor thread exists no hung call
    escapes it.  Every call inside a real function has a running tracker,
    nested calls included.  When the monitor wakes from its sleep and is
    not disturbed, it comes back to sleep (or ends the process) within 29
    steps, one reading of the clock among them; if the call has then
    lasted for the threshold, the warning has been written (or the process
    ended) unless one was written within the last threshold seconds; and
    if it has lasted twice the threshold, warned about or not, the process
    has been ended. *)
Theorem hung_call_detected t s k prev stamp :
  0 < t <= LONG_MAX -> reaches raw by_thread0 (loaded t) s -> ended s = None -> monitor s = MSleep ->
  In (k, InReal prev stamp) (threads s 0%nat) -> 2 * THRESHOLD_SECS s <= LONG_MAX ->
  0 < start_sec s k /\
  exists n s', (n <= 29)%nat /\ run raw (repeat Mon n) s = Some s' /\
    (monitor s' = MSleep \/ ended s' = Some (Exit 1)) /\
    (THRESHOLD_SECS s <= clock s - start_sec s k -> THRESHOLD_SECS s <= clock s - last_warn_sec s k ->
       In (stuck_text k (clock s - start_sec s k)) (stderr_out s') \/ ended s' = Some (Exit 1)) /\
    (2 * THRESHOLD_SECS s <= clock s - start_sec s k -> ended s' = Some (Exit 1)).
Proof.
  intros Ht R En M Hin H2. pose proof (inv_clock s (inv_reaches raw _ t s ltac:(lia) R)).
  destruct (pass_ok t s k prev stamp (clock s) Ht R En Hin) as (K1 & K2 & K3 & Kin & n & Ln & E); [lia|done|].
  split; [done|]. exists (3 + n)%nat, (scan (clock s) (THRESHOLD_SECS s) TRACKERS s).
  split_and!; [lia| |apply scan_ends| |].
  - rewrite repeat_app, run_app, (wakes raw s En M). exact E.
  - intros. apply scan_warns; auto; lia.
  - intros. apply (scan_aborts _ _ _ k); auto; lia.
Qed.

End DetectorProperties.

(** The bytes [warn_stderr] writes are the documented line, in full,
    for every tracker and every 64-bit time; and a chunk of stderr with
    that line in it, not behind a NUL, is fatal for the supervisor's
    drain. *)
Theorem warning_reaches_supervisor k secs :
  secs <= LONG_MAX ->
  exists l, warn_stderr (name k) secs = Some l /\ l = stuck_text k (Z.max 0 secs) /\
    (forall a b, nul_free a = true -> fatal (a ++ l ++ b) = true).
Proof.
  intros Hs. eexists. split; [by apply warn_stderr_text|]. split; [done|]. intros a b. apply stuck_text_fatal.
Qed.

(** ** Runs and witnesses *)

(** Two threads that overlap without nesting: the first to return clears
    the tracker under the second, which then hangs unseen. *)
Lemma overlap_loses_tracker :
  match run None [Call 0 Recv true; Advance 0; Advance 0; Advance 0; Tick 1; Call 1 Recv true; Advance 1; Advance 1;
                  Advance 0; Advance 0; Tick 100] (loaded 1000) with
  | Some s => In (Recv, InReal 1000 0) (threads s 1%nat) /\ start_sec s Recv = 0
  | None => False
  end.
Proof. vm_compute. auto. Qed.

(** ssh enters [recv] at time 1000 and stays; 40 seconds pass and the
    monitor wakes up. *)
Definition hang : list act :=
  [Call 0 Recv true; Advance 0; Advance 0; Advance 0; Tick 40; Mon; Mon; Mon].

(** Before it wakes up; and half a minute after the pass that warned. *)
Definition asleep : list act := [Call 0 Recv true; Advance 0; Advance 0; Advance 0; Tick 40].
Definition warned : list act := asleep ++ repeat Mon 13 ++ [Tick 25].

Lemma run_reaches P raw l s0 s : Forall P l -> run raw l s0 = Some s -> reaches raw P s0 s.
Proof.
  revert s. induction l as [|a l IH] using rev_ind; intros s F E; [injection E as <-; constructor|].
  apply Forall_app in F as [F1 F2]. rewrite run_app in E. destruct (run raw l s0) as [s1|] eqn:E1; [|done].
  cbn [mbind option_bind run] in E. destruct (step raw a s1) as [s2|] eqn:E2; [|done]. injection E as <-.
  eapply reaches_step; [by apply IH|by inversion F2|done].
Qed.

Definition hung_state : det := default (loaded 0) (run None hang (loaded 1000)).

Lemma no_false_alarm_witness :
  ended hung_state <> Some Panic /\
  (forall l, In l (stderr_out hung_state) ->
     l = abort_line \/ exists k e, l = stuck_text k e /\ THRESHOLD_SECS hung_state <= e <= clock hung_state) /\
  (forall s' now thr k start r,
     step None Mon hung_state = Some s' -> monitor s' = MCheck now thr k start r ->
     in_flight hung_state k start /\ THRESHOLD_SECS hung_state <= now - start /\ now <= clock hung_state).
Proof.
  apply (no_false_alarm None 1000 hung_state); [vm_compute; split; discriminate|].
  apply (run_reaches _ None hang); [repeat constructor|vm_compute; reflexivity].
Defined.

Definition warned_state : det := default (loaded 0) (run None warned (loaded 1000)).

(** The call was warned about after 40 seconds; after 65 it ends ssh. *)
Lemma hung_call_detected_witness :
  stderr_out warned_state = [stuck_text Recv 40] /\ last_warn_sec warned_state Recv = 1040 /\
  0 < start_sec warned_state Recv /\
  exists n s', (n <= 29)%nat /\ run None (repeat Mon n) warned_state = Some s' /\
    (monitor s' = MSleep \/ ended s' = Some (Exit 1)) /\
    (THRESHOLD_SECS warned_state <= clock warned_state - start_sec warned_state Recv ->
     THRESHOLD_SECS warned_state <= clock warned_state - last_warn_sec warned_state Recv ->
       In (stuck_text Recv (clock warned_state - start_sec warned_state Recv)) (stderr_out s') \/
       ended s' = Some (Exit 1)) /\
    (2 * THRESHOLD_SECS warned_state <= clock warned_state - start_sec warned_state Recv ->
       ended s' = Some (Exit 1)).
Proof.
  split; [vm_compute; reflexivity|]. split; [vm_compute; reflexivity|].
  apply (hung_call_detected None 1000 warned_state Recv 0 1000).
  - vm_compute. split; discriminate || reflexivity.
  - apply (run_reaches _ None warned); [repeat constructor|vm_compute; reflexivity].
  - vm_compute. reflexivity.
  - vm_compute. reflexivity.
  - vm_compute. auto.
  - vm_compute. discriminate.
Defined.

Lemma warning_reaches_supervisor_witness :
  exists l, warn_stderr (name Connect) 35 = Some l /\ l = stuck_text Connect (Z.max 0 35) /\
    (forall a b, nul_free a = true -> fatal (a ++ l ++ b) = true).
Proof. apply (warning_reaches_supervisor Connect 35). vm_compute. discriminate. Defined.

Lemma documented_line :
  warn_stderr (name Connect) 35 = Some (lit "ssh-stuck-detector: STUCK in connect() for 35 secs" ++ [nl]).
Proof. reflexivity. Qed.
