(* ===== verification/Compose.v ===== *)
(** * Components together

    The stuck detector inside ssh and the supervisor outside it: a call
    that hangs past the threshold makes the detector write a line to ssh's
    stderr, the drain of the supervisor recognises it, and the watch kills
    and restarts ssh. *)

From Stdlib Require Import Ascii String.
From stdpp Require Import base option list strings gmap functions.
From S2P Require Import Prelude CNum Machine Signals Trace Log Kill Stderr Timing Wait Conn Watch Detector.

Section Supervisor.
Context {H : Host}.

(** What the supervisor does with the chunks [cs] of a wait: it restarts
    ssh when one of them is fatal, and goes on watching otherwise. *)
Definition wait_verdict (w : world) (cs : list bytes) (d : next) (w' : world) : Prop :=
  reads (trace w') = cs ++ reads (trace w) /\
  if existsb fatal cs
  then d = Return P_RESTART /\ ints w' cchild = 0 /\
       kill_sequence (ints w cchild) (kill_calls (trace w)) (kill_calls (trace w'))
  else d = Again /\ ints w' cchild = ints w cchild /\ kill_calls (trace w') = kill_calls (trace w).

Lemma check_ssh_stderr_drained w :
  wp check_ssh_stderr (fun v w' => exists cs, drained w cs v w') (fun _ _ => True) w.
Proof.
  unfold check_ssh_stderr. wp_step. wp_step. wp_step.
  - wp_step. by exists [].
  - eapply wp_mono; [apply drain_ok|done|done].
Qed.

(** A drain reports a problem exactly when a chunk it read is fatal. *)
Lemma drained_fatal w cs v w' : drained w cs v w' -> v = (if existsb fatal cs then 1 else 0).
Proof.
  intros (_ & _ & D). destruct cs as [|c older]; [by destruct D|]. destruct D as (F & -> & _). simpl.
  destruct (fatal c); [done|]. simpl. replace (existsb fatal older) with false; [done|].
  clear - F. induction older as [|o older IH]; [done|]. simpl in *. apply andb_prop in F as [Fo F].
  rewrite IH by done. by destruct (fatal o).
Qed.

(** The history as the verdict sees it: reads, kills, the child. *)
Definition same_view (w w' : world) : Prop :=
  reads (trace w') = reads (trace w) /\ kill_calls (trace w') = kill_calls (trace w) /\
  ints w' cchild = ints w cchild.

Lemma same_view_eff V P w w' :
  eff V P w w' -> touches V cchild = false ->
  (forall c, P c = true -> match c with Sys_read _ _ | Sys_kill _ _ => false | _ => true end = true) ->
  same_view w w'.
Proof.
  intros E HV HP. split_and!; [| |by apply E].
  - eapply reads_inert; [apply E|]. intros c Hc. apply HP in Hc. by destruct c.
  - eapply kill_calls_same; [apply E|]. intros c Hc. apply HP in Hc. by destruct c.
Qed.

Lemma kill_reads w : wp ssh_kill (fun _ w' => reads (trace w') = reads (trace w)) (fun _ _ => True) w.
Proof.
  eapply wp_mono; [apply ssh_kill_eff| |done]. cbv beta. intros _ w' E.
  eapply reads_inert; [apply E|by intros []].
Qed.

Lemma kill_and_restart_port_view sm w :
  wp (kill_and_restart_port sm)
    (fun d w' => reads (trace w') = reads (trace w) /\ d = Return P_RESTART /\ ints w' cchild = 0 /\
       kill_sequence (ints w cchild) (kill_calls (trace w)) (kill_calls (trace w')))
    (fun _ _ => True) w.
Proof.
  unfold kill_and_restart_port, ret. wp_step.
  eapply wp_mono; [apply wp_and; [apply ssh_kill_ok|apply kill_reads]| |done]. cbv beta.
  intros _ w1 [(C1 & _ & _ & K1 & _) R1]. wp_step. apply wp_errlog; [|done]. intros w2 E2.
  destruct (same_view_eff _ _ _ _ E2) as (R2 & K2 & C2); [done|by intros []|].
  wp_step. apply wp_sys; [|done]. intros w3 T3 E3. wp_step.
  unfold sigprocmask_set. wp_step. hnf. apply wp_bind. apply wp_sys; [|done]. intros w4 T4 E4. do 2 wp_step.
  assert (reads (trace w4) = reads (trace w2) /\ kill_calls (trace w4) = kill_calls (trace w2)) as [R4 K4].
  { rewrite T4. cbn [trace set_mask]. rewrite T3. by autorewrite with trace. }
  rewrite R4, K4, R2, K2. split_and!; auto.
  rewrite (eff_ints _ _ _ _ E4) by done. cbn [ints set_mask]. rewrite (eff_ints _ _ _ _ E3) by done. congruence.
Qed.

(** A wait with a stderr descriptor gives the restart verdict exactly when
    one of the chunks it read is fatal, and then the child has been killed;
    otherwise the child is left alone and the watch goes on. *)
Lemma wait_with_stderr_ok sm fd w :
  wp (wait_with_stderr sm fd) (fun d w' => exists cs, wait_verdict w cs d w') (fun _ _ => True) w.
Proof.
  unfold wait_with_stderr. wp_step.
  eapply wp_mono; [apply sys_under_ok| |done]. cbv beta. intros p w1 (_ & T1 & E1).
  assert (same_view w w1) as (R1 & K1 & C1).
  { split_and!; [by rewrite T1|by rewrite T1|by apply E1]. }
  do 2 wp_step. set (w2 := set_ints _ w1). assert (same_view w w2) as V2.
  { split_and!; [done|done|]. subst w2. cbn [ints set_ints]. by rewrite wr_ne. }
  clearbody w2. clear T1 E1 R1 K1 C1 w1. destruct V2 as (R2 & K2 & C2). wp_step.
  eapply (wp_mono _ (fun v w3 => exists cs, reads (trace w3) = cs ++ reads (trace w) /\
    v = (if existsb fatal cs then 1 else 0) /\ kill_calls (trace w3) = kill_calls (trace w) /\
    ints w3 cchild = ints w cchild) _ (fun _ _ => True)); [| |done].
  { wp_step; [|wp_step; by exists []].
    eapply wp_mono; [apply wp_and; [apply check_ssh_stderr_drained|apply check_ssh_stderr_eff]| |done]. cbv beta.
    intros v w3 [(cs & D) E3]. exists cs. rewrite (drained_fatal _ _ _ _ D). destruct D as (R & _ & _).
    split_and!; [by rewrite R, R2|done| |by rewrite (eff_ints _ _ _ _ E3)].
    rewrite <- K2. eapply kill_calls_same; [apply E3|by intros []]. }
  cbv beta. intros v w3 (cs & R3 & -> & K3 & C3). unfold wait_verdict. wp_step.
  - destruct (existsb fatal cs) eqn:F; [|done].
    eapply wp_mono; [apply kill_and_restart_port_view| |done]. cbv beta. rewrite R3, K3, C3.
    intros d w4 (R4 & -> & C4 & K4). exists cs. by rewrite F, R4.
  - destruct (existsb fatal cs) eqn:F; [done|]. wp_step.
    eapply (wp_mono _ (fun _ => same_view w3) _ (fun _ _ => True)); [|intros _ w4 (R4 & K4 & C4)|done].
    + wp_step; [|by wp_step]. eapply wp_mono; [apply stderr_closed_eff| |done]. cbv beta. intros _ w4 E4.
      eapply same_view_eff; [exact E4|done|by intros []].
    + wp_step. exists cs. rewrite F, R4, K4, C4. by split_and!.
Qed.

End Supervisor.

(** ** Properties *)

(** C16: From a hang to the restart, across the two processes: in a
    single-threaded ssh a call that has hung for the threshold and was not
    warned about yet makes the next pass of the detector over the trackers
    end ssh or write its warning to stderr;
    and a wait of the supervisor that reads a chunk with that line in it kills
    the child, by SIGTERM and if need be SIGKILL, and returns the restart
    verdict. *)
Theorem hung_ssh_is_restarted {H : Host} raw t s k prev stamp now sm fd w :
  0 < t <= LONG_MAX -> reaches raw by_thread0 (loaded t) s -> ended s = None ->
  In (k, InReal prev stamp) (threads s 0%nat) ->
  now <= clock s -> start_sec s k + THRESHOLD_SECS s <= now -> last_warn_sec s k = 0 ->
  2 * THRESHOLD_SECS s <= LONG_MAX ->
  exists n s', (n <= 26)%nat /\
    run raw (repeat Mon n) (set_mon (MScan now (THRESHOLD_SECS s) TRACKERS) s) = Some s' /\
    (In (stuck_text k (now - start_sec s k)) (stderr_out s') \/ ended s' = Some (Exit 1)) /\
    wp (wait_with_stderr sm fd)
      (fun d w' => exists cs, reads (trace w') = cs ++ reads (trace w) /\
         forall a b, nul_free a = true -> In (a ++ stuck_text k (now - start_sec s k) ++ b) cs ->
           d = Return P_RESTART /\ ints w' cchild = 0 /\
           kill_sequence (ints w cchild) (kill_calls (trace w)) (kill_calls (trace w')))
      (fun _ _ => True) w.
Proof.
  intros Ht R En Hin Hn He Hl H2.
  destruct (hung_call_ok raw t s k prev stamp now Ht R En Hin Hn He Hl H2) as (_ & n & s' & Ln & E & W & _).
  exists n, s'. split_and!; [done|done|done|].
  eapply wp_mono; [apply wait_with_stderr_ok| |done]. cbv beta. intros d w' (cs & Rd & V). exists cs.
  split; [done|]. intros a b Na Hc. replace (existsb fatal cs) with true in V; [done|].
  symmetry. apply existsb_exists. eexists. split; [exact Hc|]. by apply stuck_text_fatal.
Qed.

(** ** Witness *)

(** The supervisor reads the line of the hung [recv]. *)
Definition warned_host : Host := mock_host (at_time Watch.t0 (fun c =>
  match c with
  | Sys_ppoll _ _ => [poll_reply POLLIN]
  | Sys_read _ _ => [data_reply (stuck_text Recv 40)]
  | Sys_waitpid _ _ => [wait_reply 9999 15]
  | _ => []
  end)).

Lemma hung_ssh_is_restarted_witness :
  result (@wait_with_stderr warned_host ∅ 42 (unit_world unit_ints)) = inl (Return P_RESTART) /\
  let l := stuck_text Recv 40 in
  exists n s', (n <= 26)%nat /\
    run None (repeat Mon n) (set_mon (MScan 1040 (THRESHOLD_SECS hung_state) TRACKERS) hung_state) = Some s' /\
    (In l (stderr_out s') \/ ended s' = Some (Exit 1)) /\
    wp (@wait_with_stderr warned_host ∅ 42)
      (fun d w' => exists cs, reads (trace w') = cs ++ [] /\
         forall a b, nul_free a = true -> In (a ++ l ++ b) cs ->
           d = Return P_RESTART /\ ints w' cchild = 0 /\ kill_sequence 9999 [] (kill_calls (trace w')))
      (fun _ _ => True) (unit_world unit_ints).
Proof.
  split; [vm_compute; reflexivity|].
  apply (@hung_ssh_is_restarted warned_host None 1000 hung_state Recv 0 1000 1040 ∅ 42 (unit_world unit_ints)).
  - vm_compute. split; discriminate || reflexivity.
  - apply (run_reaches _ None hang); [repeat constructor|vm_compute; reflexivity].
  - vm_compute. reflexivity.
  - vm_compute. auto.
  - vm_compute. discriminate.
  - vm_compute. discriminate.
  - vm_compute. reflexivity.
  - vm_compute. discriminate.
Defined.
