(* ===== verification/Api.v ===== *)
(** * The C interface (src/api.rs)

    Configuration, command line and environment of the supervisor, and the
    life cycle of a session in the embedding process.  A session is a
    record; an operation on it runs in the monad of the process and returns
    the new record. *)

From Stdlib Require Import Ascii String SpecFloat.
From stdpp Require Import base option list strings gmap functions.
From S2P Require Import Prelude CNum Machine Signals Trace Log Kill Stderr Timing Wait Preload Conn Watch Run Args Env MainLogic Double.

(** ** Results *)

Inductive res (A : Type) := Ok (a : A) | Err (e : bytes).
Arguments Ok {A} a.
Arguments Err {A} e.

#[global] Instance res_ret : MRet res := fun A a => Ok a.
#[global] Instance res_bind : MBind res := fun A B k m =>
  match m with Ok a => k a | Err e => Err e end.

(** ** Configuration *)

Definition AUTOSSH_SESSION_MONITOR_DISABLED : Z := 1.
Definition AUTOSSH_STATE_INIT : Z := 0.
Definition AUTOSSH_STATE_STARTING : Z := 1.
Definition AUTOSSH_STATE_RUNNING : Z := 2.
Definition AUTOSSH_STATE_EXITED : Z := 3.
Definition AUTOSSH_STATE_STOPPED : Z := 4.
Definition AUTOSSH_STATE_ERROR : Z := 5.
Definition DEFAULT_BIND_HOST : bytes := lit "127.0.0.1".
Definition DEFAULT_TARGET_PORT : Z := 22.
Definition DEFAULT_START_TIMEOUT_MS : Z := 15000.

(** The struct of the header; a pointer to characters is NULL or a buffer
    with a terminator, the array of arguments NULL or its cells.  A caller
    must pass at least [c_extra_ssh_args_len] cells. *)
Record autossh_session_config := Config {
  struct_size : Z;
  c_ssh_path : option bytes;
  c_ssh_destination : option bytes;
  c_target_host : option bytes;
  c_target_port : Z;
  c_bind_host : option bytes;
  c_local_port : Z;
  c_monitor_host : option bytes;
  c_monitor_port : Z;
  c_flags : Z;
  c_poll_time : Z;
  c_first_poll_time : Z;
  c_gate_time : spec_float;
  c_max_start : Z;
  c_max_session : spec_float;
  c_start_timeout_ms : Z;
  c_extra_ssh_args : option (list (option bytes));
  c_extra_ssh_args_len : nat
}.

(** [size_of] the struct with 8-byte pointers and natural alignment. *)
Definition SIZE_OF_CONFIG : Z := 128.

(** What [autossh_session_config_init] writes through a pointer that is
    not NULL. *)
Definition config_defaults : autossh_session_config :=
  Config SIZE_OF_CONFIG None None None DEFAULT_TARGET_PORT None 0 None 0 0 0 0 (S754_zero false) (-1)
    (S754_zero false) DEFAULT_START_TIMEOUT_MS None 0.

Definition autossh_session_config_init (config : option autossh_session_config) : option autossh_session_config :=
  (fun _ => config_defaults) <$> config.

Record SessionConfig := Session {
  s_ssh_path : option bytes;
  s_ssh_destination : bytes;
  s_target_host : bytes;
  s_target_port : Z;
  s_bind_host : bytes;
  s_local_port : Z;
  s_monitor_host : option bytes;
  s_monitor_port : Z;
  s_monitor_disabled : bool;
  s_poll_time : Z;
  s_first_poll_time : Z;
  s_gate_time : spec_float;
  s_max_start : Z;
  s_max_session : spec_float;
  s_start_timeout_ms : Z;
  s_extra_ssh_args : list bytes
}.

(** [CStr::from_ptr] reads up to the terminator. *)
Definition optional_cstring (ptr : option bytes) (field : bytes) : res (option bytes) :=
  match ptr with
  | None => Ok None
  | Some buf =>
      let s := c_str buf in
      if nul_free s then Ok (Some s) else Err (field ++ lit " contains an interior NUL")
  end.

Definition required_cstring (ptr : option bytes) (field : bytes) : res bytes :=
  o ← optional_cstring ptr field;
  match o with
  | Some s => if is_nil s then Err (field ++ lit " is required") else Ok s
  | None => Err (field ++ lit " is required")
  end.

Definition string_from_cstring (s : bytes) : res bytes :=
  if utf8_valid s then Ok s else Err (lit "configuration contains non-UTF-8 text").

Fixpoint required_all (l : list (option bytes)) : res (list bytes) :=
  match l with
  | [] => Ok []
  | p :: r =>
      s ← required_cstring p (lit "extra_ssh_args item");
      t ← required_all r;
      Ok (s :: t)
  end.

Definition parse_config (config : option autossh_session_config) : res SessionConfig :=
  match config with
  | None => Err (lit "config is NULL")
  | Some c =>
      if struct_size c <? SIZE_OF_CONFIG then Err (lit "config struct_size is too small") else
      ssh_destination ← required_cstring (c_ssh_destination c) (lit "ssh_destination");
      target_host ← required_cstring (c_target_host c) (lit "target_host");
      bind ← optional_cstring (c_bind_host c) (lit "bind_host");
      let bind_host := default DEFAULT_BIND_HOST bind in
      monitor_host ← optional_cstring (c_monitor_host c) (lit "monitor_host");
      ssh_path ← optional_cstring (c_ssh_path c) (lit "ssh_path");
      extra_ssh_args ←
        (if (0 <? c_extra_ssh_args_len c)%nat then
           match c_extra_ssh_args c with
           | None => Err (lit "extra_ssh_args is NULL")
           | Some a => required_all (take (c_extra_ssh_args_len c) a)
           end
         else Ok []);
      Ok (Session ssh_path ssh_destination target_host
            (if c_target_port c =? 0 then DEFAULT_TARGET_PORT else c_target_port c)
            bind_host (c_local_port c) monitor_host (c_monitor_port c)
            (negb (Z.land (c_flags c) AUTOSSH_SESSION_MONITOR_DISABLED =? 0))
            (c_poll_time c) (c_first_poll_time c) (c_gate_time c) (c_max_start c) (c_max_session c)
            (if c_start_timeout_ms c <=? 0 then DEFAULT_START_TIMEOUT_MS else c_start_timeout_ms c)
            extra_ssh_args)
  end.

(** ** The supervisor's command line and environment *)

Definition build_child_argv (config : SessionConfig) : res (list bytes) :=
  bind_host ← string_from_cstring (s_bind_host config);
  target_host ← string_from_cstring (s_target_host config);
  ssh_destination ← string_from_cstring (s_ssh_destination config);
  Ok ([lit "autossh"; lit "-M";
       if s_monitor_disabled config then lit "0" else show_Z (s_monitor_port config);
       lit "-N"; lit "-o"; lit "ExitOnForwardFailure=yes"; lit "-L";
       bind_host ++ lit ":" ++ show_Z (s_local_port config) ++ lit ":" ++ target_host ++ lit ":"
       ++ show_Z (s_target_port config)]
      ++ s_extra_ssh_args config ++ [ssh_destination]).

(** One [setenv] under an [if let] or an [if]. *)
Definition var (k : string) (v : option bytes) : list (string * bytes) :=
  match v with Some v => [(k, v)] | None => [] end.

Definition when_some (b : bool) (v : bytes) : option bytes := if b then Some v else None.

(** The [setenv] calls of [child_main], in order. *)
Definition child_vars (c : SessionConfig) : list (string * bytes) :=
  var "AUTOSSH_PATH" (s_ssh_path c) ++
  var "AUTOSSH_MHOST" (s_monitor_host c) ++
  var "AUTOSSH_POLL" (when_some (0 <? s_poll_time c) (show_Z (s_poll_time c))) ++
  var "AUTOSSH_FIRST_POLL" (when_some (0 <? s_first_poll_time c) (show_Z (s_first_poll_time c))) ++
  var "AUTOSSH_GATETIME" (when_some (f64_ge0 (s_gate_time c)) (show_f64 (s_gate_time c))) ++
  var "AUTOSSH_MAXSTART" (when_some (negb (s_max_start c =? 0)) (show_Z (s_max_start c))) ++
  var "AUTOSSH_MAX_SESSION" (when_some (f64_gt0 (s_max_session c)) (show_f64 (s_max_session c))).

Fixpoint setenv_all (l : list (string * bytes)) : M unit :=
  match l with
  | [] => mret tt
  | (k, v) :: r => setenv k v;; setenv_all r
  end.

(** ** Sessions *)

Record autossh_session := Sess {
  config : SessionConfig;
  pid : Z;
  state : Z;
  last_error : bytes
}.

Definition set_config (c : SessionConfig) (s : autossh_session) : autossh_session :=
  Sess c (pid s) (state s) (last_error s).
Definition set_pid (p : Z) (s : autossh_session) : autossh_session :=
  Sess (config s) p (state s) (last_error s).
Definition set_state (st : Z) (s : autossh_session) : autossh_session :=
  Sess (config s) (pid s) st (last_error s).
Definition set_local_port (p : Z) (c : SessionConfig) : SessionConfig :=
  Session (s_ssh_path c) (s_ssh_destination c) (s_target_host c) (s_target_port c) (s_bind_host c) p
    (s_monitor_host c) (s_monitor_port c) (s_monitor_disabled c) (s_poll_time c) (s_first_poll_time c)
    (s_gate_time c) (s_max_start c) (s_max_session c) (s_start_timeout_ms c) (s_extra_ssh_args c).
Definition set_monitor_port (p : Z) (c : SessionConfig) : SessionConfig :=
  Session (s_ssh_path c) (s_ssh_destination c) (s_target_host c) (s_target_port c) (s_bind_host c) (s_local_port c)
    (s_monitor_host c) p (s_monitor_disabled c) (s_poll_time c) (s_first_poll_time c)
    (s_gate_time c) (s_max_start c) (s_max_session c) (s_start_timeout_ms c) (s_extra_ssh_args c).

(** The message ends up in a C string. *)
Definition set_error (s : autossh_session) (message : bytes) : Z * autossh_session :=
  (-1, Sess (config s) (pid s) AUTOSSH_STATE_ERROR
         (if nul_free message then message else lit "error message contains an interior NUL")).

Section Api.
Context {H : Host} {G : Getopt}.

Definition kill_pid (p signal : Z) : M bool :=
  if p <=? 0 then mret false
  else r ← sys (Sys_kill p signal); mret (r_ret r =? 0).

(** Resolution of [(host, port)]; the address is kept as the pair. *)
Definition bind_addr (host : bytes) (port : Z) : M (res unit) :=
  r ← sys (Sys_resolve host port);
  let what := lit "resolve " ++ host ++ lit ":" ++ show_Z port ++ lit ": " in
  if r_ret r <? 0 then mret (Err (what ++ r_data r))
  else if r_ret r =? 0 then mret (Err (what ++ lit "no addresses"))
  else mret (Ok tt).

Definition local_port_of (fd : Z) : M (res Z) :=
  a ← sys (Sys_getsockname fd);
  mret (if r_ret a <? 0 then Err (lit "read local address: " ++ r_data a) else Ok (r_ret a)).

(** Drop of a listener. *)
Definition drop_listener (fd : Z) : M unit := sys (Sys_close fd);; mret tt.

Definition reserve_port (host : bytes) : M (res Z) :=
  a ← bind_addr host 0;
  match a with
  | Err e => mret (Err e)
  | Ok _ =>
      l ← sys (Sys_tcp_listen host 0);
      if r_ret l <? 0 then mret (Err (lit "bind " ++ host ++ lit ":0: " ++ r_data l))
      else
        p ← local_port_of (r_ret l);
        drop_listener (r_ret l);;
        mret p
  end.

Definition U16_MAX : Z := 65535.

Fixpoint reserve_monitor_port (n : nat) (host : bytes) : M (res Z) :=
  match n with
  | O => mret (Err (lit "could not reserve adjacent monitor ports"))
  | S n' =>
      a ← bind_addr host 0;
      match a with
      | Err e => mret (Err e)
      | Ok _ =>
          first ← sys (Sys_tcp_listen host 0);
          if r_ret first <? 0 then mret (Err (lit "bind " ++ host ++ lit ":0: " ++ r_data first))
          else
            p ← local_port_of (r_ret first);
            match p with
            | Err e => drop_listener (r_ret first);; mret (Err e)
            | Ok port =>
                if port =? U16_MAX then drop_listener (r_ret first);; reserve_monitor_port n' host
                else
                  b ← bind_addr host (port + 1);
                  match b with
                  | Err e => drop_listener (r_ret first);; mret (Err e)
                  | Ok _ =>
                      second ← sys (Sys_tcp_listen host (port + 1));
                      if r_ret second <? 0 then drop_listener (r_ret first);; reserve_monitor_port n' host
                      else
                        drop_listener (r_ret second);;
                        drop_listener (r_ret first);;
                        mret (Ok port)
                  end
            end
      end
  end.

Definition child_exited (p : Z) : M (option Z) :=
  r ← sys (Sys_waitpid p WNOHANG);
  mret (if r_ret r =? p then Some (r_aux r) else None).

(** The loop of [wait_for_listener]; times are milliseconds. *)
Fixpoint wait_loop (n : nat) (deadline : Z) (host : bytes) (s : autossh_session) : M (res unit) :=
  match n with
  | O => halt NoFuel
  | S n' =>
      now ← sys Sys_now;
      if r_ret now <? deadline then
        e ← child_exited (pid s);
        match e with
        | Some status => mret (Err (lit "autossh supervisor exited early with status " ++ show_Z status))
        | None =>
            c ← sys (Sys_tcp_connect host (s_local_port (config s)) 200);
            if 0 <=? r_ret c then sys (Sys_close (r_ret c));; mret (Ok tt)
            else
              sys (Sys_sleep_ms 100);;
              wait_loop n' deadline host s
        end
      else mret (Err (lit "timed out waiting for local tunnel listener on " ++ host ++ lit ":"
                      ++ show_Z (s_local_port (config s))))
  end.

Definition wait_for_listener (s : autossh_session) : M (res unit) :=
  match string_from_cstring (s_bind_host (config s)) with
  | Err e => mret (Err e)
  | Ok host =>
      a ← bind_addr host (s_local_port (config s));
      match a with
      | Err e => mret (Err e)
      | Ok _ =>
          now ← sys Sys_now;
          wait_loop fuel (r_ret now + s_start_timeout_ms (config s)) host s
      end
  end.

(** The supervisor: never returns. *)
Definition child_main {A} (c : SessionConfig) : M A :=
  setenv_all (child_vars c);;
  match build_child_argv c with
  | Err _ => halt (Exited 2)
  | Ok argv => rc ← autossh_main argv; halt (Exited rc)
  end.

Definition autossh_session_new (c : option autossh_session_config) : option autossh_session :=
  match parse_config c with
  | Err _ => None
  | Ok c => Some (Sess c 0 AUTOSSH_STATE_INIT [])
  end.

(** The five seconds of polling; whether the process is gone. *)
Fixpoint stop_loop (n : nat) (p : Z) : M bool :=
  match n with
  | O => mret false
  | S n' =>
      r ← sys (Sys_waitpid p WNOHANG);
      if (r_ret r =? p) || ((r_ret r =? -1) && (r_errno r =? ECHILD)) then mret true
      else
        sys (Sys_sleep_ms 100);;
        stop_loop n' p
  end.

(** [autossh_session_stop] on a session that is not NULL. *)
Definition stop_session (s : autossh_session) : M (Z * autossh_session) :=
  let p := pid s in
  let s := set_pid 0 s in
  if p <=? 0 then mret (0, set_state AUTOSSH_STATE_STOPPED s)
  else
    kill_pid p SIGTERM;;
    g ← stop_loop 50 p;
    (if g : bool then mret tt else kill_pid p SIGKILL;; sys (Sys_waitpid p 0);; mret tt);;
    mret (0, set_state AUTOSSH_STATE_STOPPED s).

(** The ports a session still has to choose.  A port chosen stays in the
    session when a later step fails. *)
Definition choose_ports (bind_host : bytes) (s : autossh_session) : M (autossh_session * res unit) :=
  l ← (if s_local_port (config s) =? 0 then reserve_port bind_host else mret (Ok (s_local_port (config s))));
  match l with
  | Err e => mret (s, Err e)
  | Ok lp =>
      let s := set_config (set_local_port lp (config s)) s in
      if negb (s_monitor_disabled (config s)) && (s_monitor_port (config s) =? 0) then
        m ← reserve_monitor_port 64 bind_host;
        match m with
        | Err e => mret (s, Err e)
        | Ok mp => mret (set_config (set_monitor_port mp (config s)) s, Ok tt)
        end
      else mret (s, Ok tt)
  end.

(** [autossh_session_start] from the fork on. *)
Definition launch (s : autossh_session) : M (Z * autossh_session) :=
  f ← sys Sys_fork;
  if r_ret f <? 0 then mret (set_error s (lit "fork failed"))
  else if r_ret f =? 0 then child_main (config s)
  else
    let s := set_pid (r_ret f) s in
    w ← wait_for_listener s;
    match w with
    | Ok _ => mret (0, Sess (config s) (pid s) AUTOSSH_STATE_RUNNING [])
    | Err e => r ← stop_session s; mret (set_error r.2 e)
    end.

Definition start_session (s : autossh_session) : M (Z * autossh_session) :=
  if 0 <? pid s then mret (set_error s (lit "session is already started"))
  else
    match string_from_cstring (s_bind_host (config s)) with
    | Err e => mret (set_error s e)
    | Ok bind_host =>
        r ← choose_ports bind_host s;
        match r.2 with
        | Err e => mret (set_error r.1 e)
        | Ok _ => launch (set_state AUTOSSH_STATE_STARTING r.1)
        end
    end.

Definition state_session (s : autossh_session) : M (Z * autossh_session) :=
  if 0 <? pid s then
    e ← child_exited (pid s);
    match e with
    | Some _ => mret (AUTOSSH_STATE_EXITED, set_state AUTOSSH_STATE_EXITED (set_pid 0 s))
    | None => mret (state s, s)
    end
  else mret (state s, s).

(** The exported functions: NULL, or the session behind the pointer. *)
Definition on_session (null : Z) (f : autossh_session -> M (Z * autossh_session))
    (session : option autossh_session) : M (Z * option autossh_session) :=
  match session with
  | None => mret (null, None)
  | Some s => r ← f s; mret (r.1, Some r.2)
  end.

Definition autossh_session_start := on_session (-1) start_session.
Definition autossh_session_stop := on_session (-1) stop_session.
Definition autossh_session_state := on_session AUTOSSH_STATE_ERROR state_session.

Definition autossh_session_free (session : option autossh_session) : M unit :=
  autossh_session_stop session;; mret tt.

End Api.

Definition autossh_session_pid (session : option autossh_session) : Z :=
  match session with None => 0 | Some s => pid s end.
Definition autossh_session_local_port (session : option autossh_session) : Z :=
  match session with None => 0 | Some s => s_local_port (config s) end.
Definition autossh_session_bind_host (session : option autossh_session) : option bytes :=
  s_bind_host ∘ config <$> session.
Definition autossh_session_last_error (session : option autossh_session) : option bytes :=
  last_error <$> session.

(** ** Configuration *)

(** What [parse_config] asks of the struct. *)
Definition given (p : option bytes) : bool :=
  match p with Some buf => negb (is_nil (c_str buf)) | None => false end.

Definition config_valid (c : autossh_session_config) : bool :=
  (SIZE_OF_CONFIG <=? struct_size c) && given (c_ssh_destination c) && given (c_target_host c) &&
  ((c_extra_ssh_args_len c =? 0)%nat ||
   match c_extra_ssh_args c with
   | None => false
   | Some a => forallb given (take (c_extra_ssh_args_len c) a)
   end).

Lemma optional_cstring_ok p f : optional_cstring p f = Ok (c_str <$> p).
Proof. destruct p as [b|]; [|done]. simpl. by rewrite c_str_nul_free. Qed.

Lemma required_cstring_ok p f :
  required_cstring p f = if given p then Ok (c_str (default [] p)) else Err (f ++ lit " is required").
Proof.
  unfold required_cstring, given. rewrite optional_cstring_ok. destruct p as [b|]; [|done]. simpl.
  by destruct (c_str b).
Qed.

Lemma required_all_ok l :
  forallb given l = true -> required_all l = Ok (map (fun p => c_str (default [] p)) l).
Proof.
  induction l as [|p l IH]; [done|]. cbn [forallb required_all map]. intros E. apply andb_prop in E as [E1 E2].
  rewrite required_cstring_ok, E1. cbn [mbind res_bind]. by rewrite IH.
Qed.

Lemma required_all_fails l : forallb given l = false -> exists e, required_all l = Err e.
Proof.
  induction l as [|p l IH]; [done|]. cbn [forallb required_all]. intros E.
  rewrite required_cstring_ok. destruct (given p); [|by eexists]. cbn [mbind res_bind].
  destruct (IH E) as [e ->]. by eexists.
Qed.

(** The record a valid struct becomes. *)
Definition session_config (c : autossh_session_config) : SessionConfig :=
  Session (c_str <$> c_ssh_path c) (c_str (default [] (c_ssh_destination c))) (c_str (default [] (c_target_host c)))
    (if c_target_port c =? 0 then DEFAULT_TARGET_PORT else c_target_port c)
    (default DEFAULT_BIND_HOST (c_str <$> c_bind_host c)) (c_local_port c) (c_str <$> c_monitor_host c)
    (c_monitor_port c) (Z.testbit (c_flags c) 0) (c_poll_time c) (c_first_poll_time c) (c_gate_time c)
    (c_max_start c) (c_max_session c)
    (if c_start_timeout_ms c <=? 0 then DEFAULT_START_TIMEOUT_MS else c_start_timeout_ms c)
    (map (fun p => c_str (default [] p)) (take (c_extra_ssh_args_len c) (default [] (c_extra_ssh_args c)))).

Lemma flag_bit x : negb (Z.land x 1 =? 0) = Z.testbit x 0.
Proof.
  change 1 with (Z.ones 1). rewrite Z.land_ones by lia. change (2 ^ 1) with 2.
  rewrite Zmod_odd. cbn [Z.testbit]. rewrite <- Z.bit0_odd. by destruct (Z.testbit x 0).
Qed.

Lemma parse_config_ok c :
  match parse_config (Some c) with
  | Ok s => config_valid c = true /\ s = session_config c
  | Err _ => config_valid c = false
  end.
Proof.
  unfold parse_config, config_valid. destruct (struct_size c <? SIZE_OF_CONFIG) eqn:E0; zify_bool.
  { by replace (SIZE_OF_CONFIG <=? struct_size c) with false by lia. }
  replace (SIZE_OF_CONFIG <=? struct_size c) with true by lia. rewrite !required_cstring_ok.
  destruct (given (c_ssh_destination c)) eqn:Gd; [|done]. cbn [mbind res_bind andb].
  destruct (given (c_target_host c)) eqn:Gt; [|done]. cbn [mbind res_bind andb].
  rewrite !optional_cstring_ok. cbn [mbind res_bind]. unfold session_config.
  rewrite <- flag_bit. destruct (c_extra_ssh_args_len c) as [|n]; [by simpl|].
  cbn [Nat.ltb Nat.leb Nat.eqb orb]. destruct (c_extra_ssh_args c) as [a|]; [|done].
  destruct (forallb given (take (S n) a)) eqn:Fa.
  - rewrite required_all_ok by done. done.
  - destruct (required_all_fails _ Fa) as [e ->]. done.
Qed.

(** ** The environment of the supervisor *)

Definition add_vars (l : list (string * bytes)) (e : env) : env := foldl (fun e kv => <[kv.1 := kv.2]> e) e l.

Definition child_env (e : env) (c : SessionConfig) : env := add_vars (child_vars c) e.

(** The last value given to [k], or what it had. *)
Fixpoint last_of (k : string) (l : list (string * bytes)) (old : option bytes) : option bytes :=
  match l with
  | [] => old
  | (k', v) :: r => last_of k r (if String.eqb k' k then Some v else old)
  end.

Lemma add_vars_lookup l e k : add_vars l e !! k = last_of k l (e !! k).
Proof.
  revert e. induction l as [|[k' v] l IH]; intros e; [done|]. cbn [last_of]. etrans; [apply IH|]. f_equal. cbn [fst snd].
  destruct (String.eqb_spec k' k) as [->|N]; [apply lookup_insert_eq|by apply lookup_insert_ne].
Qed.

Lemma last_of_app k a b old : last_of k (a ++ b) old = last_of k b (last_of k a old).
Proof. revert old. induction a as [|[k' v] a IH]; intros old; simpl; [done|]. apply IH. Qed.

Lemma last_of_var k k' v old :
  last_of k (var k' v) old = if String.eqb k' k then match v with Some x => Some x | None => old end else old.
Proof. destruct v; simpl; by destruct (String.eqb k' k). Qed.

Ltac child_lookup :=
  unfold child_env; rewrite ?add_vars_lookup; unfold child_vars; rewrite ?last_of_app, ?last_of_var;
  cbn [String.eqb Ascii.eqb Bool.eqb].

(** A variable that [child_main] sets from [v], or leaves. *)
Definition set_from (e : env) (k : string) (v : option bytes) : option bytes :=
  match v with Some x => Some x | None => e !! k end.

Lemma child_env_poll e c : child_env e c !! "AUTOSSH_POLL"%string =
  set_from e "AUTOSSH_POLL" (when_some (0 <? s_poll_time c) (show_Z (s_poll_time c))).
Proof. by child_lookup. Qed.
Lemma child_env_first e c : child_env e c !! "AUTOSSH_FIRST_POLL"%string =
  set_from e "AUTOSSH_FIRST_POLL" (when_some (0 <? s_first_poll_time c) (show_Z (s_first_poll_time c))).
Proof. by child_lookup. Qed.
Lemma child_env_gate e c : child_env e c !! "AUTOSSH_GATETIME"%string =
  set_from e "AUTOSSH_GATETIME" (when_some (f64_ge0 (s_gate_time c)) (show_f64 (s_gate_time c))).
Proof. by child_lookup. Qed.
Lemma child_env_start e c : child_env e c !! "AUTOSSH_MAXSTART"%string =
  set_from e "AUTOSSH_MAXSTART" (when_some (negb (s_max_start c =? 0)) (show_Z (s_max_start c))).
Proof. by child_lookup. Qed.
Lemma child_env_session e c : child_env e c !! "AUTOSSH_MAX_SESSION"%string =
  set_from e "AUTOSSH_MAX_SESSION" (when_some (f64_gt0 (s_max_session c)) (show_f64 (s_max_session c))).
Proof. by child_lookup. Qed.
Lemma child_env_other e c k :
  k = "AUTOSSH_DEBUG"%string \/ k = "AUTOSSH_LOGLEVEL"%string \/ k = "AUTOSSH_MESSAGE"%string \/
  k = "AUTOSSH_MAXLIFETIME"%string -> child_env e c !! k = e !! k.
Proof. intros [->|[->|[->| ->]]]; by child_lookup. Qed.

(** ** Numbers survive the trip *)

(** [x] is the double that holds the integer [z]. *)
Definition holds (x : spec_float) (z : Z) : Prop :=
  match x with
  | S754_zero false => z = 0
  | S754_finite false m e => e <= 0 /\ Z.pos m = z * 2 ^ (- e)
  | _ => False
  end.

Lemma holds_show x z : holds x z -> show_f64 x = show_Z z /\ 0 <= z.
Proof.
  destruct x as [[]| | |[] m e]; try done; [by intros ->|]. intros [He Hm].
  assert (0 < z) by (pose proof (Z.pow_pos_nonneg 2 (- e)); nia).
  split; [by apply show_f64_integral|lia].
Qed.

Lemma show_nonempty n : 0 <= n <= LONG_MAX -> is_nil (show_Z n) = false.
Proof.
  intros Hn. destruct (show_Z n) eqn:E; [|done]. pose proof (strtol_show n Hn) as K. rewrite E in K.
  injection K as <-. done.
Qed.

(** A printed number is accepted by either parser. *)
Lemma accepts_show (e : env) k parse f n :
  e !! k = Some (show_Z n) -> parse = strtol \/ parse = strtoul -> 0 <= n <= LONG_MAX ->
  accepts e k parse f = f n.
Proof.
  intros E P Hn. unfold accepts, malformed. rewrite E, show_nonempty by done.
  destruct P as [->| ->]; [rewrite strtol_show by done|rewrite strtoul_show by (unfold LONG_MAX, ULONG_MAX in *; lia)]; done.
Qed.

Lemma accepts_same (e e' : env) k parse f : e' !! k = e !! k -> accepts e' k parse f = accepts e k parse f.
Proof. unfold accepts. by intros ->. Qed.

(** The configuration the supervisor can read: it parses whole numbers, and
    refuses a count of starts below -1.  [child_main] hands on other values
    as well (see [gate_time_not_kept]). *)
Record expressible (c : SessionConfig) (gate session : Z) : Prop := Expressible {
  ex_poll : is_i32 (s_poll_time c);
  ex_first : is_i32 (s_first_poll_time c);
  ex_start : -1 <= s_max_start c <= i32_max;
  ex_gate : holds (s_gate_time c) gate /\ gate <= LONG_MAX;
  ex_session : holds (s_max_session c) session /\ session <= LONG_MAX
}.

Lemma accepts_set e e' k parse f b n :
  e' !! k = set_from e k (when_some b (show_Z n)) -> parse = strtol \/ parse = strtoul ->
  (b = true -> 0 <= n <= LONG_MAX /\ f n = true) -> accepts e k parse f = true -> accepts e' k parse f = true.
Proof.
  intros E P Hb Ha. destruct b; simpl in E; [|by rewrite (accepts_same e e')].
  destruct (Hb eq_refl) as [Hn Hf]. by rewrite (accepts_show e' k parse f n).
Qed.

Lemma child_env_valid e c gate session :
  env_valid e = true -> expressible c gate session -> env_valid (child_env e c) = true.
Proof.
  intros V [P F S [G GL] [N NL]]. unfold env_valid in *. rewrite !andb_true_iff in V.
  destruct V as (((((((V1 & V2) & V3) & V4) & V5) & V6) & V7) & V8).
  unfold is_i32, i32_min, i32_max, LONG_MAX in *.
  destruct (holds_show _ _ G) as [Gs Gp]. destruct (holds_show _ _ N) as [Ns Np].
  rewrite !andb_true_iff. split_and!.
  - unfold loglevel_valid in *. rewrite child_env_other by auto. destruct (e !! _); [done|].
    rewrite (accepts_same e); [done|]. apply child_env_other. auto.
  - eapply accepts_set; [apply child_env_poll|auto| |done]. unfold LONG_MAX. lia.
  - eapply accepts_set; [apply child_env_first|auto| |done]. unfold LONG_MAX. lia.
  - eapply (accepts_set e _ _ _ _ _ gate); [rewrite child_env_gate, Gs; done|auto| |done]. unfold LONG_MAX. lia.
  - destruct (decide (s_max_start c = -1)) as [E|NE].
    + unfold accepts. rewrite child_env_start, E. reflexivity.
    + eapply accepts_set; [apply child_env_start|auto| |done]. unfold LONG_MAX. lia.
  - unfold message_valid in *. rewrite child_env_other by auto. done.
  - rewrite (accepts_same e); [done|]. apply child_env_other. auto.
  - eapply (accepts_set e _ _ _ _ _ session); [rewrite child_env_session, Ns; done|auto| |done]. unfold LONG_MAX. lia.
Qed.

(** ** Processes *)

Definition is_nap (c : syscall) : bool := match c with Sys_sleep_ms _ => true | _ => false end.
Definition is_stop_call (c : syscall) : bool :=
  is_nap c || match c with Sys_waitpid _ _ => true | _ => false end.

(** The naps of 100 ms taken. *)
Definition naps (t : list event) : Z := count_calls is_nap t.

Lemma naps_cons c r t : naps ((c, r) :: t) = (if is_nap c then 1 else 0) + naps t.
Proof. unfold naps, count_calls. cbn [List.filter fst]. destruct (is_nap c); cbn [List.length]; lia. Qed.

(** The children that were forked and are neither reaped nor sent SIGKILL.
    (A stop ends with SIGKILL and one wait without a time limit.) *)
Definition at_large_step (e : event) (l : list Z) : list Z :=
  match e with
  | (Sys_fork, r) => if 0 <? r_ret r then r_ret r :: l else l
  | (Sys_waitpid p _, r) => if gone r then List.filter (fun q => negb (q =? p)) l else l
  | (Sys_kill p s, _) => if s =? SIGKILL then List.filter (fun q => negb (q =? p)) l else l
  | _ => l
  end.

Definition at_large (t : list event) : list Z := foldr at_large_step [] t.
#[global] Arguments at_large : simpl never.

Lemma at_large_cons e t : at_large (e :: t) = at_large_step e (at_large t).
Proof. done. Qed.

Lemma not_in_filter p l : ~ In p (List.filter (fun q => negb (q =? p)) l).
Proof. rewrite filter_In. intros [_ E]. zify_bool. done. Qed.

Lemma at_large_step_in e l q : no_fork e.1 = true -> In q (at_large_step e l) -> In q l.
Proof.
  destruct e as [c r]. intros N. destruct c; simpl; try done.
  - destruct (sig =? SIGKILL); [|done]. rewrite filter_In. by intros [].
  - destruct (gone r); [|done]. rewrite filter_In. by intros [].
Qed.

(** Without a fork no child appears. *)
Lemma at_large_shrinks w w' q : calls no_fork w w' -> In q (at_large (trace w')) -> In q (at_large (trace w)).
Proof.
  intros (t & -> & F). induction t as [|e t IH]; [done|]. cbn [app forallb] in *. apply andb_prop in F as [F1 F2].
  rewrite at_large_cons. intros Hq%at_large_step_in; auto.
Qed.

Section Processes.
Context {H : Host} {G : Getopt}.

Lemma kill_pid_ok p sig (Q : bool -> world -> Prop) w :
  0 < p ->
  (forall b w', trace w' = (Sys_kill p sig, answer w (Sys_kill p sig)) :: trace w -> Q b w') ->
  wp (kill_pid p sig) Q (fun s _ => s <> NoFuel /\ s <> OutOfBounds) w.
Proof.
  intros Hp HQ. unfold kill_pid. replace (p <=? 0) with false by lia. wp_step.
  apply wp_sys; [|intros s w' _ E; by eapply signal_stop]. intros w1 T1 _. wp_step. auto.
Qed.

(** Polling for the end of the supervisor. *)
Definition polled (p : Z) (n : Z) (w : world) (g : bool) (w' : world) : Prop :=
  kill_calls (trace w') = kill_calls (trace w) /\ naps (trace w') <= naps (trace w) + n /\
  (forall q, In q (at_large (trace w')) -> In q (at_large (trace w))) /\
  (g = true -> ~ In p (at_large (trace w'))).

Lemma stop_loop_ok n p w :
  0 < p -> wp (stop_loop n p) (polled p (Z.of_nat n) w) (fun s _ => s <> NoFuel /\ s <> OutOfBounds) w.
Proof.
  intros Hp. revert w. induction n as [|n IH]; intros w; cbn [stop_loop].
  { wp_step. split_and!; auto; lia || done. }
  wp_step. apply wp_sys; [|intros s w' _ E; by eapply signal_stop]. intros w1 T1 _. set (r := answer w _) in *.
  assert (forall q, In q (at_large (trace w1)) -> In q (at_large (trace w))) as L1
    by (intros q; rewrite T1, at_large_cons; by apply at_large_step_in).
  wp_step.
  - wp_step. split_and!; auto; rewrite T1; [by autorewrite with trace|rewrite naps_cons; simpl; lia|].
    intros _. rewrite at_large_cons. cbn [at_large_step]. replace (gone r) with true; [apply not_in_filter|].
    unfold gone, ECHILD, EINTR in *. apply orb_true_iff in Heqb as [E|E]; zify_bool.
    + by replace (0 <? r_ret r) with true by lia.
    + replace (0 <? r_ret r) with false by lia. replace (r_ret r <? 0) with true by lia.
      by replace (r_errno r =? 4) with false by lia.
  - wp_step. apply wp_sys; [|intros s w' _ E; by eapply signal_stop]. intros w2 T2 _.
    eapply wp_mono; [apply IH| |done]. unfold polled. intros g w' (K & N & L & Gn).
    rewrite T2, T1 in K, N. rewrite T2 in L. autorewrite with trace in K. rewrite !naps_cons in N. simpl in N.
    split_and!; auto. lia.
Qed.

(** The signals of a stop. *)
Definition stop_signals (p : Z) (k k' : list (Z * Z)) : Prop :=
  if p <=? 0 then k' = k
  else k' = (p, SIGTERM) :: k \/ k' = (p, SIGKILL) :: (p, SIGTERM) :: k.

Lemma stop_session_ok s w :
  wp (stop_session s)
    (fun r w' => r = (0, Sess (config s) 0 AUTOSSH_STATE_STOPPED (last_error s)) /\
       stop_signals (pid s) (kill_calls (trace w)) (kill_calls (trace w')) /\
       naps (trace w') <= naps (trace w) + 50 /\
       (forall q, In q (at_large (trace w')) -> In q (at_large (trace w))) /\
       (0 < pid s -> ~ In (pid s) (at_large (trace w'))))
    (fun s _ => s <> NoFuel /\ s <> OutOfBounds) w.
Proof.
  unfold stop_session, stop_signals. destruct (pid s <=? 0) eqn:P; zify_bool.
  { wp_step. split_and!; auto; lia. }
  wp_step. apply kill_pid_ok; [lia|]. intros _ w1 T1. wp_step.
  eapply wp_mono; [apply stop_loop_ok; lia| |done]. intros g w2 (K2 & N2 & L2 & G2).
  rewrite T1 in K2, N2. autorewrite with trace in K2. rewrite naps_cons in N2. simpl in N2.
  assert (forall q, In q (at_large (trace w2)) -> In q (at_large (trace w))) as L2'.
  { intros q Hq%L2. rewrite T1, at_large_cons in Hq. by apply at_large_step_in in Hq. }
  wp_step. destruct g.
  { wp_step. wp_step. rewrite K2. split_and!; auto; lia. }
  wp_step. apply kill_pid_ok; [lia|]. intros _ w3 T3. wp_step.
  apply wp_sys; [|intros st w' _ E; by eapply signal_stop]. intros w4 T4 _. wp_step. wp_step.
  assert (forall q, In q (at_large (trace w4)) -> In q (at_large (trace w3))) as L4
    by (intros q; rewrite T4, at_large_cons; by apply at_large_step_in).
  split_and!; [done| | | |].
  - right. rewrite T4, T3. autorewrite with trace. by rewrite K2.
  - rewrite T4, T3, !naps_cons. simpl. lia.
  - intros q Hq%L4. rewrite T3, at_large_cons in Hq. apply at_large_step_in in Hq; auto.
  - intros _ Hq%L4. rewrite T3, at_large_cons in Hq. cbn [at_large_step] in Hq.
    change (SIGKILL =? SIGKILL) with true in Hq. by apply not_in_filter in Hq.
Qed.

(** The parts of a start before and after the fork do not fork. *)
Definition is_net_call (c : syscall) : bool :=
  is_nap c ||
  match c with
  | Sys_resolve _ _ | Sys_tcp_listen _ _ | Sys_getsockname _ | Sys_close _ | Sys_now | Sys_tcp_connect _ _ _
  | Sys_waitpid _ _ => true
  | _ => false
  end.

Definition net_stop (s : stop) : bool := match s with NoFuel => true | _ => false end.

Lemma bind_addr_eff h p : spec (eff [] is_net_call) (eff_stop [] is_net_call net_stop) (bind_addr h p).
Proof. unfold bind_addr. spec_auto. Qed.

Lemma reserve_port_eff h : spec (eff [] is_net_call) (eff_stop [] is_net_call net_stop) (reserve_port h).
Proof.
  pose proof bind_addr_eff. unfold reserve_port, local_port_of, drop_listener. spec_auto.
Qed.

Lemma reserve_monitor_port_eff n h :
  spec (eff [] is_net_call) (eff_stop [] is_net_call net_stop) (reserve_monitor_port n h).
Proof.
  pose proof bind_addr_eff. induction n as [|n IH]; simpl; unfold local_port_of, drop_listener; spec_auto.
Qed.

Lemma choose_ports_eff h s : spec (eff [] is_net_call) (eff_stop [] is_net_call net_stop) (choose_ports h s).
Proof.
  pose proof reserve_port_eff. pose proof reserve_monitor_port_eff. unfold choose_ports. spec_auto.
Qed.

Lemma wait_for_listener_eff s :
  spec (eff [] is_net_call) (eff_stop [] is_net_call net_stop) (wait_for_listener s).
Proof.
  pose proof bind_addr_eff.
  assert (forall n d h, spec (eff [] is_net_call) (eff_stop [] is_net_call net_stop) (wait_loop n d h s)).
  { intros n d h. induction n as [|n IH]; simpl; unfold child_exited; spec_auto. }
  unfold wait_for_listener. spec_auto.
Qed.

Lemma net_shrinks w w' q : eff [] is_net_call w w' -> In q (at_large (trace w')) -> In q (at_large (trace w)).
Proof. intros E. apply at_large_shrinks. eapply calls_mono; [|apply E]. by intros []. Qed.

(** How a start may end, for the children at large. *)
Definition started (p0 : Z) (w : world) (r : Z * autossh_session) (w' : world) : Prop :=
  (r.1 = 0 /\ state r.2 = AUTOSSH_STATE_RUNNING /\ 0 < pid r.2 /\ last_error r.2 = [] /\
   forall q, In q (at_large (trace w')) -> q = pid r.2 \/ In q (at_large (trace w))) \/
  (r.1 = -1 /\ state r.2 = AUTOSSH_STATE_ERROR /\ (pid r.2 = p0 \/ pid r.2 = 0) /\
   forall q, In q (at_large (trace w')) -> In q (at_large (trace w))).

Lemma child_main_stops {A} c w : exists s w', child_main (A := A) c w = (inr s, w').
Proof.
  unfold child_main. unfold mbind at 1, M_bind at 1. destruct (setenv_all _ w) as [[[]|s] w1]; [|eauto].
  destruct (build_child_argv c) as [argv|m]; [|eexists _, _; done].
  unfold mbind, M_bind. destruct (autossh_main argv w1) as [[rc|s] w2]; eexists _, _; done.
Qed.

Lemma launch_ok s w : wp (launch s) (started (pid s) w) (fun _ _ => True) w.
Proof.
  unfold launch. wp_step. apply wp_sys; [|done]. intros w1 T1 _. set (f := answer w _) in *.
  assert (at_large (trace w1) = if 0 <? r_ret f then r_ret f :: at_large (trace w) else at_large (trace w)) as L1
    by (by rewrite T1).
  wp_step; zify_bool.
  { wp_step. right. rewrite L1. replace (0 <? r_ret f) with false by lia. simpl. auto. }
  wp_step; zify_bool.
  { unfold wp. destruct (child_main_stops (A := Z * autossh_session) (config s) w1) as (st & w2 & ->). done. }
  replace (0 <? r_ret f) with true in L1 by lia. wp_step.
  eapply wp_mono; [apply wait_for_listener_eff| |done]. cbv beta. intros [u|e] w2 E2.
  - wp_step. left. simpl. split_and!; auto; [lia|]. intros q Hq%(net_shrinks _ _ _ E2). rewrite L1 in Hq.
    destruct Hq; auto.
  - wp_step. eapply wp_mono; [apply stop_session_ok| |done]. cbv beta.
    intros r w3 (-> & _ & _ & L3 & N3). wp_step. right. simpl. split_and!; auto.
    intros q Hq. specialize (N3 ltac:(simpl; lia)). simpl in N3.
    pose proof (net_shrinks _ _ _ E2 (L3 q Hq)) as Hq'. rewrite L1 in Hq'. destruct Hq' as [<-|]; done.
Qed.

(** A start leaks no process: it succeeds with the session running and the
    supervisor's pid in it, the only new child, or it fails with the session
    in the error state, no pid taken and no new child left. *)
Lemma start_session_ok s w : wp (start_session s) (started (pid s) w) (fun _ _ => True) w.
Proof.
  unfold start_session. wp_step; zify_bool; [wp_step; right; simpl; auto|].
  destruct (string_from_cstring _) as [h|e]; [|wp_step; right; simpl; auto]. wp_step.
  assert (forall w', wp (choose_ports h s) (fun r _ => pid r.1 = pid s) (fun _ _ => True) w') as Hp.
  { intros w0. unfold choose_ports. wp_step. unfold wp at 1.
    destruct ((if s_local_port (config s) =? 0 then reserve_port h else mret (Ok (s_local_port (config s)))) w0)
      as [[[lp|e]|st] w1]; [|by wp_step|done].
    wp_step; [|by wp_step]. wp_step. unfold wp at 1. destruct (reserve_monitor_port 64 h w1) as [[[mp|e]|st] w2]; done. }
  eapply wp_mono; [apply wp_and; [apply Hp|apply choose_ports_eff]| |done]. cbv beta.
  intros [s1 [u|e]] w1 [Hs1 E1]; cbn [fst snd] in *.
  - eapply wp_mono; [apply launch_ok| |done]. cbv beta. unfold started. simpl. rewrite Hs1.
    intros r w2 [(? & ? & ? & ? & L)|(? & ? & ? & L)]; [left|right]; split_and!; auto.
    + intros q [->|Hq]%L; [by left|right]. by eapply net_shrinks.
    + intros q Hq%L. by eapply net_shrinks.
  - wp_step. right. simpl. rewrite Hs1. split_and!; auto. intros q. by apply net_shrinks.
Qed.

(** *** The supervisor process *)

Lemma setenv_all_run l e : setenv_all l (init_world e) = (inl tt, init_world (add_vars l e)).
Proof. revert e. induction l as [|[k v] l IH]; intros e; [done|]. apply IH. Qed.

Lemma child_main_ok {A} c e :
  wp (child_main (A := A) c) (fun _ _ => False)
    (fun s w' => calm s /\ single_child (trace w') /\
       (build_child_argv c = Err (lit "configuration contains non-UTF-8 text") -> s = Exited 2 /\ trace w' = []))
    (init_world e).
Proof.
  unfold child_main. wp_step. unfold wp at 1. rewrite setenv_all_run.
  destruct (build_child_argv c) as [argv|m]; [|by wp_step]. wp_step.
  eapply wp_mono; [apply autossh_main_ok| |]; cbv beta.
  - intros rc w' [[k []] _]. wp_step. split_and!; done.
  - intros s w' [? ?]. split_and!; done.
Qed.

End Processes.

(** ** Properties *)

(** C30: [parse_config] accepts exactly the structs that are large enough,
    name a destination and a target and have only non-empty extra
    arguments; the record it makes has the documented defaults for zero
    ports, timeouts and NULL hosts.  It never reports an interior NUL. *)
Theorem parse_config_exact c :
  match parse_config (Some c) with
  | Ok s => config_valid c = true /\ s = session_config c
  | Err _ => config_valid c = false
  end.
Proof. apply parse_config_ok. Qed.

(** C29: If the inherited environment is valid and the configuration is
    expressible (gate and session times are integral doubles that are not
    negative, the largest number of starts is at least -1), then the
    environment [child_main] prepares is valid for the supervisor, and each
    number set in it is read back by the parser the supervisor uses as the
    number of the configuration; the gate time always, 0 included, the
    others only when they are not 0 (poll times and the session: positive). *)
Theorem child_env_round_trip e c gate session :
  env_valid e = true -> expressible c gate session ->
  env_valid (child_env e c) = true /\
  (0 < s_poll_time c -> strtoul <$> child_env e c !! "AUTOSSH_POLL"%string = Some (s_poll_time c, [])) /\
  (0 < s_first_poll_time c -> strtoul <$> child_env e c !! "AUTOSSH_FIRST_POLL"%string = Some (s_first_poll_time c, [])) /\
  strtol <$> child_env e c !! "AUTOSSH_GATETIME"%string = Some (gate, []) /\
  (0 <> s_max_start c -> strtol <$> child_env e c !! "AUTOSSH_MAXSTART"%string = Some (s_max_start c, [])) /\
  (0 < session -> strtoul <$> child_env e c !! "AUTOSSH_MAX_SESSION"%string = Some (session, [])).
Proof.
  intros V E. pose proof (child_env_valid e c gate session V E) as Va. destruct E as [P F S [G GL] [N NL]].
  destruct (holds_show _ _ G) as [Gs Gp]. destruct (holds_show _ _ N) as [Ns Np].
  unfold is_i32, i32_min, i32_max in *. split_and!; [done| | | | |].
  - intros Hp. rewrite child_env_poll. replace (0 <? s_poll_time c) with true by lia.
    simpl. rewrite strtoul_show by (unfold ULONG_MAX; lia). done.
  - intros Hp. rewrite child_env_first. replace (0 <? s_first_poll_time c) with true by lia.
    simpl. rewrite strtoul_show by (unfold ULONG_MAX; lia). done.
  - rewrite child_env_gate, Gs. replace (f64_ge0 (s_gate_time c)) with true by (by destruct (s_gate_time c) as [[]| | |[]]).
    simpl. rewrite strtol_show by lia. done.
  - intros Hp. rewrite child_env_start. replace (s_max_start c =? 0) with false by lia. simpl.
    destruct (decide (s_max_start c = -1)) as [->|NE]; [reflexivity|].
    rewrite strtol_show by (unfold LONG_MAX; lia). done.
  - intros Hp. rewrite child_env_session, Ns.
    replace (f64_gt0 (s_max_session c)) with true
      by (destruct (s_max_session c) as [[]| | |[]]; try done; simpl in N; lia).
    simpl. rewrite strtoul_show by (unfold LONG_MAX, ULONG_MAX in *; lia). done.
Qed.

(** The initialised configuration passes a gate time of 0, so the
    supervisor's default of 30 seconds is not kept; a gate time of half a
    second makes the supervisor refuse its environment and exit. *)
Theorem gate_time_not_kept :
  let filled g := Config SIZE_OF_CONFIG None (Some (lit "bastion")) (Some (lit "db")) 0 None 0 None 0 1 0 0 g (-1)
                    (S754_zero false) 0 None 0 in
  let half := S754_finite false 4503599627370496 (-53) in
  child_env ∅ (session_config (filled (c_gate_time config_defaults))) !! "AUTOSSH_GATETIME"%string =
    Some (lit "0") /\
  child_env ∅ (session_config (filled half)) !! "AUTOSSH_GATETIME"%string = Some (lit "0.5") /\
  env_valid (child_env ∅ (session_config (filled half))) = false /\
  result (@child_main alloc_host typical_getopt unit (session_config (filled half)) (init_world ∅)) = inr (Exited 1).
Proof. vm_compute. split_and!; reflexivity. Qed.

Section ApiProperties.
Context {H : Host} {G : Getopt}.

(** C28: A stop always returns 0 with the session stopped and its pid
    cleared; it signals only a positive pid, with SIGTERM or SIGTERM and
    then SIGKILL, naps at most fifty times 100 ms, and leaves the
    supervisor reaped or killed. *)
Theorem stop_session_guarantees s w :
  wp (stop_session s)
    (fun r w' => r = (0, Sess (config s) 0 AUTOSSH_STATE_STOPPED (last_error s)) /\
       stop_signals (pid s) (kill_calls (trace w)) (kill_calls (trace w')) /\
       naps (trace w') <= naps (trace w) + 50 /\
       (forall q, In q (at_large (trace w')) -> In q (at_large (trace w))) /\
       (0 < pid s -> ~ In (pid s) (at_large (trace w'))))
    (fun s _ => s <> NoFuel /\ s <> OutOfBounds) w.
Proof. apply stop_session_ok. Qed.

End ApiProperties.

(** ** Runs and witnesses *)

(** A signal to a child that was reaped or sent SIGKILL before. *)
Fixpoint kills_dead (t : list event) : bool :=
  match t with
  | [] => false
  | (Sys_kill p _, _) :: r => negb (existsb (Z.eqb p) (at_large r)) || kills_dead r
  | _ :: r => kills_dead r
  end.

Definition tunnel : SessionConfig :=
  Session None (lit "bastion") (lit "db") 22 (lit "127.0.0.1") 2222 None 0 true 60 0
    (S754_finite false 8444249301319680 (-48)) (-1) (S754_zero false) 15000 [].

(** The supervisor exits at once; [waitpid] reports it to the start. *)
Definition dying_host : Host := mock_host (fun c =>
  match c with
  | Sys_resolve _ _ => [ret_reply 1]
  | Sys_fork => [ret_reply 777]
  | Sys_waitpid _ _ => [Reply 777 0 256 0 [] []; err_reply 10]
  | _ => []
  end).

Lemma child_env_round_trip_witness :
  env_valid (child_env ∅ tunnel) = true /\
  (0 < s_poll_time tunnel -> strtoul <$> child_env ∅ tunnel !! "AUTOSSH_POLL"%string = Some (s_poll_time tunnel, [])) /\
  (0 < s_first_poll_time tunnel ->
     strtoul <$> child_env ∅ tunnel !! "AUTOSSH_FIRST_POLL"%string = Some (s_first_poll_time tunnel, [])) /\
  strtol <$> child_env ∅ tunnel !! "AUTOSSH_GATETIME"%string = Some (30, []) /\
  (0 <> s_max_start tunnel ->
     strtol <$> child_env ∅ tunnel !! "AUTOSSH_MAXSTART"%string = Some (s_max_start tunnel, [])) /\
  (0 < 0 -> strtoul <$> child_env ∅ tunnel !! "AUTOSSH_MAX_SESSION"%string = Some (0, [])).
Proof.
  apply (child_env_round_trip ∅ tunnel 30 0); [vm_compute; reflexivity|].
  split; vm_compute; repeat split; discriminate.
Defined.
