(* ===== verification/ApiClock.v ===== *)
(** * The deadline of a session start

    [wait_for_listener] of src/api.rs polls until a deadline.  On a host
    whose monotonic clock does not run backwards and whose sleeps last as
    long as asked, the loop ends, after a number of naps the configured
    timeout bounds. *)

From Stdlib Require Import Ascii String.
From stdpp Require Import base option list strings gmap functions.
From S2P Require Import Prelude Machine Signals Trace Log Kill Api.

(** The earliest time (in milliseconds) the clock can show after a
    history. *)
Fixpoint clock_low (t : list event) : Z :=
  match t with
  | [] => 0
  | (Sys_now, r) :: _ => r_ret r
  | (Sys_sleep_ms n, _) :: t' => Z.max 0 n + clock_low t'
  | _ :: t' => clock_low t'
  end.

Class ClockHost (H : Host) := { clock_law : forall h, clock_low h <= r_ret (kernel h Sys_now) }.

Section Clock.
Context {H : Host} {CH : ClockHost H}.

(** What a call leaves of the clock and the naps. *)
Lemma wp_timed c (Q : reply -> world -> Prop) w :
  (forall w', clock_low (trace w') = clock_low ((c, answer w c) :: trace w) ->
     naps (trace w') = (if is_nap c then 1 else 0) + naps (trace w) -> Q (answer w c) w') ->
  wp (sys c) Q (fun st _ => st <> NoFuel) w.
Proof.
  intros HQ. apply wp_sys.
  - intros w' T _. apply HQ; rewrite T; [done|apply naps_cons].
  - intros s w' _ E. by apply signal_stop in E as [? _].
Qed.

Ltac timed w C N := apply wp_timed; intros w C N; cbn [clock_low] in C; cbn [is_nap] in N; cbv iota in N.

Lemma wait_loop_ends n d host s w :
  d - clock_low (trace w) <= 100 * (Z.of_nat n - 1) -> (0 < n)%nat ->
  wp (wait_loop n d host s)
    (fun _ w' => 100 * (naps (trace w') - naps (trace w)) <= Z.max 0 (d - clock_low (trace w) + 99))
    (fun st _ => st <> NoFuel) w.
Proof.
  revert w. induction n as [|n IH]; intros w Hn Hp; [lia|]. cbn [wait_loop].
  wp_step. timed w1 C1 N1.
  pose proof (clock_law (trace w)) as L. fold (answer w Sys_now) in L. set (now := answer w Sys_now) in *.
  wp_step; [|wp_step; lia]. zify_bool. unfold child_exited. do 2 wp_step. timed w2 C2 N2. wp_step.
  destruct (_ =? _); [wp_step; lia|]. wp_step. timed w3 C3 N3. wp_step.
  { wp_step. timed w4 C4 N4. wp_step. lia. }
  wp_step. timed w4 C4 N4.
  rewrite C3, C2, C1 in C4. rewrite N3, N2, N1 in N4.
  eapply wp_mono; [apply IH; rewrite ?C4; lia| |done]. cbv beta. rewrite C4, N4. intros r w5 B. lia.
Qed.

(** C17: Waiting for the tunnel's listener ends: whatever the network and
    the supervisor do, [wait_for_listener] takes at most one nap of 100 ms
    per 100 ms of the timeout and one more, and a loop with that many
    rounds never runs out. *)
Theorem wait_for_listener_terminates s w :
  0 <= s_start_timeout_ms (config s) <= 100 * (Z.of_nat fuel - 1) ->
  wp (wait_for_listener s)
    (fun _ w' => 100 * (naps (trace w') - naps (trace w)) < s_start_timeout_ms (config s) + 100)
    (fun st _ => st <> NoFuel) w.
Proof.
  intros Ht. unfold wait_for_listener. destruct (string_from_cstring _) as [host|e]; [|wp_step; lia].
  unfold bind_addr. do 2 wp_step. timed w1 C1 N1.
  repeat (wp_step; try (wp_step; lia)).
  timed w2 C2 N2.
  eapply wp_mono; [apply wait_loop_ends; lia| |done]. cbv beta. intros r w3 B. lia.
Qed.

End Clock.

(** ** Witness *)

(** A host on which nothing listens: the clock shows the time slept. *)
Definition patient_host : Host := {|
  kernel h c := match c with
                | Sys_now => ret_reply (clock_low h)
                | Sys_resolve _ _ => ret_reply 1
                | Sys_tcp_connect _ _ _ => ret_reply (-1)
                | _ => ok_reply
                end;
  strerror _ := None;
  gai_strerror _ := None;
  SO_BYTES := lit "ELF";
  fuel := 200
|}.

Lemma wait_for_listener_terminates_witness :
  let s := Sess tunnel 777 AUTOSSH_STATE_STARTING [] in
  let r := @wait_for_listener patient_host s (init_world ∅) in
  fst r = inl (Err (lit "timed out waiting for local tunnel listener on 127.0.0.1:2222")) /\
  naps (trace (snd r)) = 150 /\
  wp (@wait_for_listener patient_host s)
    (fun _ w' => 100 * (naps (trace w') - 0) < 15000 + 100) (fun st _ => st <> NoFuel) (init_world ∅).
Proof.
  split; [vm_compute; reflexivity|]. split; [vm_compute; reflexivity|].
  assert (ClockHost patient_host) as CH by (split; intros h; cbn; lia).
  apply (@wait_for_listener_terminates patient_host CH (Sess tunnel 777 AUTOSSH_STATE_STARTING []) (init_world ∅)).
  vm_compute. split; discriminate.
Defined.
