(* ===== verification/ApiSession.v ===== *)
(** * Programs that use the C interface

    A client of src/api.rs holds any number of sessions and calls the
    exported functions on them in any order.  This file models such a
    client: its table of handles, one call, a sequence of calls; and shows
    what the interface promises over the whole sequence: the fields of every
    session stay coherent and every supervisor at large (neither reaped nor
    sent SIGKILL) belongs to a session the client still holds. *)

From Stdlib Require Import Ascii String SpecFloat.
From stdpp Require Import base option list strings gmap functions.
From S2P Require Import Prelude Machine Signals Trace Log Kill MainLogic Api.

(** The pointers the client has got and not freed.  They are distinct, never
    NULL, and the client passes no other. *)
Notation handles := (gmap nat autossh_session).

Inductive call :=
| New (h : nat) (c : option autossh_session_config)
| Start (h : nat)
| Stop (h : nat)
| State (h : nat)
| Free (h : nat).

Section Client.
Context {H : Host} {G : Getopt}.

Definition on_handle (h : nat) (f : option autossh_session -> M (Z * option autossh_session)) (t : handles) :
    M handles :=
  match t !! h with
  | None => mret t
  | Some s => r ← f (Some s); mret (match r.2 with Some s' => <[h := s']> t | None => t end)
  end.

Definition client_call (c : call) (t : handles) : M handles :=
  match c with
  | New h c =>
      match t !! h, autossh_session_new c with
      | None, Some s => mret (<[h := s]> t)
      | _, _ => mret t
      end
  | Start h => on_handle h autossh_session_start t
  | Stop h => on_handle h autossh_session_stop t
  | State h => on_handle h autossh_session_state t
  | Free h =>
      match t !! h with
      | None => mret t
      | Some s => autossh_session_free (Some s);; mret (delete h t)
      end
  end.

Fixpoint client (l : list call) (t : handles) : M handles :=
  match l with
  | [] => mret t
  | c :: l' => t' ← client_call c t; client l' t'
  end.

End Client.

(** ** The contract *)

(** What a client can see of a session between two calls: it is never left
    in the starting state, a running session has a pid, and one that was
    never started, has exited or was stopped has none.  (A session in the
    error state may have one: a second start does not end the first.) *)
Definition coherent (s : autossh_session) : Prop :=
  0 <= pid s /\
  ((state s = AUTOSSH_STATE_RUNNING /\ 0 < pid s) \/ state s = AUTOSSH_STATE_ERROR \/
   (pid s = 0 /\ In (state s) [AUTOSSH_STATE_INIT; AUTOSSH_STATE_EXITED; AUTOSSH_STATE_STOPPED])).

Record accounted (t : handles) (w : world) : Prop := Accounted {
  ac_coherent : forall h s, t !! h = Some s -> coherent s;
  ac_owned : forall q, In q (at_large (trace w)) -> exists h s, t !! h = Some s /\ pid s = q
}.

(** A session changes and the children with it. *)
Lemma accounted_update t w h s s' w' :
  accounted t w -> t !! h = Some s -> coherent s' ->
  (forall q, In q (at_large (trace w')) -> q = pid s' \/ (In q (at_large (trace w)) /\ q <> pid s)) ->
  accounted (<[h := s']> t) w'.
Proof.
  intros [C O] Hs Cs L. split.
  - intros k x. destruct (decide (k = h)) as [->|N].
    + rewrite lookup_insert_eq. by intros [= <-].
    + rewrite lookup_insert_ne by done. apply C.
  - intros q [->|[Hq N]]%L.
    + exists h, s'. by rewrite lookup_insert_eq.
    + destruct (O q Hq) as (k & x & Hk & Ek). exists k, x. split; [|done].
      rewrite lookup_insert_ne; [done|]. intros ->. congruence.
Qed.

Section Contract.
Context {H : Host} {G : Getopt}.

(** Only positive pids are at large. *)
Lemma at_large_positive t q : In q (at_large t) -> 0 < q.
Proof.
  induction t as [|[c r] t IH]; [done|]. rewrite at_large_cons. destruct c; simpl; auto.
  - destruct (_ =? _); [|done]. rewrite filter_In. intros []. auto.
  - destruct (gone r); [|done]. rewrite filter_In. intros []. auto.
  - destruct (0 <? r_ret r) eqn:E; [|done]. zify_bool. intros [<-|]; auto.
Qed.

Lemma stop_accounted t h s w :
  accounted t w -> t !! h = Some s ->
  wp (stop_session s) (fun r w' => accounted (<[h := r.2]> t) w' /\ ~ In (pid s) (at_large (trace w'))) (fun _ _ => True) w.
Proof.
  intros A Hs. eapply wp_mono; [apply stop_session_ok| |done]. cbv beta. intros r w' (-> & _ & _ & L & N). cbn [snd].
  assert (~ In (pid s) (at_large (trace w'))) as N'.
  { intros I. apply N; [|done]. by eapply at_large_positive. }
  split; [|done]. eapply accounted_update; [done|done| |].
  - split; [done|]. right. right. split; [done|]. simpl. auto.
  - intros q Hq. right. split; [auto|]. by intros ->.
Qed.

Lemma start_accounted t h s w :
  accounted t w -> t !! h = Some s ->
  wp (start_session s) (fun r w' => accounted (<[h := r.2]> t) w') (fun _ _ => True) w.
Proof.
  intros A Hs. pose proof (ac_coherent _ _ A h s Hs) as [P0 _].
  destruct (0 <? pid s) eqn:P.
  { unfold start_session. rewrite P. wp_step. eapply accounted_update; [done|done| |].
    - split; [done|]. right. by left.
    - intros q Hq. destruct (decide (q = pid s)); auto. }
  zify_bool. assert (pid s = 0) as Z0 by lia.
  eapply wp_mono; [apply start_session_ok| |done]. cbv beta.
  intros r w' [(_ & S & Pr & _ & L)|(_ & S & Pr & L)]; (eapply accounted_update; [done|done| |]).
  - split; [lia|]. by left.
  - intros q Hq. destruct (L q Hq) as [->|Hq']; [by left|right]. split; [done|].
    apply at_large_positive in Hq'. lia.
  - split; [lia|]. right. by left.
  - intros q Hq%L. right. split; [done|]. apply at_large_positive in Hq. lia.
Qed.

Lemma state_accounted t h s w :
  accounted t w -> t !! h = Some s ->
  wp (state_session s) (fun r w' => accounted (<[h := r.2]> t) w') (fun _ _ => True) w.
Proof.
  intros A Hs. pose proof (ac_coherent _ _ A h s Hs) as C.
  assert (forall w', (forall q, In q (at_large (trace w')) -> In q (at_large (trace w))) -> accounted (<[h := s]> t) w') as Same.
  { intros w' L. eapply accounted_update; [done|done|done|]. intros q Hq%L. destruct (decide (q = pid s)); auto. }
  unfold state_session. wp_step; zify_bool; [|wp_step; by apply Same].
  wp_step. unfold child_exited. wp_step. apply wp_sys; [|done]. intros w1 T1 _. set (r := answer w _) in *.
  wp_step. destruct (r_ret r =? pid s) eqn:Er; zify_bool; wp_step; cbn [snd].
  - eapply accounted_update; [done|done| |].
    + split; [done|]. right. right. split; [done|]. simpl. auto.
    + intros q. rewrite T1, at_large_cons. cbn [at_large_step]. unfold gone. replace (0 <? r_ret r) with true by lia. simpl.
      rewrite filter_In. intros [? N]. right. split; [done|]. intros ->. zify_bool. done.
  - apply Same. intros q. rewrite T1, at_large_cons. by apply at_large_step_in.
Qed.

Lemma on_session_ok null f s (Q : Z * option autossh_session -> world -> Prop) w :
  wp (f s) (fun r => Q (r.1, Some r.2)) (fun _ _ => True) w -> wp (on_session null f (Some s)) Q (fun _ _ => True) w.
Proof. intros Hf. unfold on_session. wp_step. eapply wp_mono; [exact Hf| |done]. cbv beta. intros r w' K. by wp_step. Qed.

Lemma client_call_ok c t w :
  accounted t w -> wp (client_call c t) (fun t' w' => accounted t' w') (fun _ _ => True) w.
Proof.
  intros A. destruct c as [h c|h|h|h|h]; simpl; unfold on_handle.
  - destruct (t !! h) eqn:Hh; [by wp_step|]. unfold autossh_session_new.
    destruct (parse_config c) as [cf|e]; wp_step; [|done]. destruct A as [C O]. split.
    + intros k x. destruct (decide (k = h)) as [->|N].
      * rewrite lookup_insert_eq. intros [= <-]. split; [done|]. right. right. split; [done|]. simpl. auto.
      * rewrite lookup_insert_ne by done. apply C.
    + intros q Hq. destruct (O q Hq) as (k & x & Hk & Ek). exists k, x. split; [|done].
      rewrite lookup_insert_ne; [done|]. congruence.
  - destruct (t !! h) as [s|] eqn:Hh; [|by wp_step]. wp_step. apply on_session_ok.
    eapply wp_mono; [by apply start_accounted| |done]. cbv beta. intros r w' K. by wp_step.
  - destruct (t !! h) as [s|] eqn:Hh; [|by wp_step]. wp_step. apply on_session_ok.
    eapply wp_mono; [by apply stop_accounted| |done]. cbv beta. intros r w' [K _]. by wp_step.
  - destruct (t !! h) as [s|] eqn:Hh; [|by wp_step]. wp_step. apply on_session_ok.
    eapply wp_mono; [by apply state_accounted| |done]. cbv beta. intros r w' K. by wp_step.
  - destruct (t !! h) as [s|] eqn:Hh; [|by wp_step]. unfold autossh_session_free. do 2 wp_step. apply on_session_ok.
    eapply wp_mono; [by apply stop_session_ok| |done]. cbv beta. intros r w' (-> & _ & _ & L & N). do 2 wp_step.
    destruct A as [C O]. split.
    + intros k x. rewrite lookup_delete_Some. intros [_ Hk]. by eapply C.
    + intros q Hq. destruct (O q (L q Hq)) as (k & x & Hk & Ek). exists k, x. split; [|done].
      rewrite lookup_delete_ne; [done|]. intros ->. simplify_eq. apply N; [|done]. by eapply at_large_positive.
Qed.

Lemma client_ok l t w : accounted t w -> wp (client l t) (fun t' w' => accounted t' w') (fun _ _ => True) w.
Proof.
  revert t w. induction l as [|c l IH]; intros t w A; simpl; [by wp_step|]. wp_step.
  eapply wp_mono; [by apply client_call_ok| |done]. cbv beta. auto.
Qed.

End Contract.

(** ** Property *)

(** C25: The C interface leaks no process over any sequence of calls on any
    number of sessions, whatever the host does: between two calls every
    supervisor that was neither reaped nor sent SIGKILL belongs to a
    session the client still holds, so once the client has freed all of its
    sessions none is left; and every session is coherent (a running one has
    a pid, a stopped or exited one has none, none is caught in the starting
    state). *)
Theorem client_leaks_no_supervisor {H : Host} {G : Getopt} l w :
  at_large (trace w) = [] ->
  wp (client l ∅)
    (fun t w' => (forall h s, t !! h = Some s -> coherent s) /\
       (forall q, In q (at_large (trace w')) -> exists h s, t !! h = Some s /\ pid s = q) /\
       (t = ∅ -> at_large (trace w') = []))
    (fun _ _ => True) w.
Proof.
  intros L. eapply wp_mono; [apply client_ok| |done].
  - split; [by intros h s; rewrite lookup_empty|]. intros q. by rewrite L.
  - cbv beta. intros t w' [C O]. split_and!; [done|done|]. intros ->.
    destruct (at_large (trace w')) as [|q r]; [done|]. destruct (O q (or_introl eq_refl)) as (h & s & E & _).
    by rewrite lookup_empty in E.
Qed.

(** ** Witness *)

(** Two tunnels, one of which is polled after it has died; both are freed. *)
Definition tunnels_host : Host := mock_host (fun c =>
  match c with
  | Sys_resolve _ _ => [ret_reply 1; ret_reply 1]
  | Sys_fork => [ret_reply 777; ret_reply 778]
  | Sys_waitpid _ _ => [ok_reply; ok_reply; ret_reply 777; ret_reply 778]
  | _ => []
  end).

Definition tunnel_config (local_port : Z) : autossh_session_config :=
  Config SIZE_OF_CONFIG None (Some (lit "bastion")) (Some (lit "db")) 0 None local_port None 0
    AUTOSSH_SESSION_MONITOR_DISABLED 0 0 (S754_zero false) (-1) (S754_zero false) 0 None 0.

Definition two_tunnels : list call :=
  [New 0 (Some (tunnel_config 2222)); New 1 (Some (tunnel_config 2223)); Start 0; Start 1; Start 1; State 0].

Lemma client_leaks_no_supervisor_witness :
  let run l := @client tunnels_host typical_getopt l ∅ (init_world ∅) in
  at_large (trace (run two_tunnels).2) = [778] /\
  (match fst (run two_tunnels) with
   | inl t => map (fun h => match t !! h with Some s => (state s, pid s) | None => (0, 0) end) [0%nat; 1%nat] =
              [(AUTOSSH_STATE_EXITED, 0); (AUTOSSH_STATE_ERROR, 778)]
   | inr _ => False
   end) /\
  kill_calls (trace (run (two_tunnels ++ [Free 1; Free 0])).2) = [(778, SIGTERM)] /\
  at_large (trace (run (two_tunnels ++ [Free 1; Free 0])).2) = [] /\
  wp (@client tunnels_host typical_getopt (two_tunnels ++ [Free 1; Free 0]) ∅)
    (fun t w' => (forall h s, t !! h = Some s -> coherent s) /\
       (forall q, In q (at_large (trace w')) -> exists h s, t !! h = Some s /\ pid s = q) /\
       (t = ∅ -> at_large (trace w') = []))
    (fun _ _ => True) (init_world ∅).
Proof.
  split; [vm_compute; reflexivity|]. split; [vm_compute; reflexivity|].
  split; [vm_compute; reflexivity|]. split; [vm_compute; reflexivity|].
  apply (@client_leaks_no_supervisor tunnels_host typical_getopt (two_tunnels ++ [Free 1; Free 0]) (init_world ∅)).
  reflexivity.
Defined.
