(* ===== verification/ApiRace.v ===== *)
(** * Stop and state on different threads (src/api.rs)

    [autossh_session_stop] and [autossh_session_state] may run at the same
    time on one session.  They share the atomic [pid], the plain field
    [state] and the supervisor process itself, which both may reap.  The
    model interleaves their accesses, system calls included; the kernel's
    side is the supervisor: alive, a zombie, or reaped. *)

From stdpp Require Import base option list functions.
From stdpp Require Import gmap strings.
From S2P Require Import Prelude Machine Trace MainLogic Api.

Inductive process := Alive | Zombie | Reaped.

#[global] Instance process_eq_dec : EqDecision process.
Proof. solve_decision. Defined.

(** Where a thread is; [p] is the pid it works on, [n] the polls left. *)
Inductive point :=
| Idle
| StopSwap
| StopTerm (p : Z)
| StopPoll (p : Z) (n : nat)
| StopKill (p : Z)
| StopWait (p : Z)
| StopMark
| StateLoad
| StateReap (p : Z)
| StateClear (p : Z)
| StateMark
| StateRead.

#[global] Instance point_eq_dec : EqDecision point.
Proof. solve_decision. Defined.

Record race := Race {
  r_pid : Z;
  r_state : Z;
  supervisor : process;
  points : nat -> point;
  sent : list (Z * Z * process)
}.

Definition at_point (t : nat) (x : point) (s : race) : race :=
  Race (r_pid s) (r_state s) (supervisor s) (<[t := x]> (points s)) (sent s).
Definition with_pid (p : Z) (s : race) : race := Race p (r_state s) (supervisor s) (points s) (sent s).
Definition with_state (x : Z) (s : race) : race := Race (r_pid s) x (supervisor s) (points s) (sent s).
Definition with_process (x : process) (s : race) : race := Race (r_pid s) (r_state s) x (points s) (sent s).

(** [kill_pid]: the signal is recorded with the state of the process it
    meets; SIGKILL ends a process that is alive. *)
Definition send (p sig : Z) (s : race) : race :=
  if p <=? 0 then s
  else Race (r_pid s) (r_state s)
         (if (sig =? SIGKILL) && bool_decide (supervisor s = Alive) then Zombie else supervisor s)
         (points s) ((p, sig, supervisor s) :: sent s).

Definition reap (s : race) : race := with_process Reaped s.

(** The next access of a thread; [None] when it is idle or blocked. *)
Definition go (t : nat) (s : race) : option race :=
  match points s t with
  | Idle => None
  | StopSwap =>
      let p := r_pid s in
      Some (at_point t (if p <=? 0 then StopMark else StopTerm p) (with_pid 0 s))
  | StopTerm p => Some (at_point t (StopPoll p 50) (send p SIGTERM s))
  | StopPoll p O => Some (at_point t (StopKill p) s)
  | StopPoll p (S n) =>
      match supervisor s with
      | Alive => Some (at_point t (StopPoll p n) s)
      | Zombie => Some (at_point t StopMark (reap s))
      | Reaped => Some (at_point t StopMark s)
      end
  | StopKill p => Some (at_point t (StopWait p) (send p SIGKILL s))
  | StopWait p =>
      match supervisor s with
      | Alive => None
      | _ => Some (at_point t StopMark (reap s))
      end
  | StopMark => Some (at_point t Idle (with_state AUTOSSH_STATE_STOPPED s))
  | StateLoad => Some (at_point t (if 0 <? r_pid s then StateReap (r_pid s) else StateRead) s)
  | StateReap p =>
      match supervisor s with
      | Zombie => Some (at_point t (StateClear p) (reap s))
      | _ => Some (at_point t StateRead s)
      end
  | StateClear p => Some (at_point t StateMark (if r_pid s =? p then with_pid 0 s else s))
  | StateMark => Some (at_point t StateRead (with_state AUTOSSH_STATE_EXITED s))
  | StateRead => Some (at_point t Idle s)
  end.

(** A thread calls one of the two, goes on, or the supervisor exits. *)
Inductive move := CallStop (t : nat) | CallState (t : nat) | Go (t : nat) | Exits.

Definition move_step (m : move) (s : race) : option race :=
  match m with
  | CallStop t => if decide (points s t = Idle) then Some (at_point t StopSwap s) else None
  | CallState t => if decide (points s t = Idle) then Some (at_point t StateLoad s) else None
  | Go t => go t s
  | Exits => if decide (supervisor s = Alive) then Some (with_process Zombie s) else None
  end.

(** A running session with supervisor [p]. *)
Definition running (p : Z) : race := Race p AUTOSSH_STATE_RUNNING Alive (fun _ => Idle) [].

Inductive moves (s : race) : race -> Prop :=
| moves_refl : moves s s
| moves_step m s1 s2 : moves s s1 -> move_step m s1 = Some s2 -> moves s s2.

Fixpoint play (l : list move) (s : race) : option race :=
  match l with
  | [] => Some s
  | m :: r => s' ← move_step m s; play r s'
  end.

(** ** The pid has one owner *)

(** The pid a point carries, and the signals the stop at that point has
    sent (latest first) if it owns the pid. *)
Definition carries (x : point) : option Z :=
  match x with
  | StopTerm p | StopPoll p _ | StopKill p | StopWait p | StateReap p | StateClear p => Some p
  | _ => None
  end.

Definition owner_sent (x : point) : option (list Z) :=
  match x with
  | StopTerm _ => Some []
  | StopPoll _ _ | StopKill _ => Some [SIGTERM]
  | StopWait _ => Some [SIGKILL; SIGTERM]
  | _ => None
  end.

Definition signals (p : Z) (s : race) (sigs : list Z) : Prop := map fst (sent s) = map (fun g => (p, g)) sigs.

Record one_owner (p : Z) (s : race) (sigs : list Z) : Prop := OneOwner {
  oo_pid : r_pid s = p \/ r_pid s = 0;
  oo_carries : forall t q, carries (points s t) = Some q -> q = p;
  oo_sent : signals p s sigs;
  oo_sigs : sigs = [] \/ sigs = [SIGTERM] \/ sigs = [SIGKILL; SIGTERM];
  oo_free : r_pid s = p -> sigs = [] /\ forall t, owner_sent (points s t) = None;
  oo_owner : forall t l, owner_sent (points s t) = Some l ->
    l = sigs /\ forall u, u <> t -> owner_sent (points s u) = None
}.

Section OneOwnerFacts.
Context (p : Z) (Hp : 0 < p).

(** A thread that does not own the pid moves to a point that does not. *)
Lemma one_owner_other s s' sigs t x :
  one_owner p s sigs -> points s' = <[t := x]> (points s) -> sent s' = sent s ->
  (r_pid s' = r_pid s \/ r_pid s' = 0) -> (forall q, carries x = Some q -> q = p) -> owner_sent x = None ->
  one_owner p s' sigs.
Proof using Hp.
  intros I Hx Hs Hq Hc Ho.
  assert (forall u, owner_sent (points s' u) = if decide (u = t) then None else owner_sent (points s u)) as Eo.
  { intros u. rewrite Hx. destruct (decide (u = t)) as [->|N]; [by rewrite fn_lookup_insert|].
    by rewrite fn_lookup_insert_ne. }
  destruct I as [Ip Ic Is Ig If Io]. split; auto.
  - destruct Hq as [->| ->]; auto.
  - intros u q. rewrite Hx. destruct (decide (u = t)) as [->|N].
    + rewrite fn_lookup_insert. auto.
    + rewrite fn_lookup_insert_ne by done. apply Ic.
  - unfold signals. by rewrite Hs.
  - intros E. destruct Hq as [Hq|Hq]; [|lia]. rewrite Hq in E. destruct (If E) as [-> F]. split; [done|].
    intros u. rewrite Eo. by case_decide.
  - intros u l. rewrite Eo. case_decide; [done|]. intros E. destruct (Io u l E) as [-> F]. split; [done|].
    intros v N. rewrite Eo. case_decide; auto.
Qed.

(** The owner moves on. *)
Lemma one_owner_self s s' sigs sigs' t x :
  one_owner p s sigs -> points s' = <[t := x]> (points s) -> r_pid s' = 0 ->
  (forall u, u <> t -> owner_sent (points s u) = None) ->
  signals p s' sigs' -> carries x = Some p -> owner_sent x = Some sigs' ->
  sigs' = [] \/ sigs' = [SIGTERM] \/ sigs' = [SIGKILL; SIGTERM] ->
  one_owner p s' sigs'.
Proof using Hp.
  intros I Hx Hq Hu Hs Hc Ho Hg.
  assert (forall u, u <> t -> owner_sent (points s' u) = None) as Eo.
  { intros u N. rewrite Hx, fn_lookup_insert_ne by done. auto. }
  assert (points s' t = x) as Ex by (by rewrite Hx, fn_lookup_insert).
  split; auto.
  - intros u q. destruct (decide (u = t)) as [->|N]; [rewrite Ex, Hc; congruence|].
    rewrite Hx, fn_lookup_insert_ne by done. apply I.
  - lia.
  - intros u l. destruct (decide (u = t)) as [->|N]; [|by rewrite Eo by done].
    rewrite Ex, Ho. intros [= ->]. auto.
Qed.

Lemma go_owner t s s' sigs : one_owner p s sigs -> go t s = Some s' -> exists sigs', one_owner p s' sigs'.
Proof using Hp.
  intros I E. pose proof (oo_carries _ _ _ I t) as Ic. pose proof (oo_owner _ _ _ I t) as Io.
  assert (forall l, owner_sent (points s t) = Some l -> r_pid s = 0) as Z0.
  { intros l El. destruct (oo_pid _ _ _ I) as [Ep|]; [|done]. destruct (oo_free _ _ _ I Ep) as [_ F].
    by rewrite F in El. }
  unfold go in E. destruct (points s t) as [| |q|q n|q|q| | |q|q| |] eqn:Pt; try done.
  - injection E as <-. destruct (oo_pid _ _ _ I) as [Ep|Ep]; rewrite Ep.
    + replace (p <=? 0) with false by lia. exists []. destruct (oo_free _ _ _ I Ep) as [-> F].
      eapply one_owner_self; eauto; try done. apply I.
    + exists sigs. eapply one_owner_other; eauto; done.
  - injection E as <-. rewrite (Ic q eq_refl) in *. destruct (Io _ eq_refl) as [<- F].
    exists [SIGTERM]. unfold send. replace (p <=? 0) with false by lia.
    pose proof (Z0 _ eq_refl) as Ez. eapply one_owner_self; eauto; try done. unfold signals. simpl. f_equal. apply I.
  - rewrite (Ic q eq_refl) in *. destruct (Io _ eq_refl) as [<- F]. pose proof (Z0 _ eq_refl) as Ez.
    destruct n as [|n]; [injection E as <-; exists [SIGTERM]; eapply one_owner_self; eauto; apply I|].
    destruct (supervisor s); injection E as <-; exists [SIGTERM].
    + eapply one_owner_self; eauto; apply I.
    + eapply one_owner_other; eauto; done.
    + eapply one_owner_other; eauto; done.
  - injection E as <-. rewrite (Ic q eq_refl) in *. destruct (Io _ eq_refl) as [<- F].
    exists [SIGKILL; SIGTERM]. unfold send. replace (p <=? 0) with false by lia.
    pose proof (Z0 _ eq_refl) as Ez. eapply one_owner_self; eauto; try done. unfold signals. simpl. f_equal. apply I.
  - exists sigs. destruct (supervisor s); simplify_eq; eapply one_owner_other; eauto; done.
  - injection E as <-. exists sigs. eapply one_owner_other; eauto; done.
  - injection E as <-. exists sigs. eapply one_owner_other; eauto.
    + intros q. destruct (0 <? r_pid s) eqn:P; simpl; [|done]. intros [= <-]. zify_bool.
      destruct (oo_pid _ _ _ I); [done|lia].
    + by destruct (0 <? r_pid s).
  - exists sigs. destruct (supervisor s); simplify_eq; eapply one_owner_other; eauto; done.
  - injection E as <-. exists sigs. destruct (r_pid s =? q); eapply one_owner_other; eauto; done.
  - injection E as <-. exists sigs. eapply one_owner_other; eauto; done.
  - injection E as <-. exists sigs. eapply one_owner_other; eauto; done.
Qed.

Lemma moves_owner s : moves (running p) s -> exists sigs, one_owner p s sigs.
Proof using Hp.
  intros M. induction M as [|m s1 s2 M [sigs I] E].
  { exists []. split; simpl; auto; done. }
  destruct m as [t|t|t|]; simpl in E.
  - case_decide; [|done]. injection E as <-. exists sigs. eapply one_owner_other; eauto; done.
  - case_decide; [|done]. injection E as <-. exists sigs. eapply one_owner_other; eauto; done.
  - by eapply go_owner.
  - case_decide; [|done]. injection E as <-. exists sigs. by destruct I.
Qed.

End OneOwnerFacts.

(** ** Properties *)

(** C27: However stops and state polls interleave on a session, all
    signals go to its supervisor's positive pid, at most one SIGTERM and
    after it one SIGKILL in all, and no two stops work on the pid at the
    same time. *)
Theorem stop_state_one_owner p s :
  0 < p -> moves (running p) s ->
  (map fst (sent s) = [] \/ map fst (sent s) = [(p, SIGTERM)] \/ map fst (sent s) = [(p, SIGKILL); (p, SIGTERM)]) /\
  (forall t u, t <> u -> owner_sent (points s t) <> None -> owner_sent (points s u) = None).
Proof.
  intros Hp M. destruct (moves_owner p Hp s M) as (sigs & [_ _ S G _ O]). split.
  - unfold signals in S. rewrite S. destruct G as [->|[->| ->]]; auto.
  - intros t u N Ht. destruct (owner_sent (points s t)) as [l|] eqn:E; [|done].
    destruct (O t l E) as [_ F]. auto.
Qed.

(** A signal can be sent to a pid that has been reaped already, when
    it may belong to another process: by a stop that takes the pid between
    the reaping and the clearing of a state poll, and by a start whose
    supervisor exits early, with no second thread involved. *)
Theorem reaped_pid_is_signalled :
  match play [Exits; CallState 0; Go 0; Go 0; CallStop 1; Go 1; Go 1] (running 777) with
  | Some s => sent s = [(777, SIGTERM, Reaped)]
  | None => False
  end /\
  let r := @start_session dying_host typical_getopt (Sess tunnel 0 AUTOSSH_STATE_INIT []) (init_world ∅) in
  match fst r with
  | inl (rc, s) => rc = -1 /\ last_error s = lit "autossh supervisor exited early with status 256"
  | inr _ => False
  end /\
  kill_calls (trace (snd r)) = [(777, SIGTERM)] /\ kills_dead (trace (snd r)) = true.
Proof. vm_compute. split_and!; reflexivity. Qed.

(** ** Witnesses *)

Lemma play_moves l s0 s : play l s0 = Some s -> moves s0 s.
Proof.
  revert s. induction l as [|m l IH] using rev_ind; intros s E; [injection E as <-; constructor|].
  assert (forall s1, play (l ++ [m]) s1 = play l s1 ≫= move_step m) as Ea.
  { clear. induction l as [|a l IH]; intros s1; simpl; [by destruct (move_step m s1)|].
    destruct (move_step a s1); simpl; [apply IH|done]. }
  rewrite Ea in E. destruct (play l s0) as [s1|] eqn:E1; [|done]. eapply moves_step; [by apply IH|exact E].
Qed.

(** Two stops and a state poll; the supervisor exits after SIGTERM. *)
Definition closing : list move :=
  [CallStop 1; CallState 0; Go 0; Go 1; CallStop 2; Go 2; Go 1; Exits; Go 1; Go 0; Go 1; Go 2].

Definition closed_race : race := default (running 777) (play closing (running 777)).

Lemma stop_state_one_owner_witness :
  sent closed_race = [(777, SIGTERM, Alive)] /\
  (map fst (sent closed_race) = [] \/ map fst (sent closed_race) = [(777, SIGTERM)] \/
   map fst (sent closed_race) = [(777, SIGKILL); (777, SIGTERM)]) /\
  (forall t u, t <> u -> owner_sent (points closed_race t) <> None -> owner_sent (points closed_race u) = None).
Proof.
  split; [vm_compute; reflexivity|].
  apply (stop_state_one_owner 777 closed_race); [reflexivity|].
  apply (play_moves closing). vm_compute. reflexivity.
Defined.
