(* ===== verification/ApiSim.v ===== *)
(** * Calls from one thread are runs of the interleaved model

    [Api] translates [autossh_session_stop] and [autossh_session_state] of
    src/api.rs as computations of one thread, [ApiRace] as sequences of
    single accesses that threads interleave.  This file connects the two:
    whatever a thread does with the computations, the moves of [ApiRace]
    can do as well, with the same fields, results and signals. *)

From Stdlib Require Import Ascii String.
From stdpp Require Import base option list strings gmap functions.
From S2P Require Import Prelude Machine Signals Trace Log Kill MainLogic Api ApiRace.

(** Whether a wait has reported the end of process [p]. *)
Definition reaped (p : Z) (t : list event) : bool :=
  existsb (fun e => match e with (Sys_waitpid q _, r) => (q =? p) && (r_ret r =? p) | _ => false end) t.

(** waitpid on one's own child, with no handler that interrupts it: until
    the child is reaped a poll answers 0 or its pid and a wait its pid,
    afterwards both fail with ECHILD. *)
Class ChildHost (H : Host) (p : Z) := {
  poll_law : forall h, let r := kernel h (Sys_waitpid p WNOHANG) in
    if reaped p h then r_ret r = -1 /\ r_errno r = ECHILD else r_ret r = 0 \/ r_ret r = p;
  wait_law : forall h, let r := kernel h (Sys_waitpid p 0) in
    if reaped p h then r_ret r = -1 /\ r_errno r = ECHILD else r_ret r = p
}.

Inductive op := DoStop | DoState.

Section Sequence.
Context {H : Host}.

(** One thread's calls on a session. *)
Fixpoint run_ops (l : list op) (s : autossh_session) : M autossh_session :=
  match l with
  | [] => mret s
  | o :: l' =>
      r ← match o with DoStop => stop_session s | DoState => state_session s end;
      run_ops l' r.2
  end.

End Sequence.

(** ** The simulation *)

(** The call a move starts on thread 0, and the moves of that thread and
    the supervisor alone. *)
Definition call_of (m : move) : option op :=
  match m with CallStop O => Some DoStop | CallState O => Some DoState | _ => None end.

Definition of_thread0 (m : move) : bool :=
  match m with CallStop t | CallState t | Go t => (t =? 0)%nat | Exits => true end.

Lemma play_app a b s : play (a ++ b) s = play a s ≫= play b.
Proof. revert s. induction a as [|m a IH]; intros s; simpl; [done|]. destruct (move_step m s); simpl; [apply IH|done]. Qed.

(** Thread 0 has made the calls [did] on a running session, by the moves
    [ms], and is at [x]. *)
Record tracks (p : Z) (k : list (Z * Z)) (did : list op) (x : point) (q st : Z) (ms : list move) (r : race)
    (w : world) : Prop := Tracks {
  tr_moves : play ms (running p) = Some r;
  tr_thread : forallb of_thread0 ms = true;
  tr_calls : omap call_of ms = did;
  tr_point : points r 0%nat = x;
  tr_pid : r_pid r = q;
  tr_state : r_state r = st;
  tr_sup : supervisor r = if reaped p (trace w) then Reaped else Alive;
  tr_sent : kill_calls (trace w) = map fst (sent r) ++ k
}.

Definition follows (p : Z) (k : list (Z * Z)) (did : list op) (x : point) (q st : Z) (w : world) : Prop :=
  exists ms r, tracks p k did x q st ms r w.

Section Simulation.
Context {H : Host} (p : Z) (Hp : 0 < p) {CH : ChildHost H p} (k : list (Z * Z)).

Lemma reaped_cons c r t :
  reaped p ((c, r) :: t) = match c with Sys_waitpid q _ => (q =? p) && (r_ret r =? p) | _ => false end || reaped p t.
Proof using Type. by destruct c. Qed.

(** Moves, while the process makes the calls that go with them. *)
Lemma follows_moves l did x x' q q' st st' w w' :
  forallb of_thread0 l = true -> follows p k did x q st w ->
  (forall ms r, tracks p k did x q st ms r w -> exists r', play l r = Some r' /\ points r' 0%nat = x' /\ r_pid r' = q' /\
     r_state r' = st' /\ supervisor r' = (if reaped p (trace w') then Reaped else Alive) /\
     kill_calls (trace w') = map fst (sent r') ++ k) ->
  follows p k (did ++ omap call_of l) x' q' st' w'.
Proof using Type.
  intros O (ms & r & T) Hm. destruct (Hm ms r T) as (r' & E & P' & Q' & S' & U' & T'). exists (ms ++ l), r'. split; auto.
  - rewrite play_app, (tr_moves _ _ _ _ _ _ _ _ _ T). exact E.
  - by rewrite forallb_app, (tr_thread _ _ _ _ _ _ _ _ _ T), O.
  - by rewrite omap_app, (tr_calls _ _ _ _ _ _ _ _ _ T).
Qed.

(** Moves that start no call. *)
Lemma follows_go l did x x' q q' st st' w w' :
  forallb of_thread0 l = true -> omap call_of l = [] -> follows p k did x q st w ->
  (forall ms r, tracks p k did x q st ms r w -> exists r', play l r = Some r' /\ points r' 0%nat = x' /\ r_pid r' = q' /\
     r_state r' = st' /\ supervisor r' = (if reaped p (trace w') then Reaped else Alive) /\
     kill_calls (trace w') = map fst (sent r') ++ k) ->
  follows p k did x' q' st' w'.
Proof using Type. intros O C F Hm. rewrite <- (app_nil_r did), <- C. by eapply follows_moves. Qed.

(** Compute the moves of thread 0. *)
Ltac compute_moves :=
  repeat (progress (cbn [play move_step mbind option_bind at_point with_pid with_state with_process reap send points r_pid
                         r_state supervisor sent]; unfold go, send, reap;
    repeat match goal with
    | P : points ?r 0%nat = _ |- context [points ?r 0%nat] => rewrite P
    | Q : r_pid ?r = _ |- context [r_pid ?r] => rewrite Q
    | U : supervisor ?r = _ |- context [supervisor ?r] => rewrite U
    | R : reaped p (trace ?w) = _ |- context [reaped p (trace ?w)] => rewrite R
    | |- context [<[?t := _]> _ ?t] => rewrite fn_lookup_insert
    | |- context [p <=? 0] => replace (p <=? 0) with false by lia
    | |- context [0 <? p] => replace (0 <? p) with true by lia
    | |- context [decide (?x = ?x)] => rewrite (decide_True (P := x = x)) by done
    end)).

Ltac moves_to := intros ms r [M Th Ca P Q S U E]; compute_moves; eexists; split; [reflexivity|]; compute_moves.

Lemma term_follows did q st w w' :
  trace w' = (Sys_kill p SIGTERM, answer w (Sys_kill p SIGTERM)) :: trace w ->
  follows p k did (StopTerm p) q st w -> follows p k did (StopPoll p 50) q st w'.
Proof using Hp.
  intros T F. eapply (follows_go [Go 0]); [done|done|exact F|]. rewrite T, reaped_cons, kill_calls_cons.
  moves_to. rewrite E. by destruct (reaped p (trace w)).
Qed.

Lemma poll_follows n did q st w :
  follows p k did (StopPoll p n) q st w ->
  wp (stop_loop n p) (fun g w' => follows p k did (if g then StopMark else StopKill p) q st w')
    (fun s _ => s <> NoFuel /\ s <> OutOfBounds) w.
Proof using Hp CH.
  revert w. induction n as [|n IH]; intros w F; cbn [stop_loop].
  { wp_step. eapply (follows_go [Go 0]); [done|done|exact F|]. by moves_to. }
  wp_step. apply wp_sys; [|intros s w' _ E; by eapply signal_stop]. intros w1 T1 _.
  pose proof (poll_law (trace w)) as L. fold (answer w (Sys_waitpid p WNOHANG)) in L. set (r0 := answer w _) in *.
  assert (reaped p (trace w1) = (r_ret r0 =? p) || reaped p (trace w)) as R1
    by (rewrite T1, reaped_cons; by rewrite Z.eqb_refl).
  assert (kill_calls (trace w1) = kill_calls (trace w)) as K1 by (rewrite T1; by autorewrite with trace).
  destruct (reaped p (trace w)) eqn:R; [destruct L as [La Le]|destruct L as [La|La]].
  - rewrite La, Le. replace (-1 =? p) with false by lia. simpl. wp_step. rewrite orb_true_r in R1.
    eapply (follows_go [Go 0]); [done|done|exact F|]. rewrite R1, K1. by moves_to.
  - rewrite La in R1 |- *. replace (0 =? p) with false in R1 |- * by lia. simpl. wp_step.
    apply wp_sys; [|intros s w' _ E; by eapply signal_stop]. intros w2 T2 _. apply IH.
    eapply (follows_go [Go 0]); [done|done|exact F|]. rewrite T2, reaped_cons, kill_calls_cons, R1, K1. by moves_to.
  - rewrite La, Z.eqb_refl in R1 |- *. simpl. wp_step.
    eapply (follows_go [Exits; Go 0]); [done|done|exact F|]. rewrite R1, K1. by moves_to.
Qed.

Lemma kill_follows did q st w w1 w2 :
  trace w1 = (Sys_kill p SIGKILL, answer w (Sys_kill p SIGKILL)) :: trace w ->
  trace w2 = (Sys_waitpid p 0, answer w1 (Sys_waitpid p 0)) :: trace w1 ->
  follows p k did (StopKill p) q st w -> follows p k did StopMark q st w2.
Proof using Hp CH.
  intros T1 T2 F. pose proof (wait_law (trace w1)) as L. fold (answer w1 (Sys_waitpid p 0)) in L.
  assert (reaped p (trace w2) = true) as R2.
  { rewrite T2, reaped_cons, Z.eqb_refl. destruct (reaped p (trace w1)); [by rewrite orb_true_r|].
    by rewrite L, Z.eqb_refl. }
  eapply (follows_go [Go 0; Go 0]); [done|done|exact F|]. rewrite R2, T2, T1, !kill_calls_cons.
  intros ms r [M Th Ca P Q S U E]. destruct (reaped p (trace w)) eqn:R; compute_moves; (eexists; split; [reflexivity|]);
    compute_moves; by rewrite E.
Qed.

(** One call, from an idle thread to an idle thread. *)
Lemma stop_follows did s w :
  pid s = p \/ pid s = 0 -> follows p k did Idle (pid s) (state s) w ->
  wp (stop_session s)
    (fun r w' => pid r.2 = 0 /\ follows p k (did ++ [DoStop]) Idle (pid r.2) (state r.2) w')
    (fun s _ => s <> NoFuel /\ s <> OutOfBounds) w.
Proof using Hp CH.
  intros Hs F.
  assert (forall did q st w0, follows p k did StopMark q st w0 -> follows p k did Idle q AUTOSSH_STATE_STOPPED w0) as Mark.
  { intros did' q st w0 F0. eapply (follows_go [Go 0]); [done|done|exact F0|]. by moves_to. }
  assert (follows p k (did ++ [DoStop]) (if pid s <=? 0 then StopMark else StopTerm (pid s)) 0 (state s) w) as F1.
  { eapply (follows_moves [CallStop 0; Go 0]); [done|exact F|]. by moves_to. }
  unfold stop_session. destruct Hs as [Ps|Ps]; rewrite Ps in F1 |- *; cycle 1.
  { change (0 <=? 0) with true; cbv iota. wp_step. split; [done|]. by eapply Mark. }
  replace (p <=? 0) with false in F1 |- * by lia. wp_step. apply kill_pid_ok; [done|]. intros _ w1 T1.
  pose proof (term_follows _ _ _ _ _ T1 F1) as F2. wp_step. eapply wp_mono; [by apply poll_follows| |done]. cbv beta.
  intros g w2 F3. wp_step. destruct g; [wp_step; wp_step; split; [done|by eapply Mark]|].
  wp_step. apply kill_pid_ok; [done|]. intros _ w3 T3. wp_step.
  apply wp_sys; [|intros st w' _ E; by eapply signal_stop]. intros w4 T4 _. wp_step. wp_step. split; [done|].
  eapply Mark, kill_follows; eauto.
Qed.

Lemma state_follows did s w :
  pid s = p \/ pid s = 0 -> follows p k did Idle (pid s) (state s) w ->
  wp (state_session s)
    (fun r w' => r.1 = state r.2 /\ (pid r.2 = p \/ pid r.2 = 0) /\ follows p k (did ++ [DoState]) Idle (pid r.2) (state r.2) w')
    (fun s _ => s <> NoFuel /\ s <> OutOfBounds) w.
Proof using Hp CH.
  intros Hs F. unfold state_session. destruct Hs as [Ps|Ps]; rewrite Ps in F |- *; cycle 1.
  { change (0 <? 0) with false; cbv iota. wp_step. split_and!; [done|by right|]. simpl. rewrite Ps.
    eapply (follows_moves [CallState 0; Go 0; Go 0]); [done|exact F|]. by moves_to. }
  replace (0 <? p) with true by lia. cbv iota. wp_step. unfold child_exited. wp_step.
  apply wp_sys; [|intros st w' _ E; by eapply signal_stop]. intros w1 T1 _.
  pose proof (poll_law (trace w)) as L. fold (answer w (Sys_waitpid p WNOHANG)) in L. set (r0 := answer w _) in *.
  assert (reaped p (trace w1) = (r_ret r0 =? p) || reaped p (trace w)) as R1
    by (rewrite T1, reaped_cons; by rewrite Z.eqb_refl).
  assert (kill_calls (trace w1) = kill_calls (trace w)) as K1 by (rewrite T1; by autorewrite with trace).
  assert (r_ret r0 <> p -> follows p k (did ++ [DoState]) Idle p (state s) w1) as Stay.
  { intros N. replace (r_ret r0 =? p) with false in R1 by lia. eapply (follows_moves [CallState 0; Go 0; Go 0; Go 0]); [done|exact F|].
    rewrite R1, K1. intros ms r [M Th Ca P Q S U E]. destruct (reaped p (trace w)) eqn:R; compute_moves;
      (eexists; split; [reflexivity|]); by compute_moves. }
  wp_step. destruct (r_ret r0 =? p) eqn:Er; zify_bool; wp_step; cbn [fst snd].
  - split_and!; [done|by right|]. simpl. destruct (reaped p (trace w)) eqn:R; [destruct L; lia|].
    eapply (follows_moves [Exits; CallState 0; Go 0; Go 0; Go 0; Go 0; Go 0]); [done|exact F|]. rewrite R1, K1. simpl.
    moves_to. by rewrite Z.eqb_refl.
  - split_and!; [done|by left|]. rewrite Ps. by apply Stay.
Qed.

Lemma run_ops_follows did l s w :
  pid s = p \/ pid s = 0 -> follows p k did Idle (pid s) (state s) w ->
  wp (run_ops l s) (fun s' w' => follows p k (did ++ l) Idle (pid s') (state s') w')
    (fun s _ => s <> NoFuel /\ s <> OutOfBounds) w.
Proof using Hp CH.
  revert did s w. induction l as [|[] l IH]; intros did s w Hs F; simpl; [wp_step; by rewrite app_nil_r| |]; wp_step.
  - eapply wp_mono; [by apply (stop_follows did)| |done]. cbv beta. intros r w1 [Z1 F1].
    rewrite cons_middle, app_assoc. apply IH; auto.
  - eapply wp_mono; [by apply (state_follows did)| |done]. cbv beta. intros r w1 (_ & H1 & F1).
    rewrite cons_middle, app_assoc. by apply IH.
Qed.

End Simulation.

(** ** Property *)

(** C26: The interleaved model contains every sequential run.  On a host
    where waitpid behaves as documented for one's own child, let a thread
    make any sequence of stops and state polls on a running session, as the
    computations of [Api] describe them.  Then the accesses of a thread
    that makes just these calls, in this order and with no other thread
    about, form a run of [ApiRace] that ends with the same session, the
    supervisor reaped or not as the waits reported, and the same signals
    sent; in all at most one SIGTERM and after it one SIGKILL, both to the
    supervisor. *)
Theorem sequential_calls_are_moves {H : Host} p c e l w :
  0 < p -> ChildHost H p -> reaped p (trace w) = false ->
  wp (run_ops l (Sess c p AUTOSSH_STATE_RUNNING e))
    (fun s w' => exists ms r, play ms (running p) = Some r /\
       forallb of_thread0 ms = true /\ omap call_of ms = l /\
       points r 0%nat = Idle /\ r_pid r = pid s /\ r_state r = state s /\
       supervisor r = (if reaped p (trace w') then Reaped else Alive) /\
       kill_calls (trace w') = map fst (sent r) ++ kill_calls (trace w) /\
       In (map fst (sent r)) [[]; [(p, SIGTERM)]; [(p, SIGKILL); (p, SIGTERM)]])
    (fun s _ => s <> NoFuel /\ s <> OutOfBounds) w.
Proof.
  intros Hp CH R.
  eapply wp_mono; [apply (run_ops_follows p Hp (kill_calls (trace w)) [] l (Sess c p AUTOSSH_STATE_RUNNING e)); [by left|]| |done].
  - exists [], (running p). split; try done. by rewrite R.
  - cbv beta. intros s w' (ms & r & [M Th Ca P Q S U E]). exists ms, r. split_and!; auto.
    destruct (moves_owner p Hp r (play_moves _ _ _ M)) as (sigs & O). pose proof (oo_sent _ _ _ O) as Es.
    unfold signals in Es. rewrite Es. destruct (oo_sigs _ _ _ O) as [->|[->| ->]]; simpl; auto.
Qed.

(** ** Witness *)

(** A supervisor that ignores SIGTERM. *)
Definition deaf_host : Host := {|
  kernel h c := match c with
                | Sys_waitpid p o =>
                    if reaped p h then err_reply ECHILD else if o =? WNOHANG then ok_reply else ret_reply p
                | _ => ok_reply
                end;
  strerror _ := None;
  gai_strerror _ := None;
  SO_BYTES := lit "ELF";
  fuel := 9
|}.

Lemma deaf_child p : ChildHost deaf_host p.
Proof. split; intros h; simpl; destruct (reaped p h); simpl; auto. Qed.

Lemma sequential_calls_are_moves_witness :
  let s := Sess tunnel 777 AUTOSSH_STATE_RUNNING [] in
  let r := @run_ops deaf_host [DoState; DoStop; DoState; DoStop] s (init_world ∅) in
  fst r = inl (Sess tunnel 0 AUTOSSH_STATE_STOPPED []) /\
  kill_calls (trace (snd r)) = [(777, SIGKILL); (777, SIGTERM)] /\
  wp (@run_ops deaf_host [DoState; DoStop; DoState; DoStop] s)
    (fun s w' => exists ms r, play ms (running 777) = Some r /\
       forallb of_thread0 ms = true /\ omap call_of ms = [DoState; DoStop; DoState; DoStop] /\
       points r 0%nat = Idle /\ r_pid r = pid s /\ r_state r = state s /\
       supervisor r = (if reaped 777 (trace w') then Reaped else Alive) /\
       kill_calls (trace w') = map fst (sent r) ++ [] /\
       In (map fst (sent r)) [[]; [(777, SIGTERM)]; [(777, SIGKILL); (777, SIGTERM)]])
    (fun s _ => s <> NoFuel /\ s <> OutOfBounds) (init_world ∅).
Proof.
  split; [vm_compute; reflexivity|]. split; [vm_compute; reflexivity|].
  apply (@sequential_calls_are_moves deaf_host 777 tunnel [] [DoState; DoStop; DoState; DoStop] (init_world ∅));
    [reflexivity|apply deaf_child|reflexivity].
Defined.
