(* ===== verification/ApiTests.v ===== *)
(** * The unit tests of src/api.rs, on the model

    Each [#\[test\]] function is translated to the value of its assertions
    on the definitions of [Api] and [ApiRace]; the lemmas show that they
    hold, the one about racing threads for every interleaving. *)

From Stdlib Require Import Ascii String SpecFloat.
From stdpp Require Import base option list strings gmap functions.
From S2P Require Import Prelude Machine Signals Trace Log Kill MainLogic Double Api ApiRace.

Definition cstr (s : string) : bytes := lit s.

Definition is_err {A} (r : res A) : bool := match r with Err _ => true | Ok _ => false end.
Definition is_null {A} (p : option A) : bool := match p with None => true | Some _ => false end.

(** A pointer that is not NULL, and 1234.0. *)
Definition dangling {A} (a : A) : option A := Some a.
Definition f1234 : spec_float := S754_finite false 5427089557028864 (-42).

Section Tests.
Context {H : Host}.

(** The four calls of the test and its assertions; [id] is
    [std::process::id()]. *)
Definition kill_pid_refuses_groups_and_zero (id : Z) : M bool :=
  a ← kill_pid 0 SIGKILL;
  b ← kill_pid (-1) SIGKILL;
  c ← kill_pid (- id) SIGKILL;
  d ← kill_pid id 0;
  mret (negb a && negb b && negb c && d).

End Tests.

Definition config_init_sets_abi_defaults : bool :=
  let cfg := Config 123 (dangling []) (dangling []) (dangling []) 1234 (dangling []) 1234 (dangling []) 1234 1234
               1234 1234 f1234 1234 f1234 1234 (dangling []) 1234 in
  match autossh_session_config_init (Some cfg) with
  | None => false
  | Some cfg =>
      (struct_size cfg =? SIZE_OF_CONFIG) && is_null (c_ssh_path cfg) && is_null (c_ssh_destination cfg) &&
      is_null (c_target_host cfg) && (c_target_port cfg =? DEFAULT_TARGET_PORT) && is_null (c_bind_host cfg) &&
      (c_local_port cfg =? 0) && is_null (c_monitor_host cfg) && (c_monitor_port cfg =? 0) && (c_flags cfg =? 0) &&
      (c_max_start cfg =? -1) && (c_start_timeout_ms cfg =? DEFAULT_START_TIMEOUT_MS)
  end.

Definition parse_config_requires_destination_and_target : bool :=
  let target := cstr "127.0.0.1" in
  let cfg := Config SIZE_OF_CONFIG None None (Some target) 22 None 0 None 0 0 0 0 (S754_zero false) (-1)
               (S754_zero false) 0 None 0 in
  let destination := cstr "jump" in
  let cfg' := Config SIZE_OF_CONFIG None (Some destination) None 22 None 0 None 0 0 0 0 (S754_zero false) (-1)
                (S754_zero false) 0 None 0 in
  is_err (parse_config (Some cfg)) && is_err (parse_config (Some cfg')).

Definition parse_config_applies_defaults_and_extra_args : bool :=
  let extra := [Some (cstr "-F"); Some (cstr "/tmp/ssh_config")] in
  let cfg := Config SIZE_OF_CONFIG None (Some (cstr "jump")) (Some (cstr "final")) 0 None 0 (Some (cstr "172.17.0.1")) 0
               AUTOSSH_SESSION_MONITOR_DISABLED 0 0 (S754_zero false) (-1) (S754_zero false) 0
               (Some extra) (List.length extra) in
  match parse_config (Some cfg) with
  | Err _ => false
  | Ok parsed =>
      (s_target_port parsed =? DEFAULT_TARGET_PORT) &&
      bool_decide (s_bind_host parsed = DEFAULT_BIND_HOST) &&
      (s_start_timeout_ms parsed =? DEFAULT_START_TIMEOUT_MS) &&
      bool_decide (s_monitor_host parsed = Some (cstr "172.17.0.1")) &&
      s_monitor_disabled parsed && (List.length (s_extra_ssh_args parsed) =? 2)%nat
  end.

Definition build_child_argv_uses_local_forward_contract : bool :=
  let config := Session None (cstr "jump") (cstr "final.internal") 22 (cstr "127.0.0.1") 43000
                  (Some (cstr "172.17.0.1")) 0 true 0 0 (S754_zero false) (-1) (S754_zero false) 1
                  [cstr "-F"; cstr "/tmp/ssh_config"] in
  match build_child_argv config with
  | Err _ => false
  | Ok argv => bool_decide (argv = map cstr ["autossh"; "-M"; "0"; "-N"; "-o"; "ExitOnForwardFailure=yes"; "-L";
                                             "127.0.0.1:43000:final.internal:22"; "-F"; "/tmp/ssh_config"; "jump"]%string)
  end.

(** The race: thread 0 polls the state 200 times, thread 1 stops once, and
    the child exits by itself.  [sched] is the order in which the threads
    and the child get their turns; a thread that is done or blocked skips
    its turn. *)
Inductive turn := Poller | Stopper | Child.

Record test_run := TestRun { polls_left : nat; stop_called : bool; session : race }.

Definition take_turn (t : turn) (r : test_run) : test_run :=
  let s := session r in
  match t with
  | Child => match move_step Exits s with Some s' => TestRun (polls_left r) (stop_called r) s' | None => r end
  | Poller =>
      match polls_left r, points s 0%nat with
      | S n, Idle => match move_step (CallState 0) s with Some s' => TestRun n (stop_called r) s' | None => r end
      | _, _ => match move_step (Go 0) s with Some s' => TestRun (polls_left r) (stop_called r) s' | None => r end
      end
  | Stopper =>
      if stop_called r
      then match move_step (Go 1) s with Some s' => TestRun (polls_left r) true s' | None => r end
      else match move_step (CallStop 1) s with Some s' => TestRun (polls_left r) true s' | None => r end
  end.

Definition concurrent_stop_and_state_never_kill_pid_zero (p : Z) (sched : list turn) : test_run :=
  fold_left (fun r t => take_turn t r) sched (TestRun 200 false (running p)).

(** Both threads have been joined. *)
Definition joined (r : test_run) : bool :=
  (polls_left r =? 0)%nat && stop_called r && bool_decide (points (session r) 0%nat = Idle) &&
  bool_decide (points (session r) 1%nat = Idle).

(** ** The tests pass *)

Lemma sequential_tests_pass :
  config_init_sets_abi_defaults && parse_config_requires_destination_and_target &&
  parse_config_applies_defaults_and_extra_args && build_child_argv_uses_local_forward_contract = true.
Proof. vm_compute. reflexivity. Qed.

(** Only the liveness probe reaches the kernel. *)
Lemma kill_pid_test_passes {H : Host} id w :
  0 < id -> r_ret (answer w (Sys_kill id 0)) = 0 ->
  wp (kill_pid_refuses_groups_and_zero id)
    (fun ok w' => ok = true /\ kill_calls (trace w') = (id, 0) :: kill_calls (trace w)) (fun _ _ => True) w.
Proof.
  intros Hp Hk. unfold kill_pid_refuses_groups_and_zero, kill_pid.
  replace (- id <=? 0) with true by lia. replace (id <=? 0) with false by lia. simpl.
  do 8 wp_step. apply wp_sys; [|done]. intros w1 T1 E1. do 2 wp_step. rewrite Hk, T1. by autorewrite with trace.
Qed.

(** A move touches its own thread only, and the pid is never set again. *)
Lemma go_frame t s s' :
  go t s = Some s' ->
  (r_pid s' = r_pid s \/ r_pid s' = 0) /\ (points s t = StopSwap -> r_pid s' = 0) /\
  points s' t <> StopSwap /\ forall u, u <> t -> points s' u = points s u.
Proof.
  intros E. unfold go, send in E.
  destruct (points s t) as [| |q|q [|n]|q|q| | |q|q| |]; repeat case_match; simplify_eq/=;
    rewrite fn_lookup_insert; split_and!; auto; try done;
    intros u N; by rewrite fn_lookup_insert_ne.
Qed.

(** The run so far: moves of the session, and the pid belongs to the stop
    from its swap on. *)
Record test_inv (p : Z) (r : test_run) : Prop := TestInv {
  ti_moves : moves (running p) (session r);
  ti_before : stop_called r = false -> points (session r) 1%nat = Idle;
  ti_after : stop_called r = true -> r_pid (session r) = 0 \/ points (session r) 1%nat = StopSwap
}.

Lemma take_turn_inv p t r : test_inv p r -> test_inv p (take_turn t r).
Proof.
  intros I. pose proof I as [Im Ib Ia].
  assert (forall n c m s', move_step m (session r) = Some s' -> points s' 1%nat = points (session r) 1%nat ->
            r_pid s' = r_pid (session r) \/ r_pid s' = 0 -> c = stop_called r -> test_inv p (TestRun n c s')) as Other.
  { intros n c m s' E Ep Er ->. split; simpl; rewrite ?Ep; [by eapply moves_step|done|].
    intros C. destruct (Ia C), Er; auto; left; congruence. }
  unfold take_turn. destruct t.
  - assert (forall n, match move_step (Go 0) (session r) with
                      | Some s' => test_inv p (TestRun n (stop_called r) s') | None => True end) as G.
    { intros n. destruct (move_step (Go 0) (session r)) as [s'|] eqn:E; [|done].
      destruct (go_frame _ _ _ E) as (Er & _ & _ & Eo). eapply (Other _ _ (Go 0)); eauto. }
    specialize (G (polls_left r)).
    destruct (polls_left r) as [|n], (points (session r) 0%nat) eqn:P0;
      try (by destruct (move_step (Go 0) (session r))).
    simpl. rewrite P0. rewrite decide_True by done. eapply (Other _ _ (CallState 0)); simpl; auto.
    by rewrite P0, decide_True.
  - destruct (stop_called r) eqn:C; simpl.
    + destruct (go 1 (session r)) as [s'|] eqn:E; [|done].
      destruct (go_frame _ _ _ E) as (Er & Es & _ & _). split; simpl; [by eapply (moves_step _ (Go 1))|done|].
      intros _. destruct (Ia eq_refl) as [Z0|S]; [destruct Er; left; congruence|auto].
    + rewrite (Ib eq_refl), decide_True by done. split; simpl; [|done|].
      * eapply (moves_step _ (CallStop 1)); [exact Im|]. simpl. by rewrite (Ib eq_refl), decide_True.
      * right. by rewrite fn_lookup_insert.
  - destruct (move_step Exits (session r)) as [s'|] eqn:E; [|done]. eapply (Other _ _ Exits); eauto;
      simpl in E; case_decide; simplify_eq/=; auto.
Qed.

Lemma test_inv_run p sched : test_inv p (concurrent_stop_and_state_never_kill_pid_zero p sched).
Proof.
  unfold concurrent_stop_and_state_never_kill_pid_zero.
  assert (test_inv p (TestRun 200 false (running p))) as I by (split; [constructor|done|done]).
  revert I. generalize (TestRun 200 false (running p)). induction sched as [|t l IH]; intros r I; simpl; [done|].
  by apply IH, take_turn_inv.
Qed.

(** The racing test passes under every schedule: once both threads are
    joined the pid is 0, and at no time has anything been signalled but the
    child's own pid. *)
Lemma racing_test_passes p sched :
  0 < p ->
  let r := concurrent_stop_and_state_never_kill_pid_zero p sched in
  Forall (fun x => x = p) (map (fun x => fst (fst x)) (sent (session r))) /\
  (joined r = true -> r_pid (session r) = 0).
Proof.
  intros Hp r. destruct (test_inv_run p sched) as [Im Ib Ia]. fold r in Im, Ib, Ia. split.
  - destruct (moves_owner p Hp _ Im) as (sigs & O). pose proof (oo_sent _ _ _ O) as S. unfold signals in S.
    rewrite <- (map_map fst fst), S, map_map. apply Forall_map, Forall_true. done.
  - unfold joined. intros [[[_ C]%andb_true_iff _]%andb_true_iff P%bool_decide_eq_true]%andb_true_iff.
    destruct (Ia C) as [|S]; [done|congruence].
Qed.

(** A schedule under which both threads finish: the child exits first. *)
Example racing_test_runs :
  let r := concurrent_stop_and_state_never_kill_pid_zero 777
             (Child :: List.repeat Stopper 6 ++ List.repeat Poller 800) in
  joined r = true /\ map fst (sent (session r)) = [(777, SIGTERM)].
Proof. vm_compute. split; reflexivity. Qed.
